(* ===== verification/_CoqProject ===== *)
-Q . S2P
Prelude.v
CommonData.v
RLP.v
RLPTheory.v
FixedHash.v
TrieCommon.v
Trie.v
TrieHash.v
TrieHashTheory.v
MemoryDB.v
TrieDB.v
TrieDBTheory.v
TrieDBInsert.v
TrieDBRemove.v
Instruction.v
ExtVMFace.v
VM.v
VMTheory.v
Account.v
State.v
Transaction.v
StateTheory.v
CommitTheory.v
Executive.v
ExecutiveTheory.v
BlockHeader.v
Elhash.v
HeaderTheory.v
ElhashTheory.v
TransactionQueue.v
TransactionQueueTheory.v
TransactionQueueSafety.v
BlockQueue.v
BlockQueueTheory.v
BlockQueueSafety.v
BlockDetails.v
BlockDetailsTheory.v
BlockChain.v
ChainOps.v
Block.v
ChainImport.v
ChainDBTheory.v
TreeRouteTheory.v
BloomTheory.v
BlockTheory.v
ChainBatchTheory.v
ChainImportTheory.v
ChainSafety.v
LogFilter.v
LogFilterTheory.v
