(* ===== verification/Prelude.v ===== *)
(** * The Elementrem client: a verification development

    The program is the node of the Elementrem network, a C++ client of the
    Ethereum family.  Its core, and what this library models of it:

    - [libweb3core/libdevcore]: byte strings, hexadecimal, big-endian integers,
      fixed-size hashes, the RLP serialisation, the node databases and the
      Merkle-Patricia trie;
    - [libelementrem/libevmcore] and [libelementrem/libevm]: the instruction set,
      the gas schedule and the virtual machine;
    - [libelementrem/libelecore] and [libelementrem/libelhashseal]: transactions,
      block headers, chain parameters and the proof-of-work rules;
    - [libelementrem/libelementrem]: accounts, the world state, the execution of
      transactions and blocks, the queues of transactions and blocks, and the chain.

    A transaction enters as RLP ([Transaction]) and waits in the
    [TransactionQueue]; a block waits in the [BlockQueue] until it is verified and
    its parent is known.  [BlockChain.sync] drains the queue and imports: the block
    is verified against its parent ([BlockHeader], [Elhash]), a [Block] executes its
    transactions, each by an [Executive] against a [State], and the chain stores the
    block with its records and moves its head.  The executive gives the virtual
    machine an [ExtVM], through which the machine reads and changes the state and
    starts nested executives.  The state keeps changed accounts in a cache and
    writes them to a trie in [commit]; the trie keeps its nodes in an [OverlayDB].

    ** Files and sources

    Basics (libdevcore):
    - [Prelude]: errors as [result], machine widths ([u8] .. [u256] are [wrap w]),
      bytes as integers with [wf_bytes], big-endian values, shared tactics.
    - [CommonData]: CommonData.{h,cpp}, Common.h.
    - [RLP], [RLPTheory]: RLP.{h,cpp} over vector_ref.h: the reader with its
      strictness flags, iteration and index cache, the writer with its stack of open
      lists.  The specification is the tree type [item] and [encode].
    - [FixedHash]: FixedHash.h (a hash is a list of bytes of its length).

    Tries (libdevcore):
    - [TrieCommon]: TrieCommon.{h,cpp}, nibbles and hex-prefix paths.
    - [Trie]: no source; tries by their definition, the specification of the two
      implementations.
    - [TrieHash], [TrieHashTheory]: TrieHash.{h,cpp}, the root of a whole map.
    - [MemoryDB]: MemoryDB.{h,cpp}, OverlayDB.{h,cpp}.
    - [TrieDB], [TrieDBTheory], [TrieDBInsert], [TrieDBRemove]: TrieDB.h over any
      database of the class [NodeDB]: lookup, insertion and removal.

    Execution (libevmcore, libevm, libelementrem):
    - [Instruction]: Instruction.{h,cpp}, EVMSchedule.h.
    - [ExtVMFace]: ExtVMFace.h.  The virtual methods are the class [ExtVMFace]; what
      the machine relies on is the class [ExtVMLaws].
    - [VM], [VMTheory]: VM.{h,cpp}, proved against [ExtVMLaws].
    - [Account], [State], [StateTheory], [CommitTheory]: Account.h, State.{h,cpp}.
      The trie and its database are the class [TrieStore] with the laws of [TrieLaws].
    - [Transaction]: libelecore/Transaction.{h,cpp}, libelementrem/Transaction.{h,cpp},
      TransactionReceipt.{h,cpp}.
    - [Executive], [ExecutiveTheory]: Executive.{h,cpp}, ExtVM.{h,cpp} and
      State::execute.  [extVMLaws] discharges [ExtVMLaws] for the real
      externalities, by induction on the call depth.

    Headers and rules:
    - [BlockHeader], [HeaderTheory]: libelecore/BlockHeader.{h,cpp}.
    - [Elhash], [ElhashTheory]: ChainOperationParams, SealEngine, Elhash.cpp,
      ElhashAux.cpp.

    Queues (libelementrem):
    - [TransactionQueue], [TransactionQueueTheory], [TransactionQueueSafety]:
      TransactionQueue.{h,cpp}; the theory is the refinement to two maps from sender
      and nonce, the safety file has the reachable states and the counterexamples.
    - [BlockQueue], [BlockQueueTheory], [BlockQueueSafety]: BlockQueue.{h,cpp},
      VerifiedBlock.h; a verifier thread is two steps with other operations between.
      The chain is the class [BlockVerifier] there.

    The chain (libelementrem):
    - [BlockDetails], [BlockDetailsTheory]: BlockDetails.{h,cpp}; the class [Extra]
      has the records that the database keeps, [ExtraLaws] their round trip.
    - [BlockChain]: the record of the chain with its databases and caches;
      [ChainOps]: the operations in a monad of state and exceptions ([cm]);
      [ChainImport]: import, insert, sync, opening, closing, rebuild.
      All are BlockChain.{h,cpp}.
    - [Block]: Block.{h,cpp}, execution of a block and building of a new one.
    - [ChainDBTheory]: the caches are transparent; [copies] relates chains that
      differ in cached copies, [reads] and [quiet] specify operations that read.
    - [TreeRouteTheory]: the tree of blocks and [treeRoute].
    - [BloomTheory]: the index of log blooms.
    - [BlockTheory]: verification and execution of a block only read the chain.
    - [ChainBatchTheory], [ChainImportTheory]: what an import writes, and that it
      keeps the consistency [chainOk].
    - [ChainSafety]: opening and reopening, reachable chains, the theorems on imports,
      a worked reorganisation.
    - [LogFilter], [LogFilterTheory]: LogFilter.{h,cpp} and, of ClientBase.{h,cpp}, the
      search for logs and the watches.

    ** What the theorems show

    - Serialisation: reading inverts writing for RLP, integers, hexadecimal,
      transactions, headers, account records and the records about blocks; what the
      strict reader accepts is canonical; iteration and indexing agree and end.
    - The virtual machine never leaves its memory, stack or code, stops before its
      gas runs out, charges every instruction, keeps the program counter at an
      instruction boundary, jumps only to valid destinations, and computes the
      256-bit operations.
    - The state answers queries as the trie overridden by the cache; transfers
      preserve the sum of balances; after [commit] a state opened at the new root
      answers as before.
    - A transaction is rejected by one of the five checks and then changes
      nothing, or runs to the end: no undefined behaviour, no gas from nothing,
      the sum of all balances does not grow, a failed call restores the state.
    - Tries: insertion and removal over the database end and implement update and
      deletion of a map; the root depends on the map alone and is what [hash256]
      computes in one go.
    - Headers: what [verify] accepts, the bounds of the difficulty, that a child
      made from its parent verifies, and which seals pass.
    - The transaction queue implements two maps by sender and nonce with its limits,
      and serves transactions by nonce and gas price.  The block queue keeps its
      stages and sets consistent under any interleaving of its threads, hands out
      parents before children and never a descendant of a bad block.
    - The chain: caches change no answer; [treeRoute] ends at the latest common
      ancestor; the index of blooms misses no block, and the search for logs nothing
      that a filter with one topic for a position asks for; the details are a tree
      that agrees with the headers, the head is heaviest, numbers lead to the
      ancestors of the head, and an import adds its block and moves the head along
      the route that it reports.

    ** Bounds, fuel and hypotheses

    Loops that are not structural have fuel, and theorems show that the chosen fuel
    is enough: the interpreter runs with one step per unit of gas and one more
    ([execImpl]); loops over byte strings with their length; the trie with the length
    of the key ([at_fuel], [merge_fuel]); the meeting of two chains with the smaller
    number and one more; the loops of the block queue with the number of waiting
    blocks.  [rescue] doubles and halves a 32-bit number: 33 rounds.  Calls nest at
    most 1024 deep; [extVM] recurses on the remaining depth.  Transactions carry less
    than 2^45 gas ([gasBound]) where memory sizes must fit 64 bits; blocks in the bloom
    index are below 2^28 ([indexBound]).  A block has less than 2^16 - 1 children.

    Keccak is a parameter [sha3]; theorems assume results of 32 bytes and, where
    distinct hashes are needed, say so: [TrieLaws] gives a budget of insertions
    without collisions, [seenClear] asks that the nodes met have different hashes, and
    a block is imported under a hash under which nothing is stored.  Key recovery, the
    memory-hard hash, and the order of the library's multisets and unordered maps are
    parameters with their documented laws.  Each hypothesis has a concrete instance.

    ** Not modelled

    Threads, locks and timers beyond the steps named above, network and disk input
    and output, user interfaces, mining kernels, and the Solidity compiler kept in the
    same repository; elliptic-curve cryptography, which is third-party code and a
    parameter here; tracing and logging, which only observe.  Of the chain: the files
    and versions of the databases, statistics, and the state of the genesis file.  Of
    blocks: the choice of transactions for a new block, which runs against the clock.  Of the
    client: its thread, which puts changes into the watches. *)

(** * Shared prelude

    The error monad in which fallible C++ code is modelled, machine-width
    wrap-around, bytes, big-endian values, and the generic list and integer
    lemmas and tactics that the component files use. *)

From Stdlib Require Import ZArith Lia.
From stdpp Require Import base list option.

Declare Scope ele_scope.
Delimit Scope ele_scope with ele.
#[global] Open Scope Z_scope.

(** ** Errors

    A C++ expression that may throw is modelled by a value of [result E A]:
    [Ok a] is normal completion and [Throw e] the propagation of [e]. *)

Inductive result (E A : Type) : Type :=
| Ok (a : A)
| Throw (e : E).
Arguments Ok {E A} a.
Arguments Throw {E A} e.

#[export] Instance result_ret {E} : MRet (result E) := fun A a => Ok a.
#[export] Instance result_bind {E} : MBind (result E) :=
  fun A B f m => match m with Ok a => f a | Throw e => Throw e end.
#[export] Instance result_fmap {E} : FMap (result E) :=
  fun A B f m => match m with Ok a => Ok (f a) | Throw e => Throw e end.

(** [if (!c) BOOST_THROW_EXCEPTION(e)] *)
Definition guard_or {E} (c : bool) (e : E) : result E unit :=
  if c then Ok tt else Throw e.

Definition is_Ok {E A} (m : result E A) : Prop := exists a, m = Ok a.

Fixpoint mapR {E A B} (f : A -> result E B) (l : list A) : result E (list B) :=
  match l with
  | [] => Ok []
  | x :: xs => y ← f x; ys ← mapR f xs; Ok (y :: ys)
  end.

Lemma bind_Ok {E A B} (m : result E A) (f : A -> result E B) (b : B) :
  m ≫= f = Ok b <-> exists a, m = Ok a /\ f a = Ok b.
Proof.
  destruct m as [a|e]; simpl; split.
  - intros H. by exists a.
  - intros (a' & Ha & Hf). by injection Ha as ->.
  - discriminate.
  - by intros (a' & Ha & _).
Qed.

Lemma bind_Ok_l {E A B} (a : A) (f : A -> result E B) : (Ok a ≫= f) = f a.
Proof. done. Qed.

Lemma bind_ret {E A} (m : result E A) : (m ≫= fun x => Ok x) = m.
Proof. by destruct m. Qed.

Lemma bind_assoc {E A B C} (m : result E A) (f : A -> result E B) (g : B -> result E C) :
  ((m ≫= f) ≫= g) = (m ≫= fun x => f x ≫= g).
Proof. by destruct m. Qed.

Lemma bind_ext {E A B} (m m' : result E A) (f g : A -> result E B) :
  m = m' -> (forall a, f a = g a) -> (m ≫= f) = (m' ≫= g).
Proof. intros -> Hfg. destruct m'; simpl; [apply Hfg|done]. Qed.

Lemma guard_or_Ok {E} (c : bool) (e : E) (u : unit) :
  guard_or c e = Ok u <-> c = true.
Proof. destruct u, c; simpl; split; congruence. Qed.

Lemma mapR_length {E A B} (f : A -> result E B) l l' :
  mapR f l = Ok l' -> length l' = length l.
Proof.
  revert l'. induction l as [|x xs IH]; intros l' H; simpl in H.
  - by injection H as <-.
  - apply bind_Ok in H as (y & _ & H). apply bind_Ok in H as (ys & Hys & H).
    injection H as <-. simpl. f_equal. by apply IH.
Qed.

Lemma mapR_app {E A B} (f : A -> result E B) l1 l2 :
  mapR f (l1 ++ l2) = (y ← mapR f l1; z ← mapR f l2; Ok (y ++ z)).
Proof.
  induction l1 as [|x xs IH]; simpl.
  - by destruct (mapR f l2).
  - rewrite IH. destruct (f x); simpl; [|done].
    destruct (mapR f xs); simpl; [|done]. by destruct (mapR f l2).
Qed.

(** Turns every [m ≫= f = Ok b] in the context into its components. *)
Ltac inv_ok :=
  repeat match goal with
  | H : (_ ≫= _) = Ok _ |- _ =>
      let a := fresh "a" in let Ha := fresh "Hok" in
      apply bind_Ok in H as (a & Ha & H)
  | H : guard_or _ _ = Ok _ |- _ => apply guard_or_Ok in H
  | H : mret _ = Ok _ |- _ => unfold mret, result_ret in H
  | H : Ok _ = Ok _ |- _ => injection H as H; try subst
  | H : Throw _ = Ok _ |- _ => discriminate H
  | H : Ok _ = Throw _ |- _ => discriminate H
  end.

(** Case analysis on the boolean tests of the code, turned into
    propositions that [lia] understands. *)
Ltac bdestruct_all :=
  repeat match goal with
  | |- context [Z.ltb ?a ?b] => destruct (Z.ltb_spec a b)
  | |- context [Z.leb ?a ?b] => destruct (Z.leb_spec a b)
  | |- context [Z.eqb ?a ?b] => destruct (Z.eqb_spec a b)
  end.

Ltac bdestruct_in H :=
  repeat match type of H with
  | context [Z.ltb ?a ?b] => destruct (Z.ltb_spec a b)
  | context [Z.leb ?a ?b] => destruct (Z.leb_spec a b)
  | context [Z.eqb ?a ?b] => destruct (Z.eqb_spec a b)
  end.

(** Closed decidable goals, by evaluating the decision procedure. *)
Ltac decide_closed := apply (bool_decide_unpack _); vm_compute; exact I.

(** ** Machine integers

    An unsigned [w]-bit value is a [Z] between [0] and [2^w]; conversions and
    arithmetic wrap. *)

Definition wrap (w z : Z) : Z := z mod 2 ^ w.
Definition fits (w z : Z) : Prop := 0 <= z < 2 ^ w.

Abbreviation u8 := (wrap 8).
Abbreviation u32 := (wrap 32).
Abbreviation u64 := (wrap 64).
Abbreviation u160 := (wrap 160).
Abbreviation u256 := (wrap 256).

Lemma wrap_fits w z : 0 <= w -> fits w (wrap w z).
Proof. intros. apply Z.mod_pos_bound. by apply Z.pow_pos_nonneg. Qed.

Lemma wrap_id w z : fits w z -> wrap w z = z.
Proof. intros. by apply Z.mod_small. Qed.

Lemma wrap_wrap w z : 0 <= w -> wrap w (wrap w z) = wrap w z.
Proof. intros. by apply wrap_id, wrap_fits. Qed.

Lemma wrap_wrap_le w w' z : 0 <= w <= w' -> wrap w (wrap w' z) = wrap w z.
Proof.
  intros. unfold wrap. apply Z.mod_mod_divide. exists (2 ^ (w' - w)).
  rewrite <-Z.pow_add_r by lia. f_equal. lia.
Qed.

Lemma wrap_nonneg w z : 0 <= w -> 0 <= wrap w z.
Proof. intros. by apply wrap_fits. Qed.

Lemma wrap_le w z : 0 <= w -> 0 <= z -> wrap w z <= z.
Proof. intros. apply Z.mod_le; [done|]. by apply Z.pow_pos_nonneg. Qed.

Lemma fits_le w w' z : 0 <= w <= w' -> fits w z -> fits w' z.
Proof.
  intros Hw [H0 H1]. split; [done|]. eapply Z.lt_le_trans; [exact H1|].
  apply Z.pow_le_mono_r; lia.
Qed.

#[export] Instance fits_dec w z : Decision (fits w z).
Proof. unfold fits. apply _. Defined.

(** ** Bytes *)

Abbreviation byte := Z.
Abbreviation bytes := (list Z).

Definition is_byte (b : byte) : Prop := 0 <= b < 256.
Definition wf_bytes (l : bytes) : Prop := Forall is_byte l.

#[export] Instance is_byte_dec b : Decision (is_byte b).
Proof. unfold is_byte. apply _. Defined.
#[export] Instance wf_bytes_dec l : Decision (wf_bytes l).
Proof. unfold wf_bytes. apply _. Defined.

Lemma wf_bytes_app l1 l2 : wf_bytes (l1 ++ l2) <-> wf_bytes l1 /\ wf_bytes l2.
Proof. apply Forall_app. Qed.
Lemma wf_bytes_take n l : wf_bytes l -> wf_bytes (take n l).
Proof. apply Forall_take. Qed.
Lemma wf_bytes_drop n l : wf_bytes l -> wf_bytes (drop n l).
Proof. apply Forall_drop. Qed.
Lemma wf_bytes_replicate n b : is_byte b -> wf_bytes (replicate n b).
Proof. intros. by apply Forall_replicate. Qed.
Lemma u8_is_byte z : is_byte (u8 z).
Proof. apply (wrap_fits 8). lia. Qed.

Create HintDb ele.
#[export] Hint Resolve wf_bytes_take wf_bytes_drop wf_bytes_replicate u8_is_byte
  wrap_nonneg wrap_fits : ele.
#[export] Hint Extern 1 (_ <= _) => lia : ele.
#[export] Hint Extern 1 (_ < _) => lia : ele.

(** Length of a byte array as the [size_t] the code compares with. *)
Definition sizeZ {A} (l : list A) : Z := Z.of_nat (length l).

Lemma sizeZ_nonneg {A} (l : list A) : 0 <= sizeZ l.
Proof. unfold sizeZ. lia. Qed.
Lemma sizeZ_app {A} (l1 l2 : list A) : sizeZ (l1 ++ l2) = sizeZ l1 + sizeZ l2.
Proof. unfold sizeZ. rewrite length_app. lia. Qed.
Lemma sizeZ_cons {A} (x : A) l : sizeZ (x :: l) = 1 + sizeZ l.
Proof. unfold sizeZ. simpl. lia. Qed.
Lemma sizeZ_nil {A} : sizeZ ([] : list A) = 0.
Proof. done. Qed.
Lemma sizeZ_drop {A} n (l : list A) :
  sizeZ (drop n l) = Z.max 0 (sizeZ l - Z.of_nat n).
Proof. unfold sizeZ. rewrite length_drop. lia. Qed.
Lemma sizeZ_take {A} n (l : list A) :
  sizeZ (take n l) = Z.min (Z.of_nat n) (sizeZ l).
Proof. unfold sizeZ. rewrite length_take. lia. Qed.
Lemma sizeZ_0 {A} (l : list A) : sizeZ l = 0 <-> l = [].
Proof. unfold sizeZ. destruct l; simpl; split; intros; [done..|lia|done]. Qed.

Lemma take_sizeZ_app {A} (l r : list A) : take (Z.to_nat (sizeZ l)) (l ++ r) = l.
Proof. unfold sizeZ. by rewrite Nat2Z.id, take_app_length. Qed.
Lemma drop_sizeZ_app {A} (l r : list A) : drop (Z.to_nat (sizeZ l)) (l ++ r) = r.
Proof. unfold sizeZ. by rewrite Nat2Z.id, drop_app_length. Qed.

Create Rewrite HintDb sizeZ.
#[export] Hint Rewrite @sizeZ_app @sizeZ_cons @sizeZ_nil @sizeZ_take @sizeZ_drop : sizeZ.

(** ** Big-endian values

    [be_value l] is the number that the byte string [l] denotes; [be_bytes n v]
    are the [n] low-order bytes of [v].  These are the reference definitions
    that the conversion loops of CommonData.h are compared with. *)

Fixpoint be_value (l : bytes) : Z :=
  match l with
  | [] => 0
  | b :: l' => b * 256 ^ sizeZ l' + be_value l'
  end.

Fixpoint be_bytes (n : nat) (v : Z) : bytes :=
  match n with
  | O => []
  | S n' => be_bytes n' (v / 256) ++ [v mod 256]
  end.

Lemma be_value_app l1 l2 :
  be_value (l1 ++ l2) = be_value l1 * 256 ^ sizeZ l2 + be_value l2.
Proof.
  induction l1 as [|b l1 IH]; simpl; [lia|].
  rewrite IH, sizeZ_app, Z.pow_add_r by apply sizeZ_nonneg. lia.
Qed.

Lemma be_value_snoc l b : be_value (l ++ [b]) = be_value l * 256 + b.
Proof. rewrite be_value_app. simpl. unfold sizeZ. simpl. lia. Qed.

Lemma be_value_bounds l : wf_bytes l -> 0 <= be_value l < 256 ^ sizeZ l.
Proof.
  induction l as [|b l IH]; intros H; [unfold sizeZ; simpl; lia|].
  apply Forall_cons_1 in H as [Hb Hl]. specialize (IH Hl). unfold is_byte in Hb.
  simpl be_value. rewrite sizeZ_cons, Z.pow_add_r by (try apply sizeZ_nonneg; lia).
  change (256 ^ 1) with 256.
  assert (b * 256 ^ sizeZ l <= 255 * 256 ^ sizeZ l) by (apply Z.mul_le_mono_nonneg_r; lia).
  lia.
Qed.

Lemma be_bytes_length n v : length (be_bytes n v) = n.
Proof. revert v. induction n; intros; simpl; [done|]. rewrite length_app, IHn. simpl. lia. Qed.

Lemma be_bytes_wf n v : wf_bytes (be_bytes n v).
Proof.
  revert v. induction n; intros; simpl; [constructor|].
  apply wf_bytes_app. split; [apply IHn|]. constructor; [|constructor].
  apply Z.mod_pos_bound. lia.
Qed.

Lemma be_value_be_bytes n v : be_value (be_bytes n v) = v mod 256 ^ Z.of_nat n.
Proof.
  revert v. induction n as [|n IH]; intros v.
  - simpl. by rewrite Z.mod_1_r.
  - cbn [be_bytes]. rewrite be_value_snoc, IH, Nat2Z.inj_succ, Z.pow_succ_r by lia.
    rewrite Z.rem_mul_r by lia. lia.
Qed.

(** A byte string without leading zero is determined by its length and value. *)
Lemma be_bytes_be_value l : wf_bytes l -> be_bytes (length l) (be_value l) = l.
Proof.
  induction l as [|b l IH] using rev_ind; intros H; [done|].
  apply wf_bytes_app in H as [Hl Hb]. apply Forall_inv in Hb. unfold is_byte in Hb.
  rewrite length_app, Nat.add_comm. cbn [be_bytes length Nat.add].
  rewrite be_value_snoc, Z.div_add_l, (Z.div_small b), Z.add_0_r by lia.
  rewrite IH by done. do 2 f_equal.
  rewrite Z.add_comm, Z.mod_add, Z.mod_small by lia. done.
Qed.

Lemma be_value_inj l1 l2 :
  wf_bytes l1 -> wf_bytes l2 -> length l1 = length l2 ->
  be_value l1 = be_value l2 -> l1 = l2.
Proof.
  intros H1 H2 Hl Hv. rewrite <-(be_bytes_be_value l1), <-(be_bytes_be_value l2) by done.
  by rewrite Hl, Hv.
Qed.

Lemma be_bytes_mod n v : be_bytes n (v mod 256 ^ Z.of_nat n) = be_bytes n v.
Proof.
  apply be_value_inj; auto using be_bytes_wf.
  - by rewrite !be_bytes_length.
  - rewrite !be_value_be_bytes, Z.mod_mod; [done|]. apply Z.pow_nonzero; lia.
Qed.

Lemma be_bytes_app n m v :
  be_bytes (n + m) v = be_bytes n (v / 256 ^ Z.of_nat m) ++ be_bytes m v.
Proof.
  revert v. induction m as [|m IH]; intros v.
  - simpl. by rewrite Nat.add_0_r, app_nil_r, Z.div_1_r.
  - rewrite Nat.add_succ_r. cbn [be_bytes]. rewrite IH, app_assoc. do 2 f_equal.
    rewrite Z.div_div, Nat2Z.inj_succ, Z.pow_succ_r by lia. done.
Qed.

Lemma pow256_pow2 n : 0 <= n -> 256 ^ n = 2 ^ (8 * n).
Proof. intros. change 256 with (2 ^ 8). rewrite <-Z.pow_mul_r by lia. done. Qed.

(** [(a << 8) | b] *)
Lemma lor_shiftl_byte a b : is_byte b -> Z.lor (Z.shiftl a 8) b = a * 256 + b.
Proof.
  intros Hb. unfold is_byte in Hb. pose proof (Z.add_lor_land (Z.shiftl a 8) b) as Hadd.
  assert (Z.land (Z.shiftl a 8) b = 0) as Hland;
    [|pose proof (Z.shiftl_mul_pow2 a 8); lia].
  apply Z.bits_inj'. intros n Hn. rewrite Z.land_spec, Z.bits_0.
  destruct (Z.ltb_spec n 8).
  - rewrite Z.shiftl_spec_low by done. done.
  - rewrite (Z.bits_above_log2 b), andb_false_r; [done|lia|].
    destruct (Z.eq_dec b 0) as [->|]; [simpl; lia|].
    apply Z.log2_lt_pow2; [lia|]. apply Z.lt_le_trans with (2 ^ 8); [simpl; lia|].
    apply Z.pow_le_mono_r; lia.
Qed.

Lemma shiftr_8 v : Z.shiftr v 8 = v / 256.
Proof. by rewrite Z.shiftr_div_pow2. Qed.
Lemma land_255 v : Z.land v 255 = v mod 256.
Proof. change 255 with (Z.ones 8). by rewrite Z.land_ones. Qed.
