(* ===== verification/CommonData.v ===== *)
(** * libdevcore/CommonData.{h,cpp} and the integer helpers of Common.h

    Conversions between integers, big-endian byte strings, hexadecimal strings
    and nibbles.  A [std::string] is the list of its character codes.  The
    loops are kept as loops; the theorems relate them to [be_value] and
    [be_bytes] and give the round trips that RLP, the trie and the hashes
    depend on. *)

From Stdlib Require Import ZArith Lia.
From stdpp Require Import base list option.
From S2P Require Import Prelude.

(** ** Big-endian conversions *)

(** [for (auto i = o_out.size(); i != 0; _val >>= 8, i--)] writing from the
    last byte to the first. *)
Fixpoint toBigEndian (n : nat) (val : Z) : bytes :=
  match n with
  | O => []
  | S i => toBigEndian i (Z.shiftr val 8) ++ [Z.land val 255]
  end.

(** [ret = (T)((ret << 8) | i)] for a [w]-bit [T]. *)
Definition fromBigEndian (w : Z) (l : bytes) : Z :=
  fold_left (fun ret i => wrap w (Z.lor (Z.shiftl ret 8) i)) l 0.

(** [Invalid256], [~(u256)0] *)
Definition Invalid256 : Z := 2 ^ 256 - 1.

(** The same loop at [T = bigint]. *)
Definition fromBigEndianBig (l : bytes) : Z :=
  fold_left (fun ret i => Z.lor (Z.shiftl ret 8) i) l 0.

(** [for (; _i != 0; ++i, _i >>= 8) {}], bounded by the bit length. *)
Fixpoint bytesRequired_loop (fuel : nat) (i : Z) : nat :=
  match fuel with
  | O => O
  | S f => if i =? 0 then O else S (bytesRequired_loop f (Z.shiftr i 8))
  end.

Definition bytesRequired (i : Z) : nat :=
  bytesRequired_loop (S (Z.to_nat (Z.log2 i))) i.

Definition toCompactBigEndian (val : Z) (min : nat) : bytes :=
  toBigEndian (Nat.max min (bytesRequired val)) val.

Definition toCompactBigEndianByte (val : byte) (min : nat) : bytes :=
  if (negb (Nat.eqb min 0)) || negb (val =? 0) then [val] else [].

(** ** Hexadecimal *)

Inductive WhenError := DontThrow | DoThrow.
Inductive HexPrefix := DontAdd | Add.

Inductive hex_error := BadHexCharacter.

Definition hexDigit (d : Z) : Z := if d <? 10 then 48 + d else 87 + d.

(** The digits [std::hex] prints for a value below 256, without padding. *)
Definition hexNumber (v : Z) : list Z :=
  if v <? 16 then [hexDigit v] else [hexDigit (v / 16); hexDigit (v mod 16)].

(** [std::setfill('0') << std::setw(w)]. *)
Definition setw (w : nat) (s : list Z) : list Z :=
  replicate (w - length s) 48 ++ s.

Fixpoint toHex_from (ii : nat) (w : nat) (data : bytes) : list Z :=
  match data with
  | [] => []
  | i :: data' =>
      setw (if Nat.eqb ii 0 then w else 2%nat) (hexNumber i) ++ toHex_from (S ii) w data'
  end.

Definition toHex (data : bytes) (w : nat) (prefix : HexPrefix) : list Z :=
  let ret := toHex_from 0 w data in
  match prefix with Add => [48; 120] ++ ret | DontAdd => ret end.

(** [int dev::fromHex(char, WhenError)]; [-1] is the error value. *)
Definition fromHexChar (i : Z) (throw : WhenError) : result hex_error Z :=
  if (48 <=? i) && (i <=? 57) then Ok (i - 48)
  else if (97 <=? i) && (i <=? 102) then Ok (i - 97 + 10)
  else if (65 <=? i) && (i <=? 70) then Ok (i - 65 + 10)
  else match throw with DoThrow => Throw BadHexCharacter | DontThrow => Ok (-1) end.

(** [fromHex(c, WhenError::DontThrow)], the form the string functions call. *)
Definition hexVal (i : Z) : Z :=
  match fromHexChar i DontThrow with Ok v => v | Throw _ => -1 end.

Definition has0x (s : list Z) : bool :=
  match s with c0 :: c1 :: _ => (c0 =? 48) && (c1 =? 120) | _ => false end.

Definition isHex (s : list Z) : bool :=
  forallb (fun c => negb (hexVal c =? -1)) (if has0x s then drop 2 s else s).

(** The failure exit that both parts of [dev::fromHex] take: throw, or
    return [bytes()]. *)
Definition fromHex_fail (throw : WhenError) : result hex_error bytes :=
  match throw with DoThrow => Throw BadHexCharacter | DontThrow => Ok [] end.

(** The loop [for (unsigned i = s; i < _s.size(); i += 2)]; [ret] is the
    accumulated output. *)
Fixpoint fromHex_pairs (ret : bytes) (s : list Z) (throw : WhenError)
  : result hex_error bytes :=
  match s with
  | hc :: lc :: s' =>
      let h := hexVal hc in
      let l := hexVal lc in
      if negb (h =? -1) && negb (l =? -1)
      then fromHex_pairs (ret ++ [u8 (h * 16 + l)]) s' throw
      else fromHex_fail throw
  | _ => Ok ret
  end.

Definition fromHex (s : list Z) (throw : WhenError) : result hex_error bytes :=
  let t := if has0x s then drop 2 s else s in
  if Nat.odd (length s) then
    match t with
    | c :: t' =>
        let h := hexVal c in
        if negb (h =? -1) then fromHex_pairs [h] t' throw else fromHex_fail throw
    | [] => Ok []
    end
  else fromHex_pairs [] t throw.

(** [isHash<T>] for a [FixedHash] of [n] bytes. *)
Definition isHash (n : nat) (hash : list Z) : bool :=
  (Nat.eqb (length hash) (n * 2) || (Nat.eqb (length hash) (n * 2 + 2) && has0x hash))
  && isHex hash.

Definition asNibbles (s : bytes) : bytes :=
  flat_map (fun i => [i / 16; i mod 16]) s.

(** [dev::escaped]: [char] is signed, so the test [i < ' '] also holds of the
    codes above 127. *)
Definition prettyEscape (i : Z) : option Z :=
  if i =? 13 then Some 114 else if i =? 10 then Some 110
  else if i =? 9 then Some 116 else if i =? 11 then Some 118 else None.

Definition escaped (s : list Z) (all : bool) : list Z :=
  [34] ++
  flat_map (fun i =>
    if (i =? 34) && negb all then [92; 34]
    else if (i =? 92) && negb all then [92; 92]
    else match (if all then None else prettyEscape i) with
         | Some c => [92; c]
         | None =>
             if ((i <? 32) || (127 <? i)) || all
             then [92; 120; hexDigit (i / 16); hexDigit (i mod 16)]
             else [i]
         end) s
  ++ [34].

(** [commonPrefix]: the index at which the two sequences first differ, at most
    the shorter length. *)
Fixpoint commonPrefix (t u : bytes) : nat :=
  match t, u with
  | x :: t', y :: u' => if x =? y then S (commonPrefix t' u') else O
  | _, _ => O
  end.

(** [toString(string32)]: the characters up to the first NUL, at most 32. *)
Fixpoint toString32 (i : nat) (s : list Z) : list Z :=
  match i, s with
  | S i', c :: s' => if c =? 0 then [] else c :: toString32 i' s'
  | _, _ => []
  end.

Definition trimFront (t : bytes) (elements : nat) : bytes := drop elements t.
Definition pushFront (t : bytes) (e : byte) : bytes := e :: t.

(** ** Signed 256-bit views (Common.h) *)

Definition u2s (u : Z) : Z :=
  if Z.testbit u 255 then - (2 ^ 256 - u) else u.

Definition s2u (s : Z) : Z :=
  if 0 <=? s then u256 s else u256 (2 ^ 256 + s).

(** [for (ret = 0; _x >>= 1; ++ret) {}] *)
Fixpoint toLog2_loop (fuel : nat) (x : Z) : Z :=
  match fuel with
  | O => 0
  | S f => let x' := Z.shiftr x 1 in if x' =? 0 then 0 else 1 + toLog2_loop f x'
  end.

Definition toLog2 (x : Z) : Z := toLog2_loop 256 x.

Fixpoint exp10 (n : nat) : Z :=
  match n with O => 1 | S m => u256 (exp10 m * 10) end.

Definition diff (a b : Z) : Z := Z.max a b - Z.min a b.

(** ** Big-endian conversions are the reference ones *)

Lemma toBigEndian_spec n v : toBigEndian n v = be_bytes n v.
Proof.
  revert v. induction n as [|n IH]; intros v; simpl; [done|].
  by rewrite IH, shiftr_8, land_255.
Qed.

Lemma fromBigEndianBig_acc l acc :
  wf_bytes l ->
  fold_left (fun ret i => Z.lor (Z.shiftl ret 8) i) l acc
  = acc * 256 ^ sizeZ l + be_value l.
Proof.
  revert acc. induction l as [|b l IH]; intros acc H; cbn [fold_left be_value].
  - unfold sizeZ. simpl. lia.
  - apply Forall_cons_1 in H as [Hb Hl].
    rewrite IH, lor_shiftl_byte, sizeZ_cons, Z.pow_add_r by (done || apply sizeZ_nonneg || lia).
    lia.
Qed.

Lemma fromBigEndianBig_spec l : wf_bytes l -> fromBigEndianBig l = be_value l.
Proof. intros. unfold fromBigEndianBig. rewrite fromBigEndianBig_acc by done. lia. Qed.

Lemma fromBigEndian_acc w l acc :
  0 <= w -> wf_bytes l ->
  wrap w (fold_left (fun ret i => wrap w (Z.lor (Z.shiftl ret 8) i)) l acc)
  = wrap w (acc * 256 ^ sizeZ l + be_value l).
Proof.
  intros Hw. revert acc. induction l as [|b l IH]; intros acc H; cbn [fold_left be_value].
  - f_equal. unfold sizeZ. simpl. lia.
  - apply Forall_cons_1 in H as [Hb Hl].
    rewrite IH, lor_shiftl_byte, sizeZ_cons, Z.pow_add_r by (done || apply sizeZ_nonneg || lia).
    unfold wrap. rewrite <-Z.add_mod_idemp_l, Z.mul_mod_idemp_l, Z.add_mod_idemp_l
      by (apply Z.pow_nonzero; lia).
    f_equal. lia.
Qed.

Lemma fromBigEndian_spec w l :
  0 <= w -> wf_bytes l -> fromBigEndian w l = wrap w (be_value l).
Proof.
  intros Hw Hl. pose proof (fromBigEndian_acc w l 0 Hw Hl) as H.
  rewrite Z.mul_0_l, Z.add_0_l in H. rewrite <-H. symmetry. apply wrap_id.
  unfold fromBigEndian. destruct l as [|b l' _] using rev_ind.
  - split; [done|]. by apply Z.pow_pos_nonneg.
  - rewrite fold_left_app. by apply wrap_fits.
Qed.

Lemma bytesRequired_loop_spec fuel v :
  0 <= v -> v < 256 ^ Z.of_nat fuel ->
  let n := bytesRequired_loop fuel v in
  v < 256 ^ Z.of_nat n /\ (n <> O -> 256 ^ (Z.of_nat n - 1) <= v).
Proof.
  revert v. induction fuel as [|f IH]; intros v H0 Hv; simpl in *; [lia|].
  destruct (Z.eqb_spec v 0) as [->|Hnz]; [simpl; lia|].
  rewrite shiftr_8. rewrite Nat2Z.inj_succ, Z.pow_succ_r in Hv by lia.
  destruct (IH (v / 256)) as [Hlt Hge]; [apply Z.div_pos; lia|apply Z.div_lt_upper_bound; lia|].
  rewrite Nat2Z.inj_succ. split.
  - rewrite Z.pow_succ_r by lia. pose proof (Z.div_mod v 256).
    pose proof (Z.mod_pos_bound v 256). lia.
  - intros _. replace (Z.succ _ - 1) with (Z.of_nat (bytesRequired_loop f (v / 256))) by lia.
    destruct (decide (bytesRequired_loop f (v / 256) = O)) as [->|Hn]; [simpl; lia|].
    specialize (Hge Hn).
    replace (Z.of_nat (bytesRequired_loop f (v / 256)))
      with (Z.succ (Z.of_nat (bytesRequired_loop f (v / 256)) - 1)) by lia.
    rewrite Z.pow_succ_r by lia. pose proof (Z.mul_div_le v 256). lia.
Qed.

(** [bytesRequired] is the least number of bytes that hold the value. *)
Lemma bytesRequired_spec v :
  0 <= v ->
  v < 256 ^ Z.of_nat (bytesRequired v) /\
  (bytesRequired v <> O -> 256 ^ (Z.of_nat (bytesRequired v) - 1) <= v).
Proof.
  intros Hv. apply bytesRequired_loop_spec; [done|].
  destruct (Z.eq_dec v 0) as [->|]; [done|].
  rewrite pow256_pow2 by lia.
  apply Z.lt_le_trans with (2 ^ Z.succ (Z.log2 v)); [apply Z.log2_spec; lia|].
  apply Z.pow_le_mono_r; [lia|]. pose proof (Z.log2_nonneg v). lia.
Qed.

Lemma bytesRequired_le v n : 0 <= v < 256 ^ Z.of_nat n -> (bytesRequired v <= n)%nat.
Proof.
  intros [H0 H]. destruct (bytesRequired_spec v H0) as [_ Hge].
  destruct (decide (bytesRequired v = O)); [lia|]. specialize (Hge ltac:(done)).
  destruct (decide (bytesRequired v <= n)%nat); [done|].
  assert (256 ^ Z.of_nat n <= 256 ^ (Z.of_nat (bytesRequired v) - 1))
    by (apply Z.pow_le_mono_r; lia).
  lia.
Qed.

Lemma bytesRequired_pos v : 0 < v -> (0 < bytesRequired v)%nat.
Proof.
  intros Hv. destruct (bytesRequired_spec v) as [H _]; [lia|].
  destruct (bytesRequired v); [simpl in H; lia|lia].
Qed.

(** The first byte of the minimal encoding is not zero. *)
Lemma be_bytes_minimal_head v :
  0 < v -> exists b l, be_bytes (bytesRequired v) v = b :: l /\ 0 < b < 256.
Proof.
  intros Hv. destruct (bytesRequired_spec v) as [Hlt Hge]; [lia|].
  pose proof (bytesRequired_pos v Hv) as Hpos.
  specialize (Hge ltac:(lia)).
  pose proof (be_bytes_length (bytesRequired v) v) as Hlen.
  pose proof (be_bytes_wf (bytesRequired v) v) as Hwf.
  pose proof (be_value_be_bytes (bytesRequired v) v) as Hval.
  rewrite Z.mod_small in Hval by lia.
  destruct (be_bytes (bytesRequired v) v) as [|b l]; simpl in Hlen; [lia|].
  exists b, l. split; [done|]. apply Forall_cons_1 in Hwf as [Hb Hl]. unfold is_byte in Hb.
  pose proof (be_value_bounds l Hl) as Hbl. cbn [be_value] in Hval.
  assert (sizeZ l = Z.of_nat (bytesRequired v) - 1) as Hs by (unfold sizeZ; lia).
  rewrite Hs in *. destruct (Z.eq_dec b 0) as [->|]; lia.
Qed.

(** ** Hexadecimal round trip *)

Lemma hexVal_hexDigit d : 0 <= d < 16 -> hexVal (hexDigit d) = d.
Proof.
  intros. assert (d = 0 \/ d = 1 \/ d = 2 \/ d = 3 \/ d = 4 \/ d = 5 \/ d = 6 \/ d = 7 \/ d = 8
    \/ d = 9 \/ d = 10 \/ d = 11 \/ d = 12 \/ d = 13 \/ d = 14 \/ d = 15) as Hd by lia.
  repeat destruct Hd as [->|Hd]; try reflexivity. by subst.
Qed.

Lemma hexDigit_not_x d : 0 <= d < 16 -> (hexDigit d =? 120) = false.
Proof. intros. unfold hexDigit. destruct (Z.ltb_spec d 10); apply Z.eqb_neq; lia. Qed.

Lemma setw2_hexNumber b :
  is_byte b -> setw 2 (hexNumber b) = [hexDigit (b / 16); hexDigit (b mod 16)].
Proof.
  unfold is_byte. intros Hb. unfold hexNumber, setw.
  destruct (Z.ltb_spec b 16); simpl; [|done].
  rewrite Z.div_small, Z.mod_small by lia. done.
Qed.

Lemma toHex_from_2 ii data :
  wf_bytes data ->
  toHex_from ii 2 data = flat_map (fun b => [hexDigit (b / 16); hexDigit (b mod 16)]) data.
Proof.
  revert ii. induction data as [|b data IH]; intros ii H; [done|].
  apply Forall_cons_1 in H as [Hb Hd]. cbn [toHex_from flat_map]. rewrite (IH (S ii)) by done.
  replace (if Nat.eqb ii 0 then 2%nat else 2%nat) with 2%nat by (by destruct (Nat.eqb ii 0)).
  by rewrite setw2_hexNumber.
Qed.

Lemma fromHex_pairs_flat ret data throw :
  wf_bytes data ->
  fromHex_pairs ret
    (flat_map (fun b => [hexDigit (b / 16); hexDigit (b mod 16)]) data) throw
  = Ok (ret ++ data).
Proof.
  revert ret. induction data as [|b data IH]; intros ret H; cbn [flat_map app fromHex_pairs].
  - by rewrite app_nil_r.
  - apply Forall_cons_1 in H as [Hb Hd]. unfold is_byte in Hb.
    pose proof (Z.mod_pos_bound b 16). pose proof (Z.div_mod b 16).
    assert (0 <= b / 16 < 16)
      by (split; [apply Z.div_pos|apply Z.div_lt_upper_bound]; lia).
    rewrite !hexVal_hexDigit by lia.
    destruct (Z.eqb_spec (b / 16) (-1)), (Z.eqb_spec (b mod 16) (-1)); try lia. simpl.
    rewrite IH by done. rewrite <-app_assoc. simpl. do 3 f_equal.
    rewrite wrap_id by (unfold fits; lia). lia.
Qed.

Lemma flat_hex_even data :
  Nat.odd (length (flat_map (fun b : Z => [hexDigit (b / 16); hexDigit (b mod 16)]) data)) = false.
Proof. by induction data as [|b data IH]. Qed.

Lemma has0x_flat data :
  wf_bytes data ->
  has0x (flat_map (fun b => [hexDigit (b / 16); hexDigit (b mod 16)]) data) = false.
Proof.
  intros H. destruct data as [|b data]; [done|]. apply Forall_cons_1 in H as [Hb _].
  simpl. rewrite hexDigit_not_x; [apply andb_false_r|]. apply Z.mod_pos_bound. lia.
Qed.

Lemma fromHex_toHex_aux data throw prefix :
  wf_bytes data -> fromHex (toHex data 2 prefix) throw = Ok data.
Proof.
  intros H. unfold toHex. rewrite toHex_from_2 by done.
  destruct prefix; unfold fromHex.
  - rewrite flat_hex_even, has0x_flat, fromHex_pairs_flat by done. done.
  - rewrite length_app. change (length [48; 120]) with 2%nat.
    change (2 + ?n)%nat with (S (S n)). rewrite Nat.odd_succ_succ, flat_hex_even.
    change (if has0x ([48; 120] ++ ?l) then _ else _) with l.
    rewrite fromHex_pairs_flat by done. done.
Qed.

(** ** Signed views *)

Lemma u2s_eq u : fits 256 u -> u2s u = if u <? 2 ^ 255 then u else u - 2 ^ 256.
Proof.
  intros [H0 H1]. unfold u2s. rewrite Z.testbit_odd, Z.shiftr_div_pow2 by lia.
  destruct (Z.ltb_spec u (2 ^ 255)).
  - by rewrite Z.div_small by lia.
  - assert (u / 2 ^ 255 = 1) as ->; [|simpl; lia].
    symmetry. apply Z.div_unique with (u - 2 ^ 255). all: change (2 ^ 256) with (2 * 2 ^ 255) in *; lia.
Qed.

Lemma u2s_range u : fits 256 u -> - 2 ^ 255 <= u2s u < 2 ^ 255.
Proof.
  intros H. rewrite u2s_eq by done. destruct H as [H0 H1].
  change (2 ^ 256) with (2 * 2 ^ 255) in *. destruct (Z.ltb_spec u (2 ^ 255)); lia.
Qed.

Lemma s2u_eq s : - 2 ^ 256 <= s < 2 ^ 256 -> s2u s = s mod 2 ^ 256.
Proof.
  intros H. unfold s2u, wrap. destruct (Z.leb_spec 0 s); [done|].
  rewrite Z.add_comm, <-(Z.mul_1_l (2 ^ 256)) at 1. by rewrite Z.mod_add.
Qed.

Lemma s2u_u2s_aux u : fits 256 u -> s2u (u2s u) = u.
Proof.
  intros H. pose proof (u2s_range u H) as Hr. rewrite s2u_eq by lia. rewrite u2s_eq by done.
  destruct H as [H0 H1]. destruct (Z.ltb_spec u (2 ^ 255)); [by apply Z.mod_small|].
  replace (u - 2 ^ 256) with (u + (-1) * 2 ^ 256) by lia.
  rewrite Z.mod_add by lia. apply Z.mod_small; lia.
Qed.

(** ** [toLog2] *)

Lemma toLog2_loop_spec fuel x :
  0 < x < 2 ^ (Z.of_nat fuel) -> toLog2_loop fuel x = Z.log2 x.
Proof.
  revert x. induction fuel as [|f IH]; intros x [H0 Hx]; [simpl in Hx; lia|].
  cbn [toLog2_loop]. rewrite Nat2Z.inj_succ, Z.pow_succ_r in Hx by lia.
  pose proof (Z.log2_shiftr x 1 H0) as Hlog.
  rewrite (Z.shiftr_div_pow2 x 1) in * by lia. change (2 ^ 1) with 2 in *.
  pose proof (Z.div_mod x 2). pose proof (Z.mod_pos_bound x 2).
  destruct (Z.eqb_spec (x / 2) 0) as [Hz|Hnz].
  - by assert (x = 1) as -> by lia.
  - assert (0 <= x / 2) by (apply Z.div_pos; lia).
    rewrite IH by lia. assert (1 <= Z.log2 x); [|lia].
    apply Z.log2_le_pow2; lia.
Qed.

Lemma toLog2_0 : toLog2 0 = 0.
Proof. reflexivity. Qed.

(** ** Properties *)

(** The two conversions are inverse to each other at every width. *)
Theorem bigEndian_roundtrip (n : nat) (v : Z) (l : bytes)
    (Hv : fits (8 * Z.of_nat n) v) (Hl : wf_bytes l) (Hlen : length l = n) :
  fromBigEndian (8 * Z.of_nat n) (toBigEndian n v) = v /\
  toBigEndian n (fromBigEndian (8 * Z.of_nat n) l) = l.
Proof.
  rewrite !toBigEndian_spec, !fromBigEndian_spec by (auto using be_bytes_wf with lia).
  unfold fits in Hv. rewrite be_value_be_bytes, !pow256_pow2 by lia. split.
  - unfold wrap. rewrite Z.mod_mod by lia. by apply Z.mod_small.
  - subst n. pose proof (be_value_bounds l Hl) as Hb. unfold sizeZ in Hb.
    rewrite pow256_pow2 in Hb by lia. rewrite wrap_id by done. by apply be_bytes_be_value.
Qed.

Lemma bigEndian_roundtrip_witness :
  fromBigEndian (8 * Z.of_nat 32) (toBigEndian 32 (2 ^ 255 + 7)) = 2 ^ 255 + 7 /\
  toBigEndian 32 (fromBigEndian (8 * Z.of_nat 32) (replicate 32 171)) = replicate 32 171.
Proof.
  apply (bigEndian_roundtrip 32 (2 ^ 255 + 7) (replicate 32 171)).
  - unfold fits. split; vm_compute; congruence.
  - unfold wf_bytes. apply Forall_replicate. unfold is_byte. lia.
  - reflexivity.
Defined.

(** [toCompactBigEndian] with no minimum denotes its argument, has no
    leading zero and is no longer than any other encoding of the value. *)
Theorem toCompactBigEndian_canonical (v : Z) (l : bytes)
    (Hv : 0 <= v) (Hl : wf_bytes l) (Hval : be_value l = v) :
  be_value (toCompactBigEndian v 0) = v /\
  head (toCompactBigEndian v 0) <> Some 0 /\
  (length (toCompactBigEndian v 0) <= length l)%nat.
Proof.
  unfold toCompactBigEndian. rewrite Nat.max_0_l, toBigEndian_spec.
  destruct (bytesRequired_spec v Hv) as [Hlt Hge]. split; [|split].
  - rewrite be_value_be_bytes. apply Z.mod_small. lia.
  - destruct (Z.eq_dec v 0) as [->|]; [done|].
    destruct (be_bytes_minimal_head v) as (b & l' & -> & Hb); [lia|]. simpl. intros [=]. lia.
  - rewrite be_bytes_length. apply bytesRequired_le. subst v.
    exact (be_value_bounds l Hl).
Qed.

Lemma toCompactBigEndian_canonical_witness :
  be_value (toCompactBigEndian 1024 0) = 1024 /\
  head (toCompactBigEndian 1024 0) <> Some 0 /\
  (length (toCompactBigEndian 1024 0) <= length [0; 4; 0])%nat.
Proof.
  apply (toCompactBigEndian_canonical 1024 [0; 4; 0]).
  - lia.
  - unfold wf_bytes, is_byte. repeat constructor; lia.
  - reflexivity.
Defined.

(** Parsing the hexadecimal form of a byte string gives the byte string
    back, with or without the [0x] prefix and in both error modes. *)
Theorem fromHex_toHex (data : bytes) (throw : WhenError) (prefix : HexPrefix)
    (Hdata : wf_bytes data) :
  fromHex (toHex data 2 prefix) throw = Ok data.
Proof. by apply fromHex_toHex_aux. Qed.

Lemma fromHex_toHex_witness : fromHex (toHex [0; 65; 105; 255] 2 Add) DoThrow = Ok [0; 65; 105; 255].
Proof.
  apply (fromHex_toHex [0; 65; 105; 255] DoThrow Add).
  unfold wf_bytes, is_byte. repeat constructor; lia.
Defined.

(** In the non-throwing mode a single bad character makes [fromHex] return
    the empty array, whatever was parsed before it. *)
Theorem fromHex_bad_char (data : bytes) (hc lc : Z) (rest : list Z)
    (Hdata : wf_bytes data) (Hbad : hexVal hc = -1) (Heven : Nat.odd (length rest) = false) :
  fromHex (toHex data 2 Add ++ hc :: lc :: rest) DontThrow = Ok [] /\
  fromHex (toHex data 2 Add ++ hc :: lc :: rest) DoThrow = Throw BadHexCharacter.
Proof.
  assert (forall throw ret, fromHex_pairs ret
      (flat_map (fun b => [hexDigit (b / 16); hexDigit (b mod 16)]) data ++ hc :: lc :: rest) throw
      = fromHex_fail throw) as Hp.
  { intros throw. induction data as [|b data IH]; intros ret; cbn [flat_map app fromHex_pairs].
    - by rewrite Hbad.
    - apply Forall_cons_1 in Hdata as [Hb Hd]. case_match; [by apply IH|done]. }
  assert (Nat.odd (length (toHex data 2 Add ++ hc :: lc :: rest)) = false) as Hodd.
  { unfold toHex. rewrite toHex_from_2, !length_app, !Nat.odd_add, flat_hex_even by done.
    cbn [length]. by rewrite (Nat.odd_succ_succ (length rest)), Heven. }
  split; unfold fromHex; rewrite Hodd; unfold toHex; rewrite toHex_from_2 by done;
    change (if has0x (([48; 120] ++ ?l) ++ ?r) then _ else _) with (l ++ r); by rewrite Hp.
Qed.

Lemma fromHex_bad_char_witness :
  fromHex (toHex [18] 2 Add ++ [122; 51; 52; 53]) DontThrow = Ok [] /\
  fromHex (toHex [18] 2 Add ++ [122; 51; 52; 53]) DoThrow = Throw BadHexCharacter.
Proof.
  apply (fromHex_bad_char [18] 122 51 [52; 53]).
  - unfold wf_bytes, is_byte. repeat constructor; lia.
  - reflexivity.
  - reflexivity.
Defined.

(** The two's-complement views are inverse to each other. *)
Theorem s2u_u2s (u : Z) (Hu : fits 256 u) :
  - 2 ^ 255 <= u2s u < 2 ^ 255 /\ s2u (u2s u) = u.
Proof. split; [by apply u2s_range|by apply s2u_u2s_aux]. Qed.

Lemma s2u_u2s_witness :
  - 2 ^ 255 <= u2s (2 ^ 256 - 1) < 2 ^ 255 /\ s2u (u2s (2 ^ 256 - 1)) = 2 ^ 256 - 1.
Proof. apply (s2u_u2s (2 ^ 256 - 1)). unfold fits. lia. Defined.

(** [toLog2] is the floor of the binary logarithm; in particular it is not
    the least [n] with [1 << n >= x], which its comment promises. *)
Theorem toLog2_floor (x : Z) (Hx : 0 < x < 2 ^ 256) :
  2 ^ toLog2 x <= x < 2 ^ (toLog2 x + 1) /\ ~ (forall y, 0 < y < 2 ^ 256 -> y <= 2 ^ toLog2 y).
Proof.
  unfold toLog2 at 1 2. rewrite toLog2_loop_spec by done. split.
  - apply Z.log2_spec. lia.
  - intros H. specialize (H 3 ltac:(lia)). vm_compute in H. congruence.
Qed.

Lemma toLog2_floor_witness :
  2 ^ toLog2 1000 <= 1000 < 2 ^ (toLog2 1000 + 1) /\
  ~ (forall y, 0 < y < 2 ^ 256 -> y <= 2 ^ toLog2 y).
Proof. apply (toLog2_floor 1000). lia. Defined.
