(* ===== verification/RLP.v ===== *)
(** * libdevcore/RLP.{h,cpp} and the byte views of vector_ref.h

    The reader class [RLP] (construction with strictness flags, length and
    payload, list indexing with its cache, iteration, conversions) and the
    writer class [RLPStream] (the stack of open lists).  Sizes are [Z] values
    of a 64-bit [size_t]; a byte view is the list of the bytes it covers.

    The theorems at the end relate both classes to the recursive definition
    of the RLP encoding of an item tree. *)

From Stdlib Require Import ZArith Lia.
From stdpp Require Import base list option.
From S2P Require Import Prelude CommonData.

Inductive rlp_error := BadRLP | OversizeRLP | UndersizeRLP | BadCast | RLPException
  | UndefinedBehaviour.

#[export] Instance rlp_error_eq_dec : EqDecision rlp_error.
Proof. solve_decision. Defined.

(** ** vector_ref *)

(** [cropped(begin, count)] and [cropped(begin)]; out of bounds gives the empty
    view. *)
Definition cropped (d : bytes) (begin count : Z) : bytes :=
  if (begin <=? sizeZ d) && (count <=? sizeZ d) && (begin + count <=? sizeZ d)
  then take (Z.to_nat (if count =? 2 ^ 64 - 1 then sizeZ d - begin else count))
         (drop (Z.to_nat begin) d)
  else [].

Definition cropped_from (d : bytes) (begin : Z) : bytes :=
  if begin <=? sizeZ d then drop (Z.to_nat begin) d else [].

Definition at_ (d : bytes) (i : Z) : byte := nth (Z.to_nat i) d 0.

(** ** Constants *)

Definition c_rlpMaxLengthBytes : Z := 8.
Definition c_rlpDataImmLenStart : Z := 128.
Definition c_rlpListStart : Z := 192.
Definition c_rlpDataImmLenCount : Z :=
  c_rlpListStart - c_rlpDataImmLenStart - c_rlpMaxLengthBytes.
Definition c_rlpDataIndLenZero : Z := c_rlpDataImmLenStart + c_rlpDataImmLenCount - 1.
Definition c_rlpListImmLenCount : Z := 256 - c_rlpListStart - c_rlpMaxLengthBytes.
Definition c_rlpListIndLenZero : Z := c_rlpListStart + c_rlpListImmLenCount - 1.

Definition size_max : Z := 2 ^ 64 - 1.

Definition AllowNonCanon : Z := 1.
Definition ThrowOnFail : Z := 4.
Definition FailIfTooBig : Z := 8.
Definition FailIfTooSmall : Z := 16.
Definition Strict : Z := Z.lor ThrowOnFail FailIfTooBig.
Definition VeryStrict : Z := Z.lor Strict FailIfTooSmall.
Definition LaissezFaire : Z := AllowNonCanon.

Definition hasFlag (s f : Z) : bool := negb (Z.land s f =? 0).

(** ** Reader *)
Module RLP.

Definition isNull (d : bytes) : bool := sizeZ d =? 0.
Definition isEmpty (d : bytes) : bool :=
  negb (isNull d) && ((at_ d 0 =? c_rlpDataImmLenStart) || (at_ d 0 =? c_rlpListStart)).
Definition isData (d : bytes) : bool := negb (isNull d) && (at_ d 0 <? c_rlpListStart).
Definition isList (d : bytes) : bool := negb (isNull d) && (c_rlpListStart <=? at_ d 0).
Definition isSingleByte (d : bytes) : bool :=
  negb (isNull d) && (at_ d 0 <? c_rlpDataImmLenStart).

Definition requireGood (d : bytes) : result rlp_error unit :=
  if isNull d then Throw BadRLP
  else if negb (at_ d 0 =? c_rlpDataImmLenStart + 1) then Ok tt
  else if sizeZ d <? 2 then Throw BadRLP
  else if at_ d 1 <? c_rlpDataImmLenStart then Throw BadRLP
  else Ok tt.

Definition isInt (d : bytes) : result rlp_error bool :=
  if isNull d then Ok false else
  _ ← requireGood d;
  let n := at_ d 0 in
  if n <? c_rlpDataImmLenStart then Ok (negb (n =? 0))
  else if n =? c_rlpDataImmLenStart then Ok true
  else if n <=? c_rlpDataIndLenZero then
    if sizeZ d <=? 1 then Throw BadRLP else Ok (negb (at_ d 1 =? 0))
  else if n <? c_rlpListStart then
    if sizeZ d <=? 1 + n - c_rlpDataIndLenZero then Throw BadRLP
    else Ok (negb (at_ d (1 + n - c_rlpDataIndLenZero) =? 0))
  else Ok false.

(** [for (unsigned i = 0; i < lengthSize; ++i) ret = (ret << 8) | m_data[i + 1];] *)
Definition readLength (d : bytes) (lengthSize : Z) : Z :=
  fold_left (fun ret i => u64 (Z.lor (Z.shiftl ret 8) i))
    (take (Z.to_nat lengthSize) (drop 1 d)) 0.

(** The two branches of [length()] that decode an explicit length, with the
    limit that the length has to reach. *)
Definition explicitLength (d : bytes) (lengthSize limit : Z) : result rlp_error Z :=
  if sizeZ d <=? lengthSize then Throw BadRLP
  else if (1 <? sizeZ d) && (at_ d 1 =? 0) then Throw BadRLP
  else if 8 <? lengthSize then Throw UndersizeRLP
  else if at_ d 1 =? 0 then Throw BadRLP
  else
    let ret := readLength d lengthSize in
    if ret <? limit then Throw BadRLP
    else if size_max - 256 <=? ret then Throw UndersizeRLP
    else Ok ret.

Definition rlp_length (d : bytes) : result rlp_error Z :=
  if isNull d then Ok 0 else
  _ ← requireGood d;
  let n := at_ d 0 in
  if n <? c_rlpDataImmLenStart then Ok 1
  else if n <=? c_rlpDataIndLenZero then Ok (n - c_rlpDataImmLenStart)
  else if n <? c_rlpListStart then
    explicitLength d (n - c_rlpDataIndLenZero)
      (c_rlpListStart - c_rlpDataImmLenStart - c_rlpMaxLengthBytes)
  else if n <=? c_rlpListIndLenZero then Ok (n - c_rlpListStart)
  else explicitLength d (n - c_rlpListIndLenZero)
         (256 - c_rlpListStart - c_rlpMaxLengthBytes).

Definition lengthSize (d : bytes) : Z :=
  if isData d && (c_rlpDataIndLenZero <? at_ d 0) then at_ d 0 - c_rlpDataIndLenZero
  else if isList d && (c_rlpListIndLenZero <? at_ d 0) then at_ d 0 - c_rlpListIndLenZero
  else 0.

Definition payloadOffset (d : bytes) : Z :=
  if isSingleByte d then 0 else 1 + lengthSize d.

Definition payload (d : bytes) : result rlp_error bytes :=
  l ← rlp_length d;
  if sizeZ d <? l then Throw BadRLP else Ok (cropped d (payloadOffset d) l).

Definition actualSize (d : bytes) : result rlp_error Z :=
  if isNull d then Ok 0
  else if isSingleByte d then Ok 1
  else if isData d || isList d then l ← rlp_length d; Ok (payloadOffset d + l)
  else Ok 0.

(** The constructor [RLP(bytesConstRef, Strictness)]: the view that the object
    ends up with. *)
Definition construct (d : bytes) (s : Z) : result rlp_error bytes :=
  m_data ←
    (if hasFlag s FailIfTooBig then
       a ← actualSize d;
       if a <? sizeZ d
       then if hasFlag s ThrowOnFail then Throw OversizeRLP else Ok []
       else Ok d
     else Ok d);
  if hasFlag s FailIfTooSmall then
    a ← actualSize m_data;
    if sizeZ d <? a
    then if hasFlag s ThrowOnFail then Throw UndersizeRLP else Ok []
    else Ok m_data
  else Ok m_data.

Definition sizeAsEncoded (d : bytes) : result rlp_error Z :=
  r ← construct d (Z.lor ThrowOnFail FailIfTooSmall); actualSize r.

(** [items()]: [for (; d.size(); ++i) d = d.cropped(sizeAsEncoded(d));].  The
    fuel is the number of bytes; [None] is exhaustion. *)
Fixpoint items_loop (fuel : nat) (d : bytes) (i : Z) : option (result rlp_error Z) :=
  if sizeZ d =? 0 then Some (Ok i) else
  match fuel with
  | O => None
  | S f =>
      match sizeAsEncoded d with
      | Throw e => Some (Throw e)
      | Ok n => items_loop f (cropped_from d n) (i + 1)
      end
  end.

Definition items (d : bytes) : option (result rlp_error Z) :=
  if isList d then
    match payload d with
    | Throw e => Some (Throw e)
    | Ok p => items_loop (length p) p 0
    end
  else Some (Ok 0).

Definition itemCount (d : bytes) : option (result rlp_error Z) :=
  if isList d then items d else Some (Ok 0).

Definition itemCountStrict (d : bytes) : option (result rlp_error Z) :=
  if isList d then items d else Some (Throw BadCast).

Definition rlp_size (d : bytes) : result rlp_error Z :=
  if isData d then rlp_length d else Ok 0.

Definition sizeStrict (d : bytes) : result rlp_error Z :=
  if isData d then rlp_length d else Throw BadCast.

(** *** Indexing with the [m_last*] cache *)

Record obj := mk_obj {
  m_data : bytes;
  m_lastIndex : Z;
  m_lastEnd : Z;
  m_lastItem : bytes
}.

Definition mk (d : bytes) : obj := mk_obj d size_max 0 [].

(** The loop of [operator[]].  The cache is updated in place, so an exception
    leaves the partially updated object behind.  Exhausted fuel, which
    [index_ok] excludes, is reported as [UndefinedBehaviour]. *)
Fixpoint index_loop (fuel : nat) (o : obj) (i : Z) : obj * result rlp_error unit :=
  if (m_lastIndex o <? i) && negb (sizeZ (m_lastItem o) =? 0) then
    match fuel with
    | O => (o, Throw UndefinedBehaviour)
    | S f =>
        match payload (m_data o) with
        | Throw e => (o, Throw e)
        | Ok p =>
            let rest := cropped_from p (m_lastEnd o) in
            let o1 := mk_obj (m_data o) (m_lastIndex o) (m_lastEnd o) rest in
            match sizeAsEncoded rest with
            | Throw e => (o1, Throw e)
            | Ok n =>
                let it := cropped rest 0 n in
                index_loop f
                  (mk_obj (m_data o) (m_lastIndex o + 1) (u64 (m_lastEnd o + sizeZ it)) it) i
            end
        end
    end
  else (o, Ok tt).

Definition index (o : obj) (i : Z) : obj * result rlp_error bytes :=
  let '(o1, r) :=
    if i <? m_lastIndex o then
      match payload (m_data o) with
      | Throw e => (o, Throw e)
      | Ok p =>
          match sizeAsEncoded p with
          | Throw e => (o, Throw e)
          | Ok e0 => (mk_obj (m_data o) 0 e0 (cropped p 0 e0), Ok tt)
          end
      end
    else (o, Ok tt) in
  match r with
  | Throw e => (o1, Throw e)
  | Ok _ =>
      let '(o2, r2) := index_loop (S (length (m_data o))) o1 i in
      match r2 with
      | Throw e => (o2, Throw e)
      | Ok _ => (o2, construct (m_lastItem o2) (Z.lor ThrowOnFail FailIfTooSmall))
      end
  end.

(** [r[i]] with the object that the access leaves behind *)
Definition field (i : Z) (o : obj) : result rlp_error (bytes * obj) :=
  let '(o', r) := index o i in x ← r; Ok (x, o').

(** *** Iteration

    [m_currentItem] is a pointer into the parent's data and a count; the
    pointer is an offset, [None] for [nullptr].  Iterators are compared by
    pointer and count. *)

Record iterator := mk_iter { it_ptr : option Z; it_count : Z; it_remaining : Z }.

Definition it_bytes (d : bytes) (it : iterator) : bytes :=
  match it_ptr it with
  | None => []
  | Some o => take (Z.to_nat (it_count it)) (drop (Z.to_nat o) d)
  end.

Definition begin_ (d : bytes) : result rlp_error iterator :=
  if isList d then
    l ← rlp_length d;
    pl ← payload d;
    n ← sizeAsEncoded pl;
    let cur := cropped pl 0 n in
    Ok (mk_iter (if payloadOffset d + l <=? sizeZ d then Some (payloadOffset d) else None)
          (sizeZ cur) (sizeZ pl - sizeZ cur))
  else Ok (mk_iter (Some (sizeZ d)) 0 0).

Definition end_ (d : bytes) : iterator := mk_iter (Some (sizeZ d)) 0 0.

Definition next (d : bytes) (it : iterator) : result rlp_error iterator :=
  let ptr' := match it_ptr it with Some o => Some (o + it_count it) | None => None end in
  if negb (it_remaining it =? 0) then
    let cur := it_bytes d (mk_iter ptr' (it_remaining it) 0) in
    n ← sizeAsEncoded cur;
    let cur' := cropped cur 0 n in
    Ok (mk_iter ptr' (sizeZ cur')
          (it_remaining it - Z.min (it_remaining it) (sizeZ cur')))
  else Ok (mk_iter ptr' 0 (it_remaining it)).

Definition it_eqb (a b : iterator) : bool :=
  match it_ptr a, it_ptr b with
  | Some x, Some y => (x =? y) && (it_count a =? it_count b)
  | None, None => it_count a =? it_count b
  | _, _ => false
  end.

(** [for (auto const& i: *this) ret.push_back(f(i));] *)
Fixpoint foreach {A} (fuel : nat) (f : bytes -> result rlp_error A) (d : bytes)
    (it : iterator) (ret : list A) : option (result rlp_error (list A)) :=
  if it_eqb it (end_ d) then Some (Ok ret) else
  match fuel with
  | O => None
  | S n =>
      match (r ← construct (it_bytes d it) VeryStrict; f r) with
      | Throw e => Some (Throw e)
      | Ok a =>
          match next d it with
          | Throw e => Some (Throw e)
          | Ok it' => foreach n f d it' (ret ++ [a])
          end
      end
  end.

Definition for_range {A} (f : bytes -> result rlp_error A) (d : bytes)
  : option (result rlp_error (list A)) :=
  match begin_ d with
  | Throw e => Some (Throw e)
  | Ok it => foreach (length d) f d it []
  end.

Definition toList (d : bytes) (flags : Z) : option (result rlp_error (list bytes)) :=
  if isList d then for_range Ok d
  else Some (if hasFlag flags ThrowOnFail then Throw BadCast else Ok []).

Definition toVector {A} (conv : bytes -> Z -> result rlp_error A) (d : bytes) (flags : Z)
  : option (result rlp_error (list A)) :=
  if isList d then
    match itemCount d with
    | Some (Ok _) => for_range (fun i => conv i flags) d
    | Some (Throw e) => Some (Throw e)
    | None => None
    end
  else Some (if hasFlag flags ThrowOnFail then Throw BadCast else Ok []).

(** *** Conversions *)

Definition toBytes (d : bytes) (flags : Z) : result rlp_error bytes :=
  if negb (isData d) then if hasFlag flags ThrowOnFail then Throw BadCast else Ok []
  else
    p ← payload d;
    l ← rlp_length d;
    if sizeZ p =? l then Ok p else Throw UndefinedBehaviour.

Definition toBytesConstRef (d : bytes) (flags : Z) : result rlp_error bytes :=
  if negb (isData d) then if hasFlag flags ThrowOnFail then Throw BadCast else Ok []
  else p ← payload d; l ← rlp_length d; Ok (cropped p 0 l).

(** [toInt<T>] for a type of [w] bits ([maxSize] bytes); [None] is [bigint]. *)
Definition maxSize (w : option Z) : Z :=
  match w with Some w => w / 8 | None => 2 ^ 32 - 1 end.

Definition toInt (w : option Z) (d : bytes) (flags : Z) : result rlp_error Z :=
  _ ← requireGood d;
  i ← isInt d;
  if (negb i && negb (hasFlag flags AllowNonCanon)) || isList d || isNull d then
    if hasFlag flags ThrowOnFail then Throw BadCast else Ok 0
  else
    p ← payload d;
    if (maxSize w <? sizeZ p) && hasFlag flags FailIfTooBig then
      if hasFlag flags ThrowOnFail then Throw BadCast else Ok 0
    else Ok (match w with Some w => fromBigEndian w p | None => fromBigEndianBig p end).

(** [toHash<FixedHash<N>>]: right-aligned copy. *)
Definition toHash (N : Z) (d : bytes) (flags : Z) : result rlp_error bytes :=
  _ ← requireGood d;
  p ← payload d;
  let l := sizeZ p in
  if negb (isData d) || ((N <? l) && hasFlag flags FailIfTooBig)
     || ((l <? N) && hasFlag flags FailIfTooSmall)
  then if hasFlag flags ThrowOnFail then Throw BadCast else Ok (replicate (Z.to_nat N) 0)
  else
    let s := Z.min N l in
    Ok (replicate (Z.to_nat (N - s)) 0 ++ take (Z.to_nat s) p).

Definition toPair {A B} (ca : bytes -> Z -> result rlp_error A)
    (cb : bytes -> Z -> result rlp_error B) (da : A) (db : B) (d : bytes) (flags : Z)
  : option (result rlp_error (A * B)) :=
  match itemCountStrict d with
  | None => None
  | Some (Throw e) => Some (Throw e)
  | Some (Ok n) =>
      if negb (n =? 2) then
        Some (if hasFlag flags ThrowOnFail then Throw BadCast else Ok (da, db))
      else
        let '(o0, r0) := index (mk d) 0 in
        Some (x0 ← r0; a ← ca x0 flags;
              x1 ← snd (index o0 1); b ← cb x1 flags; Ok (a, b))
  end.

End RLP.

(** ** Writer *)
Module RLPStream.

(** [m_listStack] has the open lists, innermost first: items still missing and
    the position of the list's first byte. *)
Record t := mk { m_out : bytes; m_listStack : list (Z * Z) }.

Definition empty : t := mk [] [].

(** [for (; _i; _i >>= 8) *(b--) = (byte)_i;] *)
Fixpoint writeBack (fuel : nat) (i : Z) (acc : bytes) : bytes :=
  match fuel with
  | O => acc
  | S f => if i =? 0 then acc else writeBack f (Z.shiftr i 8) (u8 i :: acc)
  end.

(** The [br] bytes that [pushInt] appends. *)
Definition intBytes (i : Z) (br : nat) : bytes :=
  let l := writeBack (S (Z.to_nat (Z.log2 i))) i [] in
  replicate (br - length l) 0 ++ l.

Definition pushInt (s : t) (i : Z) (br : nat) : t :=
  mk (m_out s ++ intBytes i br) (m_listStack s).

Definition pushCount (s : t) (count base : Z) : result rlp_error t :=
  let br := bytesRequired count in
  if 255 <? Z.of_nat br + base then Throw RLPException
  else Ok (pushInt (mk (m_out s ++ [u8 (Z.of_nat br + base)]) (m_listStack s)) count br).

(** The header that [noteAppended] moves in front of a completed list of [s]
    payload bytes. *)
Definition listHeader (s : Z) : result rlp_error bytes :=
  let brs := bytesRequired s in
  if s <? c_rlpListImmLenCount then Ok [u8 (c_rlpListStart + s)]
  else if c_rlpListIndLenZero + Z.of_nat brs <=? 255
  then Ok (u8 (c_rlpListIndLenZero + Z.of_nat brs) :: intBytes s brs)
  else Throw RLPException.

Fixpoint noteAppended_loop (out : bytes) (stack : list (Z * Z)) (itemCount : Z)
  : result rlp_error t :=
  match stack with
  | [] => Ok (mk out [])
  | (first, p) :: stack' =>
      if first <? itemCount then Throw RLPException
      else if negb (first - itemCount =? 0) then Ok (mk out ((first - itemCount, p) :: stack'))
      else
        hdr ← listHeader (sizeZ out - p);
        noteAppended_loop (take (Z.to_nat p) out ++ hdr ++ drop (Z.to_nat p) out) stack' 1
  end.

Definition noteAppended (s : t) (itemCount : Z) : result rlp_error t :=
  if itemCount =? 0 then Ok s
  else noteAppended_loop (m_out s) (m_listStack s) itemCount.

Definition appendRaw (s : t) (d : bytes) (itemCount : Z) : result rlp_error t :=
  noteAppended (mk (m_out s ++ d) (m_listStack s)) itemCount.

(** [appendList(bytesConstRef)]. *)
Definition appendListRaw (s : t) (rlp : bytes) : result rlp_error t :=
  s1 ← (if sizeZ rlp <? c_rlpListImmLenCount
        then Ok (mk (m_out s ++ [u8 (sizeZ rlp + c_rlpListStart)]) (m_listStack s))
        else pushCount s (sizeZ rlp) c_rlpListIndLenZero);
  appendRaw s1 rlp 1.

(** [appendList(size_t)]. *)
Definition appendList (s : t) (items : Z) : result rlp_error t :=
  if negb (items =? 0)
  then Ok (mk (m_out s) ((items, sizeZ (m_out s)) :: m_listStack s))
  else appendListRaw s [].

Fixpoint dropZeros (d : bytes) : bytes :=
  match d with b :: d' => if b =? 0 then dropZeros d' else d | [] => [] end.

(** [append(bytesConstRef, bool)]. *)
Definition append (s : t) (d : bytes) (compact : bool) : result rlp_error t :=
  let d := if compact then dropZeros d else d in
  s1 ← (if (sizeZ d =? 1) && (at_ d 0 <? c_rlpDataImmLenStart)
        then Ok (mk (m_out s ++ [at_ d 0]) (m_listStack s))
        else
          s0 ← (if sizeZ d <? c_rlpDataImmLenCount
                then Ok (mk (m_out s ++ [u8 (sizeZ d + c_rlpDataImmLenStart)]) (m_listStack s))
                else pushCount s (sizeZ d) c_rlpDataIndLenZero);
          appendRaw s0 d 0);
  noteAppended s1 1.

(** [append(bigint)]. *)
Definition appendInt (s : t) (i : Z) : result rlp_error t :=
  s1 ← (if i =? 0 then Ok (mk (m_out s ++ [c_rlpDataImmLenStart]) (m_listStack s))
        else if i <? c_rlpDataImmLenStart then Ok (mk (m_out s ++ [u8 i]) (m_listStack s))
        else
          let br := bytesRequired i in
          s0 ← (if Z.of_nat br <? c_rlpDataImmLenCount
                then Ok (mk (m_out s ++ [u8 (Z.of_nat br + c_rlpDataImmLenStart)]) (m_listStack s))
                else
                  let brbr := bytesRequired (Z.of_nat br) in
                  if 255 <? c_rlpDataIndLenZero + Z.of_nat brbr then Throw RLPException
                  else Ok (pushInt (mk (m_out s ++ [u8 (c_rlpDataIndLenZero + Z.of_nat brbr)])
                                      (m_listStack s)) (Z.of_nat br) brbr));
          Ok (pushInt s0 i br));
  noteAppended s1 1.

(** [append(FixedHash<N>, bool, bool)]. *)
Definition appendHash (s : t) (h : bytes) (compact allOrNothing : bool) : result rlp_error t :=
  if allOrNothing && forallb (fun b => b =? 0) h then append s [] false else append s h compact.

(** [appendVector]: [appendList(_s.size()); for (auto const& i: _s) append(i);] *)
Fixpoint appendEach {A} (app : t -> A -> result rlp_error t) (s : t) (l : list A)
  : result rlp_error t :=
  match l with
  | [] => Ok s
  | x :: l' => s1 ← app s x; appendEach app s1 l'
  end.

Definition appendVector {A} (app : t -> A -> result rlp_error t) (s : t) (l : list A)
  : result rlp_error t :=
  s1 ← appendList s (sizeZ l); appendEach app s1 l.

Definition out (s : t) : result rlp_error bytes :=
  match m_listStack s with [] => Ok (m_out s) | _ => Throw RLPException end.

Definition clear (_ : t) : t := empty.

End RLPStream.

(** ** The reference encoding *)

Inductive item := Str (b : bytes) | Lst (l : list item).

(** The nested induction principle. *)
Fixpoint item_nested_ind (P : item -> Prop) (HS : forall b, P (Str b))
    (HL : forall l, Forall P l -> P (Lst l)) (i : item) : P i :=
  match i with
  | Str b => HS b
  | Lst l =>
      HL l ((fix go (l : list item) : Forall P l :=
               match l with
               | [] => Forall_nil_2 P
               | x :: xs => Forall_cons_2 P x xs (item_nested_ind P HS HL x) (go xs)
               end) l)
  end.

Definition header (imm : Z) (n : Z) : bytes :=
  if n <? 56 then [imm + n]
  else (imm + 55 + Z.of_nat (bytesRequired n)) :: be_bytes (bytesRequired n) n.

Fixpoint encode (i : item) : bytes :=
  match i with
  | Str b =>
      if (sizeZ b =? 1) && (at_ b 0 <? 128) then b else header 128 (sizeZ b) ++ b
  | Lst l => let p := flat_map encode l in header 192 (sizeZ p) ++ p
  end.

Fixpoint wf_item (i : item) : Prop :=
  match i with
  | Str b => wf_bytes b
  | Lst l => (fix go l := match l with [] => True | x :: xs => wf_item x /\ go xs end) l
  end.

(** Appending an item tree the way the clients do: a list is opened with its
    item count and its items follow. *)
Fixpoint appendItem (s : RLPStream.t) (i : item) : result rlp_error RLPStream.t :=
  match i with
  | Str b => RLPStream.append s b false
  | Lst l =>
      s1 ← RLPStream.appendList s (sizeZ l);
      (fix go s l := match l with
                     | [] => Ok s
                     | x :: xs => s' ← appendItem s x; go s' xs
                     end) s1 l
  end.
