(* ===== verification/RLPTheory.v ===== *)
(** * Theory of the RLP reader and writer

    The writer produces exactly the reference encoding, the reader takes it
    apart again, and whatever the strict reader accepts is a reference
    encoding. *)

From Stdlib Require Import ZArith Lia.
From stdpp Require Import base list option.
From S2P Require Import Prelude CommonData RLP.
Import RLP.

(** ** Writer *)

Lemma writeBack_spec fuel i acc :
  RLPStream.writeBack fuel i acc = be_bytes (bytesRequired_loop fuel i) i ++ acc.
Proof.
  revert i acc. induction fuel as [|f IH]; intros i acc; simpl; [done|].
  destruct (Z.eqb_spec i 0); [done|].
  rewrite IH, shiftr_8. cbn [be_bytes]. by rewrite <-app_assoc.
Qed.

Lemma intBytes_spec i : RLPStream.intBytes i (bytesRequired i) = be_bytes (bytesRequired i) i.
Proof.
  unfold RLPStream.intBytes. rewrite writeBack_spec, app_nil_r.
  fold (bytesRequired i). rewrite be_bytes_length, Nat.sub_diag. done.
Qed.

Lemma bytesRequired_u64 n : 0 <= n < 2 ^ 64 -> (bytesRequired n <= 8)%nat.
Proof. intros. by apply bytesRequired_le. Qed.

Lemma bytesRequired_big n : 56 <= n -> (1 <= bytesRequired n)%nat.
Proof. intros. pose proof (bytesRequired_pos n). lia. Qed.

Lemma listHeader_spec s : 0 <= s < 2 ^ 64 -> RLPStream.listHeader s = Ok (header 192 s).
Proof.
  intros Hs. pose proof (bytesRequired_u64 s Hs).
  unfold RLPStream.listHeader, header, c_rlpListIndLenZero, c_rlpListImmLenCount,
    c_rlpListStart, c_rlpMaxLengthBytes.
  change (256 - 192 - 8) with 56. destruct (Z.ltb_spec s 56).
  - by rewrite wrap_id by (unfold fits; lia).
  - destruct (Z.leb_spec (192 + 56 - 1 + Z.of_nat (bytesRequired s)) 255); [|lia].
    by rewrite intBytes_spec, wrap_id by (unfold fits; lia).
Qed.

Lemma pushCount_spec s n base imm :
  base = imm + 55 -> 0 <= imm <= 192 -> 56 <= n < 2 ^ 64 ->
  RLPStream.pushCount s n base
  = Ok (RLPStream.mk (RLPStream.m_out s ++ header imm n) (RLPStream.m_listStack s)).
Proof.
  intros -> Hi Hn. pose proof (bytesRequired_u64 n ltac:(lia)).
  unfold RLPStream.pushCount, header.
  destruct (Z.ltb_spec 255 (Z.of_nat (bytesRequired n) + (imm + 55))); [lia|].
  destruct (Z.ltb_spec n 56); [lia|].
  unfold RLPStream.pushInt. simpl. rewrite intBytes_spec, wrap_id by (unfold fits; lia).
  rewrite <-app_assoc. simpl. do 4 f_equal. lia.
Qed.

Lemma append_spec s b :
  sizeZ b < 2 ^ 64 ->
  RLPStream.append s b false
  = RLPStream.noteAppended_loop (RLPStream.m_out s ++ encode (Str b)) (RLPStream.m_listStack s) 1.
Proof.
  intros Hb. pose proof (sizeZ_nonneg b). unfold RLPStream.append. cbn [encode].
  change c_rlpDataImmLenStart with 128. change c_rlpDataImmLenCount with 56.
  change c_rlpDataIndLenZero with 183.
  destruct ((sizeZ b =? 1) && (at_ b 0 <? 128)) eqn:E.
  - apply andb_true_iff in E as [E1 E2]. apply Z.eqb_eq in E1.
    assert (b = [at_ b 0]) as Hb1.
    { unfold sizeZ in E1. destruct b as [|x [|y l]]; simpl in *; try lia. done. }
    simpl. rewrite <-Hb1. done.
  - destruct (Z.ltb_spec (sizeZ b) 56); simpl.
    + unfold RLPStream.appendRaw, RLPStream.noteAppended. simpl.
      unfold header. destruct (Z.ltb_spec (sizeZ b) 56); [|lia].
      rewrite wrap_id by (unfold fits; lia). rewrite <-app_assoc, (Z.add_comm (sizeZ b)). done.
    + rewrite (pushCount_spec s (sizeZ b) 183 128) by lia. simpl.
      unfold RLPStream.appendRaw, RLPStream.noteAppended. simpl. by rewrite app_assoc.
Qed.

Lemma appendListRaw_spec s p :
  sizeZ p < 2 ^ 64 ->
  RLPStream.appendListRaw s p
  = RLPStream.noteAppended_loop (RLPStream.m_out s ++ header 192 (sizeZ p) ++ p)
      (RLPStream.m_listStack s) 1.
Proof.
  intros Hp. pose proof (sizeZ_nonneg p). unfold RLPStream.appendListRaw.
  change c_rlpListImmLenCount with 56. change c_rlpListIndLenZero with 247.
  change c_rlpListStart with 192.
  destruct (Z.ltb_spec (sizeZ p) 56); simpl.
  - unfold RLPStream.appendRaw, RLPStream.noteAppended, header. simpl.
    destruct (Z.ltb_spec (sizeZ p) 56); [|lia].
    rewrite wrap_id by (unfold fits; lia). rewrite <-app_assoc, (Z.add_comm (sizeZ p)). done.
  - rewrite (pushCount_spec s (sizeZ p) 247 192) by lia. simpl.
    unfold RLPStream.appendRaw, RLPStream.noteAppended. simpl. by rewrite app_assoc.
Qed.

Lemma sizeZ_encode_Lst l : sizeZ (flat_map encode l) <= sizeZ (encode (Lst l)).
Proof. cbn [encode]. rewrite sizeZ_app. pose proof (sizeZ_nonneg (header 192 (sizeZ (flat_map encode l)))). lia. Qed.

Lemma sizeZ_flat_map_cons x l :
  sizeZ (flat_map encode (x :: l)) = sizeZ (encode x) + sizeZ (flat_map encode l).
Proof. cbn [flat_map]. by rewrite sizeZ_app. Qed.

(** The inner loop of [appendItem] on a list whose header is still missing. *)
Definition appendItems : RLPStream.t -> list item -> result rlp_error RLPStream.t :=
  fix go s l := match l with
                | [] => Ok s
                | x :: xs => s' ← appendItem s x; go s' xs
                end.

Definition writes (i : item) : Prop :=
  forall s, sizeZ (encode i) < 2 ^ 64 ->
  appendItem s i
  = RLPStream.noteAppended_loop (RLPStream.m_out s ++ encode i) (RLPStream.m_listStack s) 1.

Lemma appendItems_spec l out0 out st :
  Forall writes l -> l <> [] ->
  sizeZ (out ++ flat_map encode l) < 2 ^ 64 ->
  appendItems (RLPStream.mk (out0 ++ out) ((sizeZ l, sizeZ out0) :: st)) l
  = RLPStream.noteAppended_loop
      (out0 ++ header 192 (sizeZ (out ++ flat_map encode l)) ++ out ++ flat_map encode l) st 1.
Proof.
  intros Hw Hne. revert out. induction Hw as [|x l Hx Hl IH]; [done|]; intros out Hsz.
  pose proof (sizeZ_nonneg out). pose proof (sizeZ_nonneg (flat_map encode l)).
  pose proof (sizeZ_nonneg (encode x)).
  rewrite sizeZ_app, sizeZ_flat_map_cons in Hsz.
  cbn [appendItems]. rewrite (Hx _ ltac:(lia)). simpl RLPStream.m_out.
  simpl RLPStream.m_listStack. rewrite <-app_assoc.
  destruct l as [|y l].
  - simpl flat_map. rewrite app_nil_r. unfold RLPStream.noteAppended_loop at 1.
    change (sizeZ [x]) with 1. simpl Z.ltb. simpl negb. cbn match.
    rewrite !sizeZ_app.
    replace (sizeZ out0 + (sizeZ out + sizeZ (encode x)) - sizeZ out0)
      with (sizeZ out + sizeZ (encode x)) by lia.
    rewrite listHeader_spec by (simpl in *; lia). simpl.
    rewrite take_sizeZ_app, drop_sizeZ_app. apply bind_ret.
  - rewrite sizeZ_cons. pose proof (sizeZ_nonneg l). rewrite sizeZ_cons.
    unfold RLPStream.noteAppended_loop at 1.
    destruct (Z.ltb_spec (1 + (1 + sizeZ l)) 1); [lia|].
    destruct (Z.eqb_spec (1 + (1 + sizeZ l) - 1) 0); [lia|].
    cbn [negb]. rewrite bind_Ok_l.
    replace (1 + (1 + sizeZ l) - 1) with (sizeZ (y :: l)) by (rewrite sizeZ_cons; lia).
    rewrite (IH ltac:(done) (out ++ encode x)) by (rewrite !sizeZ_app; lia).
    change (flat_map encode (x :: y :: l)) with (encode x ++ flat_map encode (y :: l)).
    by rewrite !app_assoc.
Qed.

Lemma appendItem_writes i : writes i.
Proof.
  induction i as [b|l Hl] using item_nested_ind; intros s Hsz.
  - apply append_spec. cbn [encode] in Hsz. pose proof (sizeZ_nonneg b).
    destruct ((sizeZ b =? 1) && (at_ b 0 <? 128)); [done|].
    rewrite sizeZ_app in Hsz. pose proof (sizeZ_nonneg (header 128 (sizeZ b))). lia.
  - pose proof (sizeZ_encode_Lst l). cbn [appendItem]. fold appendItems.
    unfold RLPStream.appendList. destruct l as [|x l].
    + simpl negb. cbn match. rewrite appendListRaw_spec by done. apply bind_ret.
    + destruct (Z.eqb_spec (sizeZ (x :: l)) 0) as [E|_]; [by apply sizeZ_0 in E|].
      cbn [negb]. rewrite bind_Ok_l.
      rewrite <-(app_nil_r (RLPStream.m_out s)) at 1.
      rewrite (appendItems_spec _ _ [] (RLPStream.m_listStack s) Hl) by (done || (cbn [app]; lia)).
      done.
Qed.


(** ** Reader on the encoding of an item followed by other bytes *)

Definition fitsItem (i : item) : Prop := sizeZ (encode i) < 2 ^ 64 - 257.

Definition payload_of (i : item) : bytes :=
  match i with Str b => b | Lst l => flat_map encode l end.

Definition is_Lst (i : item) : bool := match i with Lst _ => true | Str _ => false end.

Lemma at_cons_0 x l : at_ (x :: l) 0 = x.
Proof. done. Qed.
Lemma at_cons_1 x l : at_ (x :: l) 1 = at_ l 0.
Proof. by destruct l. Qed.

Lemma isNull_cons x l : isNull (x :: l) = false.
Proof. unfold isNull. rewrite sizeZ_cons. pose proof (sizeZ_nonneg l). apply Z.eqb_neq. lia. Qed.

Lemma header_small imm n : n < 56 -> header imm n = [imm + n].
Proof. intros. unfold header. destruct (Z.ltb_spec n 56); [done|lia]. Qed.

Lemma header_big imm n :
  56 <= n ->
  header imm n = (imm + 55 + Z.of_nat (bytesRequired n)) :: be_bytes (bytesRequired n) n.
Proof. intros. unfold header. destruct (Z.ltb_spec n 56); [lia|done]. Qed.

Lemma explicitLength_header n x rest :
  56 <= n < 2 ^ 64 - 257 ->
  explicitLength (x :: be_bytes (bytesRequired n) n ++ rest) (Z.of_nat (bytesRequired n)) 56 = Ok n.
Proof.
  intros Hn. pose proof (bytesRequired_u64 n ltac:(lia)).
  destruct (be_bytes_minimal_head n ltac:(lia)) as (b & l & Hbl & Hb).
  assert (at_ (x :: be_bytes (bytesRequired n) n ++ rest) 1 = b) as Hat
    by (rewrite Hbl; done).
  unfold explicitLength. rewrite Hat.
  rewrite sizeZ_cons, sizeZ_app. unfold sizeZ at 1 3. rewrite be_bytes_length.
  pose proof (sizeZ_nonneg rest).
  destruct (Z.leb_spec (1 + (Z.of_nat (bytesRequired n) + sizeZ rest)) (Z.of_nat (bytesRequired n)));
    [lia|].
  destruct (Z.eqb_spec b 0); [lia|]. rewrite andb_false_r.
  destruct (Z.ltb_spec 8 (Z.of_nat (bytesRequired n))); [lia|].
  assert (readLength (x :: be_bytes (bytesRequired n) n ++ rest) (Z.of_nat (bytesRequired n)) = n)
    as ->.
  { unfold readLength. change (drop 1 (x :: ?l)) with l. rewrite Nat2Z.id.
    rewrite take_app_length' by (symmetry; apply be_bytes_length).
    change (fromBigEndian 64 (be_bytes (bytesRequired n) n) = n).
    rewrite fromBigEndian_spec, be_value_be_bytes by (auto using be_bytes_wf with lia).
    destruct (bytesRequired_spec n) as [Hlt _]; [lia|].
    rewrite Z.mod_small by lia. apply wrap_id. unfold fits. lia. }
  destruct (Z.ltb_spec n 56); [lia|]. unfold size_max.
  destruct (Z.leb_spec (2 ^ 64 - 1 - 256) n); [lia|done].
Qed.

(** What the reader sees at the front of an encoding. *)
Record reads (i : item) (d : bytes) : Prop := mk_reads {
  reads_null : isNull d = false;
  reads_good : requireGood d = Ok tt;
  reads_list : isList d = is_Lst i;
  reads_data : isData d = negb (is_Lst i);
  reads_length : rlp_length d = Ok (sizeZ (payload_of i));
  reads_offset : payloadOffset d = sizeZ (encode i) - sizeZ (payload_of i);
  reads_size : actualSize d = Ok (sizeZ (encode i))
}.

Ltac consts :=
  change c_rlpDataImmLenStart with 128 in *; change c_rlpListStart with 192 in *;
  change c_rlpDataIndLenZero with 183 in *; change c_rlpListIndLenZero with 247 in *;
  change c_rlpMaxLengthBytes with 8 in *; change (192 - 128 - 8) with 56 in *;
  change (256 - 192 - 8) with 56 in *.

(** Evaluates the tests of the reader on a first byte whose range is known. *)
Ltac first_byte :=
  repeat match goal with
  | |- context [Z.ltb ?a ?b] =>
      first [ rewrite (proj2 (Z.ltb_lt a b)) by lia | rewrite (proj2 (Z.ltb_ge a b)) by lia ]
  | |- context [Z.leb ?a ?b] =>
      first [ rewrite (proj2 (Z.leb_le a b)) by lia | rewrite (proj2 (Z.leb_gt a b)) by lia ]
  | |- context [Z.eqb ?a ?b] =>
      first [ rewrite (proj2 (Z.eqb_eq a b)) by lia | rewrite (proj2 (Z.eqb_neq a b)) by lia ]
  end; cbn [andb orb negb].

(** Evaluates the tests on closed strictness flags. *)
Ltac flags :=
  repeat match goal with
  | |- context [hasFlag ?a ?b] =>
      let r := eval vm_compute in (hasFlag a b) in change (hasFlag a b) with r
  end; cbn match.

Lemma reads_single b rest :
  0 <= b < 128 -> reads (Str [b]) (b :: rest).
Proof.
  intros Hb.
  assert (encode (Str [b]) = [b]) as He.
  { cbn [encode]. rewrite at_cons_0. change (sizeZ [b]) with 1. by first_byte. }
  assert (requireGood (b :: rest) = Ok tt) as Hg.
  { unfold requireGood. rewrite isNull_cons, at_cons_0. consts. by first_byte. }
  constructor.
  - apply isNull_cons.
  - done.
  - unfold isList. rewrite isNull_cons, at_cons_0. consts. by first_byte.
  - unfold isData. rewrite isNull_cons, at_cons_0. consts. by first_byte.
  - unfold rlp_length. rewrite isNull_cons, Hg, bind_Ok_l, at_cons_0. consts. by first_byte.
  - unfold payloadOffset, isSingleByte. rewrite isNull_cons, at_cons_0, He. consts. by first_byte.
  - unfold actualSize, isSingleByte. rewrite isNull_cons, at_cons_0, He. consts. by first_byte.
Qed.

(** The fields of [reads] from the length and the first byte. *)
Lemma reads_intro i x d :
  128 <= x < 256 -> is_Lst i = (192 <=? x) ->
  requireGood (x :: d) = Ok tt ->
  rlp_length (x :: d) = Ok (sizeZ (payload_of i)) ->
  sizeZ (encode i) - sizeZ (payload_of i)
  = 1 + (if x <=? 183 then 0 else if x <? 192 then x - 183 else if x <=? 247 then 0 else x - 247) ->
  reads i (x :: d).
Proof.
  intros Hx Hl Hg Hlen Hoff.
  assert (isList (x :: d) = is_Lst i) as HL.
  { unfold isList. rewrite isNull_cons, at_cons_0. by consts. }
  assert (isData (x :: d) = negb (is_Lst i)) as HD.
  { unfold isData. rewrite isNull_cons, at_cons_0, Hl. consts.
    destruct (Z.leb_spec 192 x), (Z.ltb_spec x 192); done || lia. }
  assert (isSingleByte (x :: d) = false) as HS.
  { unfold isSingleByte. rewrite isNull_cons, at_cons_0. consts. by first_byte. }
  assert (payloadOffset (x :: d) = sizeZ (encode i) - sizeZ (payload_of i)) as HO.
  { unfold payloadOffset, lengthSize. rewrite HS, HL, HD, Hl, at_cons_0, Hoff. consts.
    destruct (Z.leb_spec 192 x), (Z.leb_spec x 183), (Z.ltb_spec x 192), (Z.leb_spec x 247),
      (Z.ltb_spec 183 x), (Z.ltb_spec 247 x); simpl; lia. }
  constructor; try done.
  unfold actualSize. rewrite isNull_cons, HS, HL, HD, orb_negb_l, Hlen, bind_Ok_l, HO.
  f_equal. lia.
Qed.

Lemma requireGood_other x d : x <> 129 -> requireGood (x :: d) = Ok tt.
Proof.
  intros. unfold requireGood. rewrite isNull_cons, at_cons_0. consts. by first_byte.
Qed.

(** An item whose encoding starts with a header. *)
Lemma reads_header i imm rest :
  imm = (if is_Lst i then 192 else 128) ->
  encode i = header imm (sizeZ (payload_of i)) ++ payload_of i ->
  fitsItem i -> requireGood (encode i ++ rest) = Ok tt ->
  reads i (encode i ++ rest).
Proof.
  unfold fitsItem. set (p := payload_of i). intros Himm He Hsz Hg.
  pose proof (sizeZ_nonneg p) as Hn0. rewrite He, sizeZ_app in Hsz.
  pose proof (sizeZ_nonneg (header imm (sizeZ p))).
  assert (is_Lst i = (192 <=? imm)) as HL by (rewrite Himm; by destruct (is_Lst i)).
  assert (imm = 128 \/ imm = 192) as Himm2 by (rewrite Himm; destruct (is_Lst i); auto).
  rewrite He in Hg |- *.
  destruct (Z.ltb_spec (sizeZ p) 56) as [Hn|Hn].
  - rewrite (header_small imm) in * by done. cbn [app] in *.
    apply reads_intro; [lia| |done| |rewrite He, sizeZ_cons; fold p].
    + rewrite HL. destruct Himm2; subst imm; by first_byte.
    + unfold rlp_length. rewrite isNull_cons, Hg, bind_Ok_l, at_cons_0. consts. fold p.
      destruct Himm2 as [-> | ->]; first_byte; f_equal; lia.
    + destruct Himm2 as [-> | ->]; first_byte; lia.
  - pose proof (bytesRequired_u64 (sizeZ p) ltac:(lia)). pose proof (bytesRequired_big (sizeZ p) Hn).
    rewrite (header_big imm) in * by done. cbn [app] in *. rewrite <-app_assoc in *.
    apply reads_intro; [lia| |done| |].
    + rewrite HL. destruct Himm2; subst imm; by first_byte.
    + unfold rlp_length. rewrite isNull_cons, Hg, bind_Ok_l, at_cons_0. consts. fold p.
      destruct Himm2 as [-> | ->]; first_byte.
      * replace (128 + 55 + _ - 183) with (Z.of_nat (bytesRequired (sizeZ p))) by lia.
        apply explicitLength_header. lia.
      * replace (192 + 55 + _ - 247) with (Z.of_nat (bytesRequired (sizeZ p))) by lia.
        apply explicitLength_header. lia.
    + rewrite He, sizeZ_cons, sizeZ_app. unfold sizeZ at 1. rewrite be_bytes_length. fold p.
      destruct Himm2 as [-> | ->]; first_byte; lia.
Qed.

Lemma header_cons imm n : exists l, header imm n = (if n <? 56 then imm + n
  else imm + 55 + Z.of_nat (bytesRequired n)) :: l.
Proof. unfold header. destruct (n <? 56); eauto. Qed.

Lemma encode_Str_header b :
  ((sizeZ b =? 1) && (at_ b 0 <? 128)) = false -> encode (Str b) = header 128 (sizeZ b) ++ b.
Proof. intros E. cbn [encode]. by rewrite E. Qed.

(** [requireGood] accepts the header of a string that is not a single small
    byte. *)
Lemma requireGood_Str b rest :
  ((sizeZ b =? 1) && (at_ b 0 <? 128)) = false ->
  requireGood ((header 128 (sizeZ b) ++ b) ++ rest) = Ok tt.
Proof.
  intros E. pose proof (sizeZ_nonneg b). pose proof (sizeZ_nonneg rest).
  destruct (Z.eq_dec (sizeZ b) 1) as [E1|Hne].
  - rewrite E1 in *. cbn [andb Z.eqb Pos.eqb] in E. apply Z.ltb_ge in E.
    rewrite header_small by lia. destruct b as [|x l]; [done|]. rewrite at_cons_0 in E.
    unfold requireGood. cbn [app]. rewrite isNull_cons, at_cons_0, at_cons_1, at_cons_0.
    rewrite !sizeZ_cons. pose proof (sizeZ_nonneg (l ++ rest)). consts. by first_byte.
  - destruct (header_cons 128 (sizeZ b)) as [l ->]. cbn [app]. apply requireGood_other.
    destruct (Z.ltb_spec (sizeZ b) 56); [lia|]. pose proof (bytesRequired_big (sizeZ b)). lia.
Qed.

Lemma requireGood_Lst n p : 0 <= n -> requireGood (header 192 n ++ p) = Ok tt.
Proof.
  intros. destruct (header_cons 192 n) as [l ->]. cbn [app]. apply requireGood_other.
  destruct (n <? 56); lia.
Qed.

Lemma reads_encode i rest : wf_item i -> fitsItem i -> reads i (encode i ++ rest).
Proof.
  destruct i as [b|l]; intros Hwf Hsz.
  - destruct ((sizeZ b =? 1) && (at_ b 0 <? 128)) eqn:E.
    + assert (encode (Str b) = b) as -> by (cbn [encode]; by rewrite E).
      apply andb_true_iff in E as [E1 E2]. apply Z.eqb_eq in E1. apply Z.ltb_lt in E2.
      unfold sizeZ in E1. destruct b as [|x [|y l]]; simpl in E1; try lia.
      apply Forall_cons_1 in Hwf as [Hx _]. unfold is_byte in Hx. rewrite at_cons_0 in E2.
      apply reads_single. lia.
    + apply (reads_header (Str b) 128); [done|by apply encode_Str_header|done|].
      rewrite encode_Str_header by done. by apply requireGood_Str.
  - apply (reads_header (Lst l) 192); [done..|]. cbn [encode]. rewrite <-app_assoc.
    apply requireGood_Lst, sizeZ_nonneg.
Qed.

Lemma encode_split i : exists hd, encode i = hd ++ payload_of i.
Proof.
  destruct i as [b|l]; cbn [encode payload_of]; [|by eexists].
  destruct (_ && _); [by exists []|by eexists].
Qed.

Lemma encode_nonempty i : 1 <= sizeZ (encode i).
Proof.
  destruct i as [b|l]; cbn [encode].
  - destruct (sizeZ b =? 1) eqn:E; cbn [andb].
    + apply Z.eqb_eq in E. destruct (at_ b 0 <? 128); [lia|].
      rewrite sizeZ_app. pose proof (sizeZ_nonneg (header 128 (sizeZ b))). lia.
    + rewrite sizeZ_app. destruct (header_cons 128 (sizeZ b)) as [l ->].
      rewrite sizeZ_cons. pose proof (sizeZ_nonneg l). pose proof (sizeZ_nonneg b). lia.
  - rewrite sizeZ_app. set (p := flat_map encode l).
    destruct (header_cons 192 (sizeZ p)) as [l' ->].
    rewrite sizeZ_cons. pose proof (sizeZ_nonneg l'). pose proof (sizeZ_nonneg p). lia.
Qed.

Lemma cropped_mid l1 l2 l3 begin count :
  begin = sizeZ l1 -> count = sizeZ l2 -> count < 2 ^ 64 - 1 ->
  cropped (l1 ++ l2 ++ l3) begin count = l2.
Proof.
  intros -> -> Hlt. unfold cropped. rewrite !sizeZ_app.
  pose proof (sizeZ_nonneg l1). pose proof (sizeZ_nonneg l2). pose proof (sizeZ_nonneg l3).
  first_byte. by rewrite drop_sizeZ_app, take_sizeZ_app.
Qed.

Lemma cropped_prefix l1 l2 count :
  count = sizeZ l1 -> count < 2 ^ 64 - 1 -> cropped (l1 ++ l2) 0 count = l1.
Proof. intros. by apply (cropped_mid []). Qed.

Lemma cropped_from_app l1 l2 n : n = sizeZ l1 -> cropped_from (l1 ++ l2) n = l2.
Proof.
  intros ->. unfold cropped_from. rewrite sizeZ_app. pose proof (sizeZ_nonneg l2). first_byte.
  by rewrite drop_sizeZ_app.
Qed.

Section good_item.
Context (i : item) (Hwf : wf_item i) (Hfit : fitsItem i).

Lemma payload_encode rest : payload (encode i ++ rest) = Ok (payload_of i).
Proof.
  destruct (reads_encode i rest Hwf Hfit) as [_ _ _ _ Hlen Hoff _].
  unfold payload. rewrite Hlen, bind_Ok_l, Hoff. unfold fitsItem in Hfit.
  destruct (encode_split i) as [hd He]. rewrite He, !sizeZ_app in *.
  pose proof (sizeZ_nonneg hd). pose proof (sizeZ_nonneg rest).
  pose proof (sizeZ_nonneg (payload_of i)). first_byte.
  f_equal. rewrite <-app_assoc. apply cropped_mid; lia.
Qed.

Lemma construct_prefix rest :
  construct (encode i ++ rest) (Z.lor ThrowOnFail FailIfTooSmall) = Ok (encode i ++ rest).
Proof.
  destruct (reads_encode i rest Hwf Hfit) as [_ _ _ _ _ _ Hs].
  unfold construct. flags. rewrite bind_Ok_l, Hs, bind_Ok_l.
  rewrite sizeZ_app. pose proof (sizeZ_nonneg rest). by first_byte.
Qed.

Lemma sizeAsEncoded_encode rest : sizeAsEncoded (encode i ++ rest) = Ok (sizeZ (encode i)).
Proof.
  unfold sizeAsEncoded. rewrite construct_prefix, bind_Ok_l.
  by destruct (reads_encode i rest Hwf Hfit).
Qed.

Lemma reads_exact : reads i (encode i).
Proof. rewrite <-(app_nil_r (encode i)). by apply reads_encode. Qed.

Lemma payload_exact : payload (encode i) = Ok (payload_of i).
Proof. rewrite <-(app_nil_r (encode i)) at 1. apply payload_encode. Qed.

Lemma construct_exact : construct (encode i) VeryStrict = Ok (encode i).
Proof.
  destruct reads_exact as [_ _ _ _ _ _ Hs].
  unfold construct. flags. rewrite Hs, bind_Ok_l, Z.ltb_irrefl, bind_Ok_l, Hs, bind_Ok_l.
  by rewrite Z.ltb_irrefl.
Qed.

End good_item.

Lemma sizeAsEncoded_nil : sizeAsEncoded [] = Ok 0.
Proof. reflexivity. Qed.

(** ** Lists: counting, iterating, indexing *)

Lemma wf_item_Lst l : wf_item (Lst l) <-> Forall wf_item l.
Proof.
  cbn [wf_item]. induction l as [|x l IH]; [by split; constructor|].
  split.
  - intros [Hx Hl]. constructor; [done|]. by apply IH.
  - intros H. apply Forall_cons_1 in H as [Hx Hl]. split; [done|]. by apply IH.
Qed.

(** Every member of a list that fits, fits. *)
Lemma fitsItem_members l : sizeZ (flat_map encode l) < 2 ^ 64 - 257 -> Forall fitsItem l.
Proof.
  induction l as [|x l IH]; intros H; [constructor|].
  rewrite sizeZ_flat_map_cons in H. pose proof (sizeZ_nonneg (encode x)).
  pose proof (sizeZ_nonneg (flat_map encode l)). constructor.
  - unfold fitsItem. lia.
  - apply IH. lia.
Qed.

Lemma items_loop_spec l fuel k :
  Forall wf_item l -> Forall fitsItem l -> (length (flat_map encode l) <= fuel)%nat ->
  items_loop fuel (flat_map encode l) k = Some (Ok (k + sizeZ l)).
Proof.
  revert fuel k. induction l as [|x l IH]; intros fuel k Hw Hf Hlen.
  - destruct fuel; simpl; do 2 f_equal; unfold sizeZ; simpl; lia.
  - apply Forall_cons_1 in Hw as [Hwx Hwl]. apply Forall_cons_1 in Hf as [Hfx Hfl].
    pose proof (encode_nonempty x) as Hne. pose proof (sizeZ_nonneg (flat_map encode l)).
    destruct fuel as [|fuel].
    { unfold sizeZ in Hne. cbn [flat_map] in Hlen. rewrite length_app in Hlen. lia. }
    cbn [items_loop]. rewrite sizeZ_flat_map_cons. first_byte.
    cbn [flat_map] in *. rewrite sizeAsEncoded_encode by done.
    rewrite (cropped_from_app _ _ (sizeZ (encode x))) by done.
    rewrite length_app in Hlen. unfold sizeZ in Hne.
    rewrite IH by (done || lia). rewrite sizeZ_cons. do 2 f_equal. lia.
Qed.

Section good_list.
Context (l : list item) (Hwf : wf_item (Lst l)) (Hfit : fitsItem (Lst l)).

Let Hwfl : Forall wf_item l := proj1 (wf_item_Lst l) Hwf.

Lemma payload_fits : sizeZ (flat_map encode l) < 2 ^ 64 - 257.
Proof. pose proof (sizeZ_encode_Lst l). unfold fitsItem in Hfit. lia. Qed.

Lemma items_encode : items (encode (Lst l)) = Some (Ok (sizeZ l)).
Proof.
  unfold items. destruct (reads_exact _ Hwf Hfit) as [_ _ -> _ _ _ _]. cbn [is_Lst].
  rewrite payload_exact by done. cbn [payload_of].
  rewrite items_loop_spec; [done|exact Hwfl|apply fitsItem_members, payload_fits|done].
Qed.

End good_list.

(** The iterator standing before the items [l], [pre] being the bytes before
    them. *)
Definition iter_at (pre : bytes) (l : list item) : iterator :=
  match l with
  | [] => mk_iter (Some (sizeZ pre)) 0 0
  | x :: l2 => mk_iter (Some (sizeZ pre)) (sizeZ (encode x)) (sizeZ (flat_map encode l2))
  end.

Lemma it_bytes_iter_at pre x l :
  it_bytes (pre ++ flat_map encode (x :: l)) (iter_at pre (x :: l)) = encode x.
Proof. unfold it_bytes. simpl. by rewrite drop_sizeZ_app, take_sizeZ_app. Qed.

Lemma next_iter_at pre x l :
  Forall wf_item l -> Forall fitsItem l ->
  next (pre ++ flat_map encode (x :: l)) (iter_at pre (x :: l))
  = Ok (iter_at (pre ++ encode x) l).
Proof.
  intros Hw Hf. unfold next. cbn [iter_at it_ptr it_count it_remaining flat_map].
  rewrite <-sizeZ_app. destruct l as [|y l]; [done|].
  apply Forall_cons_1 in Hw as [Hwy _]. apply Forall_cons_1 in Hf as [Hfy _].
  pose proof (encode_nonempty y) as Hne. pose proof (sizeZ_nonneg (flat_map encode l)).
  destruct (Z.eqb_spec (sizeZ (flat_map encode (y :: l))) 0) as [E|_].
  { rewrite sizeZ_flat_map_cons in E. lia. }
  cbn [negb]. unfold it_bytes. cbn [it_ptr it_count].
  rewrite app_assoc, drop_sizeZ_app.
  rewrite firstn_all2 by (unfold sizeZ; lia).
  cbn [flat_map]. rewrite sizeAsEncoded_encode, bind_Ok_l by done.
  rewrite cropped_prefix by (done || (unfold fitsItem in Hfy; lia)).
  cbn [iter_at]. rewrite (sizeZ_app (encode y)). do 2 f_equal. lia.
Qed.

Lemma it_eqb_end pre l :
  it_eqb (iter_at pre l) (end_ (pre ++ flat_map encode l))
  = match l with [] => true | _ => false end.
Proof.
  unfold it_eqb, end_. destruct l as [|x l]; cbn [iter_at it_ptr it_count].
  - simpl. by rewrite app_nil_r, Z.eqb_refl.
  - rewrite sizeZ_app, sizeZ_flat_map_cons. pose proof (encode_nonempty x).
    pose proof (sizeZ_nonneg (flat_map encode l)). by first_byte.
Qed.

Lemma foreach_spec {A} (f : bytes -> result rlp_error A) l pre fuel ret :
  Forall wf_item l -> Forall fitsItem l -> (length l <= fuel)%nat ->
  foreach fuel f (pre ++ flat_map encode l) (iter_at pre l) ret
  = Some (r ← mapR (fun i => f (encode i)) l; Ok (ret ++ r)).
Proof.
  intros Hw Hf. revert pre fuel ret. induction l as [|x l IH]; intros pre fuel ret Hlen.
  - unfold foreach. destruct fuel; rewrite it_eqb_end; simpl; by rewrite app_nil_r.
  - destruct fuel as [|fuel]; [simpl in Hlen; lia|]. cbn [foreach].
    rewrite it_eqb_end, it_bytes_iter_at.
    apply Forall_cons_1 in Hw as [Hwx Hwl]. apply Forall_cons_1 in Hf as [Hfx Hfl].
    rewrite construct_exact, bind_Ok_l by done. cbn [mapR].
    destruct (f (encode x)) as [a|e]; [|done]. rewrite bind_Ok_l, next_iter_at by done.
    cbn [flat_map]. rewrite app_assoc, IH by (done || simpl in Hlen; lia).
    destruct (mapR _ l) as [r|e]; simpl; [|done]. by rewrite <-app_assoc.
Qed.

Lemma length_le_encode l : (length l <= length (flat_map encode l))%nat.
Proof.
  induction l as [|x l IH]; [simpl; lia|]. cbn [flat_map length]. rewrite length_app.
  pose proof (encode_nonempty x) as H. unfold sizeZ in H. lia.
Qed.

(** A range-for over a strict list visits the encodings of its items in order. *)
Lemma for_range_encode {A} (f : bytes -> result rlp_error A) l :
  wf_item (Lst l) -> fitsItem (Lst l) ->
  for_range f (encode (Lst l)) = Some (mapR (fun i => f (encode i)) l).
Proof.
  intros Hw Hf. pose proof (proj1 (wf_item_Lst l) Hw) as Hwl.
  pose proof (payload_fits l Hf) as Hpf. pose proof (fitsItem_members l Hpf) as Hfl.
  destruct (reads_exact _ Hw Hf) as [_ _ HL _ Hlen Hoff _]. cbn [payload_of is_Lst] in *.
  destruct (encode_split (Lst l)) as [hd He]. cbn [payload_of] in He.
  assert (payloadOffset (encode (Lst l)) = sizeZ hd) as Hoff'
    by (rewrite Hoff, He, sizeZ_app; lia).
  assert (begin_ (encode (Lst l)) = Ok (iter_at hd l)) as Hb.
  { unfold begin_. rewrite HL, Hlen, bind_Ok_l, payload_exact, bind_Ok_l, Hoff' by done.
    cbn [payload_of]. rewrite He, sizeZ_app. first_byte.
    destruct l as [|x l']; [done|]. cbn [flat_map iter_at].
    apply Forall_cons_1 in Hwl as [Hwx _]. apply Forall_cons_1 in Hfl as [Hfx _].
    rewrite sizeAsEncoded_encode, bind_Ok_l by done.
    rewrite cropped_prefix by (done || (unfold fitsItem in Hfx; lia)).
    rewrite sizeZ_app. do 2 f_equal. lia. }
  unfold for_range. rewrite Hb, He, foreach_spec; [|done..|].
  - simpl. by destruct (mapR _ l).
  - rewrite length_app. pose proof (length_le_encode l). lia.
Qed.

Lemma mapR_Ok_map {E A B} (f : A -> B) (l : list A) :
  mapR (E := E) (fun x => Ok (f x)) l = Ok (map f l).
Proof. induction l as [|x l IH]; [done|]. simpl. by rewrite IH. Qed.

Lemma toList_encode l flags :
  wf_item (Lst l) -> fitsItem (Lst l) ->
  toList (encode (Lst l)) flags = Some (Ok (map encode l)).
Proof.
  intros Hw Hf. unfold toList. destruct (reads_exact _ Hw Hf) as [_ _ -> _ _ _ _].
  cbn [is_Lst]. rewrite for_range_encode by done. by rewrite mapR_Ok_map.
Qed.

(** The cache of [operator[]] when it stands on the first item of [l2]. *)
Definition cache_at (l1 l2 : list item) : obj :=
  match l2 with
  | x :: _ => mk_obj (encode (Lst (l1 ++ l2))) (sizeZ l1) (sizeZ (flat_map encode (l1 ++ [x]))) (encode x)
  | [] => mk_obj (encode (Lst (l1 ++ l2))) (sizeZ l1) (sizeZ (flat_map encode l1)) []
  end.

(** The states of the cache that indexing reaches. *)
Inductive cache_ok (l : list item) : obj -> Prop :=
| cache_fresh : cache_ok l (mk (encode (Lst l)))
| cache_pos l1 l2 : l = l1 ++ l2 -> cache_ok l (cache_at l1 l2).

(** One step of the loop moves the cache to the next item. *)
Lemma index_loop_step fuel l1 x l3 i :
  wf_item (Lst (l1 ++ x :: l3)) -> fitsItem (Lst (l1 ++ x :: l3)) ->
  sizeZ l1 < i ->
  index_loop (S fuel) (cache_at l1 (x :: l3)) i = index_loop fuel (cache_at (l1 ++ [x]) l3) i.
Proof.
  intros Hw Hf Hi. pose proof (payload_fits _ Hf) as Hpf.
  pose proof (proj1 (wf_item_Lst _) Hw) as Hwl. pose proof (fitsItem_members _ Hpf) as Hfl.
  pose proof (encode_nonempty x). rewrite flat_map_app, sizeZ_app in Hpf. cbn [flat_map] in Hpf.
  rewrite sizeZ_app in Hpf.
  assert (flat_map encode (l1 ++ x :: l3) = flat_map encode (l1 ++ [x]) ++ flat_map encode l3) as Hsplit.
  { rewrite !flat_map_app. cbn [flat_map]. by rewrite app_nil_r, app_assoc. }
  cbn [index_loop cache_at m_lastIndex m_lastItem m_data m_lastEnd].
  first_byte. rewrite payload_exact by done. cbn [payload_of].
  rewrite Hsplit, cropped_from_app by done.
  pose proof (sizeZ_nonneg (flat_map encode l1)).
  destruct l3 as [|y l3].
  - change (sizeAsEncoded (flat_map encode [])) with (Ok (E := rlp_error) 0).
    change (sizeZ (cropped (flat_map encode []) 0 0)) with 0.
    change (cropped (flat_map encode []) 0 0) with ([] : bytes).
    unfold cache_at. rewrite app_nil_r, Z.add_0_r, wrap_id; [by rewrite sizeZ_app|].
    rewrite flat_map_app, sizeZ_app. cbn [flat_map]. rewrite app_nil_r. unfold fits.
    simpl in Hpf. unfold sizeZ in *; simpl in *; lia.
  - assert (wf_item y /\ fitsItem y) as [Hwy Hfy].
    { rewrite Forall_app in Hwl, Hfl. destruct Hwl as [_ Hwl], Hfl as [_ Hfl].
      by inversion Hwl as [|? ? ? Hw2]; inversion Hw2; inversion Hfl as [|? ? ? Hf2]; inversion Hf2. }
    cbn [flat_map] in *. rewrite sizeZ_app in Hpf. pose proof (sizeZ_nonneg (flat_map encode l3)).
    rewrite sizeAsEncoded_encode by done.
    rewrite cropped_prefix by (done || (unfold fitsItem in Hfy; lia)).
    rewrite <-sizeZ_app, wrap_id.
    + unfold cache_at. rewrite <-!app_assoc. cbn [app]. do 2 f_equal.
      * by rewrite sizeZ_app.
      * rewrite !flat_map_app. cbn [flat_map]. rewrite !app_nil_r, !app_assoc. done.
    + rewrite flat_map_app. cbn [flat_map]. rewrite app_nil_r, !sizeZ_app. unfold fits.
      pose proof (sizeZ_nonneg (encode y)). lia.
Qed.

Definition item_bytes (l : list item) (i : Z) : bytes :=
  match l !! Z.to_nat i with Some x => encode x | None => [] end.

Lemma index_loop_spec fuel l1 l2 i :
  wf_item (Lst (l1 ++ l2)) -> fitsItem (Lst (l1 ++ l2)) ->
  sizeZ l1 <= i -> (length l2 <= fuel)%nat ->
  exists o, index_loop fuel (cache_at l1 l2) i = (o, Ok tt) /\
    cache_ok (l1 ++ l2) o /\ m_lastItem o = item_bytes (l1 ++ l2) i.
Proof.
  revert l1 l2. induction fuel as [|fuel IH]; intros l1 l2 Hw Hf Hi Hlen.
  - destruct l2 as [|x l2]; [|simpl in Hlen; lia]. exists (cache_at l1 []).
    split; [|split]; [|by apply cache_pos|].
    + cbn. by rewrite andb_false_r.
    + unfold item_bytes. rewrite app_nil_r, lookup_ge_None_2; [done|]. unfold sizeZ in Hi. lia.
  - destruct l2 as [|x l2].
    { exists (cache_at l1 []). split; [|split]; [|by apply cache_pos|].
      - cbn. by rewrite andb_false_r.
      - unfold item_bytes. rewrite app_nil_r, lookup_ge_None_2; [done|]. unfold sizeZ in Hi. lia. }
    destruct (Z.eq_dec (sizeZ l1) i) as [Heq|Hne].
    + exists (cache_at l1 (x :: l2)). split; [|split]; [|by apply cache_pos|].
      * cbn [index_loop cache_at m_lastIndex]. by first_byte.
      * subst i. unfold item_bytes, sizeZ.
        by rewrite Nat2Z.id, lookup_app_r, Nat.sub_diag by lia.
    + rewrite index_loop_step by (done || lia).
      destruct (IH (l1 ++ [x]) l2) as (o & Ho & Hok & Hit).
      * by rewrite <-app_assoc.
      * by rewrite <-app_assoc.
      * rewrite sizeZ_app. change (sizeZ [x]) with 1. lia.
      * simpl in Hlen. lia.
      * rewrite <-app_assoc in *. by exists o.
Qed.

(** Whatever the history of accesses, [r[i]] is the [i]-th item (or the null
    item past the end), and the cache stays consistent. *)
Lemma index_ok l o i :
  wf_item (Lst l) -> fitsItem (Lst l) -> cache_ok l o -> 0 <= i < size_max ->
  exists o', index o i = (o', Ok (item_bytes l i)) /\ cache_ok l o'.
Proof.
  intros Hw Hf Hc Hi. pose proof (proj1 (wf_item_Lst _) Hw) as Hwl.
  pose proof (fitsItem_members _ (payload_fits _ Hf)) as Hfl.
  assert (forall l1 l2, l = l1 ++ l2 -> sizeZ l1 <= i ->
    exists o', (let '(o2, r2) := index_loop (S (length (encode (Lst l)))) (cache_at l1 l2) i in
      match r2 with
      | Throw e => (o2, Throw e)
      | Ok _ => (o2, construct (m_lastItem o2) (Z.lor ThrowOnFail FailIfTooSmall))
      end) = (o', Ok (item_bytes l i)) /\ cache_ok l o') as Hrun.
  { intros l1 l2 -> Hle.
    destruct (index_loop_spec (S (length (encode (Lst (l1 ++ l2))))) l1 l2 i Hw Hf Hle)
      as (o' & -> & Hok & ->).
    - cbn [encode]. rewrite length_app. pose proof (length_le_encode (l1 ++ l2)).
      rewrite length_app in *. lia.
    - exists o'. split; [|done]. f_equal. unfold item_bytes.
      destruct ((l1 ++ l2) !! Z.to_nat i) as [x|] eqn:E; [|done].
      rewrite <-(app_nil_r (encode x)) at 1. rewrite construct_prefix, app_nil_r; [done|..].
      + by eapply Forall_lookup_1 in E; [|exact Hwl].
      + by eapply Forall_lookup_1 in E; [|exact Hfl]. }
  assert (forall e0, sizeAsEncoded (flat_map encode l) = Ok e0 ->
    mk_obj (encode (Lst l)) 0 e0 (cropped (flat_map encode l) 0 e0) = cache_at [] l) as Hreset.
  { intros e0 He0. destruct l as [|x l']; [by injection He0 as <-|]. cbn [flat_map] in *.
    apply Forall_cons_1 in Hwl as [Hwx _]. apply Forall_cons_1 in Hfl as [Hfx _].
    rewrite sizeAsEncoded_encode in He0 by done. injection He0 as <-.
    rewrite cropped_prefix by (done || (unfold fitsItem in Hfx; lia)).
    unfold cache_at. cbn [app flat_map]. by rewrite app_nil_r. }
  assert (exists e0, sizeAsEncoded (flat_map encode l) = Ok e0) as [e0 He0].
  { destruct l as [|x l']; [by eexists|]. apply Forall_cons_1 in Hwl as [Hwx _].
    apply Forall_cons_1 in Hfl as [Hfx _]. cbn [flat_map]. rewrite sizeAsEncoded_encode; eauto. }
  unfold index. inversion Hc as [|l1 l2 Hl]; subst o.
  - cbn [mk m_lastIndex m_data]. first_byte. rewrite payload_exact by done. cbn [payload_of].
    rewrite He0, (Hreset e0 He0). apply (Hrun [] l); [done|]. unfold sizeZ. simpl. lia.
  - assert (m_data (cache_at l1 l2) = encode (Lst l) /\ m_lastIndex (cache_at l1 l2) = sizeZ l1)
      as [-> ->] by (rewrite Hl; by destruct l2).
    destruct (Z.ltb_spec i (sizeZ l1)).
    + rewrite payload_exact by done. cbn [payload_of]. rewrite He0, (Hreset e0 He0).
      apply (Hrun [] l); [done|]. unfold sizeZ. simpl. lia.
    + by apply Hrun.
Qed.

(** ** Reading back an item tree *)

(** Recursive traversal with the reader's operations, as the clients of nested
    structures and [streamOut] do it. *)
Fixpoint toItem (fuel : nat) (d : bytes) : result rlp_error item :=
  match fuel with
  | O => Throw UndefinedBehaviour
  | S f =>
      if isList d then
        match toList d VeryStrict with
        | Some (Ok l) => ls ← mapR (toItem f) l; Ok (Lst ls)
        | Some (Throw e) => Throw e
        | None => Throw UndefinedBehaviour
        end
      else b ← toBytes d VeryStrict; Ok (Str b)
  end.

Fixpoint depth (i : item) : nat :=
  match i with
  | Str _ => 1%nat
  | Lst l => S ((fix go l := match l with [] => O | x :: xs => Nat.max (depth x) (go xs) end) l)
  end.

Lemma depth_members l f : (depth (Lst l) <= S f)%nat -> Forall (fun i => depth i <= f)%nat l.
Proof.
  cbn [depth]. intros H. apply le_S_n in H. induction l as [|x l IH]; [constructor|].
  constructor; [lia|]. apply IH. lia.
Qed.

Lemma toItem_encode i fuel :
  wf_item i -> fitsItem i -> (depth i <= fuel)%nat -> toItem fuel (encode i) = Ok i.
Proof.
  revert fuel. induction i as [b|l IH] using item_nested_ind; intros fuel Hw Hf Hd.
  - destruct fuel as [|f]; [cbn in Hd; lia|]. cbn [toItem].
    destruct (reads_exact _ Hw Hf) as [_ _ HL HD Hlen _ _]. rewrite HL. cbn [is_Lst].
    unfold toBytes. rewrite HD. cbn [negb is_Lst].
    rewrite payload_exact, bind_Ok_l, Hlen, bind_Ok_l, Z.eqb_refl by done. done.
  - destruct fuel as [|f]; [cbn in Hd; lia|].
    pose proof (proj1 (wf_item_Lst _) Hw) as Hwl.
    pose proof (fitsItem_members _ (payload_fits _ Hf)) as Hfl.
    pose proof (depth_members l f Hd) as Hdl. cbn [toItem].
    destruct (reads_exact _ Hw Hf) as [_ _ HL _ _ _ _]. rewrite HL. cbn [is_Lst].
    rewrite toList_encode by done.
    assert (mapR (toItem f) (map encode l) = Ok l) as ->; [|done].
    clear Hw Hf Hd HL. induction l as [|x l IHl]; [done|].
    apply Forall_cons_1 in IH as [IHx IH]. apply Forall_cons_1 in Hwl as [Hwx Hwl].
    apply Forall_cons_1 in Hfl as [Hfx Hfl]. apply Forall_cons_1 in Hdl as [Hdx Hdl].
    cbn [map mapR]. rewrite IHx, bind_Ok_l, IHl by done. done.
Qed.

(** ** What the strict reader accepts is canonical *)

Lemma construct_VeryStrict d a :
  construct d VeryStrict = Ok a -> a = d /\ actualSize d = Ok (sizeZ d).
Proof.
  unfold construct. flags. intros H. inv_ok.
  destruct (Z.ltb_spec a2 (sizeZ d)); [done|]. injection Hok as <-.
  destruct (Z.ltb_spec (sizeZ d) a1); [done|]. injection H as <-. split; [done|].
  rewrite Hok1 in Hok0. injection Hok0 as ->. rewrite Hok1. f_equal. lia.
Qed.

Lemma sizeAsEncoded_le d n : sizeAsEncoded d = Ok n -> n <= sizeZ d.
Proof.
  unfold sizeAsEncoded, construct. flags. rewrite bind_Ok_l. intros H. inv_ok.
  destruct (Z.ltb_spec (sizeZ d) a0); [done|]. injection Hok as <-.
  rewrite Hok0 in H. injection H as <-. lia.
Qed.

(** A length without leading zero uses the least number of bytes. *)
Lemma bytesRequired_be_value b lb :
  wf_bytes (b :: lb) -> b <> 0 -> bytesRequired (be_value (b :: lb)) = length (b :: lb).
Proof.
  intros Hwf Hnz. pose proof (be_value_bounds _ Hwf) as Hv.
  apply Forall_cons_1 in Hwf as [Hb Hl]. unfold is_byte in Hb.
  pose proof (be_value_bounds lb Hl) as Hvl. apply Nat.le_antisymm.
  - by apply bytesRequired_le.
  - destruct (bytesRequired_spec (be_value (b :: lb))) as [Hlt _]; [lia|].
    destruct (decide (length (b :: lb) <= bytesRequired (be_value (b :: lb)))%nat) as [|Hn]; [done|].
    assert (256 ^ Z.of_nat (bytesRequired (be_value (b :: lb))) <= 256 ^ sizeZ lb)
      by (apply Z.pow_le_mono_r; cbn [length] in Hn; unfold sizeZ; lia).
    assert (1 * 256 ^ sizeZ lb <= b * 256 ^ sizeZ lb) by (apply Z.mul_le_mono_nonneg_r; lia).
    cbn [be_value] in *. lia.
Qed.

Lemma explicitLength_inv d k l :
  wf_bytes d -> 1 <= k <= 8 -> explicitLength d k 56 = Ok l ->
  exists x rest, d = x :: be_bytes (bytesRequired l) l ++ rest /\
    k = Z.of_nat (bytesRequired l) /\ 56 <= l < 2 ^ 64 - 257.
Proof.
  intros Hwf Hk. unfold explicitLength.
  destruct (Z.leb_spec (sizeZ d) k); [done|].
  destruct ((1 <? sizeZ d) && (at_ d 1 =? 0)); [done|].
  destruct (Z.ltb_spec 8 k); [done|].
  destruct (Z.eqb_spec (at_ d 1) 0) as [|Hnz]; [done|].
  destruct (Z.ltb_spec (readLength d k) 56) as [|H56]; [done|]. unfold size_max.
  destruct (Z.leb_spec (2 ^ 64 - 1 - 256) (readLength d k)) as [|Hmax]; [done|].
  intros [=<-]. destruct d as [|x d]; [unfold sizeZ in *; simpl in *; lia|].
  rewrite sizeZ_cons in *. rewrite at_cons_1 in Hnz. apply Forall_cons_1 in Hwf as [_ Hwf].
  assert (exists b lb rest, d = (b :: lb) ++ rest /\ sizeZ (b :: lb) = k /\ b <> 0)
    as (b & lb & rest & -> & Hslb & Hb).
  { destruct d as [|b d]; [unfold sizeZ in *; simpl in *; lia|].
    exists b, (take (Z.to_nat (k - 1)) d), (drop (Z.to_nat (k - 1)) d). split; [|split; [|done]].
    - cbn [app]. by rewrite take_drop.
    - rewrite sizeZ_cons in *. rewrite sizeZ_take. lia. }
  apply wf_bytes_app in Hwf as [Hwlb _]. pose proof (be_value_bounds _ Hwlb) as Hbv.
  assert (readLength (x :: (b :: lb) ++ rest) k = be_value (b :: lb)) as HrL.
  { unfold readLength. change (drop 1 (x :: ?l)) with l. rewrite <-Hslb, take_sizeZ_app.
    change (fromBigEndian 64 (b :: lb) = be_value (b :: lb)).
    rewrite fromBigEndian_spec by (done || lia). apply wrap_id. split; [lia|].
    eapply Z.lt_le_trans; [apply Hbv|]. rewrite pow256_pow2 by lia. apply Z.pow_le_mono_r; lia. }
  rewrite HrL in *. exists x, rest. rewrite bytesRequired_be_value, be_bytes_be_value by done.
  split; [done|]. split; [by rewrite <-Hslb|]. lia.
Qed.

(** A view whose length can be read starts with the canonical header. *)
Lemma rlp_length_inv n d l :
  wf_bytes (n :: d) -> 128 <= n -> rlp_length (n :: d) = Ok l ->
  exists rest, n :: d = header (if 192 <=? n then 192 else 128) l ++ rest /\
    payloadOffset (n :: d) = sizeZ (header (if 192 <=? n then 192 else 128) l) /\
    0 <= l < 2 ^ 64 - 257.
Proof.
  intros Hwf H128. pose proof (Forall_inv Hwf) as Hn. unfold is_byte in Hn.
  unfold rlp_length. rewrite isNull_cons, at_cons_0. intros H.
  apply bind_Ok in H as (_ & _ & H). consts.
  assert (payloadOffset (n :: d) = 1 + (if n <=? 183 then 0 else if n <? 192 then n - 183
            else if n <=? 247 then 0 else n - 247)) as ->.
  { unfold payloadOffset, lengthSize, isSingleByte, isData, isList.
    rewrite isNull_cons, at_cons_0. consts. cbn [negb andb].
    destruct (Z.ltb_spec n 128), (Z.leb_spec n 183), (Z.ltb_spec n 192), (Z.leb_spec 192 n),
      (Z.leb_spec n 247), (Z.ltb_spec 183 n), (Z.ltb_spec 247 n); simpl; lia. }
  destruct (Z.ltb_spec n 128); [lia|]. destruct (Z.leb_spec n 183).
  { injection H as <-. exists d. first_byte. rewrite header_small by lia.
    change (sizeZ [_]) with 1. cbn [app]. split; [f_equal; lia|lia]. }
  destruct (Z.ltb_spec n 192).
  { apply explicitLength_inv in H as (x & rest & Hd & Hk & Hl); [|done|lia].
    injection Hd as -> Hd. exists rest. first_byte. rewrite header_big, sizeZ_cons by lia.
    unfold sizeZ. rewrite be_bytes_length. cbn [app]. rewrite Hd. split; [f_equal; lia|lia]. }
  destruct (Z.leb_spec n 247).
  { injection H as <-. exists d. first_byte. rewrite header_small by lia.
    change (sizeZ [_]) with 1. cbn [app]. split; [f_equal; lia|lia]. }
  apply explicitLength_inv in H as (x & rest & Hd & Hk & Hl); [|done|lia].
  injection Hd as -> Hd. exists rest. first_byte. rewrite header_big, sizeZ_cons by lia.
  unfold sizeZ. rewrite be_bytes_length. cbn [app]. rewrite Hd. split; [f_equal; lia|lia].
Qed.

Lemma rlp_length_good d l : d <> [] -> rlp_length d = Ok l -> requireGood d = Ok tt.
Proof.
  intros Hne. destruct d as [|n d]; [done|]. unfold rlp_length. rewrite isNull_cons.
  intros H. apply bind_Ok in H as ([] & Hg & _). done.
Qed.

(** The shape of an exactly sized view. *)
Lemma canonical_shape d :
  wf_bytes d -> d <> [] -> actualSize d = Ok (sizeZ d) ->
  exists p, payload d = Ok p /\ rlp_length d = Ok (sizeZ p) /\
    payloadOffset d + sizeZ p = sizeZ d /\
    if isList d then d = header 192 (sizeZ p) ++ p else d = encode (Str p).
Proof.
  intros Hwf Hne Ha. destruct d as [|n d]; [done|].
  pose proof (Forall_inv Hwf) as Hn. unfold is_byte in Hn.
  destruct (Z.ltb_spec n 128) as [Hs|Hs].
  { pose proof (reads_single n d ltac:(lia)) as [_ _ HL _ Hlen Hoff Hsz].
    assert (encode (Str [n]) = [n]) as He.
    { cbn [encode]. rewrite at_cons_0. change (sizeZ [n]) with 1. by first_byte. }
    rewrite He in *. rewrite Hsz in Ha. assert (sizeZ [n] = sizeZ (n :: d)) as Hd by congruence.
    rewrite (sizeZ_cons n d) in Hd. change (sizeZ [n]) with 1 in Hd. assert (d = []) as -> by (apply sizeZ_0; lia).
    exists [n]. rewrite HL, Hoff, He. split; [|by repeat split].
    unfold payload. rewrite Hlen, Hoff. reflexivity. }
  unfold actualSize, isSingleByte, isData, isList in *. rewrite isNull_cons, at_cons_0 in *. consts.
  cbn [negb andb] in *. rewrite (proj2 (Z.ltb_ge n 128)) in Ha by lia.
  assert ((n <? 192) || (192 <=? n) = true) as E by (destruct (Z.ltb_spec n 192), (Z.leb_spec 192 n); lia || done).
  rewrite E in Ha. apply bind_Ok in Ha as (l & Hl & Ha). injection Ha as Ha.
  pose proof (rlp_length_good _ _ Hne Hl) as Hg.
  destruct (rlp_length_inv n d l Hwf Hs Hl) as (p & Hd & Hoff & Hlr).
  set (imm := if 192 <=? n then 192 else 128) in *.
  assert (sizeZ p = l) as Hp by (rewrite Hoff, Hd, sizeZ_app in Ha; lia).
  exists p. rewrite Hp. split; [|split; [done|split; [lia|]]].
  - unfold payload. rewrite Hl, bind_Ok_l, Hoff, Hd, sizeZ_app, Hp.
    pose proof (sizeZ_nonneg (header imm l)). first_byte. f_equal.
    rewrite <-(app_nil_r p) at 1. apply cropped_mid; lia.
  - unfold imm in *. destruct (Z.leb_spec 192 n); [done|]. subst l.
    destruct ((sizeZ p =? 1) && (at_ p 0 <? 128)) eqn:E1; [|by rewrite encode_Str_header].
    exfalso. apply andb_true_iff in E1 as [E1 E2]. apply Z.eqb_eq in E1. apply Z.ltb_lt in E2.
    rewrite Hd, E1, header_small in Hg by lia. cbn [app] in Hg. unfold requireGood in Hg.
    rewrite isNull_cons, at_cons_0, at_cons_1, sizeZ_cons, E1 in Hg. consts.
    rewrite (proj2 (Z.ltb_lt _ _) E2) in Hg. done.
Qed.

(** Advancing an iterator keeps it within the view. *)
Definition it_inv (d : bytes) (it : iterator) : Prop :=
  exists o, it_ptr it = Some o /\ 0 <= o /\ 0 <= it_count it /\ 0 <= it_remaining it /\
    o + it_count it + it_remaining it = sizeZ d.

Lemma sizeAsEncoded_nonneg d n : wf_bytes d -> sizeAsEncoded d = Ok n -> 0 <= n.
Proof.
  intros Hwf. unfold sizeAsEncoded. intros H. apply bind_Ok in H as (r & Hr & H).
  assert (r = d) as ->.
  { revert Hr. unfold construct. flags. rewrite bind_Ok_l. intros Hr. inv_ok.
    destruct (sizeZ d <? a); [done|]. by injection Hr as <-. }
  unfold actualSize in H. destruct d as [|x d]; [by injection H as <-|].
  pose proof (Forall_inv Hwf) as Hx. unfold is_byte in Hx.
  unfold isSingleByte in H. rewrite isNull_cons, at_cons_0 in H. consts. cbn [negb andb] in H.
  destruct (Z.ltb_spec x 128); [injection H as <-; lia|].
  destruct (_ || _); [|injection H as <-; lia].
  apply bind_Ok in H as (l & Hl & H). injection H as <-.
  destruct (rlp_length_inv x d l Hwf ltac:(lia) Hl) as (rest & _ & -> & Hlr).
  pose proof (sizeZ_nonneg (header (if 192 <=? x then 192 else 128) l)). lia.
Qed.

Lemma cropped_take d n : 0 <= n <= sizeZ d -> sizeZ d < 2 ^ 64 - 1 -> cropped d 0 n = take (Z.to_nat n) d.
Proof. intros. unfold cropped. by first_byte. Qed.

Lemma next_inv d it it' :
  wf_bytes d -> sizeZ d < 2 ^ 64 - 1 -> it_inv d it -> next d it = Ok it' ->
  it_inv d it' /\ it_ptr it' = option_map (fun o => o + it_count it) (it_ptr it).
Proof.
  intros Hwf Hmax (o & Hp & Ho & Hc & Hr & Hsum). unfold next. rewrite Hp. cbn [option_map].
  destruct (Z.eqb_spec (it_remaining it) 0) as [E|E]; cbn [negb]; intros H.
  - injection H as <-. split; [|done]. exists (o + it_count it).
    cbn [it_ptr it_count it_remaining]. repeat split; lia.
  - apply bind_Ok in H as (n & Hn & H). injection H as <-. split; [|done].
    unfold it_bytes in *. cbn [it_ptr it_count] in *.
    set (cur := take _ _) in *.
    assert (sizeZ cur = it_remaining it) as Hcur by (unfold cur; rewrite sizeZ_take, sizeZ_drop; lia).
    pose proof (sizeAsEncoded_le _ _ Hn).
    pose proof (sizeAsEncoded_nonneg cur n ltac:(unfold cur; auto with ele) Hn).
    rewrite cropped_take by lia. exists (o + it_count it).
    cbn [it_ptr it_count it_remaining]. rewrite sizeZ_take. repeat split; lia.
Qed.

(** The items that a completed iteration visited are exactly sized and make up
    the bytes from the start position on. *)
Lemma foreach_inv fuel d it o ret r :
  wf_bytes d -> sizeZ d < 2 ^ 64 - 1 -> it_inv d it -> it_ptr it = Some o ->
  foreach fuel Ok d it ret = Some (Ok r) ->
  exists ls, r = ret ++ ls /\ concat ls = drop (Z.to_nat o) d /\
    Forall (fun x => actualSize x = Ok (sizeZ x)) ls.
Proof.
  intros Hwf Hmax. revert it o ret. induction fuel as [|fuel IH]; intros it o ret Hinv Hp H.
  all: pose proof Hinv as (o' & Hp' & Ho & Hc & Hr & Hsum); rewrite Hp in Hp'; injection Hp' as <-.
  all: cbn [foreach] in H; destruct (it_eqb it (end_ d)) eqn:Eq.
  1, 3: injection H as <-; exists []; rewrite app_nil_r; unfold it_eqb, end_ in Eq;
    rewrite Hp in Eq; cbn [it_ptr it_count] in Eq;
    apply andb_true_iff in Eq as [Eq _]; apply Z.eqb_eq in Eq; split; [done|];
    split; [rewrite drop_ge by (unfold sizeZ in *; lia); done|apply Forall_nil_2].
  - done.
  - destruct (construct _ VeryStrict) as [a|e] eqn:Ec; [|done]. rewrite bind_Ok_l in H.
    apply construct_VeryStrict in Ec as [-> Ec].
    destruct (next d it) as [it'|e] eqn:En; [|done].
    destruct (next_inv d it it' Hwf Hmax Hinv En) as [Hinv' Hp']. rewrite Hp in Hp'.
    destruct (IH it' _ _ Hinv' Hp' H) as (ls & -> & Hcat & Hall).
    exists (it_bytes d it :: ls). rewrite <-app_assoc. split; [done|]. split.
    + cbn [concat]. rewrite Hcat. unfold it_bytes. rewrite Hp, Z2Nat.inj_add by done.
      by rewrite <-drop_drop, take_drop.
    + by constructor.
Qed.

Lemma toList_inv d l :
  wf_bytes d -> sizeZ d < 2 ^ 64 - 1 -> isList d = true -> actualSize d = Ok (sizeZ d) ->
  toList d VeryStrict = Some (Ok l) ->
  exists p, d = header 192 (sizeZ p) ++ p /\ concat l = p /\
    Forall (fun x => actualSize x = Ok (sizeZ x)) l.
Proof.
  intros Hwf Hmax HL Ha H.
  assert (d <> []) as Hne by (by intros ->).
  destruct (canonical_shape d Hwf Hne Ha) as (p & Hpl & Hlen & Hoff & Hshape).
  rewrite HL in Hshape. exists p. split; [done|].
  unfold toList in H. rewrite HL in H. unfold for_range in H.
  destruct (begin_ d) as [it|e] eqn:Eb; [|done].
  unfold begin_ in Eb. rewrite HL, Hlen, bind_Ok_l, Hpl, bind_Ok_l in Eb.
  apply bind_Ok in Eb as (n & Hn & Eb). rewrite (proj2 (Z.leb_le _ _)) in Eb by lia.
  injection Eb as <-.
  assert (wf_bytes p) as Hwp by (rewrite Hshape in Hwf; by apply wf_bytes_app in Hwf as [_ ?]).
  pose proof (sizeAsEncoded_le _ _ Hn). pose proof (sizeAsEncoded_nonneg p n Hwp Hn).
  assert (sizeZ d = sizeZ (header 192 (sizeZ p)) + sizeZ p) as Hsd
    by (rewrite Hshape at 1; apply sizeZ_app).
  assert (payloadOffset d = sizeZ (header 192 (sizeZ p))) as Ho by lia.
  pose proof (sizeZ_nonneg (header 192 (sizeZ p))). pose proof (sizeZ_nonneg p).
  rewrite cropped_take in H by lia.
  apply (foreach_inv _ _ _ (payloadOffset d)) in H as (ls & -> & Hcat & Hall); [|done|done| |done].
  - cbn [app]. split; [|done]. rewrite Hcat, Ho, Hshape at 1. apply drop_sizeZ_app.
  - exists (payloadOffset d). cbn [it_ptr it_count it_remaining]. rewrite sizeZ_take. repeat split; lia.
Qed.

(** Everything the strict reader accepts is the encoding of what it returns. *)
Lemma toItem_canonical fuel d i :
  wf_bytes d -> sizeZ d < 2 ^ 64 - 1 -> actualSize d = Ok (sizeZ d) ->
  toItem fuel d = Ok i -> encode i = d.
Proof.
  revert d i. induction fuel as [|fuel IH]; intros d i Hwf Hmax Ha H; [done|]. cbn [toItem] in H.
  destruct (isList d) eqn:HL.
  - destruct (toList d VeryStrict) as [[l|e]|] eqn:El; [|done..].
    apply bind_Ok in H as (its & His & H). injection H as <-.
    destruct (toList_inv d l Hwf Hmax HL Ha El) as (p & Hd & Hcat & Hall).
    assert (wf_bytes p /\ sizeZ p <= sizeZ d) as [Hwp Hsp].
    { rewrite Hd in Hwf |- *. apply wf_bytes_app in Hwf as [_ ?]. split; [done|].
      rewrite sizeZ_app. pose proof (sizeZ_nonneg (header 192 (sizeZ p))). lia. }
    assert (flat_map encode its = p) as Hfm.
    { rewrite <-Hcat in *. clear El Hd Hcat HL Ha. revert its His. induction l as [|x l IHl]; intros its His.
      - injection His as <-. done.
      - apply Forall_cons_1 in Hall as [Hx Hall]. cbn [mapR concat] in *.
        apply bind_Ok in His as (y & Hy & His). apply bind_Ok in His as (ys & Hys & His).
        injection His as <-. apply wf_bytes_app in Hwp as [Hwx Hwp]. rewrite sizeZ_app in Hsp.
        pose proof (sizeZ_nonneg x). pose proof (sizeZ_nonneg (concat l)).
        cbn [flat_map]. rewrite (IH x y) by (done || lia). f_equal. apply IHl; done || lia. }
    cbn [encode]. rewrite Hfm. done.
  - apply bind_Ok in H as (b & Hb & H). injection H as <-. unfold toBytes in Hb.
    destruct (isData d) eqn:HD; [|done]. cbn [negb] in Hb.
    assert (d <> []) as Hne by (by intros ->).
    destruct (canonical_shape d Hwf Hne Ha) as (p & Hpl & Hlen & _ & Hshape).
    rewrite HL in Hshape. rewrite Hpl, bind_Ok_l, Hlen, bind_Ok_l, Z.eqb_refl in Hb.
    by injection Hb as <-.
Qed.

(** ** Integers *)

Lemma at_be_minimal v :
  0 < v -> 0 < at_ (be_bytes (bytesRequired v) v) 0.
Proof. intros. destruct (be_bytes_minimal_head v) as (b & l & -> & ?); [done|]. rewrite at_cons_0. lia. Qed.

(** Bytes of an integer as the writer emits them. *)
Definition int_item (v : Z) : item := Str (be_bytes (bytesRequired v) v).

Lemma sizeZ_be n v : sizeZ (be_bytes n v) = Z.of_nat n.
Proof. unfold sizeZ. by rewrite be_bytes_length. Qed.

Lemma bytesRequired_1 v : 0 < v < 256 -> bytesRequired v = 1%nat.
Proof.
  intros. pose proof (bytesRequired_pos v ltac:(lia)).
  pose proof (bytesRequired_le v 1 ltac:(simpl; lia)). lia.
Qed.

Lemma encode_int_small v : 0 < v < 128 -> encode (int_item v) = [v].
Proof.
  intros. unfold int_item. rewrite bytesRequired_1 by lia. cbn [be_bytes app encode].
  rewrite Z.mod_small, at_cons_0 by lia. change (sizeZ [v]) with 1. by first_byte.
Qed.

Lemma encode_int_big v :
  128 <= v ->
  encode (int_item v)
  = header 128 (Z.of_nat (bytesRequired v)) ++ be_bytes (bytesRequired v) v.
Proof.
  intros. unfold int_item. rewrite encode_Str_header; rewrite sizeZ_be; [done|].
  destruct (Z.eqb_spec (Z.of_nat (bytesRequired v)) 1) as [E|]; [|done].
  assert (bytesRequired v = 1%nat) as E1 by lia. rewrite E1. cbn [be_bytes app andb].
  destruct (bytesRequired_spec v) as [Hlt _]; [lia|]. rewrite E1 in Hlt. simpl in Hlt.
  rewrite at_cons_0, Z.mod_small by lia. apply Z.ltb_ge. lia.
Qed.

Lemma appendInt_spec s v :
  0 <= v -> Z.of_nat (bytesRequired v) < 2 ^ 64 ->
  RLPStream.appendInt s v
  = RLPStream.noteAppended_loop (RLPStream.m_out s ++ encode (int_item v)) (RLPStream.m_listStack s) 1.
Proof.
  intros Hv Hbr. unfold RLPStream.appendInt.
  destruct (Z.eqb_spec v 0) as [->|]; [done|].
  change c_rlpDataImmLenStart with 128. change c_rlpDataImmLenCount with 56.
  change c_rlpDataIndLenZero with 183.
  destruct (Z.ltb_spec v 128).
  { rewrite bind_Ok_l, encode_int_small, wrap_id by (unfold fits; lia). done. }
  pose proof (bytesRequired_pos v ltac:(lia)). rewrite encode_int_big by done.
  destruct (Z.ltb_spec (Z.of_nat (bytesRequired v)) 56) as [Hs|Hs].
  - rewrite !bind_Ok_l. unfold RLPStream.noteAppended, RLPStream.pushInt. simpl.
    rewrite intBytes_spec, header_small, wrap_id by (done || (unfold fits; lia)).
    rewrite <-app_assoc, (Z.add_comm (Z.of_nat _)). done.
  - pose proof (bytesRequired_u64 (Z.of_nat (bytesRequired v)) ltac:(lia)).
    destruct (Z.ltb_spec 255 (183 + Z.of_nat (bytesRequired (Z.of_nat (bytesRequired v))))); [lia|].
    rewrite !bind_Ok_l. unfold RLPStream.noteAppended, RLPStream.pushInt. simpl.
    rewrite !intBytes_spec, header_big, wrap_id by (done || (unfold fits; lia)).
    rewrite <-!app_assoc. done.
Qed.

Lemma int_item_ok w v :
  0 <= w <= 64 -> 0 <= v < 2 ^ (8 * w) ->
  wf_item (int_item v) /\ fitsItem (int_item v) /\ Z.of_nat (bytesRequired v) <= w.
Proof.
  intros Hw Hv. assert (bytesRequired v <= Z.to_nat w)%nat as Hbr.
  { apply bytesRequired_le. rewrite Z2Nat.id, pow256_pow2 by lia. done. }
  split; [apply be_bytes_wf|]. split; [|lia].
  unfold fitsItem. destruct (Z.ltb_spec v 128).
  - destruct (Z.eq_dec v 0) as [->|]; [done|]. rewrite encode_int_small by lia.
    change (sizeZ [v]) with 1. lia.
  - rewrite encode_int_big, sizeZ_app, sizeZ_be by done.
    unfold header. destruct (Z.ltb_spec (Z.of_nat (bytesRequired v)) 56).
    + change (sizeZ [_]) with 1. lia.
    + rewrite sizeZ_cons, sizeZ_be.
      pose proof (bytesRequired_u64 (Z.of_nat (bytesRequired v)) ltac:(lia)). lia.
Qed.

Lemma isInt_encode v w :
  0 <= w <= 32 -> 0 <= v < 2 ^ (8 * w) -> isInt (encode (int_item v)) = Ok true.
Proof.
  intros Hw Hv. destruct (int_item_ok w v ltac:(lia) Hv) as (Hwf & Hfit & Hbr).
  destruct (reads_exact _ Hwf Hfit) as [Hnull Hgood _ _ _ _ _].
  unfold isInt. rewrite Hnull, Hgood, bind_Ok_l. consts.
  destruct (Z.eq_dec v 0) as [->|]; [done|].
  destruct (Z.ltb_spec v 128).
  { rewrite encode_int_small, at_cons_0 by lia. by first_byte. }
  pose proof (bytesRequired_pos v ltac:(lia)). pose proof (at_be_minimal v ltac:(lia)).
  rewrite encode_int_big, header_small by lia. cbn [app].
  rewrite at_cons_0, at_cons_1, sizeZ_cons, sizeZ_be. by first_byte.
Qed.

Lemma toInt_encode v w flags :
  0 <= w <= 32 -> 0 <= v < 2 ^ (8 * w) ->
  toInt (Some (8 * w)) (encode (int_item v)) flags = Ok v.
Proof.
  intros Hw Hv. destruct (int_item_ok w v ltac:(lia) Hv) as (Hwf & Hfit & Hbr).
  destruct (reads_exact _ Hwf Hfit) as [Hnull Hgood HL _ _ _ _].
  unfold toInt. rewrite Hgood, bind_Ok_l, (isInt_encode v w), bind_Ok_l, HL, Hnull by done.
  cbn [negb andb orb is_Lst int_item].
  rewrite payload_exact, bind_Ok_l by done. cbn [payload_of int_item].
  rewrite sizeZ_be. unfold maxSize. rewrite Z.mul_comm, Z.div_mul by lia.
  rewrite (proj2 (Z.ltb_ge _ _) Hbr). cbn [andb]. f_equal.
  rewrite fromBigEndian_spec, be_value_be_bytes by (apply be_bytes_wf || lia).
  destruct (bytesRequired_spec v) as [Hlt _]; [lia|].
  rewrite Z.mod_small by lia. apply wrap_id. unfold fits. by rewrite Z.mul_comm.
Qed.

(** ** Records as lists of scalar items

    The serialisers of the clients open a list with its length and append
    integers and byte strings; the parsers index the list. *)

Lemma appendInt_item s v w : 0 <= w <= 32 -> 0 <= v < 2 ^ (8 * w) ->
  RLPStream.appendInt s v = appendItem s (int_item v).
Proof.
  intros Hw Hv. destruct (int_item_ok w v ltac:(lia) Hv) as (Hwf & Hfit & Hbr).
  rewrite appendInt_spec by lia. rewrite appendItem_writes; [done|]. unfold fitsItem in Hfit. lia.
Qed.

(** What a serialiser of the items [l] leaves in the stream's buffer *)
Lemma stream_items l : l <> [] -> fitsItem (Lst l) ->
  (s ← RLPStream.appendList RLPStream.empty (sizeZ l); s' ← appendItems s l; RLPStream.out s')
  = Ok (encode (Lst l)).
Proof.
  intros Hl Hf. unfold fitsItem in Hf. pose proof (appendItem_writes (Lst l) RLPStream.empty) as Hw.
  cbn [appendItem] in Hw. fold appendItems in Hw. rewrite <-bind_assoc, Hw by lia. done.
Qed.

Lemma field_ok l o i x :
  wf_item (Lst l) -> fitsItem (Lst l) -> cache_ok l o -> l !! Z.to_nat i = Some x -> 0 <= i < 2 ^ 32 ->
  exists o', field i o = Ok (encode x, o') /\ cache_ok l o'.
Proof.
  intros Hw Hf Hc Hx Hi. destruct (index_ok l o i Hw Hf Hc) as (o' & Ho & Hc').
  { unfold size_max. lia. }
  exists o'. unfold field. rewrite Ho. unfold item_bytes. by rewrite Hx.
Qed.

Lemma header_size imm n : 0 <= n < 2 ^ 64 -> sizeZ (header imm n) <= 9.
Proof.
  intros Hn. unfold header. destruct (_ <? _); [change (sizeZ [_]) with 1; lia|].
  rewrite sizeZ_cons, sizeZ_be. pose proof (bytesRequired_u64 n Hn). lia.
Qed.

Lemma encode_Str_size b : sizeZ b < 2 ^ 64 -> sizeZ (encode (Str b)) <= sizeZ b + 9.
Proof.
  intros Hl. cbn [encode]. pose proof (sizeZ_nonneg b). destruct (_ && _); [lia|].
  rewrite sizeZ_app. pose proof (header_size 128 (sizeZ b)). lia.
Qed.

Lemma encode_int_size v : fits 256 v -> sizeZ (encode (int_item v)) <= 41.
Proof.
  intros Hv. destruct (int_item_ok 32 v ltac:(lia) Hv) as (_ & _ & Hbr). unfold int_item in *.
  etrans; [apply encode_Str_size|]; rewrite sizeZ_be; lia.
Qed.

(** A record whose items are small is well formed and short enough to be parsed. *)
Lemma small_items l :
  Forall (fun i => wf_item i /\ sizeZ (encode i) < 2 ^ 40) l -> sizeZ l < 2 ^ 20 ->
  wf_item (Lst l) /\ fitsItem (Lst l).
Proof.
  intros Hl Hn. split.
  { apply wf_item_Lst. eapply Forall_impl; [|exact Hl]. by intros i [? _]. }
  assert (sizeZ (flat_map encode l) <= 2 ^ 40 * sizeZ l) as Hs.
  { clear Hn. induction Hl as [|i l [_ Hi] Hl IH]; [done|]. rewrite sizeZ_flat_map_cons, sizeZ_cons. lia. }
  unfold fitsItem. cbn [encode]. rewrite sizeZ_app. pose proof (sizeZ_nonneg (flat_map encode l)).
  pose proof (header_size 192 (sizeZ (flat_map encode l))). lia.
Qed.

Lemma small_int v : fits 256 v -> wf_item (int_item v) /\ sizeZ (encode (int_item v)) < 2 ^ 40.
Proof.
  intros Hv. destruct (int_item_ok 32 v ltac:(lia) Hv) as (Hw & _ & _).
  pose proof (encode_int_size v Hv). split; [done|lia].
Qed.

Lemma small_Str b : wf_bytes b -> sizeZ b < 2 ^ 32 -> wf_item (Str b) /\ sizeZ (encode (Str b)) < 2 ^ 40.
Proof. intros Hb Hl. pose proof (encode_Str_size b). split; [done|lia]. Qed.

Lemma toBytes_encode b flags :
  wf_bytes b -> sizeZ b < 2 ^ 32 -> toBytes (encode (Str b)) flags = Ok b /\ isData (encode (Str b)) = true.
Proof.
  intros Hb Hl. assert (fitsItem (Str b)) as Hf.
  { unfold fitsItem. pose proof (encode_Str_size b). lia. }
  destruct (reads_exact (Str b) Hb Hf) as [_ _ _ HD HL _ _]. unfold toBytes. rewrite HD.
  cbn [is_Lst negb payload_of] in *. rewrite payload_exact, bind_Ok_l, HL, bind_Ok_l by done.
  cbn [payload_of]. by rewrite Z.eqb_refl.
Qed.

Lemma toHash_encode N h flags :
  wf_bytes h -> sizeZ h = N -> N < 2 ^ 32 -> toHash N (encode (Str h)) flags = Ok h.
Proof.
  intros Hh Hn HN.
  assert (fitsItem (Str h)) as Hf.
  { unfold fitsItem. pose proof (encode_Str_size h). lia. }
  destruct (reads_exact (Str h) Hh Hf) as [Hnull Hgood HL HD _ _ _].
  unfold toHash. rewrite Hgood, bind_Ok_l, payload_exact, bind_Ok_l by done. cbn [payload_of].
  rewrite Hn. rewrite Z.ltb_irrefl. rewrite HD. cbn [is_Lst negb orb andb].
  rewrite Z.min_id, Z.sub_diag. cbn [replicate Z.to_nat app]. f_equal. apply take_ge.
  unfold sizeZ in Hn. lia.
Qed.

Lemma encode_not_nil i : encode i <> [].
Proof. intros E. pose proof (encode_nonempty i) as Hn. rewrite E in Hn. done. Qed.

Lemma header_wf imm n : imm = 128 \/ imm = 192 -> 0 <= n < 2 ^ 64 - 257 -> wf_bytes (header imm n).
Proof.
  intros Hi Hn. unfold header. destruct (Z.ltb_spec n 56).
  - apply Forall_cons_2; [unfold is_byte; lia|by apply Forall_nil_2].
  - pose proof (bytesRequired_u64 n ltac:(lia)).
    apply Forall_cons_2; [unfold is_byte; lia|apply be_bytes_wf].
Qed.

Lemma encode_wf i : wf_item i -> fitsItem i -> wf_bytes (encode i).
Proof.
  unfold fitsItem. induction i as [b|l IH] using item_nested_ind; intros Hw Hf.
  - cbn [encode wf_item] in *. destruct (_ && _); [done|]. apply wf_bytes_app. split; [|done].
    rewrite sizeZ_app in Hf. pose proof (sizeZ_nonneg b).
    pose proof (sizeZ_nonneg (header 128 (sizeZ b))). apply header_wf; lia.
  - pose proof (sizeZ_encode_Lst l). apply wf_item_Lst in Hw.
    assert (sizeZ (flat_map encode l) < 2 ^ 64 - 257) as Hp by lia.
    pose proof (fitsItem_members l Hp) as Hm. cbn [encode]. apply wf_bytes_app.
    pose proof (sizeZ_nonneg (flat_map encode l)). split; [by apply header_wf; [right|]|].
    clear Hf Hp. induction l as [|x l IHl]; [by apply Forall_nil_2|]. cbn [flat_map].
    apply Forall_cons_1 in IH as [Hx IH], Hw as [Hwx Hw], Hm as [Hmx Hm].
    apply wf_bytes_app. split; [by apply Hx|]. apply IHl; try done.
    + by apply sizeZ_encode_Lst.
    + apply sizeZ_nonneg.
Qed.

(** *** A list of [n] items while it is being written

    Clients open a list with [appendList(n)] and append its items one by one, each
    as data or as a finished encoding. *)

Definition listStream (n : Z) (l : list item) : RLPStream.t :=
  if sizeZ l <? n then RLPStream.mk (flat_map encode l) [(n - sizeZ l, 0)]
  else RLPStream.mk (encode (Lst l)) [].

Lemma listStream_open n : 0 < n -> RLPStream.appendList RLPStream.empty n = Ok (listStream n []).
Proof.
  intros Hn. unfold RLPStream.appendList, listStream. change (sizeZ (@nil item)) with 0.
  destruct (Z.eqb_spec n 0); [lia|]. destruct (Z.ltb_spec 0 n); [|lia]. cbn. by rewrite Z.sub_0_r.
Qed.

Lemma listStream_note n l x :
  sizeZ l < n -> sizeZ (flat_map encode (l ++ [x])) < 2 ^ 64 ->
  RLPStream.noteAppended_loop (RLPStream.m_out (listStream n l) ++ encode x)
    (RLPStream.m_listStack (listStream n l)) 1 = Ok (listStream n (l ++ [x])).
Proof.
  intros Hl Hs. unfold listStream at 1 2. destruct (Z.ltb_spec (sizeZ l) n); [|lia].
  cbn [RLPStream.m_out RLPStream.m_listStack RLPStream.noteAppended_loop].
  destruct (Z.ltb_spec (n - sizeZ l) 1); [lia|]. unfold listStream.
  rewrite (sizeZ_app l [x]). change (sizeZ [x]) with 1.
  rewrite flat_map_app in Hs |- *. cbn [flat_map] in Hs |- *. rewrite app_nil_r in Hs |- *.
  destruct (Z.eqb_spec (n - sizeZ l - 1) 0); cbn [negb]; destruct (Z.ltb_spec (sizeZ l + 1) n); try lia.
  - rewrite Z.sub_0_r, listHeader_spec by (pose proof (sizeZ_nonneg (flat_map encode l ++ encode x)); lia).
    rewrite bind_Ok_l. cbn [take drop Z.to_nat app]. cbn [encode].
    by rewrite flat_map_app; cbn [flat_map]; rewrite app_nil_r.
  - do 4 f_equal. lia.
Qed.

Lemma listStream_append n l b :
  sizeZ l < n -> sizeZ b < 2 ^ 64 -> sizeZ (flat_map encode (l ++ [Str b])) < 2 ^ 64 ->
  RLPStream.append (listStream n l) b false = Ok (listStream n (l ++ [Str b])).
Proof. intros Hl Hb Hs. rewrite append_spec by done. by apply listStream_note. Qed.

Lemma listStream_raw n l x :
  sizeZ l < n -> sizeZ (flat_map encode (l ++ [x])) < 2 ^ 64 ->
  RLPStream.appendRaw (listStream n l) (encode x) 1 = Ok (listStream n (l ++ [x])).
Proof. intros Hl Hs. unfold RLPStream.appendRaw, RLPStream.noteAppended. cbn [Z.eqb]. by apply listStream_note. Qed.

Lemma listStream_out n l : sizeZ l = n -> RLPStream.out (listStream n l) = Ok (encode (Lst l)).
Proof. intros Hl. unfold listStream. destruct (Z.ltb_spec (sizeZ l) n); [lia|done]. Qed.

(** ** Properties *)

(** C7: writing an item tree and reading it back: the stream ends with an empty
    list stack and the reference encoding, the strict reader accepts it, and
    the traversal returns the tree. *)
Theorem rlp_roundtrip (i : item) (Hwf : wf_item i) (Hfit : fitsItem i) :
  (s ← appendItem RLPStream.empty i; RLPStream.out s) = Ok (encode i) /\
  construct (encode i) VeryStrict = Ok (encode i) /\
  toItem (depth i) (encode i) = Ok i.
Proof.
  split; [|split].
  - rewrite (appendItem_writes i) by (unfold fitsItem in Hfit; lia). done.
  - by apply construct_exact.
  - by apply toItem_encode.
Qed.

Lemma rlp_roundtrip_witness :
  let i := Lst [Str [1; 2; 3]; Lst []; Str (replicate 60 7); Lst [Str [127]; Str [128]; Str []]] in
  (s ← appendItem RLPStream.empty i; RLPStream.out s) = Ok (encode i) /\
  construct (encode i) VeryStrict = Ok (encode i) /\
  toItem (depth i) (encode i) = Ok i.
Proof.
  apply (rlp_roundtrip (Lst [Str [1; 2; 3]; Lst []; Str (replicate 60 7);
    Lst [Str [127]; Str [128]; Str []]])).
  - cbn [wf_item]; repeat split; decide_closed.
  - vm_compute. reflexivity.
Defined.

(** C37: inside any stack of open lists, building an item piece by piece has the
    same effect as appending its finished encoding as one raw item: headers
    are inserted in front of completed lists at every level. *)
Theorem stream_builds_encoding (s : RLPStream.t) (i : item)
    (Hsize : sizeZ (encode i) < 2 ^ 64) :
  appendItem s i = RLPStream.appendRaw s (encode i) 1.
Proof. by rewrite (appendItem_writes i). Qed.

Lemma stream_builds_encoding_witness :
  let s := RLPStream.mk [9; 9] [(1, 1); (2, 0)] in
  let i := Lst [Str [5]; Lst [Str [200; 1]]] in
  appendItem s i = RLPStream.appendRaw s (encode i) 1.
Proof. intros s i. apply (stream_builds_encoding s i). vm_compute. reflexivity. Defined.

(** C36: the strict reader accepts canonical encodings only: whatever it
    constructs and traverses without an exception re-encodes to the same
    bytes, so two different byte strings never read as the same value. *)
Theorem strict_reader_canonical (fuel : nat) (d : bytes) (i : item)
    (Hwf : wf_bytes d) (Hsize : sizeZ d < 2 ^ 64 - 1)
    (Hcons : construct d VeryStrict = Ok d) (Hread : toItem fuel d = Ok i) :
  encode i = d.
Proof.
  apply construct_VeryStrict in Hcons as [_ Ha]. by apply (toItem_canonical fuel d i).
Qed.

Lemma strict_reader_canonical_witness : encode (Lst [Str [1]; Str [131; 5]]) = [196; 1; 130; 131; 5].
Proof.
  apply (strict_reader_canonical 3 [196; 1; 130; 131; 5] (Lst [Str [1]; Str [131; 5]])).
  - decide_closed.
  - vm_compute. reflexivity.
  - vm_compute. reflexivity.
  - vm_compute. reflexivity.
Defined.

(** [operator[]] with its cache of the last position returns the item that
    an uncached walk of the list gives, in whatever order the indices are
    asked for, and the null item beyond the end. *)
Theorem index_cache_transparent (l : list item) (is_ : list Z)
    (Hwf : wf_item (Lst l)) (Hfit : fitsItem (Lst l))
    (His : Forall (fun i => 0 <= i < size_max) is_) :
  snd (fold_left (fun '(o, rs) i => let '(o', r) := index o i in (o', rs ++ [r])) is_
         (mk (encode (Lst l)), []))
  = map (fun i => Ok (item_bytes l i)) is_.
Proof.
  enough (forall o rs, cache_ok l o ->
    snd (fold_left (fun '(o, rs) i => let '(o', r) := index o i in (o', rs ++ [r])) is_ (o, rs))
    = rs ++ map (fun i => Ok (item_bytes l i)) is_) as H by (apply (H _ []), cache_fresh).
  induction is_ as [|i is_ IH]; intros o rs Hc; [by rewrite app_nil_r|].
  apply Forall_cons_1 in His as [Hi His]. cbn [fold_left map].
  destruct (index_ok l o i Hwf Hfit Hc Hi) as (o' & -> & Hc').
  rewrite IH by done. by rewrite <-app_assoc.
Qed.

Lemma index_cache_transparent_witness :
  let l := [Str [1]; Lst [Str [2]]; Str [3; 4]] in
  snd (fold_left (fun '(o, rs) i => let '(o', r) := index o i in (o', rs ++ [r])) [2; 0; 1; 7; 2]
         (mk (encode (Lst l)), []))
  = map (fun i => Ok (item_bytes l i)) [2; 0; 1; 7; 2].
Proof.
  apply (index_cache_transparent [Str [1]; Lst [Str [2]]; Str [3; 4]] [2; 0; 1; 7; 2]).
  - cbn [wf_item]; repeat split; decide_closed.
  - vm_compute. reflexivity.
  - decide_closed.
Defined.

(** An unsigned integer of up to 256 bits survives [append] and
    [toInt<T>] at every width that holds it, in every strictness mode. *)
Theorem int_roundtrip (v w flags : Z) (Hw : 0 <= w <= 32) (Hv : 0 <= v < 2 ^ (8 * w)) :
  exists d, (s ← RLPStream.appendInt RLPStream.empty v; RLPStream.out s) = Ok d /\
    toInt (Some (8 * w)) d flags = Ok v.
Proof.
  exists (encode (int_item v)). split; [|by apply toInt_encode].
  destruct (int_item_ok w v ltac:(lia) Hv) as (_ & _ & Hbr).
  rewrite appendInt_spec by lia. done.
Qed.

Lemma int_roundtrip_witness :
  exists d, (s ← RLPStream.appendInt RLPStream.empty (2 ^ 200 + 5); RLPStream.out s) = Ok d /\
    toInt (Some (8 * 32)) d Strict = Ok (2 ^ 200 + 5).
Proof. apply (int_roundtrip (2 ^ 200 + 5) 32 Strict); lia. Defined.

(** Counting and iterating a well-formed list terminate within as many
    steps as the list has bytes, and agree with each other. *)
Theorem list_traversal_terminates (l : list item) (flags : Z)
    (Hwf : wf_item (Lst l)) (Hfit : fitsItem (Lst l)) :
  items (encode (Lst l)) = Some (Ok (sizeZ l)) /\
  toList (encode (Lst l)) flags = Some (Ok (map encode l)).
Proof. split; [by apply items_encode|by apply toList_encode]. Qed.

Lemma list_traversal_terminates_witness :
  let l := [Str [1]; Str [255; 255]; Lst []] in
  items (encode (Lst l)) = Some (Ok (sizeZ l)) /\
  toList (encode (Lst l)) Strict = Some (Ok (map encode l)).
Proof.
  apply (list_traversal_terminates [Str [1]; Str [255; 255]; Lst []] Strict).
  - cbn [wf_item]; repeat split; decide_closed.
  - vm_compute. reflexivity.
Defined.

(** A list view with trailing bytes, which the reader constructs when
    [FailIfTooBig] is not given: the iterator never meets [end()], which is
    computed from the size of the view. *)
Lemma iteration_over_slack_diverges fuel :
  construct [192; 0] (Z.lor ThrowOnFail FailIfTooSmall) = Ok [192; 0] /\
  exists it, begin_ [192; 0] = Ok it /\ foreach fuel Ok [192; 0] it [] = None.
Proof.
  split; [reflexivity|]. exists (mk_iter (Some 1) 0 0). split; [reflexivity|].
  generalize ([] : list bytes) as ret. induction fuel as [|f IH]; intros ret; [reflexivity|].
  change (foreach (S f) Ok [192; 0] (mk_iter (Some 1) 0 0) ret)
    with (foreach f Ok [192; 0] (mk_iter (Some 1) 0 0) (ret ++ [[]])).
  apply IH.
Qed.

(** A count of [~size_t(0)] gives an empty view, not the rest of the data. *)
Lemma cropped_npos (d : bytes) (begin : Z) :
  sizeZ d < size_max -> cropped d begin size_max = [].
Proof.
  intros H. unfold cropped. destruct (Z.leb_spec size_max (sizeZ d)); [lia|].
  by rewrite andb_false_r.
Qed.
