(* ===== verification/FixedHash.v ===== *)
(** * libdevcore/FixedHash.h

    Fixed-size byte arrays: conversion to and from integers, alignment,
    bitwise operators, big-endian increment and order, Bloom-filter
    projections, and the operators of [SecureFixedHash].  A [FixedHash<N>] is a
    list of [N] bytes. *)

From Stdlib Require Import ZArith Lia.
From stdpp Require Import base list option.
From S2P Require Import Prelude CommonData.

Definition wf_hash (N : nat) (h : bytes) : Prop := length h = N /\ wf_bytes h.

#[export] Instance wf_hash_dec N h : Decision (wf_hash N h).
Proof. unfold wf_hash. apply _. Defined.

Inductive ConstructFromHashType := AlignLeft | AlignRight | FailIfDifferent.

Definition zeroHash (N : nat) : bytes := replicate N 0.

(** [FixedHash(Arith const&)], [operator Arith()]. *)
Definition ofArith (N : nat) (v : Z) : bytes := toBigEndian N v.
Definition toArith (h : bytes) : Z := fromBigEndian (8 * sizeZ h) h.

(** [for (unsigned i = 0; i < c; ++i) m_data[...] = _b[...]] with the source
    and the destination aligned on the left or on the right. *)
Definition alignCopy (N : nat) (b : bytes) (right : bool) : bytes :=
  let c := Nat.min (length b) N in
  if right then replicate (N - c) 0 ++ drop (length b - c) b
  else take c b ++ replicate (N - c) 0.

(** Construction from another hash. *)
Definition ofHash (N : nat) (h : bytes) (t : ConstructFromHashType) : bytes :=
  alignCopy N h (match t with AlignRight => true | _ => false end).

(** Construction from a byte array. *)
Definition ofBytes (N : nat) (b : bytes) (t : ConstructFromHashType) : bytes :=
  if Nat.eqb (length b) N then b
  else match t with
       | FailIfDifferent => zeroHash N
       | AlignLeft => alignCopy N b false
       | AlignRight => alignCopy N b true
       end.

(** [explicit operator bool]. *)
Definition nonzero (h : bytes) : bool := existsb (fun b => negb (b =? 0)) h.

Definition eqb (a b : bytes) : bool := bool_decide (a = b).

Fixpoint ltb (a c : bytes) : bool :=
  match a, c with
  | x :: a', y :: c' => if x <? y then true else if y <? x then false else ltb a' c'
  | _, _ => false
  end.

Definition xor_ (a c : bytes) : bytes := zip_with Z.lxor a c.
Definition or_ (a c : bytes) : bytes := zip_with Z.lor a c.
Definition and_ (a c : bytes) : bytes := zip_with Z.land a c.
Definition not_ (a : bytes) : bytes := map (fun b => u8 (Z.lnot b)) a.

(** [for (unsigned i = size; i > 0 && !++m_data[--i]; ) {}], on the reversed
    array. *)
Fixpoint incr_rev (r : bytes) : bytes :=
  match r with
  | [] => []
  | b :: r' => let b' := u8 (b + 1) in if b' =? 0 then b' :: incr_rev r' else b' :: r'
  end.

Definition incr (h : bytes) : bytes := rev (incr_rev (rev h)).

Definition contains (h c : bytes) : bool := eqb (and_ h c) c.

(** [bloomPart<P, M>]. *)
Definition bloomBytes (M : nat) : nat := Z.to_nat ((Z.log2 (Z.of_nat M * 8) + 7) / 8).

Definition setBit (ret : bytes) (M : nat) (index : Z) : bytes :=
  let pos := (M - 1 - Z.to_nat (index / 8))%nat in
  match ret !! pos with
  | Some b => <[pos := Z.lor b (u8 (Z.shiftl 1 (index mod 8)))]> ret
  | None => ret
  end.

Fixpoint bloomPart_loop (P M : nat) (p : bytes) (ret : bytes) : bytes :=
  match P with
  | O => ret
  | S P' =>
      let k := bloomBytes M in
      let index := fold_left (fun index b => u32 (Z.lor (Z.shiftl index 8) b)) (take k p) 0 in
      bloomPart_loop P' M (drop k p) (setBit ret M (Z.land index (Z.of_nat M * 8 - 1)))
  end.

Definition bloomPart (P M : nat) (h : bytes) : bytes := bloomPart_loop P M h (zeroHash M).

Definition shiftBloom (P : nat) (b h : bytes) : bytes := or_ b (bloomPart P (length b) h).
Definition containsBloom (P : nat) (b h : bytes) : bool := contains b (bloomPart P (length b) h).

(** [firstBitSet]: the inner loop runs on a non-zero byte and stops within
    eight steps. *)
Fixpoint firstBit (fuel : nat) (ret d : Z) : Z :=
  match fuel with
  | O => ret
  | S f => if negb (Z.land d 128 =? 0) then ret else firstBit f (ret + 1) (u8 (Z.shiftl d 1))
  end.

Fixpoint firstBitSet_from (ret : Z) (h : bytes) : Z :=
  match h with
  | [] => ret
  | d :: h' => if negb (d =? 0) then firstBit 8 ret d else firstBitSet_from (ret + 8) h'
  end.

Definition firstBitSet (h : bytes) : Z := firstBitSet_from 0 h.

Definition right160 (h : bytes) : bytes := take 20 (drop 12 h).
Definition left160 (h : bytes) : bytes := take 20 h.

(** ** SecureFixedHash: the compound operators as they are written. *)
Module SecureFixedHash.
Definition xor_assign (a c : bytes) : bytes := xor_ a c.
Definition or_assign (a c : bytes) : bytes := xor_ a c.
Definition and_assign (a c : bytes) : bytes := xor_ a c.
End SecureFixedHash.

(** ** Lemmas *)

(** A boolean property of bytes by checking the 256 values. *)
Lemma byte_check (f : Z -> bool) :
  forallb f (map Z.of_nat (seq 0 256)) = true -> forall b, is_byte b -> f b = true.
Proof.
  unfold is_byte. intros H b Hb. rewrite forallb_forall in H. apply H.
  apply in_map_iff. exists (Z.to_nat b). rewrite Z2Nat.id by lia. split; [done|].
  apply in_seq. lia.
Qed.

Lemma lor_byte a b : is_byte a -> is_byte b -> is_byte (Z.lor a b).
Proof.
  unfold is_byte. intros Ha Hb. split; [apply Z.lor_nonneg; lia|].
  destruct (Z.eq_dec (Z.lor a b) 0) as [->|]; [lia|].
  apply Z.log2_lt_cancel. rewrite Z.log2_lor by lia. change (Z.log2 256) with 8.
  assert (forall x, 0 <= x < 256 -> Z.log2 x < 8) as Hl.
  { intros x Hx. destruct (Z.eq_dec x 0) as [->|]; [simpl; lia|]. apply Z.log2_lt_pow2; lia. }
  pose proof (Hl a Ha). pose proof (Hl b Hb). lia.
Qed.

Lemma length_or a c : length a = length c -> length (or_ a c) = length a.
Proof. intros. unfold or_. rewrite length_zip_with. lia. Qed.

Lemma contains_or_l a b c : contains a c = true -> length b = length a -> contains (or_ a b) c = true.
Proof.
  unfold contains, eqb. rewrite !bool_decide_eq_true. unfold and_, or_.
  revert b c. induction a as [|x a IH]; intros [|y b] [|z c] H Hl; simpl in *; try done.
  injection H as H1 H2. f_equal.
  - apply Z.bits_inj'. intros n Hn. apply (f_equal (fun v => Z.testbit v n)) in H1.
    rewrite Z.land_spec in *. rewrite Z.lor_spec.
    destruct (Z.testbit x n), (Z.testbit y n), (Z.testbit z n); done.
  - apply IH; [done|lia].
Qed.

Lemma contains_or_r a c : length a = length c -> contains (or_ a c) c = true.
Proof.
  unfold contains, eqb. rewrite bool_decide_eq_true. unfold and_, or_.
  revert c. induction a as [|x a IH]; intros [|z c] Hl; simpl in *; try done.
  f_equal; [|apply IH; lia].
  apply Z.bits_inj'. intros n Hn. rewrite Z.land_spec, Z.lor_spec.
  by destruct (Z.testbit x n), (Z.testbit z n).
Qed.

Lemma setBit_length ret M i : length (setBit ret M i) = length ret.
Proof. unfold setBit. destruct (ret !! _); [|done]. by rewrite length_insert. Qed.

Lemma bloomPart_length P M h : length (bloomPart P M h) = M.
Proof.
  unfold bloomPart. assert (length (zeroHash M) = M) as Hz by apply length_replicate.
  revert Hz. generalize (zeroHash M) as ret. revert h.
  induction P as [|P IH]; intros h ret Hr; [done|]. cbn [bloomPart_loop].
  apply IH. by rewrite setBit_length.
Qed.

Lemma ltb_spec a c :
  wf_bytes a -> wf_bytes c -> length a = length c -> ltb a c = (be_value a <? be_value c).
Proof.
  revert c. induction a as [|x a IH]; intros [|y c] Ha Hc Hl; simpl in Hl; try lia; [done|].
  pose proof (be_value_bounds a) as Ba. pose proof (be_value_bounds c) as Bc.
  apply Forall_cons_1 in Ha as [Hx Ha]. apply Forall_cons_1 in Hc as [Hy Hc].
  specialize (Ba Ha). specialize (Bc Hc). unfold is_byte in *.
  assert (sizeZ a = sizeZ c) as Hs by (unfold sizeZ; lia). cbn [ltb be_value]. rewrite Hs in *.
  set (K := 256 ^ sizeZ c) in *.
  destruct (Z.ltb_spec x y) as [Hxy|Hxy].
  - symmetry. apply Z.ltb_lt. assert ((x + 1) * K <= y * K) by (apply Z.mul_le_mono_nonneg_r; lia). lia.
  - destruct (Z.ltb_spec y x) as [Hyx|Hyx].
    + symmetry. apply Z.ltb_ge. assert ((y + 1) * K <= x * K) by (apply Z.mul_le_mono_nonneg_r; lia). lia.
    + assert (x = y) as -> by lia. rewrite IH by (done || lia).
      destruct (Z.ltb_spec (be_value a) (be_value c)), (Z.ltb_spec (y * K + be_value a) (y * K + be_value c)); lia || done.
Qed.

Lemma incr_rev_spec r :
  wf_bytes r ->
  wf_bytes (incr_rev r) /\ length (incr_rev r) = length r /\
  be_value (rev (incr_rev r)) = (be_value (rev r) + 1) mod 256 ^ sizeZ r.
Proof.
  induction r as [|b r IH]; intros H.
  - simpl. change (sizeZ []) with 0. rewrite Z.mod_1_r. done.
  - apply Forall_cons_1 in H as [Hb Hr]. destruct (IH Hr) as (Hw & Hl & Hv).
    pose proof (be_value_bounds (rev r)) as Bv. specialize (Bv ltac:(by apply Forall_rev)).
    assert (sizeZ (rev r) = sizeZ r) as Hsr by (unfold sizeZ; by rewrite length_rev).
    rewrite Hsr in Bv. pose proof (sizeZ_nonneg r). unfold is_byte in Hb.
    cbn [incr_rev rev]. rewrite sizeZ_cons, Z.pow_add_r by lia. change (256 ^ 1) with 256.
    destruct (Z.eqb_spec (u8 (b + 1)) 0) as [E|E]; cbn [rev length]; rewrite !be_value_snoc.
    + assert (b = 255) as ->.
      { destruct (Z.eq_dec b 255); [done|]. rewrite wrap_id in E by (unfold fits; lia). lia. }
      split; [constructor; [apply u8_is_byte|done]|]. split; [lia|]. rewrite Hv, E.
      replace (be_value (rev r) * 256 + 255 + 1) with (256 * (be_value (rev r) + 1)) by lia.
      rewrite Z.mul_mod_distr_l; lia.
    + assert (b < 255) by (destruct (Z.eq_dec b 255) as [->|]; [done|lia]).
      split; [constructor; [apply u8_is_byte|done]|]. split; [done|].
      rewrite wrap_id by (unfold fits; lia).
      rewrite Z.mod_small; lia.
Qed.

Lemma firstBit_shift fuel ret d : firstBit fuel ret d = ret + firstBit fuel 0 d.
Proof.
  revert ret d. induction fuel as [|f IH]; intros ret d; cbn [firstBit]; [lia|].
  destruct (negb _); [lia|]. rewrite IH, (IH (0 + 1)). lia.
Qed.

Lemma firstBit_byte d : is_byte d -> d <> 0 -> firstBit 8 0 d = 7 - Z.log2 d.
Proof.
  intros Hd Hnz. pose proof (byte_check
    (fun d => (d =? 0) || (firstBit 8 0 d =? 7 - Z.log2 d)) eq_refl d Hd) as H.
  apply orb_true_iff in H as [H|H]; [by apply Z.eqb_eq in H|by apply Z.eqb_eq].
Qed.

Lemma firstBitSet_from_shift ret h : firstBitSet_from ret h = ret + firstBitSet_from 0 h.
Proof.
  revert ret. induction h as [|d h IH]; intros ret; cbn [firstBitSet_from]; [lia|].
  destruct (negb _); [by apply firstBit_shift|]. rewrite IH, (IH (0 + 8)). lia.
Qed.

Lemma firstBitSet_log2 h :
  wf_bytes h ->
  firstBitSet h = if be_value h =? 0 then 8 * sizeZ h else 8 * sizeZ h - 1 - Z.log2 (be_value h).
Proof.
  unfold firstBitSet. induction h as [|d h IH]; intros H; [done|].
  apply Forall_cons_1 in H as [Hd Hh]. pose proof (be_value_bounds h Hh) as Hb.
  pose proof (sizeZ_nonneg h) as Hs. cbn [firstBitSet_from be_value]. rewrite sizeZ_cons.
  destruct (Z.eqb_spec d 0) as [->|Hnz]; cbn [negb].
  - rewrite firstBitSet_from_shift, IH by done. rewrite Z.mul_0_l, !Z.add_0_l.
    destruct (Z.eqb_spec (be_value h) 0); lia.
  - rewrite firstBit_byte by done. unfold is_byte in Hd.
    assert (1 * 256 ^ sizeZ h <= d * 256 ^ sizeZ h) by (apply Z.mul_le_mono_nonneg_r; lia).
    destruct (Z.eqb_spec (d * 256 ^ sizeZ h + be_value h) 0); [lia|].
    assert (Z.log2 (d * 256 ^ sizeZ h + be_value h) = Z.log2 d + 8 * sizeZ h) as ->; [|lia].
    pose proof (Z.log2_spec d ltac:(lia)) as [Hl1 Hl2]. pose proof (Z.log2_nonneg d).
    rewrite pow256_pow2 in * by lia.
    apply Z.log2_unique; [lia|]. rewrite Z.pow_succ_r, Z.pow_add_r by lia.
    rewrite Z.pow_succ_r in Hl2 by lia.
    set (K := 2 ^ (8 * sizeZ h)) in *. set (L := 2 ^ Z.log2 d) in *.
    assert (L * K <= d * K) by (apply Z.mul_le_mono_nonneg_r; lia).
    assert ((d + 1) * K <= (2 * L) * K) by (apply Z.mul_le_mono_nonneg_r; lia). lia.
Qed.

(** ** Properties *)

(** Bloom filters give no false negatives: every hash that was added with
    [shiftBloom] is found by [containsBloom], whatever is added before or
    after it. *)
Theorem bloom_no_false_negative (P : nat) (b h : bytes) (before after : list bytes) :
  let add := fun b h => shiftBloom P b h in
  containsBloom P (fold_left add after (shiftBloom P (fold_left add before b) h)) h = true.
Proof.
  intros add.
  assert (forall l b, length (fold_left add l b) = length b) as Hlen.
  { intros l. induction l as [|x l IH]; intros b0; [done|]. cbn [fold_left]. rewrite IH.
    unfold add, shiftBloom. rewrite length_or; [done|]. by rewrite bloomPart_length. }
  set (b1 := fold_left add before b).
  assert (forall l b2, length b2 = length b1 -> contains b2 (bloomPart P (length b1) h) = true ->
    contains (fold_left add l b2) (bloomPart P (length b1) h) = true) as Hkeep.
  { intros l. induction l as [|x l IH]; intros b2 Hl2 Hc; [done|]. cbn [fold_left]. apply IH.
    - unfold add, shiftBloom. rewrite length_or; [done|]. by rewrite bloomPart_length.
    - apply contains_or_l; [done|]. by rewrite bloomPart_length. }
  unfold containsBloom. rewrite Hlen. unfold shiftBloom at 2.
  rewrite length_or by (by rewrite bloomPart_length). apply Hkeep.
  - unfold shiftBloom. by rewrite length_or by (by rewrite bloomPart_length).
  - apply contains_or_r. by rewrite bloomPart_length.
Qed.

(** The pre-increment adds one modulo the size of the hash, and the
    byte-wise order is the order of the values. *)
Theorem hash_order_and_increment (N : nat) (a c : bytes)
    (Ha : wf_hash N a) (Hc : wf_hash N c) :
  be_value (incr a) = (be_value a + 1) mod 256 ^ Z.of_nat N /\ wf_hash N (incr a) /\
  ltb a c = (be_value a <? be_value c).
Proof.
  destruct Ha as [Hla Hwa], Hc as [Hlc Hwc].
  destruct (incr_rev_spec (rev a) ltac:(by apply Forall_rev)) as (Hw & Hl & Hv).
  rewrite rev_involutive in Hv. unfold incr. split; [|split].
  - rewrite Hv. unfold sizeZ. by rewrite length_rev, Hla.
  - split; [by rewrite length_rev, Hl, length_rev|by apply Forall_rev].
  - apply ltb_spec; [done..|]. by rewrite Hla, Hlc.
Qed.

Lemma hash_order_and_increment_witness :
  be_value (incr [1; 255; 255]) = (be_value [1; 255; 255] + 1) mod 256 ^ Z.of_nat 3 /\
  wf_hash 3 (incr [1; 255; 255]) /\ ltb [1; 255; 255] [2; 0; 0] = (be_value [1; 255; 255] <? be_value [2; 0; 0]).
Proof. apply (hash_order_and_increment 3 [1; 255; 255] [2; 0; 0]); decide_closed. Defined.

(** The expression [32 - h256(v).firstBitSet() / 8], by which the VM
    prices [EXP], is the number of bytes of the exponent. *)
Theorem firstBitSet_counts_bytes (v : Z) (Hv : fits 256 v) :
  32 - firstBitSet (ofArith 32 v) / 8 = Z.of_nat (bytesRequired v).
Proof.
  unfold ofArith. rewrite toBigEndian_spec.
  rewrite firstBitSet_log2 by apply be_bytes_wf.
  rewrite be_value_be_bytes. unfold sizeZ. rewrite be_bytes_length.
  unfold fits in Hv. rewrite Z.mod_small by (rewrite pow256_pow2 by lia; exact Hv).
  destruct (Z.eqb_spec v 0) as [->|Hnz]; [reflexivity|].
  destruct (bytesRequired_spec v ltac:(lia)) as [Hlt Hge].
  pose proof (bytesRequired_pos v ltac:(lia)). specialize (Hge ltac:(lia)).
  rewrite pow256_pow2 in Hlt, Hge by lia.
  assert (Z.log2 v < 8 * Z.of_nat (bytesRequired v)) by (apply Z.log2_lt_pow2; lia).
  assert (8 * (Z.of_nat (bytesRequired v) - 1) <= Z.log2 v) by (apply Z.log2_le_pow2; lia).
  assert ((8 * Z.of_nat 32 - 1 - Z.log2 v) / 8 = 32 - Z.of_nat (bytesRequired v)) as ->; [|lia].
  symmetry. apply Z.div_unique with (8 * Z.of_nat (bytesRequired v) - 1 - Z.log2 v); lia.
Qed.

Lemma firstBitSet_counts_bytes_witness :
  32 - firstBitSet (ofArith 32 65536) / 8 = Z.of_nat (bytesRequired 65536).
Proof. apply (firstBitSet_counts_bytes 65536). unfold fits. lia. Defined.

(** On [SecureFixedHash] the compound or and the compound and do not
    compute what the operators of [FixedHash] compute: both are the exclusive
    or, and already differ from it on one set bit. *)
Theorem secure_or_and_are_xor (N : nat) :
  (forall a c, SecureFixedHash.or_assign a c = xor_ a c /\
               SecureFixedHash.and_assign a c = xor_ a c) /\
  let one := replicate (S N) 1 in
  SecureFixedHash.or_assign one one <> or_ one one /\
  SecureFixedHash.and_assign one one <> and_ one one.
Proof. by split; [|split]. Qed.
