(* ===== verification/TrieCommon.v ===== *)
(** * libdevcore/TrieCommon.{h,cpp}: nibbles and the hex-prefix encoding

    Keys of the trie are sequences of nibbles.  A [NibbleSlice] is a view of a
    byte string from a nibble offset on; the path of a trie node is stored in the
    hex-prefix encoding, whose first nibble holds two flags.  The theorems relate
    all of them to plain lists of nibbles. *)

From Stdlib Require Import ZArith Lia.
From stdpp Require Import base list list_numbers option.
From S2P Require Import Prelude CommonData RLP.

(** [nibble]; the index is an [unsigned] *)
Definition nibble (d : bytes) (i : Z) : byte :=
  if negb (Z.land i 1 =? 0) then Z.land (at_ d (i / 2)) 15 else Z.shiftr (at_ d (i / 2)) 4.

(** [sharedNibbles]: [fuel] bounds the loop, which ends with the first range *)
Fixpoint sharedNibbles_loop (fuel : nat) (first : bytes) (beginFirst endFirst : Z)
    (second : bytes) (beginSecond endSecond ret : Z) : Z :=
  match fuel with
  | O => ret
  | S f =>
      if (beginFirst <? endFirst) && (beginSecond <? endSecond)
         && (nibble first beginFirst =? nibble second beginSecond)
      then sharedNibbles_loop f first (beginFirst + 1) endFirst second (beginSecond + 1) endSecond (ret + 1)
      else ret
  end.

Definition sharedNibbles (first : bytes) (beginFirst endFirst : Z)
    (second : bytes) (beginSecond endSecond : Z) : Z :=
  sharedNibbles_loop (Z.to_nat (endFirst - beginFirst)) first beginFirst endFirst second
    beginSecond endSecond 0.

(** [NibbleSlice] *)
Record NibbleSlice := mkSlice { ns_data : bytes; ns_offset : Z }.

Definition ns_at (s : NibbleSlice) (i : Z) : byte := nibble (ns_data s) (u32 (ns_offset s + i)).
Definition ns_size (s : NibbleSlice) : Z := u32 (sizeZ (ns_data s) * 2 - ns_offset s).
Definition ns_empty (s : NibbleSlice) : bool := ns_size s =? 0.
Definition ns_mid (s : NibbleSlice) (i : Z) : NibbleSlice := mkSlice (ns_data s) (u32 (ns_offset s + i)).

Definition ns_shared (s k : NibbleSlice) : Z :=
  sharedNibbles (ns_data s) (ns_offset s) (u32 (ns_offset s + ns_size s))
    (ns_data k) (ns_offset k) (u32 (ns_offset k + ns_size k)).

Definition ns_contains (s k : NibbleSlice) : bool := ns_shared s k =? ns_size k.

Fixpoint isEarlierThan_loop (fuel : nat) (s k : NibbleSlice) (i : Z) : bool :=
  match fuel with
  | O => negb (ns_size k <=? i)
  | S f =>
      if (i <? ns_size k) && (i <? ns_size s) then
        if ns_at s i <? ns_at k i then true
        else if ns_at k i <? ns_at s i then false
        else isEarlierThan_loop f s k (i + 1)
      else negb (ns_size k <=? i)
  end.

Definition ns_isEarlierThan (s k : NibbleSlice) : bool :=
  isEarlierThan_loop (Z.to_nat (ns_size k)) s k 0.

Definition ns_eqb (s k : NibbleSlice) : bool :=
  (ns_size k =? ns_size s) && (ns_shared s k =? ns_size k).

(** ** The hex-prefix encoding *)

(** The flags in the first byte *)
Definition hpFlags (leaf odd : bool) : byte :=
  Z.lor (if leaf then 2 else 0) (if odd then 1 else 0) * 16.

(** [ret[0] |= n], [ret.back() |= n] *)
Definition orFirst (ret : bytes) (n : byte) : bytes :=
  match ret with b :: r => Z.lor b n :: r | [] => [] end.
Definition orBack (ret : bytes) (n : byte) : bytes :=
  match rev ret with b :: r => rev (Z.lor b n :: r) | [] => [] end.

(** [hexPrefixEncode] of a vector of nibbles, positions [begin] to [end] *)
Fixpoint hexPrefix_pairs (fuel : nat) (v : bytes) (i end_ : Z) (ret : bytes) : bytes :=
  match fuel with
  | O => ret
  | S f =>
      if i <? end_ then hexPrefix_pairs f v (u32 (i + 2)) end_ (ret ++ [u8 (at_ v i * 16 + at_ v (i + 1))])
      else ret
  end.

Definition hexPrefixEncode (v : bytes) (leaf : bool) (begin_ end_ : Z) : bytes :=
  let begin := u32 begin_ in
  let end' := u32 (if end_ <? 0 then sizeZ v + 1 + end_ else end_) in
  let odd := negb (u32 (end' - begin) mod 2 =? 0) in
  let ret := [hpFlags leaf odd] in
  if odd then hexPrefix_pairs (Z.to_nat (end' - begin)) v (u32 (begin + 1)) end' (orFirst ret (at_ v begin))
  else hexPrefix_pairs (Z.to_nat (end' - begin)) v begin end' ret.

(** The loop of the other two encoders: the nibbles [i] to [end] of [data], where
    [d] says whether the next nibble completes a byte *)
Fixpoint hexPrefix_nibbles (fuel : nat) (data : bytes) (i end_ d : Z) (ret : bytes) : bytes * Z :=
  match fuel with
  | O => (ret, d)
  | S f =>
      if i <? end_ then
        let n := nibble data i in
        hexPrefix_nibbles f data (i + 1) end_ (d + 1)
          (if negb (Z.land d 1 =? 0) then orBack ret n else ret ++ [u8 (Z.shiftl n 4)])
      else (ret, d)
  end.

(** [hexPrefixEncode(data, leaf, beginNibble, endNibble, offset)] *)
Definition hexPrefixEncode_data (data : bytes) (leaf : bool) (beginNibble endNibble offset : Z) : bytes :=
  let begin_ := u32 (beginNibble + offset) in
  let end_ := u32 ((if endNibble <? 0 then (sizeZ data * 2 - offset) + 1 + endNibble else endNibble) + offset) in
  let odd := negb (Z.land (u32 (end_ - begin_)) 1 =? 0) in
  fst (hexPrefix_nibbles (Z.to_nat (end_ - begin_)) data begin_ end_ (if odd then 1 else 2)
         [hpFlags leaf odd]).

(** [hexPrefixEncode(d1, o1, d2, o2, leaf)]: two slices, one after the other *)
Definition hexPrefixEncode_two (d1 : bytes) (o1 : Z) (d2 : bytes) (o2 : Z) (leaf : bool) : bytes :=
  let end1 := u32 (sizeZ d1 * 2) in
  let end2 := u32 (sizeZ d2 * 2) in
  let odd := negb (Z.land (u32 (end1 - o1 + end2 - o2)) 1 =? 0) in
  let '(ret, d) := hexPrefix_nibbles (Z.to_nat (end1 - o1)) d1 o1 end1 (if odd then 1 else 2)
                     [hpFlags leaf odd] in
  fst (hexPrefix_nibbles (Z.to_nat (end2 - o2)) d2 o2 end2 d ret).

(** [hexPrefixEncode(NibbleSlice, ...)] and [hexPrefixEncode(NibbleSlice, NibbleSlice, ...)] *)
Definition hexPrefixEncode_slice (s : NibbleSlice) (leaf : bool) (begin_ end_ : Z) : bytes :=
  hexPrefixEncode_data (ns_data s) leaf begin_ end_ (ns_offset s).
Definition hexPrefixEncode_slices (s1 s2 : NibbleSlice) (leaf : bool) : bytes :=
  hexPrefixEncode_two (ns_data s1) (ns_offset s1) (ns_data s2) (ns_offset s2) leaf.

(** [isLeaf] and [keyOf] on the payload of the first item *)
Definition isLeaf (hpe : bytes) : bool := negb (Z.land (at_ hpe 0) 32 =? 0).
Definition keyOf (hpe : bytes) : NibbleSlice :=
  if sizeZ hpe =? 0 then mkSlice hpe 0
  else if negb (Z.land (at_ hpe 0) 16 =? 0) then mkSlice hpe 1 else mkSlice hpe 2.

(** ** Nibbles as a list *)

Definition is_nibble (n : Z) : Prop := 0 <= n < 16.

(** The nibbles [i] to [e] of a byte string *)
Definition nibblesOf (d : bytes) (i e : Z) : list Z := nibble d <$> seqZ i (e - i).

(** The nibbles [b] to [e] that a slice shows, and all of them *)
Definition window (s : NibbleSlice) (b e : Z) : list Z := ns_at s <$> seqZ b (e - b).
Definition nibblesS (s : NibbleSlice) : list Z := window s 0 (ns_size s).

(** A slice inside its data, whose size in nibbles is an [int] *)
Definition slice_ok (s : NibbleSlice) : Prop :=
  wf_bytes (ns_data s) /\ 0 <= ns_offset s <= sizeZ (ns_data s) * 2 /\ sizeZ (ns_data s) * 2 < 2 ^ 31.

(** The hex-prefix encoding by its definition *)
Fixpoint pairUp (l : list Z) : bytes :=
  match l with a :: b :: l' => (a * 16 + b) :: pairUp l' | _ => [] end.

Definition hp (leaf : bool) (l : list Z) : bytes :=
  let f := if leaf then 32 else 0 in
  match l with
  | n :: l' => if Nat.odd (length l) then (f + 16 + n) :: pairUp l' else f :: pairUp l
  | [] => [f]
  end.

(** ** Lemmas *)

Lemma odd_land d : negb (Z.land d 1 =? 0) = Z.odd d.
Proof.
  pose proof (Z.land_ones d 1 ltac:(lia)) as E. change (Z.ones 1) with 1 in E. rewrite E.
  rewrite Zmod_odd. by destruct (Z.odd d).
Qed.

Lemma nibblesOf_cons d i e : i < e -> nibblesOf d i e = nibble d i :: nibblesOf d (i + 1) e.
Proof.
  intros Hi. unfold nibblesOf. rewrite seqZ_cons by lia. cbn [fmap list_fmap].
  do 2 f_equal. replace (Z.pred (e - i)) with (e - (i + 1)) by lia. done.
Qed.

Lemma nibblesOf_nil d i e : e <= i -> nibblesOf d i e = [].
Proof. intros Hi. unfold nibblesOf. by rewrite seqZ_nil by lia. Qed.

Lemma nibblesOf_length d i e : i <= e -> sizeZ (nibblesOf d i e) = e - i.
Proof. intros Hi. unfold nibblesOf, sizeZ. rewrite length_fmap, length_seqZ. lia. Qed.

Lemma at_byte d i : wf_bytes d -> is_byte (at_ d i).
Proof.
  intros Hd. unfold at_. destruct (nth_in_or_default (Z.to_nat i) d 0) as [Hin| ->].
  - exact (proj1 (List.Forall_forall _ _) Hd _ Hin).
  - unfold is_byte. lia.
Qed.

Lemma nibble_is_nibble d i : wf_bytes d -> is_nibble (nibble d i).
Proof.
  intros Hd. pose proof (at_byte d (i / 2) Hd) as Hb. unfold is_byte in Hb. unfold nibble, is_nibble.
  destruct (negb _).
  - change 15 with (Z.ones 4). rewrite Z.land_ones by lia. apply Z.mod_pos_bound. lia.
  - rewrite Z.shiftr_div_pow2 by lia. split; [apply Z.div_pos; lia|apply Z.div_lt_upper_bound; lia].
Qed.

Lemma nibblesOf_nibbles d i e : wf_bytes d -> Forall is_nibble (nibblesOf d i e).
Proof. intros Hd. apply Forall_fmap, Forall_true. intros j. by apply nibble_is_nibble. Qed.

Lemma lor_nibble b n : b mod 16 = 0 -> is_nibble n -> Z.lor b n = b + n.
Proof.
  intros Hb [Hn0 Hn1]. rewrite <-Z.lxor_lor, Z.add_nocarry_lxor; [done| |];
    (apply Z.bits_inj'; intros i Hi; rewrite Z.land_spec, Z.bits_0;
     destruct (Z.lt_ge_cases i 4);
     [replace (Z.testbit b i) with false; [done|];
      rewrite (Z.div_mod b 16), Hb, Z.add_0_r by lia; change 16 with (2 ^ 4);
      by rewrite Z.mul_comm, Z.mul_pow2_bits_low by lia
     |replace (Z.testbit n i) with false by
        (symmetry; apply Z.bits_above_log2; [lia|];
         destruct (Z.eq_dec n 0) as [->|]; [cbn; lia|];
         assert (Z.log2 n < 4) by (apply Z.log2_lt_pow2; lia); lia);
      by rewrite andb_false_r]).
Qed.

(** *** The loops as operations on lists of nibbles *)

Fixpoint pack (d : Z) (ret : bytes) (l : list Z) : bytes :=
  match l with
  | [] => ret
  | n :: l' => pack (d + 1) (if Z.odd d then orBack ret n else ret ++ [u8 (Z.shiftl n 4)]) l'
  end.

Lemma hexPrefix_nibbles_spec fuel data i e d ret :
  i <= e -> e - i <= Z.of_nat fuel ->
  hexPrefix_nibbles fuel data i e d ret = (pack d ret (nibblesOf data i e), d + (e - i)).
Proof.
  revert i d ret. induction fuel as [|f IH]; intros i d ret Hi Hf; cbn [hexPrefix_nibbles].
  - rewrite nibblesOf_nil by lia. cbn [pack]. f_equal. lia.
  - destruct (Z.ltb_spec i e).
    + rewrite IH by lia. rewrite (nibblesOf_cons data i e) by lia. cbn [pack]. rewrite odd_land.
      f_equal. lia.
    + rewrite nibblesOf_nil by lia. cbn [pack]. f_equal. lia.
Qed.

Lemma pack_app d ret l1 l2 : pack d ret (l1 ++ l2) = pack (d + sizeZ l1) (pack d ret l1) l2.
Proof.
  revert d ret. induction l1 as [|n l1 IH]; intros d ret; cbn [app pack].
  - by rewrite sizeZ_nil, Z.add_0_r.
  - rewrite IH, sizeZ_cons. f_equal. lia.
Qed.

Lemma orBack_snoc r b n : orBack (r ++ [b]) n = r ++ [Z.lor b n].
Proof. unfold orBack. rewrite rev_app_distr. cbn [rev app]. by rewrite rev_involutive. Qed.

Lemma pack_even k d ret l :
  length l = (2 * k)%nat -> Forall is_nibble l -> Z.even d = true -> pack d ret l = ret ++ pairUp l.
Proof.
  revert d ret l. induction k as [|k IH]; intros d ret l Hl Hn Hd.
  { destruct l; [by rewrite app_nil_r|done]. }
  destruct l as [|a [|b l]]; cbn in Hl; try lia.
  apply Forall_cons_1 in Hn as [Ha Hn]. apply Forall_cons_1 in Hn as [Hb Hn]. cbn [pack pairUp].
  assert (Z.odd d = false) as -> by (rewrite <-Z.negb_even; by rewrite Hd).
  assert (Z.odd (d + 1) = true) as -> by (rewrite Z.add_1_r, Z.odd_succ; done).
  rewrite orBack_snoc, IH; [|lia|done|by replace (d + 1 + 1) with (d + 2) by lia; rewrite Z.even_add, Hd].
  rewrite <-app_assoc. f_equal. cbn [app]. f_equal. unfold is_nibble in *.
  rewrite Z.shiftl_mul_pow2 by lia. rewrite wrap_id by (unfold fits; lia).
  apply lor_nibble; [apply Z.mod_mul; lia|done].
Qed.

Lemma even_length (l : list Z) : Nat.odd (length l) = false -> exists k, length l = (2 * k)%nat.
Proof.
  intros Ho. destruct (Nat.Even_or_Odd (length l)) as [[k Hk]|[k Hk]]; [by exists k|].
  rewrite Hk, Nat.odd_add, Nat.odd_mul in Ho. done.
Qed.

Lemma hpFlags_eq leaf odd : hpFlags leaf odd = (if leaf then 32 else 0) + (if odd then 16 else 0).
Proof. by destruct leaf, odd. Qed.

(** A start with the flags, then all nibbles *)
Lemma pack_hp leaf l : Forall is_nibble l ->
  pack (if Nat.odd (length l) then 1 else 2) [hpFlags leaf (Nat.odd (length l))] l = hp leaf l.
Proof.
  intros Hn. rewrite hpFlags_eq. destruct (Nat.odd (length l)) eqn:Eo.
  - destruct l as [|n l]; [done|]. unfold hp. rewrite Eo. cbn [pack]. change (Z.odd 1) with true. cbn match.
    apply Forall_cons_1 in Hn as [Hn0 Hn].
    destruct (even_length l) as [k Hk].
    { cbn [length] in Eo. rewrite Nat.odd_succ in Eo. by rewrite <-Nat.negb_even, Eo. }
    change [(if leaf then 32 else 0) + 16] with ([] ++ [(if leaf then 32 else 0) + 16]).
    rewrite orBack_snoc, (pack_even k) by done. cbn [app]. f_equal.
    apply lor_nibble; [by destruct leaf|done].
  - destruct (even_length l Eo) as [k Hk]. rewrite (pack_even k) by done. unfold hp.
    destruct l as [|n l]; [by destruct leaf|]. rewrite Eo. cbn [app]. f_equal. lia.
Qed.

Lemma odd_length (l : list Z) z : z = sizeZ l -> Z.odd z = Nat.odd (length l).
Proof.
  intros ->. unfold sizeZ.
  induction (length l) as [|n IH]; [done|]. rewrite Nat2Z.inj_succ, Z.odd_succ, Nat.odd_succ.
  rewrite <-Z.negb_odd, <-Nat.negb_odd. by rewrite IH.
Qed.

(** ** Slices as lists *)

Lemma ns_size_ok s : slice_ok s -> ns_size s = sizeZ (ns_data s) * 2 - ns_offset s.
Proof. intros (_ & Ho & Hs). unfold ns_size. apply wrap_id. unfold fits. lia. Qed.

Lemma ns_at_ok s i : slice_ok s -> 0 <= i <= ns_size s -> ns_at s i = nibble (ns_data s) (ns_offset s + i).
Proof.
  intros Hs Hi. rewrite (ns_size_ok s Hs) in Hi. destruct Hs as (_ & Ho & Hs).
  unfold ns_at. by rewrite wrap_id by (unfold fits; lia).
Qed.

Lemma window_nibblesOf s b e : slice_ok s -> 0 <= b -> e <= ns_size s ->
  window s b e = nibblesOf (ns_data s) (ns_offset s + b) (ns_offset s + e).
Proof.
  intros Hs Hb He. unfold window, nibblesOf.
  replace (ns_offset s + e - (ns_offset s + b)) with (e - b) by lia.
  replace (seqZ (ns_offset s + b) (e - b)) with (Z.add (ns_offset s) <$> seqZ b (e - b))
    by (by rewrite fmap_add_seqZ).
  rewrite <-list_fmap_compose. apply list_fmap_ext. intros j x Hx.
  apply list_elem_of_lookup_2, elem_of_seqZ in Hx. cbn [compose]. apply ns_at_ok; [done|lia].
Qed.

Lemma window_nibbles s b e : slice_ok s -> Forall is_nibble (window s b e).
Proof. intros (Hw & _). apply Forall_fmap, Forall_true. intros i. by apply nibble_is_nibble. Qed.

Lemma window_length s b e : b <= e -> sizeZ (window s b e) = e - b.
Proof. intros Hb. unfold window, sizeZ. rewrite length_fmap, length_seqZ. lia. Qed.

Lemma ns_size_nonneg s : 0 <= ns_size s.
Proof. apply wrap_nonneg. lia. Qed.

Lemma nibblesS_length s : sizeZ (nibblesS s) = ns_size s.
Proof. unfold nibblesS. rewrite window_length; [lia|apply ns_size_nonneg]. Qed.

Lemma nibblesS_whole s : slice_ok s ->
  nibblesS s = nibblesOf (ns_data s) (ns_offset s) (sizeZ (ns_data s) * 2).
Proof.
  intros Hs. unfold nibblesS. rewrite window_nibblesOf by (done || lia).
  rewrite (ns_size_ok s Hs). f_equal; lia.
Qed.

Lemma window_cons s b e : b < e -> window s b e = ns_at s b :: window s (b + 1) e.
Proof.
  intros Hb. unfold window. rewrite seqZ_cons by lia. cbn [fmap list_fmap].
  do 2 f_equal. replace (Z.pred (e - b)) with (e - (b + 1)) by lia. done.
Qed.

Lemma window_nil s b e : e <= b -> window s b e = [].
Proof. intros Hb. unfold window. by rewrite seqZ_nil by lia. Qed.

Lemma ns_mid_spec s i : slice_ok s -> 0 <= i <= ns_size s ->
  slice_ok (ns_mid s i) /\ nibblesS (ns_mid s i) = drop (Z.to_nat i) (nibblesS s).
Proof.
  intros Hs Hi. rewrite (ns_size_ok s Hs) in Hi. pose proof Hs as (Hw & Ho & Hz).
  assert (slice_ok (ns_mid s i)) as Hm.
  { split; [done|]. cbn [ns_mid ns_offset ns_data]. rewrite wrap_id by (unfold fits; lia). lia. }
  split; [done|]. rewrite !nibblesS_whole by done. cbn [ns_mid ns_data ns_offset].
  rewrite wrap_id by (unfold fits; lia).
  unfold nibblesOf. rewrite <-fmap_drop. f_equal. apply list_eq. intros j. rewrite lookup_drop.
  destruct (decide (Z.of_nat j < sizeZ (ns_data s) * 2 - (ns_offset s + i))).
  - rewrite !lookup_seqZ_lt by lia. f_equal. lia.
  - rewrite !lookup_seqZ_ge by lia. done.
Qed.

(** *** The common prefix *)

Lemma max_prefix_cons {A} `{EqDecision A} (x y : A) l k :
  length (max_prefix (x :: l) (y :: k)).2
  = (if decide (x = y) then S (length (max_prefix l k).2) else 0)%nat.
Proof.
  cbn [max_prefix]. destruct (decide_rel eq x y) as [->|Hn].
  - rewrite decide_True by done. destruct (max_prefix l k) as [[??]?]. done.
  - by rewrite decide_False.
Qed.

Lemma sharedNibbles_loop_spec fuel f1 b1 e1 f2 b2 e2 ret : e1 - b1 <= Z.of_nat fuel ->
  sharedNibbles_loop fuel f1 b1 e1 f2 b2 e2 ret
  = ret + sizeZ (max_prefix (nibblesOf f1 b1 e1) (nibblesOf f2 b2 e2)).2.
Proof.
  revert b1 b2 ret. induction fuel as [|f IH]; intros b1 b2 ret Hf; cbn [sharedNibbles_loop].
  { rewrite nibblesOf_nil by lia. cbn. unfold sizeZ. cbn. lia. }
  destruct (Z.ltb_spec b1 e1) as [H1|H1]; cbn [andb].
  2: { rewrite nibblesOf_nil by lia. unfold sizeZ. cbn. lia. }
  destruct (Z.ltb_spec b2 e2) as [H2|H2]; cbn [andb].
  2: { rewrite (nibblesOf_nil f2) by lia. destruct (nibblesOf f1 b1 e1); unfold sizeZ; cbn; lia. }
  rewrite (nibblesOf_cons f1 b1), (nibblesOf_cons f2 b2) by lia.
  unfold sizeZ. rewrite max_prefix_cons.
  destruct (Z.eqb_spec (nibble f1 b1) (nibble f2 b2)) as [He|He].
  - rewrite decide_True by done. rewrite IH by lia. unfold sizeZ. lia.
  - rewrite decide_False by done. lia.
Qed.

Lemma ns_shared_spec s k : slice_ok s -> slice_ok k ->
  ns_shared s k = sizeZ (max_prefix (nibblesS s) (nibblesS k)).2.
Proof.
  intros Hs Hk. unfold ns_shared, sharedNibbles. rewrite sharedNibbles_loop_spec by lia.
  rewrite (nibblesS_whole s), (nibblesS_whole k) by done.
  pose proof (ns_size_ok s Hs) as Es. pose proof (ns_size_ok k Hk) as Ek.
  destruct Hs as (_ & Hs1 & Hs2), Hk as (_ & Hk1 & Hk2).
  rewrite Es, Ek, !wrap_id by (unfold fits; lia). rewrite Z.add_0_l. do 4 f_equal; lia.
Qed.

Lemma max_prefix_full {A} `{EqDecision A} (l k : list A) :
  length (max_prefix l k).2 = length k <-> k `prefix_of` l.
Proof.
  revert k. induction l as [|x l IH]; intros [|y k].
  - cbn. split; [|done]. intros _. apply prefix_nil.
  - cbn. split; [lia|]. intros [? [=]].
  - cbn. split; [|done]. intros _. apply prefix_nil.
  - rewrite max_prefix_cons. destruct (decide (x = y)) as [->|Hn].
    + cbn [length]. rewrite Nat.succ_inj_wd, IH. split; [apply prefix_cons|apply prefix_cons_inv_2].
    + split; [done|]. intros Hp. by apply prefix_cons_inv_1 in Hp.
Qed.

Lemma ns_contains_spec s k : slice_ok s -> slice_ok k ->
  ns_contains s k = true <-> nibblesS k `prefix_of` nibblesS s.
Proof.
  intros Hs Hk. unfold ns_contains. rewrite Z.eqb_eq, ns_shared_spec by done.
  rewrite <-(nibblesS_length k), <-max_prefix_full. unfold sizeZ. lia.
Qed.

Lemma ns_eqb_spec s k : slice_ok s -> slice_ok k -> ns_eqb s k = true <-> nibblesS s = nibblesS k.
Proof.
  intros Hs Hk. unfold ns_eqb. rewrite andb_true_iff. fold (ns_contains s k).
  rewrite ns_contains_spec, Z.eqb_eq by done. rewrite <-!nibblesS_length. unfold sizeZ. split.
  - intros [Hl Hp]. symmetry. apply prefix_length_eq; [done|lia].
  - by intros ->.
Qed.

(** *** The order against a prefix *)

(** [l] comes before [k]: they first differ at a smaller nibble of [l], or [l] is a
    proper prefix of [k] *)
Definition earlier (l k : list Z) : Prop :=
  exists p b k', k = p ++ b :: k' /\ (l = p \/ exists a l', l = p ++ a :: l' /\ a < b).

Lemma earlier_nil_r l : ~ earlier l [].
Proof. intros (p & b & k' & Hk & _). by destruct p. Qed.

Lemma earlier_nil_l b k : earlier [] (b :: k).
Proof. exists [], b, k. auto. Qed.

Lemma earlier_cons a l b k : earlier (a :: l) (b :: k) <-> a < b \/ a = b /\ earlier l k.
Proof.
  split.
  - intros (p & c & k' & Hk & Hl). destruct p as [|x p]; simplify_eq/=.
    + destruct Hl as [|(a' & l' & ? & ?)]; simplify_eq; auto.
    + destruct Hl as [|(a' & l' & ? & ?)]; simplify_eq; right; (split; [done|]); exists p, c, k'; eauto 7.
  - intros [Hlt|[-> (p & c & k' & -> & Hl)]].
    + exists [], b, k. split; [done|]. right. by exists a, l.
    + exists (b :: p), c, k'. split; [done|].
      destruct Hl as [->|(a' & l' & -> & ?)]; [by left|right; by exists a', l'].
Qed.

Lemma isEarlierThan_loop_spec fuel s k i : 0 <= i <= ns_size k -> ns_size k - i <= Z.of_nat fuel ->
  isEarlierThan_loop fuel s k i = true <-> earlier (window s i (ns_size s)) (window k i (ns_size k)).
Proof.
  revert i. induction fuel as [|f IH]; intros i Hi Hf; cbn [isEarlierThan_loop].
  { destruct (Z.leb_spec (ns_size k) i); [|lia]. rewrite (window_nil k) by lia.
    split; [done|by intros ?%earlier_nil_r]. }
  destruct (Z.ltb_spec i (ns_size k)) as [Hk|Hk]; cbn [andb].
  2: { destruct (Z.leb_spec (ns_size k) i); [|lia]. rewrite (window_nil k) by lia.
       split; [done|by intros ?%earlier_nil_r]. }
  rewrite (window_cons k i) by lia. destruct (Z.ltb_spec i (ns_size s)) as [Hs|Hs].
  2: { destruct (Z.leb_spec (ns_size k) i); [lia|]. rewrite (window_nil s) by lia.
       split; [|done]. intros _. apply earlier_nil_l. }
  rewrite (window_cons s i), earlier_cons, <-IH by lia.
  destruct (Z.ltb_spec (ns_at s i) (ns_at k i)) as [H1|H1]; [by split; [left|]|].
  destruct (Z.ltb_spec (ns_at k i) (ns_at s i)) as [H2|H2]; split; try done.
  - intros [?|[? _]]; lia.
  - intros H. right. split; [lia|done].
  - by intros [?|[_ H]]; [lia|].
Qed.

(** *** Decoding *)

Lemma nibble_skip b d i : 0 <= i -> nibble (b :: d) (i + 2) = nibble d i.
Proof.
  intros Hi. unfold nibble. rewrite !odd_land.
  replace (i + 2) with (i + 1 * 2) by lia. rewrite Z.div_add by lia.
  assert (0 <= i / 2) by (apply Z.div_pos; lia).
  rewrite Z.odd_add. change (Z.odd (1 * 2)) with false. rewrite xorb_false_r.
  unfold at_. replace (Z.to_nat (i / 2 + 1)) with (S (Z.to_nat (i / 2))) by lia. done.
Qed.

Lemma nibblesOf_skip b d i e : 0 <= i -> nibblesOf (b :: d) (i + 2) (e + 2) = nibblesOf d i e.
Proof.
  intros Hi. unfold nibblesOf. replace (e + 2 - (i + 2)) with (e - i) by lia.
  replace (seqZ (i + 2) (e - i)) with (Z.add 2 <$> seqZ i (e - i))
    by (rewrite fmap_add_seqZ; f_equal; lia).
  rewrite <-list_fmap_compose. apply list_fmap_ext. intros j x Hx.
  apply list_elem_of_lookup_2, elem_of_seqZ in Hx. cbn [compose].
  replace (2 + x) with (x + 2) by lia. apply nibble_skip. lia.
Qed.

Lemma nibble_pair a b d : is_nibble a -> is_nibble b ->
  nibble ((a * 16 + b) :: d) 0 = a /\ nibble ((a * 16 + b) :: d) 1 = b.
Proof.
  unfold is_nibble. intros Ha Hb. unfold nibble, at_. cbn -[Z.land Z.shiftr Z.mul Z.add].
  change (Z.land 0 1 =? 0) with true. change (Z.land 1 1 =? 0) with false. cbn [negb].
  change (Z.to_nat (0 / 2)) with 0%nat. change (Z.to_nat (1 / 2)) with 0%nat. cbn [nth].
  change 15 with (Z.ones 4). rewrite Z.land_ones, Z.shiftr_div_pow2 by lia. change (2 ^ 4) with 16.
  split; [rewrite Z.div_add_l, Z.div_small by lia|rewrite Z.add_comm, Z.mod_add, Z.mod_small by lia]; lia.
Qed.

Lemma pairUp_length k (l : list Z) : length l = (2 * k)%nat -> length (pairUp l) = k.
Proof.
  revert l. induction k as [|k IH]; intros l Hl; [by destruct l|].
  destruct l as [|a [|b l]]; cbn in Hl; try lia. cbn [pairUp length]. f_equal. apply IH. lia.
Qed.

Lemma pairUp_wf l : Forall is_nibble l -> wf_bytes (pairUp l).
Proof.
  enough (forall n l, (length l <= n)%nat -> Forall is_nibble l -> wf_bytes (pairUp l)) by eauto.
  clear l. induction n as [|n IH]; intros l Hl Hn.
  { destruct l; [constructor|cbn in Hl; lia]. }
  destruct l as [|a [|b l]]; [constructor|constructor|]. cbn in Hl.
  apply Forall_cons_1 in Hn as [Ha Hn]. apply Forall_cons_1 in Hn as [Hb Hn].
  cbn [pairUp]. constructor; [unfold is_byte, is_nibble in *; lia|]. apply IH; [lia|done].
Qed.

Lemma nibblesOf_pairUp k l : length l = (2 * k)%nat -> Forall is_nibble l ->
  nibblesOf (pairUp l) 0 (sizeZ (pairUp l) * 2) = l.
Proof.
  revert l. induction k as [|k IH]; intros l Hl Hn.
  { by destruct l. }
  destruct l as [|a [|b l]]; cbn in Hl; try lia.
  apply Forall_cons_1 in Hn as [Ha Hn]. apply Forall_cons_1 in Hn as [Hb Hn]. cbn [pairUp].
  rewrite sizeZ_cons. pose proof (sizeZ_nonneg (pairUp l)).
  rewrite (nibblesOf_cons _ 0), (nibblesOf_cons _ 1 _) by lia. change (1 + 1) with (0 + 2).
  destruct (nibble_pair a b (pairUp l) Ha Hb) as [-> ->].
  do 2 f_equal. replace ((1 + sizeZ (pairUp l)) * 2) with (sizeZ (pairUp l) * 2 + 2) by lia.
  rewrite (nibblesOf_skip _ _ 0) by lia. apply IH; [lia|done].
Qed.

(** [hp] is a byte string whose flags and nibbles [isLeaf] and [keyOf] read back *)
Lemma hp_cases (leaf : bool) (l : list Z) : Forall is_nibble l ->
  let f := if leaf then 2 else 0 in
  (exists k n l', l = n :: l' /\ length l' = (2 * k)%nat /\ hp leaf l = ((f + 1) * 16 + n) :: pairUp l')
  \/ (exists k, length l = (2 * k)%nat /\ hp leaf l = (f * 16 + 0) :: pairUp l).
Proof.
  intros Hn f. destruct (Nat.odd (length l)) eqn:Eo.
  - left. destruct l as [|n l]; [done|]. unfold hp. rewrite Eo. destruct (even_length l) as [k Hk].
    { cbn [length] in Eo. rewrite Nat.odd_succ in Eo. by rewrite <-Nat.negb_even, Eo. }
    exists k, n, l. split_and!; try done. f_equal. unfold f. destruct leaf; lia.
  - right. destruct (even_length l Eo) as [k Hk]. exists k. split; [done|]. unfold hp.
    destruct l as [|n l]; [by destruct leaf|]. rewrite Eo. f_equal. unfold f. destruct leaf; lia.
Qed.

Lemma hp_wf leaf l : Forall is_nibble l -> wf_bytes (hp leaf l).
Proof.
  intros Hn. destruct (hp_cases leaf l Hn) as [(k & n & l' & -> & _ & ->)|(k & _ & ->)].
  - apply Forall_cons_1 in Hn as [Hn0 Hn]. constructor; [|by apply pairUp_wf].
    unfold is_byte, is_nibble in *. destruct leaf; lia.
  - constructor; [|by apply pairUp_wf]. unfold is_byte. destruct leaf; lia.
Qed.

Lemma flag_bit (b : Z) (i : Z) : 0 <= i -> negb (Z.land b (2 ^ i) =? 0) = Z.testbit b i.
Proof.
  intros Hi. destruct (Z.testbit b i) eqn:Eb; destruct (Z.eqb_spec (Z.land b (2 ^ i)) 0) as [He|He]; try done.
  - apply (f_equal (fun z => Z.testbit z i)) in He.
    rewrite Z.land_spec, Eb, Z.pow2_bits_true, Z.bits_0 in He by lia. done.
  - exfalso. apply He. apply Z.bits_inj'. intros j Hj. rewrite Z.land_spec, Z.bits_0.
    destruct (Z.eq_dec i j) as [->|Hij]; [by rewrite Eb|].
    rewrite Z.pow2_bits_false by lia. apply andb_false_r.
Qed.

Lemma flag_bit_high h n i : 0 <= i -> is_nibble n -> Z.testbit (h * 16 + n) (i + 4) = Z.testbit h i.
Proof.
  intros Hi Hn. unfold is_nibble in Hn. rewrite <-Z.div_pow2_bits by lia. change (2 ^ 4) with 16.
  by rewrite Z.div_add_l, Z.div_small, Z.add_0_r by lia.
Qed.

Lemma hp_head_flags h n d : is_nibble n ->
  isLeaf ((h * 16 + n) :: d) = Z.testbit h 1 /\
  keyOf ((h * 16 + n) :: d) = mkSlice ((h * 16 + n) :: d) (if Z.testbit h 0 then 1 else 2).
Proof.
  intros Hn. unfold isLeaf, keyOf. change (at_ ((h * 16 + n) :: d) 0) with (h * 16 + n).
  pose proof (flag_bit (h * 16 + n) 5 ltac:(lia)) as E5. change (2 ^ 5) with 32 in E5.
  pose proof (flag_bit (h * 16 + n) 4 ltac:(lia)) as E4. change (2 ^ 4) with 16 in E4.
  pose proof (flag_bit_high h n 1 ltac:(lia) Hn) as H1. pose proof (flag_bit_high h n 0 ltac:(lia) Hn) as H0.
  change (1 + 4) with 5 in H1. change (0 + 4) with 4 in H0. rewrite E4, E5, H1, H0. split; [done|].
  rewrite sizeZ_cons. pose proof (sizeZ_nonneg d). destruct (Z.eqb_spec (1 + sizeZ d) 0); [lia|].
  by destruct (Z.testbit h 0).
Qed.

Lemma hp_decode leaf l : Forall is_nibble l -> sizeZ l < 2 ^ 30 ->
  isLeaf (hp leaf l) = leaf /\ slice_ok (keyOf (hp leaf l)) /\ nibblesS (keyOf (hp leaf l)) = l.
Proof.
  intros Hn Hl. pose proof (hp_wf leaf l Hn) as Hw. unfold sizeZ in Hl.
  destruct (hp_cases leaf l Hn) as [(k & n & l' & -> & Hk & E)|(k & Hk & E)]; rewrite E in *.
  - apply Forall_cons_1 in Hn as [Hn0 Hn]. pose proof (pairUp_length k l' Hk) as Hp.
    destruct (hp_head_flags ((if leaf then 2 else 0) + 1) n (pairUp l') Hn0) as [-> Hkey].
    replace (Z.testbit ((if leaf then 2 else 0) + 1) 0) with true in Hkey by by destruct leaf.
    rewrite Hkey. split; [by destruct leaf|]. cbn [length] in Hl.
    assert (slice_ok (mkSlice ((((if leaf then 2 else 0) + 1) * 16 + n) :: pairUp l') 1)) as Hs.
    { split; [done|]. cbn [ns_data ns_offset]. rewrite sizeZ_cons. unfold sizeZ. lia. }
    split; [done|]. rewrite nibblesS_whole by done. cbn [ns_data ns_offset].
    rewrite sizeZ_cons. pose proof (sizeZ_nonneg (pairUp l')). rewrite nibblesOf_cons by lia.
    change (1 + 1) with (0 + 2).
    destruct (nibble_pair ((if leaf then 2 else 0) + 1) n (pairUp l')) as [_ ->];
      [unfold is_nibble; destruct leaf; lia|done|].
    f_equal. replace ((1 + sizeZ (pairUp l')) * 2) with (sizeZ (pairUp l') * 2 + 2) by lia.
    rewrite nibblesOf_skip by lia. by apply (nibblesOf_pairUp k).
  - pose proof (pairUp_length k l Hk) as Hp.
    destruct (hp_head_flags (if leaf then 2 else 0) 0 (pairUp l)) as [-> Hkey]; [by unfold is_nibble|].
    replace (Z.testbit (if leaf then 2 else 0) 0) with false in Hkey by by destruct leaf.
    rewrite Hkey. split; [by destruct leaf|].
    assert (slice_ok (mkSlice (((if leaf then 2 else 0) * 16 + 0) :: pairUp l) 2)) as Hs.
    { split; [done|]. cbn [ns_data ns_offset]. rewrite sizeZ_cons. unfold sizeZ. lia. }
    split; [done|]. rewrite nibblesS_whole by done. cbn [ns_data ns_offset].
    rewrite sizeZ_cons. replace ((1 + sizeZ (pairUp l)) * 2) with (sizeZ (pairUp l) * 2 + 2) by lia.
    change 2 with (0 + 2) at 2. rewrite nibblesOf_skip by lia. by apply (nibblesOf_pairUp k).
Qed.

(** *** The encoders *)

Lemma hexPrefix_pairs_spec k fuel v i e ret :
  0 <= i -> e - i = 2 * Z.of_nat k -> (k <= fuel)%nat -> e < 2 ^ 31 -> Forall is_nibble v ->
  hexPrefix_pairs fuel v i e ret = ret ++ pairUp (at_ v <$> seqZ i (e - i)).
Proof.
  revert fuel i ret. induction k as [|k IH]; intros fuel i ret Hi He Hf Hb Hv.
  { rewrite seqZ_nil by lia. cbn [fmap list_fmap pairUp]. rewrite app_nil_r.
    destruct fuel; cbn [hexPrefix_pairs]; [done|]. by destruct (Z.ltb_spec i e); [lia|]. }
  destruct fuel as [|f]; [lia|]. cbn [hexPrefix_pairs]. destruct (Z.ltb_spec i e); [|lia].
  rewrite (wrap_id 32 (i + 2)) by (unfold fits; lia). rewrite IH by (done || lia).
  rewrite (seqZ_cons i), (seqZ_cons (Z.succ i)) by lia. cbn [fmap list_fmap pairUp].
  rewrite <-app_assoc. f_equal. cbn [app]. rewrite Z.add_1_r.
  assert (forall j, is_nibble (at_ v j)) as Hat.
  { intros j. unfold at_. destruct (nth_in_or_default (Z.to_nat j) v 0) as [Hin| ->]; [|by unfold is_nibble].
    exact (proj1 (List.Forall_forall _ _) Hv _ Hin). }
  pose proof (Hat i). pose proof (Hat (Z.succ i)). unfold is_nibble in *.
  rewrite wrap_id by (unfold fits; lia). f_equal. f_equal.
  replace (Z.succ (Z.succ i)) with (i + 2) by lia. by replace (Z.pred (Z.pred (e - i))) with (e - (i + 2)) by lia.
Qed.

(** Where a range ends in [n] nibbles: [-1] stands for all of them *)
Definition endOf (n e : Z) : Z := if e <? 0 then n + 1 + e else e.

Lemma mod2_odd z : negb (z mod 2 =? 0) = Z.odd z.
Proof. rewrite Zmod_odd. by destruct (Z.odd z). Qed.

Lemma at_nibble v j : Forall is_nibble v -> is_nibble (at_ v j).
Proof.
  intros Hv. unfold at_. destruct (nth_in_or_default (Z.to_nat j) v 0) as [Hin| ->]; [|by unfold is_nibble].
  exact (proj1 (List.Forall_forall _ _) Hv _ Hin).
Qed.

Lemma hexPrefixEncode_hp v leaf b e : Forall is_nibble v -> sizeZ v < 2 ^ 31 ->
  0 <= b <= endOf (sizeZ v) e -> endOf (sizeZ v) e <= sizeZ v ->
  hexPrefixEncode v leaf b e = hp leaf (at_ v <$> seqZ b (endOf (sizeZ v) e - b)).
Proof.
  intros Hv Hs Hb He. unfold hexPrefixEncode. fold (endOf (sizeZ v) e).
  set (e' := endOf (sizeZ v) e) in *. cbv zeta. rewrite (wrap_id 32 b), (wrap_id 32 e') by (unfold fits; lia).
  rewrite (wrap_id 32 (e' - b)), mod2_odd by (unfold fits; lia).
  set (l := at_ v <$> seqZ b (e' - b)).
  assert (sizeZ l = e' - b) as Hl by (unfold l, sizeZ; rewrite length_fmap, length_seqZ; lia).
  rewrite (odd_length l) by lia. rewrite hpFlags_eq. destruct (Nat.odd (length l)) eqn:Eo.
  - assert (b < e') as Hlt by (destruct l; [done|unfold sizeZ in Hl; cbn [length] in Hl; lia]).
    assert (l = at_ v b :: (at_ v <$> seqZ (b + 1) (e' - (b + 1)))) as El.
    { unfold l. rewrite seqZ_cons by lia. cbn [fmap list_fmap].
      by replace (Z.pred (e' - b)) with (e' - (b + 1)) by lia. }
    rewrite (wrap_id 32 (b + 1)) by (unfold fits; lia). rewrite El in Eo |- *. unfold hp. rewrite Eo.
    destruct (even_length (at_ v <$> seqZ (b + 1) (e' - (b + 1)))) as [k Hk].
    { cbn [length] in Eo. rewrite Nat.odd_succ in Eo. by rewrite <-Nat.negb_even, Eo. }
    rewrite length_fmap, length_seqZ in Hk. rewrite (hexPrefix_pairs_spec k) by (done || lia).
    cbn [orFirst app]. f_equal. apply lor_nibble; [by destruct leaf|by apply at_nibble].
  - destruct (even_length l Eo) as [k Hk]. unfold sizeZ in Hl.
    rewrite (hexPrefix_pairs_spec k) by (done || lia). fold l. unfold hp. cbn [app].
    destruct l as [|n l']; [by destruct leaf|]. rewrite Eo. f_equal. lia.
Qed.

Lemma hexPrefixEncode_slice_hp s leaf b e : slice_ok s ->
  0 <= b <= endOf (ns_size s) e -> endOf (ns_size s) e <= ns_size s ->
  hexPrefixEncode_slice s leaf b e = hp leaf (window s b (endOf (ns_size s) e)).
Proof.
  intros Hs Hb He. unfold hexPrefixEncode_slice, hexPrefixEncode_data. cbv zeta.
  pose proof (ns_size_ok s Hs) as Es. rewrite <-Es. fold (endOf (ns_size s) e).
  set (e' := endOf (ns_size s) e) in *. pose proof (window_nibbles s b e' Hs) as Hn.
  rewrite (window_nibblesOf s b e') in Hn |- * by (done || lia).
  destruct Hs as (_ & Ho & Hs). rewrite !wrap_id by (unfold fits; lia).
  replace (b + ns_offset s) with (ns_offset s + b) by lia. replace (e' + ns_offset s) with (ns_offset s + e') by lia.
  rewrite hexPrefix_nibbles_spec by lia. cbn [fst]. rewrite odd_land.
  rewrite (odd_length (nibblesOf (ns_data s) (ns_offset s + b) (ns_offset s + e')));
    [by apply pack_hp|rewrite nibblesOf_length by lia; lia].
Qed.

Lemma hexPrefixEncode_slices_hp s1 s2 leaf : slice_ok s1 -> slice_ok s2 ->
  hexPrefixEncode_slices s1 s2 leaf = hp leaf (nibblesS s1 ++ nibblesS s2).
Proof.
  intros Hs1 Hs2. unfold hexPrefixEncode_slices, hexPrefixEncode_two.
  assert (Forall is_nibble (nibblesS s1 ++ nibblesS s2)) as Hn
    by (apply Forall_app; split; by apply window_nibbles).
  rewrite !nibblesS_whole in Hn |- * by done.
  destruct Hs1 as (_ & Ho1 & Hz1), Hs2 as (_ & Ho2 & Hz2). cbv zeta.
  rewrite (wrap_id 32 (sizeZ (ns_data s1) * 2)), (wrap_id 32 (sizeZ (ns_data s2) * 2)) by (unfold fits; lia).
  rewrite wrap_id by (unfold fits; lia). rewrite odd_land.
  rewrite (odd_length (nibblesOf (ns_data s1) (ns_offset s1) (sizeZ (ns_data s1) * 2) ++
                       nibblesOf (ns_data s2) (ns_offset s2) (sizeZ (ns_data s2) * 2)))
    by (rewrite sizeZ_app, !nibblesOf_length by lia; lia).
  rewrite !hexPrefix_nibbles_spec by lia. cbn [fst].
  rewrite <-(nibblesOf_length (ns_data s1)) at 1 by lia. rewrite <-pack_app. by apply pack_hp.
Qed.

(** ** Properties *)

(** The three hex-prefix encoders (of a vector of nibbles, of a range of a
    slice, and of two slices one after the other) all give the encoding of the
    nibbles they cover, by its definition [hp]: a first nibble that holds the
    leaf and the odd flag, then the nibbles in pairs.  [isLeaf] and [keyOf] read
    the flag and exactly those nibbles back, so the encoding is injective. *)
Theorem hex_prefix_encoders (v : bytes) (s s1 s2 : NibbleSlice) (leaf : bool) (b e : Z)
  (Hv : Forall is_nibble v) (Hvs : sizeZ v < 2 ^ 30) (Hs : slice_ok s)
  (Hs1 : slice_ok s1) (Hs2 : slice_ok s2) :
  (0 <= b <= endOf (sizeZ v) e -> endOf (sizeZ v) e <= sizeZ v ->
   hexPrefixEncode v leaf b e = hp leaf (at_ v <$> seqZ b (endOf (sizeZ v) e - b))) /\
  (0 <= b <= endOf (ns_size s) e -> endOf (ns_size s) e <= ns_size s ->
   hexPrefixEncode_slice s leaf b e = hp leaf (window s b (endOf (ns_size s) e))) /\
  hexPrefixEncode_slices s1 s2 leaf = hp leaf (nibblesS s1 ++ nibblesS s2) /\
  isLeaf (hp leaf v) = leaf /\ nibblesS (keyOf (hp leaf v)) = v.
Proof.
  split_and!.
  - intros. apply hexPrefixEncode_hp; (done || lia).
  - by apply hexPrefixEncode_slice_hp.
  - by apply hexPrefixEncode_slices_hp.
  - by apply hp_decode.
  - by apply hp_decode.
Qed.

(** Slices behave as the lists of nibbles they show: [mid] drops, [shared] is
    the length of the longest common prefix, [contains] the prefix relation and
    [==] equality, whatever the bytes and offsets behind the two slices; and
    [isEarlierThan] holds exactly when the key is before every extension of the
    prefix, that is when the two first differ at a smaller nibble of the key or
    the key is a proper prefix of the prefix. *)
Theorem nibble_slice_order (s k : NibbleSlice) (i : Z) (Hs : slice_ok s) (Hk : slice_ok k)
  (Hi : 0 <= i <= ns_size s) :
  nibblesS (ns_mid s i) = drop (Z.to_nat i) (nibblesS s) /\
  (ns_empty s = true <-> nibblesS s = []) /\
  ns_shared s k = sizeZ (max_prefix (nibblesS s) (nibblesS k)).2 /\
  (ns_contains s k = true <-> nibblesS k `prefix_of` nibblesS s) /\
  (ns_eqb s k = true <-> nibblesS s = nibblesS k) /\
  (ns_isEarlierThan s k = true <-> earlier (nibblesS s) (nibblesS k)).
Proof.
  pose proof (ns_size_ok s Hs) as Es. split_and!.
  - by apply ns_mid_spec.
  - unfold ns_empty. rewrite Z.eqb_eq, <-nibblesS_length. unfold sizeZ. destruct (nibblesS s); cbn; split; (done || lia).
  - by apply ns_shared_spec.
  - by apply ns_contains_spec.
  - by apply ns_eqb_spec.
  - apply isEarlierThan_loop_spec; [pose proof (ns_size_nonneg k)|]; lia.
Qed.

(** ** Witnesses *)

Lemma hex_prefix_encoders_witness :
  hexPrefixEncode [1; 2; 3; 4; 5] true 0 (-1) = [49; 35; 69] /\
  hexPrefixEncode_slice (mkSlice [1; 35; 69] 1) false 0 (-1) = [17; 35; 69] /\
  hexPrefixEncode_slices (mkSlice [18] 1) (mkSlice [52] 0) false = [18; 52] /\
  nibblesS (keyOf [49; 35; 69]) = [1; 2; 3; 4; 5].
Proof.
  assert (Forall is_nibble [1; 2; 3; 4; 5]) as Hv by (repeat constructor; done).
  assert (slice_ok (mkSlice [1; 35; 69] 1)) as Hs by (split; [repeat constructor; done|done]).
  assert (slice_ok (mkSlice [18] 1)) as Hs1 by (split; [repeat constructor; done|done]).
  assert (slice_ok (mkSlice [52] 0)) as Hs2 by (split; [repeat constructor; done|done]).
  destruct (hex_prefix_encoders [1; 2; 3; 4; 5] (mkSlice [1; 35; 69] 1) (mkSlice [18] 1) (mkSlice [52] 0)
              true 0 (-1) Hv ltac:(done) Hs Hs1 Hs2) as (E1 & _ & _ & _ & E2).
  destruct (hex_prefix_encoders [1; 2; 3; 4; 5] (mkSlice [1; 35; 69] 1) (mkSlice [18] 1) (mkSlice [52] 0)
              false 0 (-1) Hv ltac:(done) Hs Hs1 Hs2) as (_ & E3 & E4 & _).
  split_and!.
  - rewrite E1 by done. vm_compute. reflexivity.
  - rewrite E3 by done. vm_compute. reflexivity.
  - rewrite E4. vm_compute. reflexivity.
  - exact E2.
Defined.

Lemma nibble_slice_order_witness :
  ns_shared (mkSlice [18; 52] 0) (mkSlice [1; 37] 1) = 2 /\
  ns_isEarlierThan (mkSlice [18; 52] 0) (mkSlice [1; 37] 1) = true /\
  ns_contains (mkSlice [18; 52] 0) (mkSlice [1; 35] 1) = true.
Proof.
  assert (slice_ok (mkSlice [18; 52] 0)) as Hs by (split; [repeat constructor; done|done]).
  assert (slice_ok (mkSlice [1; 37] 1)) as Hk by (split; [repeat constructor; done|done]).
  assert (slice_ok (mkSlice [1; 35] 1)) as Hk' by (split; [repeat constructor; done|done]).
  destruct (nibble_slice_order (mkSlice [18; 52] 0) (mkSlice [1; 37] 1) 0 Hs Hk ltac:(done))
    as (_ & _ & E1 & _ & _ & E2).
  destruct (nibble_slice_order (mkSlice [18; 52] 0) (mkSlice [1; 35] 1) 0 Hs Hk' ltac:(done))
    as (_ & _ & _ & E3 & _).
  split_and!; [rewrite E1; vm_compute; reflexivity| |].
  - apply E2. exists [1; 2], 5, []. split; [vm_compute; reflexivity|].
    right. exists 3, [4]. split; [vm_compute; reflexivity|lia].
  - apply E3. exists [4]. vm_compute. reflexivity.
Defined.
