(* ===== verification/Trie.v ===== *)
(** * Merkle-Patricia tries by their definition

    What the nodes that libdevcore/TrieDB.h and TrieHash.cpp read and write stand
    for: a tree over nibble paths, its contents, the RLP item of each node, and
    the canonical form, which is unique for given contents.  Nothing here is code
    of the client; [TrieDB] and [TrieHash] are proved against it. *)

From Stdlib Require Import ZArith Lia.
From stdpp Require Import base list list_numbers option.
From S2P Require Import Prelude CommonData RLP RLPTheory TrieCommon.

(** A node: the empty one, a leaf with the rest of its key, an extension with a
    common part of the keys below, a branch with 16 children and a value.  An
    empty value stands for none. *)
Inductive trie :=
| TEmpty
| TLeaf (p : list Z) (v : bytes)
| TExt (p : list Z) (t : trie)
| TBranch (cs : list trie) (v : bytes).

#[export] Instance trie_empty_dec t : Decision (t = TEmpty).
Proof. refine (match t with TEmpty => left eq_refl | _ => right _ end); done. Defined.

Section Induction.
Variable P : trie -> Prop.
Hypothesis HE : P TEmpty.
Hypothesis HL : forall p v, P (TLeaf p v).
Hypothesis HX : forall p t, P t -> P (TExt p t).
Hypothesis HB : forall cs v, Forall P cs -> P (TBranch cs v).

Fixpoint trie_nested_ind (t : trie) : P t :=
  match t with
  | TEmpty => HE
  | TLeaf p v => HL p v
  | TExt p t' => HX p t' (trie_nested_ind t')
  | TBranch cs v =>
      HB cs v ((fix go (l : list trie) : Forall P l :=
                  match l with
                  | [] => Forall_nil_2 P
                  | x :: xs => Forall_cons_2 P x xs (trie_nested_ind x) (go xs)
                  end) cs)
  end.
End Induction.

(** ** Contents *)

(** The rest of [k] after [p] *)
Fixpoint stripPrefix (p k : list Z) : option (list Z) :=
  match p, k with
  | [], _ => Some k
  | x :: p', y :: k' => if x =? y then stripPrefix p' k' else None
  | _ :: _, [] => None
  end.

Lemma stripPrefix_Some p k r : stripPrefix p k = Some r <-> k = p ++ r.
Proof.
  revert k. induction p as [|x p IH]; intros [|y k]; cbn; try by (split; congruence).
  destruct (Z.eqb_spec x y) as [->|Hn]; [rewrite IH|]; split; congruence.
Qed.

Lemma stripPrefix_app p r : stripPrefix p (p ++ r) = Some r.
Proof. by apply stripPrefix_Some. Qed.

Lemma stripPrefix_None p k : stripPrefix p k = None <-> ~ p `prefix_of` k.
Proof.
  split.
  - intros E [r ->]. by rewrite stripPrefix_app in E.
  - intros Hn. destruct (stripPrefix p k) as [r|] eqn:E; [|done].
    apply stripPrefix_Some in E. destruct Hn. by exists r.
Qed.

Definition child (cs : list trie) (x : Z) : trie := nth (Z.to_nat x) cs TEmpty.

(** The value at a path; the empty string where there is none *)
Fixpoint get (t : trie) (k : list Z) : bytes :=
  match t with
  | TEmpty => []
  | TLeaf p v => if decide (p = k) then v else []
  | TExt p t' => match stripPrefix p k with Some k' => get t' k' | None => [] end
  | TBranch cs v =>
      match k with
      | [] => v
      | x :: k' => nth (Z.to_nat x) (map get cs) (fun _ => []) k'
      end
  end.

Lemma get_branch cs v x k : get (TBranch cs v) (x :: k) = get (child cs x) k.
Proof.
  cbn [get]. unfold child. change (fun _ : list Z => @nil Z) with (get TEmpty). by rewrite map_nth.
Qed.

(** ** Nodes as RLP items *)

Section Items.
Context (sha3 : bytes -> bytes).

(** A node inside another one: in line when it is short, by its hash otherwise *)
Definition refItem (i : item) : item :=
  if sizeZ (encode i) <? 32 then i else Str (sha3 (encode i)).

Fixpoint nodeItem (t : trie) : item :=
  match t with
  | TEmpty => Str []
  | TLeaf p v => Lst [Str (hp true p); Str v]
  | TExt p t' => Lst [Str (hp false p); refItem (nodeItem t')]
  | TBranch cs v => Lst (map (fun c => refItem (nodeItem c)) cs ++ [Str v])
  end.

Definition enc (t : trie) : bytes := encode (nodeItem t).

End Items.

(** ** Well-formed tries

    Enough for the nodes to be read back: nibbles, sizes, sixteen children. *)

Definition wfPath (p : list Z) : Prop := Forall is_nibble p /\ sizeZ p < 2 ^ 30.
Definition wfValue (v : bytes) : Prop := wf_bytes v /\ sizeZ v < 2 ^ 32.

Fixpoint wfTrie (t : trie) : Prop :=
  match t with
  | TEmpty => True
  | TLeaf p v => wfPath p /\ wfValue v
  | TExt p t' => (wfPath p /\ p <> []) /\ wfTrie t'
  | TBranch cs v =>
      length cs = 16%nat /\ wfValue v /\
      (fix go l := match l with [] => True | x :: xs => wfTrie x /\ go xs end) cs
  end.

Lemma wfTrie_branch cs v :
  wfTrie (TBranch cs v) <-> length cs = 16%nat /\ wfValue v /\ Forall wfTrie cs.
Proof.
  cbn [wfTrie]. do 2 f_equiv. induction cs as [|c cs IH]; [by split|].
  rewrite IH. split; [by intros []; constructor|by intros [? ?]%Forall_cons_1].
Qed.

Lemma child_Forall (P : trie -> Prop) cs x : P TEmpty -> Forall P cs -> P (child cs x).
Proof.
  intros HE Hc. unfold child. destruct (nth_in_or_default (Z.to_nat x) cs TEmpty) as [Hin| ->]; [|done].
  exact (proj1 (List.Forall_forall _ _) Hc _ Hin).
Qed.

Lemma wf_child cs v x : wfTrie (TBranch cs v) -> wfTrie (child cs x).
Proof. intros (_ & _ & Hc)%wfTrie_branch. by apply child_Forall. Qed.

Lemma hp_size leaf l : sizeZ (hp leaf l) <= 1 + sizeZ l.
Proof.
  assert (forall n l, (length l <= n)%nat -> sizeZ (pairUp l) <= sizeZ l) as Hp.
  { clear l. induction n as [|n IH]; intros l Hl.
    { destruct l; [done|cbn in Hl; lia]. }
    destruct l as [|a [|b l]]; [done|done|]. cbn in Hl. cbn [pairUp].
    rewrite !sizeZ_cons. specialize (IH l ltac:(lia)). lia. }
  unfold hp. destruct l as [|n l]; [done|].
  destruct (Nat.odd _); rewrite !sizeZ_cons; [specialize (Hp _ l (le_n _))|specialize (Hp _ (n :: l) (le_n _))];
    rewrite ?sizeZ_cons in Hp; lia.
Qed.

Section Sizes.
Context (sha3 : bytes -> bytes).
Hypothesis Hsha3 : forall d, wf_bytes (sha3 d) /\ length (sha3 d) = 32%nat.

(** Items that are short enough to be part of a node *)
Definition smallItem (i : item) : Prop := wf_item i /\ sizeZ (encode i) < 2 ^ 40.

Lemma smallItem_Str v : wfValue v -> smallItem (Str v).
Proof. intros []. by apply small_Str. Qed.

Lemma smallItem_hash d : smallItem (Str (sha3 d)).
Proof. destruct (Hsha3 d) as [Hw Hl]. apply small_Str; [done|]. unfold sizeZ. lia. Qed.

Lemma smallItem_ref i : wf_item i -> smallItem (refItem sha3 i).
Proof.
  intros Hw. unfold refItem. destruct (Z.ltb_spec (sizeZ (encode i)) 32); [|apply smallItem_hash].
  split; [done|lia].
Qed.

Lemma smallItem_hp leaf p : wfPath p -> smallItem (Str (hp leaf p)).
Proof.
  intros [Hn Hl]. apply small_Str; [by apply hp_wf|]. pose proof (hp_size leaf p). lia.
Qed.

Lemma nodeItem_wf t : wfTrie t -> wf_item (nodeItem sha3 t) /\ fitsItem (nodeItem sha3 t).
Proof.
  induction t as [|p v|p t IH|cs v IH] using trie_nested_ind; intros Hw.
  - split; [by apply Forall_nil_2|done].
  - destruct Hw as [Hp Hv]. cbn [nodeItem]. apply small_items; [|done].
    repeat constructor; try apply (smallItem_hp _ p Hp); apply (smallItem_Str v Hv).
  - destruct Hw as [[Hp _] Ht]. cbn [nodeItem]. apply small_items; [|done].
    destruct (IH Ht) as [Hi _].
    repeat constructor; try apply (smallItem_hp _ p Hp); apply (smallItem_ref _ Hi).
  - apply wfTrie_branch in Hw as (Hl & Hv & Hc). cbn [nodeItem]. apply small_items.
    + apply Forall_app. split; [|repeat constructor; apply (smallItem_Str v Hv)].
      apply Forall_map. clear Hl. induction Hc as [|c cs Hwc Hc IHc]; [constructor|].
      apply Forall_cons_1 in IH as [IHx IH]. constructor; [|by apply IHc].
      apply smallItem_ref. by apply IHx.
    + rewrite sizeZ_app. unfold sizeZ. rewrite length_map, Hl. cbn. lia.
Qed.
End Sizes.

(** ** Canonical tries

    No value is stored empty, the node under an extension is a branch, and a
    branch has at least two uses: some child, and for every nibble something that
    is not below it. *)

Definition isBranch (t : trie) : Prop := match t with TBranch _ _ => True | _ => False end.

Definition forks (cs : list trie) (v : bytes) : Prop :=
  (exists y, is_nibble y /\ child cs y <> TEmpty) /\
  forall x, v <> [] \/ exists y, is_nibble y /\ y <> x /\ child cs y <> TEmpty.

Fixpoint canonical (t : trie) : Prop :=
  match t with
  | TEmpty => True
  | TLeaf p v => v <> []
  | TExt p t' => p <> [] /\ isBranch t' /\ canonical t'
  | TBranch cs v =>
      forks cs v /\ (fix go l := match l with [] => True | x :: xs => canonical x /\ go xs end) cs
  end.

Lemma canonical_branch cs v : canonical (TBranch cs v) <-> forks cs v /\ Forall canonical cs.
Proof.
  cbn [canonical]. f_equiv. induction cs as [|c cs IH]; [by split|].
  rewrite IH. split; [by intros []; constructor|by intros [? ?]%Forall_cons_1].
Qed.

Lemma canonical_child cs v x : canonical (TBranch cs v) -> canonical (child cs x).
Proof. intros [_ Hc]%canonical_branch. by apply child_Forall. Qed.

Definition sound (t : trie) : Prop := wfTrie t /\ canonical t.

Lemma sound_child cs v x : sound (TBranch cs v) -> sound (child cs x).
Proof. intros [Hw Hc]. split; [by eapply wf_child|by eapply canonical_child]. Qed.

(** Every node but the empty one holds a value. *)
Lemma sound_inhabited t : sound t -> t <> TEmpty -> exists k, Forall is_nibble k /\ get t k <> [].
Proof.
  induction t as [|p v|p t IH|cs v IH] using trie_nested_ind; intros [Hw Hc] Hne; [done| | |].
  - exists p. split; [apply Hw|]. cbn. by rewrite decide_True.
  - destruct Hc as (_ & Hb & Hc), Hw as [Hp Hw]. destruct IH as (k & Hk & Hg); [done|by destruct t|].
    exists (p ++ k). split; [apply Forall_app; by split; [apply Hp|]|]. cbn. by rewrite stripPrefix_app.
  - pose proof Hc as [[(y & Hy & Hye) _] _]%canonical_branch.
    assert (exists k, Forall is_nibble k /\ get (child cs y) k <> []) as (k & Hk & Hg).
    { revert IH Hw Hc Hye. unfold child. intros IH Hw Hc Hye.
      destruct (nth_in_or_default (Z.to_nat y) cs TEmpty) as [Hin|E]; [|by rewrite E in Hye].
      refine (proj1 (List.Forall_forall _ _) IH _ Hin _ Hye).
      by apply (sound_child cs v y). }
    exists (y :: k). split; [by constructor|]. by rewrite get_branch.
Qed.

(** The keys of a branch do not all begin with the same nibble. *)
Lemma sound_forks cs v x : sound (TBranch cs v) ->
  exists k, Forall is_nibble k /\ get (TBranch cs v) k <> [] /\ forall k', k <> x :: k'.
Proof.
  intros Hs. pose proof (proj2 Hs) as [[_ Hf] _]%canonical_branch.
  destruct (Hf x) as [Hv|(y & Hy & Hyx & Hye)].
  - exists []. split_and!; try done.
  - destruct (sound_inhabited (child cs y)) as (k & Hk & Hg); [by eapply sound_child|done|].
    exists (y :: k). split_and!; [by constructor|by rewrite get_branch|congruence].
Qed.

Lemma sound_branch_key cs v : sound (TBranch cs v) ->
  exists x k, is_nibble x /\ Forall is_nibble k /\ get (TBranch cs v) (x :: k) <> [].
Proof.
  intros Hs. pose proof (proj2 Hs) as [[(y & Hy & Hye) _] _]%canonical_branch.
  destruct (sound_inhabited (child cs y)) as (k & Hk & Hg); [by eapply sound_child|done|].
  exists y, k. by rewrite get_branch.
Qed.

(** A leaf has one key, a branch has more. *)
Lemma branch_not_leaf cs v q p w : sound (TBranch cs v) ->
  ~ (forall k, Forall is_nibble k -> get (TBranch cs v) k <> [] -> get (TLeaf p w) (q ++ k) <> []).
Proof.
  intros Hs H. destruct (sound_branch_key cs v Hs) as (x & k & Hx & Hk & Hg).
  destruct (sound_forks cs v x Hs) as (k2 & Hk2 & Hg2 & Hd).
  pose proof (H (x :: k) (Forall_cons_2 _ _ _ Hx Hk) Hg) as E1. pose proof (H k2 Hk2 Hg2) as E2.
  cbn [get] in E1, E2. destruct (decide (p = q ++ x :: k)) as [D1|]; [|done].
  destruct (decide (p = q ++ k2)) as [D2|]; [|done].
  rewrite D1 in D2. apply app_inv_head in D2. by apply (Hd k).
Qed.

Lemma get_ext p t k : get (TExt p t) (p ++ k) = get t k.
Proof. cbn [get]. by rewrite stripPrefix_app. Qed.

Lemma get_ext_prefix p t k : get (TExt p t) k <> [] -> exists k', k = p ++ k'.
Proof.
  cbn [get]. destruct (stripPrefix p k) as [r|] eqn:E; [|done]. intros _.
  exists r. by apply stripPrefix_Some.
Qed.

(** The paths of two extensions with the same keys agree: the longer one would
    give all keys of the other's branch the same first nibble. *)
Lemma ext_path_le p p' cs v t' :
  sound (TBranch cs v) -> Forall is_nibble p ->
  (forall k, Forall is_nibble k -> get (TExt p (TBranch cs v)) k <> [] -> get (TExt p' t') k <> []) ->
  p' `prefix_of` p.
Proof.
  intros Hs Hp H. destruct (sound_branch_key cs v Hs) as (x & k & Hx & Hk & Hg).
  assert (forall k, Forall is_nibble k -> get (TBranch cs v) k <> [] -> exists r, p ++ k = p' ++ r) as H'.
  { intros k0 Hk0 Hg0. apply (get_ext_prefix p' t'). apply H; [apply Forall_app; by split|].
    by rewrite get_ext. }
  destruct (H' (x :: k)) as [r Hr]; [by constructor|done|].
  destruct (prefix_weak_total p p' (p ++ x :: k)) as [[z Hz]|Hp']; [by eexists|by eexists| |done].
  subst p'. rewrite <-app_assoc in Hr. apply app_inv_head in Hr.
  destruct z as [|y z]; [by rewrite app_nil_r|]. injection Hr as -> ->.
  destruct (sound_forks cs v y Hs) as (k2 & Hk2 & Hg2 & Hd). destruct (H' k2 Hk2 Hg2) as [r2 Hr2].
  rewrite <-app_assoc in Hr2. apply app_inv_head in Hr2. by destruct (Hd (z ++ r2)).
Qed.

Lemma ext_not_branch p t cs v : p <> [] -> sound (TBranch cs v) ->
  ~ (forall k, Forall is_nibble k -> get (TBranch cs v) k <> [] -> get (TExt p t) k <> []).
Proof.
  intros Hp Hs H. destruct p as [|x p]; [done|].
  destruct (sound_forks cs v x Hs) as (k & Hk & Hg & Hd).
  destruct (get_ext_prefix _ _ _ (H k Hk Hg)) as [k' ->]. by destruct (Hd (p ++ k')).
Qed.

Definition sameContents (t t' : trie) : Prop := forall k, Forall is_nibble k -> get t k = get t' k.

#[export] Instance sameContents_equiv : Equivalence sameContents.
Proof.
  split.
  - by intros t k.
  - intros t t' H k Hk. by rewrite H.
  - intros t1 t2 t3 H1 H2 k Hk. by rewrite H1, H2.
Qed.

Lemma sameContents_incl t t' k : sameContents t t' -> Forall is_nibble k -> get t k <> [] -> get t' k <> [].
Proof. intros H Hk. by rewrite (H k Hk). Qed.

Lemma nibble_lookup (cs : list trie) i : length cs = 16%nat -> (i < 16)%nat ->
  is_nibble (Z.of_nat i) /\ cs !! i = Some (child cs (Z.of_nat i)).
Proof.
  intros Hl Hi. split; [unfold is_nibble; lia|]. unfold child. rewrite Nat2Z.id.
  destruct (lookup_lt_is_Some_2 cs i) as [c Hc]; [lia|]. rewrite Hc. f_equal. symmetry. by apply nth_lookup_Some.
Qed.

Lemma children_ext cs cs' : length cs = 16%nat -> length cs' = 16%nat ->
  (forall x, is_nibble x -> child cs x = child cs' x) -> cs = cs'.
Proof.
  intros Hl Hl' H. apply list_eq_same_length with 16%nat; [done|lia|].
  intros i c c' Hi Hc Hc'. destruct (nibble_lookup cs i Hl Hi) as [Hx E].
  destruct (nibble_lookup cs' i Hl' Hi) as [_ E']. rewrite E in Hc. rewrite E' in Hc'.
  specialize (H _ Hx). congruence.
Qed.

Lemma sameContents_leaf p v t : sound (TLeaf p v) -> sound t -> sameContents (TLeaf p v) t -> t = TLeaf p v.
Proof.
  intros [[Hp Hv] Hne] Ht H. cbn in Hne. pose proof (H p (proj1 Hp)) as E. cbn [get] in E.
  rewrite decide_True in E by done.
  destruct t as [|p' v'|p' t|cs w].
  - done.
  - cbn [get] in E. destruct (decide (p' = p)) as [->|]; [by subst v'|done].
  - exfalso. destruct Ht as [[Hp' Hw] (_ & Hb & Hc)]. destruct t as [| | |cs w]; try done.
    apply (branch_not_leaf cs w p' p v (conj Hw Hc)). intros k Hk Hg.
    apply (sameContents_incl (TExt p' (TBranch cs w))); [by symmetry|apply Forall_app; by split; [apply Hp'|]|].
    by rewrite get_ext.
  - exfalso. apply (branch_not_leaf cs w [] p v Ht). intros k Hk Hg.
    by apply (sameContents_incl (TBranch cs w)).
Qed.

(** Two canonical tries with the same contents are the same. *)
Lemma sound_unique t t' : sound t -> sound t' -> sameContents t t' -> t = t'.
Proof.
  revert t'. induction t as [|p v|p t IH|cs v IH] using trie_nested_ind; intros t' Hs Hs' H.
  - destruct (decide (t' = TEmpty)) as [|Hne]; [done|].
    destruct (sound_inhabited t' Hs' Hne) as (k & Hk & Hg). by rewrite <-(H k Hk) in Hg.
  - symmetry. by apply sameContents_leaf.
  - destruct Hs as [[Hp Hw] (Hpn & Hb & Hc)]. destruct t as [| | |cs v]; try done.
    destruct t' as [|p' v'|p' t'|cs' v'].
    + destruct (sound_inhabited (TBranch cs v)) as (k & Hk & Hg); [done|done|].
      rewrite <-(get_ext p) in Hg. rewrite (H (p ++ k)) in Hg; [done|apply Forall_app; by split; [apply Hp|]].
    + apply sameContents_leaf; [done| |done]. by split.
    + destruct Hs' as [[Hp' Hw'] (Hpn' & Hb' & Hc')]. destruct t' as [| | |cs' v']; try done.
      assert (p = p') as <-.
      { assert (p' `prefix_of` p) as H1
          by (eapply (ext_path_le p p' cs v); [done|apply Hp|]; intros k; by apply sameContents_incl).
        assert (p `prefix_of` p') as H2
          by (eapply (ext_path_le p' p cs' v'); [done|apply Hp'|]; intros k; by apply sameContents_incl).
        apply prefix_length_eq; [done|]. by apply prefix_length. }
      f_equal. apply IH; [done|done|]. intros k Hk. rewrite <-(get_ext p), <-(get_ext p (TBranch cs' v')).
      apply H. apply Forall_app. by split; [apply Hp|].
    + exfalso. apply (ext_not_branch p (TBranch cs v) cs' v' Hpn Hs'). intros k Hk.
      by apply sameContents_incl.
  - destruct t' as [|p' v'|p' t'|cs' v'].
    + destruct (sound_inhabited (TBranch cs v) Hs) as (k & Hk & Hg); [done|]. by rewrite (H k Hk) in Hg.
    + apply sameContents_leaf; [done|done|by symmetry].
    + exfalso. destruct Hs' as [[Hp' Hw'] (Hpn' & Hb' & Hc')].
      apply (ext_not_branch p' t' cs v Hpn' Hs). intros k Hk. by apply sameContents_incl.
    + pose proof (H [] (Forall_nil_2 _)) as Ev. cbn [get] in Ev. subst v'. f_equal.
      pose proof (proj1 Hs) as (Hl & _)%wfTrie_branch. pose proof (proj1 Hs') as (Hl' & _)%wfTrie_branch.
      apply children_ext; [done|done|]. intros x Hx.
      assert (sameContents (child cs x) (child cs' x)) as Hcx.
      { intros k Hk. rewrite <-(get_branch cs v), <-(get_branch cs' v). apply H. by constructor. }
      destruct (nth_in_or_default (Z.to_nat x) cs TEmpty) as [Hin|E].
      * refine (proj1 (List.Forall_forall _ _) IH _ Hin _ _ _ Hcx);
          [by apply (sound_child cs v x)|by apply (sound_child cs' v x)].
      * assert (child cs x = TEmpty) as E0 by exact E. rewrite E0 in Hcx |- *.
        destruct (decide (child cs' x = TEmpty)) as [|Hne]; [done|].
        destruct (sound_inhabited (child cs' x)) as (k & Hk & Hg); [by eapply sound_child|done|].
        by rewrite <-(Hcx k Hk) in Hg.
Qed.

(** *** Writing a node's items to a stream *)

Lemma smallItems_fit l : Forall smallItem l -> sizeZ l < 2 ^ 20 -> sizeZ (flat_map encode l) < 2 ^ 64.
Proof.
  intros Hl Hn. destruct (small_items l Hl Hn) as [_ Hf]. unfold fitsItem in Hf.
  pose proof (sizeZ_encode_Lst l). lia.
Qed.

Lemma smallItems_snoc n l x : sizeZ l < n <= 17 -> Forall smallItem l -> smallItem x ->
  sizeZ (flat_map encode (l ++ [x])) < 2 ^ 64.
Proof.
  intros Hn Hl Hx. apply smallItems_fit; [apply Forall_app; split; [done|by apply Forall_singleton]|].
  rewrite sizeZ_app. change (sizeZ [x]) with 1. lia.
Qed.

Lemma append_small n l b : sizeZ l < n <= 17 -> Forall smallItem l -> smallItem (Str b) -> sizeZ b < 2 ^ 64 ->
  RLPStream.append (listStream n l) b false = Ok (listStream n (l ++ [Str b])).
Proof. intros Hn Hl Hb Hs. apply listStream_append; [lia|done|]. by apply (smallItems_snoc n). Qed.

(** *** The common part of two paths *)

Definition cp (a b : list Z) : nat := length (max_prefix a b).2.

Lemma cp_cons x a y b : cp (x :: a) (y :: b) = if decide (x = y) then S (cp a b) else 0%nat.
Proof. apply max_prefix_cons. Qed.

Lemma cp_nil_l b : cp [] b = 0%nat.
Proof. done. Qed.

Lemma cp_nil_r a : cp a [] = 0%nat.
Proof. by destruct a. Qed.

Lemma cp_take n a b : (n <= cp a b)%nat -> take n a = take n b /\ (n <= length a)%nat /\ (n <= length b)%nat.
Proof.
  revert a b. induction n as [|n IH]; intros a b Hn; [cbn; split_and!; (done || lia)|].
  destruct a as [|x a]; [rewrite cp_nil_l in Hn; lia|]. destruct b as [|y b]; [rewrite cp_nil_r in Hn; lia|].
  rewrite cp_cons in Hn. case_decide as E; [subst y|lia].
  destruct (IH a b) as (E & ? & ?); [lia|]. cbn. rewrite E. split_and!; (done || lia).
Qed.

Lemma cp_drop n a b : (n <= cp a b)%nat -> cp (drop n a) (drop n b) = (cp a b - n)%nat.
Proof.
  revert a b. induction n as [|n IH]; intros a b Hn; [by rewrite !drop_0, Nat.sub_0_r|].
  destruct a as [|x a]; [rewrite cp_nil_l in Hn; lia|]. destruct b as [|y b]; [rewrite cp_nil_r in Hn; lia|].
  rewrite cp_cons in Hn |- *. case_decide; [|lia]. cbn [drop]. rewrite IH by lia. lia.
Qed.

Lemma cp_le a b : (cp a b <= length a)%nat /\ (cp a b <= length b)%nat.
Proof. by destruct (cp_take (cp a b) a b (le_n _)) as (_ & ? & ?). Qed.

Lemma wfPath_app p q : wfPath (p ++ q) -> wfPath p /\ wfPath q.
Proof.
  intros [Hn Hs]. apply Forall_app in Hn as [Hp Hq]. rewrite sizeZ_app in Hs.
  pose proof (sizeZ_nonneg p). pose proof (sizeZ_nonneg q). repeat split; (done || lia).
Qed.
