(* ===== verification/TrieHash.v ===== *)
(** * libdevcore/TrieHash.{h,cpp}: the root of a trie computed in one go

    [hash256] takes a whole map and computes the root hash of its trie without a
    database; block headers commit to their transactions and receipts this way.
    It is proved to compute the encoding of the canonical trie of the map. *)

From Stdlib Require Import ZArith Lia Sorted.
From stdpp Require Import base list list_numbers option.
From S2P Require Import Prelude CommonData RLP RLPTheory TrieCommon Trie.

(** ** [std::map<bytes, bytes>]

    Entries in the lexicographic order of their keys. *)
Fixpoint bytesLt (a b : bytes) : bool :=
  match a, b with
  | _, [] => false
  | [], _ :: _ => true
  | x :: a', y :: b' => (x <? y) || (x =? y) && bytesLt a' b'
  end.

Definition BytesMap := list (bytes * bytes).
Definition HexMap := list (bytes * bytes).

(** [m[k] = v] *)
Fixpoint mapAssign (k v : bytes) (m : list (bytes * bytes)) : list (bytes * bytes) :=
  match m with
  | [] => [(k, v)]
  | (k', v') :: m' =>
      if bytesLt k k' then (k, v) :: m
      else if bytesLt k' k then (k', v') :: mapAssign k v m'
      else (k', v) :: m'
  end.

(** ** The code *)

Section Hash.
Context (sha3 : bytes -> bytes).

(** The inner loop [for (; shared < x && first[shared] == i->first[shared]; ++shared)] *)
Fixpoint sharedFrom (fuel : nat) (a b : bytes) (shared x : Z) : Z :=
  match fuel with
  | O => shared
  | S f => if (shared <? x) && (at_ a shared =? at_ b shared) then sharedFrom f a b (shared + 1) x else shared
  end.

(** The loop over the entries after the first *)
Fixpoint sharedPre_loop (first : bytes) (l : list (bytes * bytes)) (preLen sharedPre : Z) : Z :=
  match l with
  | [] => sharedPre
  | (k, _) :: l' =>
      if sharedPre =? 0 then sharedPre
      else
        let x := Z.min sharedPre (Z.min (sizeZ first) (sizeZ k)) in
        let shared := sharedFrom (length first) first k preLen x in
        sharedPre_loop first l' preLen (Z.min shared sharedPre)
  end.

(** [for (; n != _end && n->first[_preLen] == i; ++n)]: the entries up to [n] and
    the rest *)
Fixpoint spanNibble (l : list (bytes * bytes)) (preLen i : Z) : list (bytes * bytes) * list (bytes * bytes) :=
  match l with
  | [] => ([], [])
  | (k, v) :: l' =>
      if at_ k preLen =? i then let '(a, b) := spanNibble l' preLen i in ((k, v) :: a, b)
      else ([], l)
  end.

(** [hash256aux], given the recursive call to [hash256rlp] *)
Definition hash256aux (rec : list (bytes * bytes) -> Z -> RLPStream.t -> result rlp_error RLPStream.t)
    (l : list (bytes * bytes)) (preLen : Z) (rlp : RLPStream.t) : result rlp_error RLPStream.t :=
  s ← rec l preLen RLPStream.empty;
  o ← RLPStream.out s;
  if sizeZ o <? 32 then RLPStream.appendRaw rlp o 1
  else RLPStream.appendHash rlp (sha3 o) false false.

(** The loop over the sixteen children, from [b] on *)
Fixpoint hash256_children (rec : list (bytes * bytes) -> Z -> RLPStream.t -> result rlp_error RLPStream.t)
    (is_ : list Z) (b : list (bytes * bytes)) (preLen : Z) (rlp : RLPStream.t) : result rlp_error RLPStream.t :=
  match is_ with
  | [] => Ok rlp
  | i :: is' =>
      let '(here, n) := spanNibble b preLen i in
      r ← (match here with
           | [] => RLPStream.append rlp [] false
           | _ :: _ => hash256aux rec here (preLen + 1) rlp
           end);
      hash256_children rec is' n preLen r
  end.

(** [hash256rlp] on the range of entries [l]; the lengths are [unsigned].  Each
    call below another one has a longer prefix, so one more than the longest key
    bounds the nesting. *)
Fixpoint hash256rlp (fuel : nat) (l : list (bytes * bytes)) (preLen : Z) (rlp : RLPStream.t)
  : result rlp_error RLPStream.t :=
  match fuel with
  | O => Throw UndefinedBehaviour
  | S f =>
      match l with
      | [] => RLPStream.append rlp [] false
      | [(k, v)] =>
          r0 ← RLPStream.appendList rlp 2;
          r1 ← RLPStream.append r0 (hexPrefixEncode k true preLen (-1)) false;
          RLPStream.append r1 v false
      | (k, v) :: rest =>
          let sharedPre := sharedPre_loop k rest preLen (2 ^ 32 - 1) in
          if preLen <? sharedPre then
            r0 ← RLPStream.appendList rlp 2;
            r1 ← RLPStream.append r0 (hexPrefixEncode k false preLen sharedPre) false;
            hash256aux (hash256rlp f) l sharedPre r1
          else
            r0 ← RLPStream.appendList rlp 17;
            let b := if preLen =? sizeZ k then rest else l in
            r1 ← hash256_children (hash256rlp f) (seqZ 0 16) b preLen r0;
            if preLen =? sizeZ k then RLPStream.append r1 v false
            else RLPStream.append r1 [] false
      end
  end.

Definition keyFuel (l : list (bytes * bytes)) : nat := S (S (list_max (map (fun e => length e.1) l))).

(** [hexMap[asNibbles(i->first)] = i->second], from the last entry to the first *)
Definition toHexMap (s : BytesMap) : HexMap :=
  foldl (fun m e => mapAssign (asNibbles e.1) e.2 m) [] (rev s).

(** [rlp("")] *)
Definition rlpEmpty : result rlp_error bytes :=
  s ← RLPStream.append RLPStream.empty [] false; RLPStream.out s.

Definition rlp256 (s : BytesMap) : result rlp_error bytes :=
  match s with
  | [] => rlpEmpty
  | _ :: _ =>
      let hexMap := toHexMap s in
      r ← hash256rlp (keyFuel hexMap) hexMap 0 RLPStream.empty;
      RLPStream.out r
  end.

Definition hash256 (s : BytesMap) : result rlp_error bytes := r ← rlp256 s; Ok (sha3 r).

(** [rlp(unsigned)] *)
Definition rlpUnsigned (i : Z) : result rlp_error bytes :=
  s ← RLPStream.appendInt RLPStream.empty i; RLPStream.out s.

(** [orderedTrieRoot]; [j] is an [unsigned] *)
Fixpoint orderedMap (j : Z) (l : list bytes) (m : BytesMap) : result rlp_error BytesMap :=
  match l with
  | [] => Ok m
  | d :: l' => k ← rlpUnsigned j; orderedMap (u32 (j + 1)) l' (mapAssign k d m)
  end.

Definition orderedTrieRoot (data : list bytes) : result rlp_error bytes :=
  m ← orderedMap 0 data []; hash256 m.

(** [trieRootOver] *)
Fixpoint rootOver_loop (n : nat) (i : Z) (getKey getValue : Z -> result rlp_error bytes) (m : BytesMap)
  : result rlp_error BytesMap :=
  match n with
  | O => Ok m
  | S n' => k ← getKey i; v ← getValue i; rootOver_loop n' (i + 1) getKey getValue (mapAssign k v m)
  end.

Definition trieRootOver (itemCount : Z) (getKey getValue : Z -> result rlp_error bytes) : result rlp_error bytes :=
  m ← rootOver_loop (Z.to_nat itemCount) 0 getKey getValue []; hash256 m.

End Hash.
