(* ===== verification/TrieHashTheory.v ===== *)
(** * What [hash256] computes

    The trie of a sorted list of entries, built from the top by the common part of
    the keys, is canonical and holds the entries; [hash256rlp] writes its node. *)

From Stdlib Require Import ZArith Lia Sorted.
From stdpp Require Import base list list_numbers option.
From S2P Require Import Prelude CommonData RLP RLPTheory TrieCommon Trie TrieHash.

(** ** The order of the keys *)

Definition entryLt (a b : bytes * bytes) : Prop := bytesLt a.1 b.1 = true.
Definition sortedMap (l : list (bytes * bytes)) : Prop := StronglySorted entryLt l.

Lemma bytesLt_irrefl a : bytesLt a a = false.
Proof. induction a as [|x a IH]; [done|]. cbn. by rewrite Z.ltb_irrefl, Z.eqb_refl, IH. Qed.

Lemma bytesLt_cons x a y b : bytesLt (x :: a) (y :: b) = true <-> x < y \/ x = y /\ bytesLt a b = true.
Proof. cbn. rewrite orb_true_iff, andb_true_iff, Z.ltb_lt, Z.eqb_eq. done. Qed.

Lemma bytesLt_trans a b c : bytesLt a b = true -> bytesLt b c = true -> bytesLt a c = true.
Proof.
  revert b c. induction a as [|x a IH]; intros [|y b] [|z c]; try done.
  rewrite !bytesLt_cons. intros [?|[-> ?]] [?|[-> ?]]; [left; lia|by left|by left|right; eauto].
Qed.

Lemma bytesLt_total a b : bytesLt a b = false -> bytesLt b a = false -> a = b.
Proof.
  revert b. induction a as [|x a IH]; intros [|y b]; try done. cbn.
  destruct (Z.ltb_spec x y), (Z.ltb_spec y x); try done. assert (x = y) as -> by lia.
  rewrite Z.eqb_refl. cbn. intros. f_equal. by apply IH.
Qed.

Lemma bytesLt_app c a b : bytesLt (c ++ a) (c ++ b) = bytesLt a b.
Proof. induction c as [|x c IH]; [done|]. cbn. by rewrite Z.ltb_irrefl, Z.eqb_refl, IH. Qed.

#[export] Instance entryLt_trans : Transitive entryLt.
Proof. intros a b c. apply bytesLt_trans. Qed.

(** The value of a key in a list of entries *)
Fixpoint valueAt (l : list (bytes * bytes)) (k : bytes) : bytes :=
  match l with
  | [] => []
  | (k', v) :: l' => if decide (k' = k) then v else valueAt l' k
  end.

Lemma valueAt_absent l k : Forall (fun e => e.1 <> k) l -> valueAt l k = [].
Proof.
  induction 1 as [|[k' v] l Hk Hl IH]; [done|]. cbn [valueAt]. cbn in Hk. by rewrite decide_False.
Qed.

Lemma sortedMap_cons_ne k v l : sortedMap ((k, v) :: l) -> Forall (fun e => e.1 <> k) l.
Proof.
  intros [_ Hf]%StronglySorted_inv. eapply Forall_impl; [|exact Hf].
  intros [k' v'] Hlt E. unfold entryLt in Hlt. cbn in Hlt, E. subst k'. by rewrite bytesLt_irrefl in Hlt.
Qed.

Lemma mapAssign_sorted k v m : sortedMap m -> sortedMap (mapAssign k v m).
Proof.
  assert (forall e m, entryLt e (k, v) -> Forall (entryLt e) m -> Forall (entryLt e) (mapAssign k v m)) as HF.
  { intros e m0 He. induction m0 as [|[k' v'] m0 IH]; intros Hm; [by repeat constructor|]. cbn [mapAssign].
    apply Forall_cons_1 in Hm as [Hh Hm].
    destruct (bytesLt k k'); [by repeat constructor|]. destruct (bytesLt k' k); constructor; auto. }
  induction m as [|[k' v'] m IH]; intros Hs; [by repeat constructor|]. cbn [mapAssign].
  pose proof Hs as [Hs' Hf]%StronglySorted_inv. destruct (bytesLt k k') eqn:E1.
  - constructor; [done|]. constructor; [done|]. eapply Forall_impl; [|exact Hf].
    intros e He. by transitivity (k', v').
  - destruct (bytesLt k' k) eqn:E2; constructor; auto. by apply IH.
Qed.

Lemma mapAssign_value k v m k' : sortedMap m ->
  valueAt (mapAssign k v m) k' = if decide (k' = k) then v else valueAt m k'.
Proof.
  induction m as [|[k0 v0] m IH]; intros Hs; cbn [mapAssign].
  { cbn. destruct (decide (k = k')) as [->|]; [by rewrite decide_True|by rewrite decide_False]. }
  pose proof Hs as [Hs' Hf]%StronglySorted_inv. destruct (bytesLt k k0) eqn:E1.
  - cbn [valueAt]. destruct (decide (k = k')) as [->|]; [by rewrite decide_True|by rewrite (decide_False (P := k' = k))].
  - destruct (bytesLt k0 k) eqn:E2.
    + cbn [valueAt]. rewrite IH by done. destruct (decide (k0 = k')) as [->|]; [|done].
      destruct (decide (k' = k)) as [->|]; [|done]. by rewrite bytesLt_irrefl in E2.
    + pose proof (bytesLt_total _ _ E1 E2) as ->. cbn [valueAt].
      destruct (decide (k0 = k')) as [->|]; [by rewrite decide_True|by rewrite (decide_False (P := k' = k0))].
Qed.

(** ** Building the trie *)

(** The common part of the first key with all others *)
Fixpoint cpAll (k : list Z) (rest : list (bytes * bytes)) : nat :=
  match rest with
  | [] => length k
  | e :: rest' => Nat.min (cp k e.1) (cpAll k rest')
  end.

Lemma cpAll_le k rest : (cpAll k rest <= length k)%nat.
Proof. induction rest; cbn; lia. Qed.

Lemma cpAll_Forall n k rest : (n <= cpAll k rest)%nat -> Forall (fun e => n <= cp k e.1)%nat rest.
Proof. induction rest as [|e rest IH]; intros Hn; [constructor|]. cbn in Hn. constructor; [lia|apply IH; lia]. Qed.

Lemma cpAll_drop n k rest : (n <= cpAll k rest)%nat ->
  cpAll (drop n k) (map (fun e => (drop n e.1, e.2)) rest) = (cpAll k rest - n)%nat.
Proof.
  induction rest as [|e rest IH]; intros Hn; cbn in Hn |- *; [by rewrite length_drop|].
  rewrite IH, cp_drop by lia. lia.
Qed.

(** The entries below the nibble [i] *)
Definition below (l : list (bytes * bytes)) (i : Z) : list (bytes * bytes) :=
  omap (fun e => match e.1 with x :: k => if x =? i then Some (k, e.2) else None | [] => None end) l.

Definition dropAll (n : nat) (l : list (bytes * bytes)) := map (fun e => (drop n e.1, e.2)) l.

Fixpoint build (fuel : nat) (l : list (bytes * bytes)) : trie :=
  match fuel with
  | O => TEmpty
  | S f =>
      match l with
      | [] => TEmpty
      | [(k, v)] => TLeaf k v
      | (k, v) :: rest =>
          let n := cpAll k rest in
          if (0 <? n)%nat then TExt (take n k) (build f (dropAll n l))
          else TBranch (map (fun i => build f (below l i)) (seqZ 0 16)) (match k with [] => v | _ => [] end)
      end
  end.

Lemma build_many f k v e rest : build (S f) ((k, v) :: e :: rest) =
  (let l := (k, v) :: e :: rest in let n := cpAll k (e :: rest) in
   if (0 <? n)%nat then TExt (take n k) (build f (dropAll n l))
   else TBranch (map (fun i => build f (below l i)) (seqZ 0 16)) (match k with [] => v | _ => [] end)).
Proof. done. Qed.

(** Entries whose keys all begin with [c] *)
Definition under (c : list Z) (l : list (bytes * bytes)) : list (bytes * bytes) :=
  map (fun e => (c ++ e.1, e.2)) l.

Lemma under_under c c' l : under c (under c' l) = under (c ++ c') l.
Proof. unfold under. rewrite map_map. apply map_ext. intros e. cbn. by rewrite app_assoc. Qed.

Lemma under_sorted c l : sortedMap (under c l) <-> sortedMap l.
Proof.
  induction l as [|e l IH]; [by split; constructor|]. cbn [under map]. split.
  - intros [Hs Hf]%StronglySorted_inv. constructor; [by apply IH|].
    rewrite List.Forall_map in Hf. eapply Forall_impl; [|exact Hf]. intros x. unfold entryLt. cbn. by rewrite bytesLt_app.
  - intros [Hs Hf]%StronglySorted_inv. constructor; [by apply IH|].
    apply Forall_map. eapply Forall_impl; [|exact Hf]. intros x. unfold entryLt. cbn. by rewrite bytesLt_app.
Qed.

Lemma valueAt_under c l k : valueAt (under c l) (c ++ k) = valueAt l k.
Proof.
  induction l as [|[k' v] l IH]; [done|]. cbn [under map valueAt fst snd].
  destruct (decide (k' = k)) as [->|Hn]; [by rewrite decide_True|].
  rewrite decide_False by (by intros ?%app_inv_head). apply IH.
Qed.

Lemma valueAt_under_other c l k : ~ c `prefix_of` k -> valueAt (under c l) k = [].
Proof.
  intros Hn. apply valueAt_absent. apply Forall_map, Forall_true. intros e Hk. apply Hn. by exists e.1.
Qed.

Lemma under_dropAll n k v rest : (n <= cpAll k rest)%nat ->
  (k, v) :: rest = under (take n k) (dropAll n ((k, v) :: rest)).
Proof.
  intros Hn. pose proof (cpAll_Forall _ _ _ Hn) as Hf. unfold under, dropAll. cbn [map fst snd].
  f_equal; [by rewrite take_drop|]. rewrite map_map. cbn [fst snd].
  induction Hf as [|e rest' He Hf IH]; [done|]. cbn in Hn. cbn [map]. f_equal; [|apply IH; lia].
  destruct (cp_take n k e.1 He) as (-> & _). rewrite take_drop. by destruct e.
Qed.

Lemma below_value l x k : valueAt (below l x) k = valueAt l (x :: k).
Proof.
  unfold below. induction l as [|[k' v] l IH]; [done|]. cbn [omap list_omap valueAt fst snd].
  destruct k' as [|y k']; [by rewrite decide_False|]. destruct (Z.eqb_spec y x) as [->|Hn].
  - cbn [valueAt]. rewrite IH. destruct (decide (k' = k)) as [->|]; [by rewrite decide_True|].
    by rewrite decide_False by congruence.
  - by rewrite decide_False by congruence.
Qed.

Lemma below_Forall (P : bytes * bytes -> Prop) (Q : bytes * bytes -> Prop) l x :
  (forall k v, P (x :: k, v) -> Q (k, v)) -> Forall P l -> Forall Q (below l x).
Proof.
  intros H. unfold below. induction 1 as [|[k v] l Hk Hl IH]; [constructor|]. cbn [omap list_omap fst snd].
  destruct k as [|y k]; [done|]. destruct (Z.eqb_spec y x) as [->|]; [constructor; auto|done].
Qed.

Lemma below_sorted l x : sortedMap l -> sortedMap (below l x).
Proof.
  unfold below. induction 1 as [|[k v] l Hs IH Hf]; [constructor|]. cbn [omap list_omap fst snd].
  destruct k as [|y k]; [done|]. destruct (Z.eqb_spec y x) as [->|]; [|done]. constructor; [done|].
  apply (below_Forall (entryLt (x :: k, v))); [|done].
  intros k' v'. unfold entryLt. cbn [fst]. rewrite bytesLt_cons. intros [?|[_ ?]]; [lia|done].
Qed.

(** Entries whose keys and values can be part of a trie *)
Definition wfEntry (e : bytes * bytes) : Prop := wfPath e.1 /\ wfValue e.2.

Lemma dropAll_wf n l : Forall wfEntry l -> Forall wfEntry (dropAll n l).
Proof.
  intros Hl. apply Forall_map. eapply Forall_impl; [|exact Hl]. intros [k v] [Hk Hv]. split; [|done].
  cbn [fst snd] in *. apply (wfPath_app (take n k)). by rewrite take_drop.
Qed.

Lemma below_wf l x : Forall wfEntry l -> Forall wfEntry (below l x).
Proof.
  apply below_Forall. intros k v [Hk Hv]. split; [|done]. cbn [fst snd] in *. by apply (wfPath_app [x] k).
Qed.

Lemma build_wf f l : Forall wfEntry l -> wfTrie (build f l).
Proof.
  revert l. induction f as [|f IH]; intros l Hl; [done|].
  destruct l as [|[k v] [|e rest]]; [done|apply Forall_cons_1 in Hl as [Hk _]; exact Hk|].
  rewrite build_many. cbv zeta. pose proof Hl as [[Hk Hv] _]%Forall_cons_1. cbn [fst snd] in Hk, Hv.
  destruct (Nat.ltb_spec 0 (cpAll k (e :: rest))).
  - split; [|by apply IH, dropAll_wf]. split.
    + eapply (wfPath_app _ (drop (cpAll k (e :: rest)) k)). by rewrite take_drop.
    + pose proof (cpAll_le k (e :: rest)). destruct k; [cbn in *; lia|]. by destruct (cpAll _ _); [lia|].
  - apply wfTrie_branch. split_and!; [done| |].
    + destruct k; [done|]. split; [by apply Forall_nil_2|done].
    + apply Forall_map, Forall_true. intros i. by apply IH, below_wf.
Qed.

(** Keys short enough for the fuel *)
Definition fueled (f : nat) (l : list (bytes * bytes)) : Prop :=
  (0 < f)%nat /\ Forall (fun e => length e.1 < f)%nat l.

Lemma fueled_below f l x : fueled (S f) l -> below l x <> [] -> fueled f (below l x).
Proof.
  intros [_ Hl] Hne. assert (Forall (fun e => length e.1 < f)%nat (below l x)) as Hb.
  { revert Hl. apply below_Forall. cbn. lia. }
  split; [|done]. destruct (below l x); [done|]. apply Forall_cons_1 in Hb as [? _]. lia.
Qed.

Lemma fueled_drop f k v rest : fueled (S f) ((k, v) :: rest) -> (0 < cpAll k rest)%nat ->
  fueled f (dropAll (cpAll k rest) ((k, v) :: rest)).
Proof.
  intros [_ [Hk Hr]%Forall_cons_1] Hn. cbn [fst] in Hk. pose proof (cpAll_le k rest).
  pose proof (cpAll_Forall _ _ _ (le_n (cpAll k rest))) as Hc. split; [lia|].
  constructor; [cbn; rewrite length_drop; lia|]. apply Forall_map.
  revert Hc Hr. set (n := cpAll k rest) in *. clearbody n. intros Hc Hr.
  induction Hc as [|e rest' He Hc IH]; [constructor|]. apply Forall_cons_1 in Hr as [Hr Hr'].
  constructor; [|by apply IH]. destruct (cp_take n k e.1 He) as (_ & _ & ?). cbn. rewrite length_drop. lia.
Qed.

(** A list without a common part has an empty key first or two different first nibbles. *)
Lemma cpAll_zero k rest : cpAll k rest = 0%nat -> Forall (fun e => bytesLt k e.1 = true) rest ->
  k = [] \/ exists x k' y k2 w, k = x :: k' /\ (y :: k2, w) ∈ rest /\ x <> y.
Proof.
  intros Hc Hs. destruct k as [|x k]; [by left|right]. exists x, k.
  induction Hs as [|[k2 w] rest He Hs IH]; [done|]. cbn [cpAll fst] in Hc. cbn in He.
  destruct k2 as [|y k2]; [done|]. rewrite cp_cons in Hc. destruct (decide (x = y)) as [->|Hxy].
  - destruct IH as (y' & k3 & w' & E & Hin & Hne); [lia|]. exists y', k3, w'. split_and!; [done| |done].
    by apply elem_of_cons; right.
  - exists y, k2, w. split_and!; [done| |done]. by apply elem_of_cons; left.
Qed.

Lemma below_elem l x k v : (x :: k, v) ∈ l -> below l x <> [].
Proof.
  unfold below. induction l as [|[k' v'] l IH]; [by intros ?%not_elem_of_nil|].
  intros [E|Hin]%elem_of_cons; cbn [omap list_omap fst snd].
  - injection E as <- <-. by rewrite Z.eqb_refl.
  - destruct k' as [|y k']; [by apply IH|]. destruct (y =? x); [done|by apply IH].
Qed.

Lemma build_nonempty f l : (0 < f)%nat -> l <> [] -> build f l <> TEmpty.
Proof.
  intros Hf Hl. destruct f; [lia|]. destruct l as [|[k v] [|e rest]]; [done|done|].
  rewrite build_many. cbv zeta. by destruct (_ <? _)%nat.
Qed.

Lemma child_build (g : Z -> trie) x : is_nibble x -> child (map g (seqZ 0 16)) x = g x.
Proof.
  intros Hx. unfold is_nibble in Hx. unfold child.
  rewrite (nth_lookup_Some _ _ _ (g x)); [done|]. change (map g) with (fmap (M := list) g).
  rewrite list_lookup_fmap, lookup_seqZ_lt by lia. cbn. f_equal. f_equal. lia.
Qed.

Definition filled (l : list (bytes * bytes)) : Prop := Forall (fun e => e.2 <> []) l.

Lemma build_forks f k v e rest : fueled (S f) ((k, v) :: e :: rest) -> sortedMap ((k, v) :: e :: rest) ->
  filled ((k, v) :: e :: rest) -> Forall wfEntry ((k, v) :: e :: rest) -> cpAll k (e :: rest) = 0%nat ->
  forks (map (fun i => build f (below ((k, v) :: e :: rest) i)) (seqZ 0 16)) (match k with [] => v | _ => [] end).
Proof.
  intros Hf Hs Hv Hw Hc. pose proof (proj2 (StronglySorted_inv Hs)) as Hlt.
  remember ((k, v) :: e :: rest) as l eqn:El.
  assert (forall x k' w, (x :: k', w) ∈ l -> is_nibble x /\ build f (below l x) <> TEmpty) as Hne.
  { intros x k' w Hin. pose proof (below_elem l x k' w Hin) as Hb. split.
    - destruct (proj1 (List.Forall_forall _ _) Hw _ (proj1 (list_elem_of_In _ _) Hin)) as [[Hn _] _].
      by apply Forall_cons_1 in Hn as [? _].
    - apply build_nonempty; [|done]. by apply (fueled_below f l x). }
  destruct (cpAll_zero k (e :: rest) Hc Hlt) as [->|(x & k' & y & k2 & w & -> & Hin & Hxy)].
  - apply Forall_cons_1 in Hlt as [He _]. destruct e as [[|y k2] w]; [done|].
    destruct (Hne y k2 w) as [Hy Hby]; [rewrite El; by apply elem_of_cons; right; apply elem_of_cons; left|].
    split; [exists y; by rewrite child_build|]. intros z. left. rewrite El in Hv. by apply Forall_cons_1 in Hv as [? _].
  - destruct (Hne x k' v) as [Hx Hbx]; [rewrite El; by apply elem_of_cons; left|].
    destruct (Hne y k2 w) as [Hy Hby]; [rewrite El; by apply elem_of_cons; right|].
    split; [exists y; by rewrite child_build|]. intros z. right. destruct (decide (z = x)) as [->|].
    + exists y. by rewrite child_build.
    + exists x. by rewrite child_build.
Qed.

Lemma filled_below l x : filled l -> filled (below l x).
Proof. by apply below_Forall. Qed.

Lemma filled_drop n l : filled l -> filled (dropAll n l).
Proof. intros H. apply Forall_map. eapply Forall_impl; [|exact H]. by intros e. Qed.

Lemma build_canonical f l : fueled f l -> sortedMap l -> filled l -> Forall wfEntry l -> canonical (build f l).
Proof.
  revert l. induction f as [|f IH]; intros l Hf Hs Hv Hw; [done|].
  destruct l as [|[k v] [|e rest]]; [done|by apply Forall_cons_1 in Hv as [? _]|].
  rewrite build_many. cbv zeta. destruct (Nat.ltb_spec 0 (cpAll k (e :: rest))) as [Hn|Hn].
  - set (n := cpAll k (e :: rest)) in *.
    assert (sortedMap (dropAll n ((k, v) :: e :: rest))) as Hs'
      by (apply (under_sorted (take n k)); by rewrite <-under_dropAll).
    cbn [canonical]. split_and!.
    + pose proof (cpAll_le k (e :: rest)). destruct k; [cbn in *; lia|]. by destruct n; [lia|].
    + pose proof (cpAll_drop n k (e :: rest) (le_n _)) as E. fold n in E. rewrite Nat.sub_diag in E.
      pose proof (fueled_drop f k v (e :: rest) Hf Hn) as [Hf0 _]. destruct f as [|f]; [lia|].
      cbn [dropAll map fst snd]. rewrite build_many. cbv zeta. cbn [map fst snd] in E. by rewrite E.
    + apply IH; [by apply fueled_drop|done|by apply filled_drop|by apply dropAll_wf].
  - apply canonical_branch. split; [apply build_forks; (done || lia)|].
    apply Forall_map, Forall_true. intros i.
    destruct (decide (below ((k, v) :: e :: rest) i = [])) as [E|Hne].
    + rewrite E. by destruct f.
    + apply IH; [by apply fueled_below|by apply below_sorted|by apply filled_below|by apply below_wf].
Qed.

Lemma build_get f l k : fueled f l -> sortedMap l -> Forall is_nibble k -> get (build f l) k = valueAt l k.
Proof.
  revert l k. induction f as [|f IH]; intros l k0 Hf Hs Hk0; [destruct Hf; lia|].
  destruct l as [|[k v] [|e rest]]; [done|done|].
  rewrite build_many. cbv zeta. destruct (Nat.ltb_spec 0 (cpAll k (e :: rest))) as [Hn|Hn].
  - set (n := cpAll k (e :: rest)) in *. set (l := (k, v) :: e :: rest) in *.
    assert (l = under (take n k) (dropAll n l)) as El by (by apply under_dropAll).
    cbn [get]. destruct (stripPrefix (take n k) k0) as [r|] eqn:E.
    + apply stripPrefix_Some in E as ->.
      transitivity (valueAt (under (take n k) (dropAll n l)) (take n k ++ r)); [|by rewrite <-El].
      rewrite valueAt_under. apply IH; [by apply fueled_drop|apply (under_sorted (take n k)); by rewrite <-El|].
      by apply Forall_app in Hk0 as [_ ?].
    + apply stripPrefix_None in E.
      transitivity (valueAt (under (take n k) (dropAll n l)) k0); [|by rewrite <-El].
      by rewrite valueAt_under_other.
  - destruct k0 as [|x k0].
    + cbn [get]. destruct k as [|y k]; [by cbn; rewrite decide_True|].
      symmetry. apply valueAt_absent. constructor; [done|].
      pose proof (proj2 (StronglySorted_inv Hs)) as Hlt. eapply Forall_impl; [|exact Hlt].
      intros [[|z k1] w]; done.
    + apply Forall_cons_1 in Hk0 as [Hx Hk0]. rewrite get_branch, child_build, <-below_value by done.
      destruct (decide (below ((k, v) :: e :: rest) x = [])) as [E|Hne]; [rewrite E; by destruct f|].
      apply IH; [by apply fueled_below|by apply below_sorted|done].
Qed.

(** ** The code writes that trie *)

Lemma at_app_r c (s : bytes) i : 0 <= i -> at_ (c ++ s) (sizeZ c + i) = at_ s i.
Proof.
  intros Hi. unfold at_, sizeZ. rewrite app_nth2 by lia. f_equal. lia.
Qed.

Lemma nibbles_after c s n : (n <= length s)%nat ->
  at_ (c ++ s) <$> seqZ (sizeZ c) (Z.of_nat n) = take n s.
Proof.
  intros Hn. apply list_eq. intros j. rewrite list_lookup_fmap.
  destruct (decide (j < n)%nat) as [Hj|Hj].
  - rewrite lookup_seqZ_lt, lookup_take_lt by lia. cbn. rewrite at_app_r by lia.
    destruct (lookup_lt_is_Some_2 s j) as [x Hx]; [lia|]. rewrite Hx. unfold at_. rewrite Nat2Z.id.
    by rewrite (nth_lookup_Some _ _ _ x).
  - rewrite lookup_seqZ_ge, lookup_take_ge by lia. done.
Qed.

Lemma sharedFrom_spec fuel c s t x : (length s <= fuel)%nat ->
  sizeZ c <= x <= sizeZ (c ++ s) -> x <= sizeZ (c ++ t) ->
  sharedFrom fuel (c ++ s) (c ++ t) (sizeZ c) x = Z.min x (sizeZ c + Z.of_nat (cp s t)).
Proof.
  revert c s t. induction fuel as [|f IH]; intros c s t Hf Hx Ht; rewrite sizeZ_app in Hx, Ht; cbn [sharedFrom].
  { destruct s; [|cbn in Hf; lia]. rewrite cp_nil_l. unfold sizeZ in *. cbn in *. lia. }
  destruct (Z.ltb_spec (sizeZ c) x) as [Hlt|]; cbn [andb]; [|lia].
  destruct s as [|a s]; [unfold sizeZ in *; cbn in *; lia|].
  destruct t as [|b t]; [unfold sizeZ in *; cbn in *; lia|].
  pose proof (at_app_r c (a :: s) 0 ltac:(lia)) as Ea. pose proof (at_app_r c (b :: t) 0 ltac:(lia)) as Eb.
  rewrite Z.add_0_r in Ea, Eb. rewrite Ea, Eb. rewrite cp_cons. change (at_ (a :: s) 0) with a.
  change (at_ (b :: t) 0) with b. destruct (Z.eqb_spec a b) as [->|Hn].
  - rewrite decide_True by done. rewrite (cons_middle b c s), (cons_middle b c t), !app_assoc.
    replace (sizeZ c + 1) with (sizeZ (c ++ [b])) by (rewrite sizeZ_app; done).
    cbn [length] in Hf. rewrite !sizeZ_cons in Hx, Ht.
    rewrite IH; [|lia|rewrite !sizeZ_app; change (sizeZ [b]) with 1; lia|rewrite !sizeZ_app; change (sizeZ [b]) with 1; lia].
    rewrite sizeZ_app. change (sizeZ [b]) with 1. lia.
  - rewrite decide_False by done. lia.
Qed.

Lemma sharedPre_loop_spec c k rest s0 :
  sizeZ c <= s0 -> (rest = [] -> s0 <= sizeZ c + Z.of_nat (length k)) ->
  sharedPre_loop (c ++ k) (under c rest) (sizeZ c) s0 = Z.min s0 (sizeZ c + Z.of_nat (cpAll k rest)).
Proof.
  revert s0. induction rest as [|e rest IH]; intros s0 Hs Hr; cbn [under map sharedPre_loop fst].
  { cbn [cpAll]. specialize (Hr eq_refl). lia. }
  pose proof (sizeZ_nonneg c). pose proof (cp_le k e.1) as [? ?].
  destruct (Z.eqb_spec s0 0); [cbn [cpAll]; lia|].
  rewrite sharedFrom_spec; rewrite ?length_app, ?sizeZ_app; unfold sizeZ in *; try lia.
  fold (under c rest). rewrite IH; [cbn [cpAll]; lia|lia|lia].
Qed.

(** Entries that do not begin with [i] *)
Definition notBelow (l : list (bytes * bytes)) (i : Z) : list (bytes * bytes) :=
  filter (fun e => head e.1 <> Some i) l.

Definition headsFrom (i : Z) (l : list (bytes * bytes)) : Prop :=
  Forall (fun e => exists x k, e.1 = x :: k /\ i <= x) l.

Lemma below_none l i : headsFrom (i + 1) l -> below l i = [] /\ notBelow l i = l.
Proof.
  unfold below, notBelow. induction 1 as [|[k v] l (x & k' & E & Hx) Hl [IH1 IH2]]; [done|].
  cbn in E. subst k. cbn [omap list_omap fst snd]. destruct (Z.eqb_spec x i); [lia|]. split; [done|].
  rewrite filter_cons_True by (cbn; intros [=]; lia). by rewrite IH2.
Qed.

Lemma spanNibble_spec c l i : sortedMap l -> headsFrom i l ->
  spanNibble (under c l) (sizeZ c) i = (under (c ++ [i]) (below l i), under c (notBelow l i)).
Proof.
  intros Hs Hh. revert Hh. induction Hs as [|[k v] l Hs IH Hf]; [done|].
  intros [(x & k' & E & Hx) Hh]%Forall_cons_1. cbn in E. subst k.
  cbn [under map spanNibble fst snd].
  pose proof (at_app_r c (x :: k') 0 ltac:(lia)) as Ea. rewrite Z.add_0_r in Ea. rewrite Ea.
  change (at_ (x :: k') 0) with x. destruct (Z.eqb_spec x i) as [->|Hn].
  - fold (under c l). rewrite IH by done. unfold below, notBelow. cbn [omap list_omap fst snd].
    rewrite Z.eqb_refl, filter_cons_False by (cbn; naive_solver). cbn [under map fst snd].
    by rewrite <-app_assoc.
  - assert (headsFrom (i + 1) ((x :: k', v) :: l)) as Hh'.
    { constructor; [exists x, k'; split; [done|lia]|]. clear IH. induction Hf as [|[k2 w] l Hlt Hf IHf]; [constructor|].
      apply Forall_cons_1 in Hh as [(y & k3 & E & Hy) Hh]. cbn in E. subst k2.
      constructor; [|apply IHf; [by apply StronglySorted_inv in Hs as [? _]|done]].
      exists y, k3. split; [done|]. unfold entryLt in Hlt. cbn [fst] in Hlt.
      apply bytesLt_cons in Hlt as [?|[? _]]; lia. }
    destruct (below_none _ _ Hh') as [-> ->]. done.
Qed.

Lemma notBelow_sorted l i : sortedMap l -> sortedMap (notBelow l i).
Proof.
  unfold notBelow. induction 1 as [|e l Hs IH Hf]; [constructor|]. rewrite filter_cons.
  case_decide; [|done]. constructor; [done|].
  apply List.Forall_forall. intros x Hx. apply (proj1 (List.Forall_forall _ _) Hf).
  apply list_elem_of_In. apply list_elem_of_In, list_elem_of_filter in Hx. apply Hx.
Qed.

Lemma notBelow_heads l i : headsFrom i l -> headsFrom (i + 1) (notBelow l i).
Proof.
  unfold notBelow. induction 1 as [|e l (x & k & E & Hx) Hl IH]; [constructor|]. rewrite filter_cons.
  case_decide as Hd; [|done]. constructor; [|done]. exists x, k. split; [done|]. rewrite E in Hd. cbn in Hd.
  assert (x <> i) by congruence. lia.
Qed.

Lemma notBelow_below l i j : i <> j -> below (notBelow l i) j = below l j.
Proof.
  intros Hij. unfold notBelow, below. induction l as [|[k v] l IH]; [done|]. rewrite filter_cons.
  case_decide as Hd; cbn [omap list_omap fst snd]; [by rewrite IH|]. rewrite IH. destruct k as [|x k]; [done|].
  destruct (Z.eqb_spec x j) as [->|]; [|done]. cbn in Hd. congruence.
Qed.

Section Writes.
Context (sha3 : bytes -> bytes).
Hypothesis Hsha3 : forall d, wf_bytes (sha3 d) /\ length (sha3 d) = 32%nat.

Abbreviation childItem f l := (fun i => refItem sha3 (nodeItem sha3 (build f (below l i)))).

Lemma appendRef_spec n l t : sizeZ l < n <= 17 -> Forall smallItem l -> wfTrie t ->
  (if sizeZ (enc sha3 t) <? 32 then RLPStream.appendRaw (listStream n l) (enc sha3 t) 1
   else RLPStream.appendHash (listStream n l) (sha3 (enc sha3 t)) false false)
  = Ok (listStream n (l ++ [refItem sha3 (nodeItem sha3 t)])).
Proof.
  intros Hn Hl Ht. destruct (nodeItem_wf sha3 Hsha3 t Ht) as [Hw _].
  pose proof (smallItem_ref sha3 Hsha3 _ Hw) as Hs. pose proof (smallItems_snoc n l _ Hn Hl Hs) as Hfit.
  revert Hs Hfit. unfold refItem, enc. destruct (_ <? 32); intros Hs Hfit.
  - apply listStream_raw; [lia|done].
  - unfold RLPStream.appendHash. cbn [andb]. destruct (Hsha3 (encode (nodeItem sha3 t))) as [_ Hlen].
    apply append_small; [done|done|done|]. unfold sizeZ. lia.
Qed.

Lemma hash256aux_spec rec l pre n items t : sizeZ items < n <= 17 -> Forall smallItem items -> wfTrie t ->
  rec l pre RLPStream.empty = Ok (RLPStream.mk (enc sha3 t) []) ->
  hash256aux sha3 rec l pre (listStream n items) = Ok (listStream n (items ++ [refItem sha3 (nodeItem sha3 t)])).
Proof.
  intros Hn Hl Ht E. unfold hash256aux. rewrite E, bind_Ok_l. cbn [RLPStream.out RLPStream.m_listStack].
  rewrite bind_Ok_l. by apply appendRef_spec.
Qed.

Lemma children_small f l is_ : Forall wfEntry l -> Forall smallItem (map (childItem f l) is_).
Proof.
  intros Hw. apply Forall_map, Forall_true. intros i. apply (smallItem_ref sha3 Hsha3).
  apply (nodeItem_wf sha3 Hsha3). by apply build_wf, below_wf.
Qed.

Lemma hash256_children_spec rec f c l m i items :
  0 <= i -> i + Z.of_nat m = 16 -> sizeZ items = i -> Forall smallItem items ->
  sortedMap l -> headsFrom i l -> Forall wfEntry l ->
  (forall j, below l j <> [] -> rec (under (c ++ [j]) (below l j)) (sizeZ c + 1) RLPStream.empty
                              = Ok (RLPStream.mk (enc sha3 (build f (below l j))) [])) ->
  hash256_children sha3 rec (seqZ i (Z.of_nat m)) (under c l) (sizeZ c) (listStream 17 items)
  = Ok (listStream 17 (items ++ map (childItem f l) (seqZ i (Z.of_nat m)))).
Proof.
  revert i items l. induction m as [|m IH]; intros i items l Hi Hm Hd Hds Hs Hh Hw Hrec.
  { cbn [hash256_children map Z.of_nat seqZ]. by rewrite app_nil_r. }
  rewrite seqZ_cons by lia. cbn [hash256_children map]. rewrite spanNibble_spec by done.
  assert ((match under (c ++ [i]) (below l i) with
           | [] => RLPStream.append (listStream 17 items) [] false
           | _ :: _ => hash256aux sha3 rec (under (c ++ [i]) (below l i)) (sizeZ c + 1) (listStream 17 items)
           end) = Ok (listStream 17 (items ++ [childItem f l i]))) as Hstep.
  { destruct (below l i) as [|e b] eqn:Eb.
    - cbn [under map]. replace (build f []) with TEmpty by by destruct f.
      apply append_small; [lia|done| |done]. split; [by apply Forall_nil_2|done].
    - rewrite <-Eb. replace (under (c ++ [i]) (below l i)) with (under (c ++ [i]) (e :: b)) by by rewrite Eb.
      cbn [under map]. change ((c ++ [i]) ++ e.1, e.2) with ((fun e => ((c ++ [i]) ++ e.1, e.2)) e).
      change (_ :: map (fun e => ((c ++ [i]) ++ e.1, e.2)) b) with (under (c ++ [i]) (e :: b)).
      rewrite <-Eb. apply hash256aux_spec; [lia|done|by apply build_wf, below_wf|].
      apply Hrec. by rewrite Eb. }
  rewrite Hstep, bind_Ok_l. replace (Z.pred (Z.of_nat (S m))) with (Z.of_nat m) by lia.
  change (Z.succ i) with (i + 1). rewrite IH; try lia.
  - f_equal. f_equal. rewrite <-app_assoc. cbn [app]. do 2 f_equal. apply map_ext_in. intros j Hj.
    apply list_elem_of_In, elem_of_seqZ in Hj. by rewrite notBelow_below by lia.
  - rewrite sizeZ_app. change (sizeZ [_]) with 1. lia.
  - apply Forall_app. split; [done|]. apply (children_small f l [i] Hw).
  - by apply notBelow_sorted.
  - by apply notBelow_heads.
  - apply List.Forall_forall. intros x Hx. apply (proj1 (List.Forall_forall _ _) Hw).
    apply list_elem_of_In. apply list_elem_of_In, list_elem_of_filter in Hx. apply Hx.
  - intros j Hj. destruct (decide (i = j)) as [->|Hij].
    + destruct (below_none (notBelow l j) j) as [E _]; [by apply notBelow_heads|done].
    + rewrite notBelow_below in Hj |- * by done. by apply Hrec.
Qed.

Lemma append_empty b : sizeZ b < 2 ^ 64 ->
  RLPStream.append RLPStream.empty b false = Ok (RLPStream.mk (encode (Str b)) []).
Proof. intros Hb. by rewrite append_spec. Qed.

Lemma listStream_done n l : sizeZ l = n -> listStream n l = RLPStream.mk (encode (Lst l)) [].
Proof. intros Hl. unfold listStream. destruct (Z.ltb_spec (sizeZ l) n); [lia|done]. Qed.

Lemma path_after c k n : wfPath (c ++ k) -> (n <= length k)%nat ->
  hexPrefixEncode (c ++ k) false (sizeZ c) (sizeZ c + Z.of_nat n) = hp false (take n k).
Proof.
  intros [Hn Hs] Hk. rewrite sizeZ_app in Hs. pose proof (sizeZ_nonneg c). pose proof (sizeZ_nonneg k).
  assert (endOf (sizeZ (c ++ k)) (sizeZ c + Z.of_nat n) = sizeZ c + Z.of_nat n) as Ee.
  { unfold endOf. destruct (Z.ltb_spec (sizeZ c + Z.of_nat n) 0); [lia|done]. }
  pose proof (hexPrefixEncode_hp (c ++ k) false (sizeZ c) (sizeZ c + Z.of_nat n) Hn) as E.
  rewrite Ee, sizeZ_app in E. rewrite E by (unfold sizeZ in *; lia).
  replace (sizeZ c + Z.of_nat n - sizeZ c) with (Z.of_nat n) by lia. f_equal. by apply nibbles_after.
Qed.

Lemma path_rest c k : wfPath (c ++ k) -> hexPrefixEncode (c ++ k) true (sizeZ c) (-1) = hp true k.
Proof.
  intros [Hn Hs]. rewrite sizeZ_app in Hs. pose proof (sizeZ_nonneg c). pose proof (sizeZ_nonneg k).
  assert (endOf (sizeZ (c ++ k)) (-1) = sizeZ c + sizeZ k) as Ee.
  { unfold endOf. change (-1 <? 0) with true. cbn match. rewrite sizeZ_app. lia. }
  pose proof (hexPrefixEncode_hp (c ++ k) true (sizeZ c) (-1) Hn) as E.
  rewrite Ee, sizeZ_app in E. rewrite E by lia.
  replace (sizeZ c + sizeZ k - sizeZ c) with (Z.of_nat (length k)) by (unfold sizeZ; lia).
  f_equal. rewrite nibbles_after by lia. apply firstn_all.
Qed.

Lemma under_wf c l : Forall wfEntry (under c l) -> Forall wfEntry l.
Proof.
  unfold under. intros H. rewrite List.Forall_map in H. eapply Forall_impl; [|exact H].
  intros [k v] [Hk Hv]. split; [|done]. by apply (wfPath_app c k) in Hk as [_ ?].
Qed.

(** [hash256rlp] on two entries or more, the common part of the keys computed *)
Lemma hash256rlp_many f c k v e rest : wfPath (c ++ k) ->
  let l := (k, v) :: e :: rest in
  hash256rlp sha3 (S f) (under c l) (sizeZ c) RLPStream.empty =
  if (0 <? cpAll k (e :: rest))%nat then
    r1 ← RLPStream.append (listStream 2 []) (hp false (take (cpAll k (e :: rest)) k)) false;
    hash256aux sha3 (hash256rlp sha3 f) (under c l) (sizeZ c + Z.of_nat (cpAll k (e :: rest))) r1
  else
    r1 ← hash256_children sha3 (hash256rlp sha3 f) (seqZ 0 16)
           (under c (if decide (k = []) then e :: rest else l)) (sizeZ c) (listStream 17 []);
    RLPStream.append r1 (match k with [] => v | _ => [] end) false.
Proof.
  intros Hck l. pose proof (cpAll_le k (e :: rest)) as Hcl. pose proof Hck as [_ Hcs].
  rewrite sizeZ_app in Hcs. pose proof (sizeZ_nonneg c). pose proof (sizeZ_nonneg k).
  change (hash256rlp sha3 (S f) (under c l) (sizeZ c) RLPStream.empty) with
    (let sharedPre := sharedPre_loop (c ++ k) (under c (e :: rest)) (sizeZ c) (2 ^ 32 - 1) in
     if sizeZ c <? sharedPre then
       r0 ← RLPStream.appendList RLPStream.empty 2;
       r1 ← RLPStream.append r0 (hexPrefixEncode (c ++ k) false (sizeZ c) sharedPre) false;
       hash256aux sha3 (hash256rlp sha3 f) (under c l) sharedPre r1
     else
       r0 ← RLPStream.appendList RLPStream.empty 17;
       r1 ← hash256_children sha3 (hash256rlp sha3 f) (seqZ 0 16)
              (if sizeZ c =? sizeZ (c ++ k) then under c (e :: rest) else under c l) (sizeZ c) r0;
       if sizeZ c =? sizeZ (c ++ k) then RLPStream.append r1 v false else RLPStream.append r1 [] false).
  cbv zeta. rewrite sharedPre_loop_spec by (done || lia). rewrite Z.min_r by (unfold sizeZ in *; lia).
  rewrite sizeZ_app, !listStream_open, !bind_Ok_l by lia.
  destruct (Nat.ltb_spec 0 (cpAll k (e :: rest))), (Z.ltb_spec (sizeZ c) (sizeZ c + Z.of_nat (cpAll k (e :: rest))));
    try lia; [by rewrite path_after by (done || lia)|].
  destruct k as [|x k].
  - rewrite Z.add_0_r, Z.eqb_refl. done.
  - rewrite sizeZ_cons. pose proof (sizeZ_nonneg k).
    by destruct (Z.eqb_spec (sizeZ c) (sizeZ c + (1 + sizeZ k))); [lia|].
Qed.

Definition writesBuild (f : nat) : Prop := forall c l,
  fueled f l -> sortedMap l -> Forall wfEntry (under c l) ->
  hash256rlp sha3 f (under c l) (sizeZ c) RLPStream.empty = Ok (RLPStream.mk (enc sha3 (build f l)) []).

Lemma writes_ext f c k v e rest : writesBuild f ->
  let l := (k, v) :: e :: rest in let n := cpAll k (e :: rest) in
  (0 < n)%nat -> fueled (S f) l -> sortedMap l -> Forall wfEntry (under c l) ->
  (r1 ← RLPStream.append (listStream 2 []) (hp false (take n k)) false;
   hash256aux sha3 (hash256rlp sha3 f) (under c l) (sizeZ c + Z.of_nat n) r1)
  = Ok (RLPStream.mk (enc sha3 (TExt (take n k) (build f (dropAll n l)))) []).
Proof.
  intros IH l n Hn Hf Hs Hwc. pose proof (under_wf c l Hwc) as Hw.
  pose proof Hw as [[Hk Hv] _]%Forall_cons_1. cbn [fst snd] in Hk, Hv. pose proof (cpAll_le k (e :: rest)) as Hcl.
  assert (wfPath (take n k)) as Htk by (apply (wfPath_app _ (drop n k)); by rewrite take_drop).
  pose proof (smallItem_hp false _ Htk) as Hhp. pose proof (hp_size false (take n k)). destruct Htk as [_ Hts].
  rewrite append_small, bind_Ok_l by (done || lia). cbn [app].
  assert (under c l = under (c ++ take n k) (dropAll n l)) as Eu
    by (rewrite <-under_under; unfold l; by rewrite <-under_dropAll).
  replace (sizeZ c + Z.of_nat n) with (sizeZ (c ++ take n k))
    by (rewrite sizeZ_app; unfold sizeZ; rewrite length_take; fold n in Hcl; lia).
  rewrite (hash256aux_spec _ _ _ 2 [Str (hp false (take n k))] (build f (dropAll n l)));
    [by rewrite listStream_done|done|by apply Forall_singleton|by apply build_wf, dropAll_wf|].
  rewrite Eu. apply IH; [by apply fueled_drop| |by rewrite <-Eu].
  apply (under_sorted (take n k)). unfold l. by rewrite <-under_dropAll.
Qed.

(** The entries that the loop over the children runs through *)
Lemma after_first_ok k v e rest : let l := (k, v) :: e :: rest in
  let b := if decide (k = []) then e :: rest else l in
  sortedMap l -> Forall wfEntry l ->
  sortedMap b /\ headsFrom 0 b /\ Forall wfEntry b /\ forall i, below b i = below l i.
Proof.
  intros l b Hs Hw. pose proof Hs as [Hsr Hlt]%StronglySorted_inv. pose proof Hw as [Hw1 Hwr]%Forall_cons_1.
  assert (forall m, Forall wfEntry m -> Forall (fun e => e.1 <> []) m -> headsFrom 0 m) as Hhd.
  { intros m Hm Hne. induction Hm as [|[k1 v1] m [[Hk1 _] _] Hm IHm]; [constructor|].
    apply Forall_cons_1 in Hne as [Hne1 Hne]. constructor; [|by apply IHm]. cbn in *.
    destruct k1 as [|x k1]; [done|]. apply Forall_cons_1 in Hk1 as [Hx _]. exists x, k1.
    split; [done|]. apply Hx. }
  assert (Forall (fun e => e.1 <> []) (e :: rest)) as Hner.
  { eapply Forall_impl; [|exact Hlt]. intros [k1 v1] Hl1 E. cbn in E. subst k1. by destruct k. }
  unfold b. destruct (decide (k = [])) as [->|Hk].
  - split_and!; [done|by apply Hhd|done|done].
  - split_and!; [done| |done|done]. apply Hhd; [done|]. by constructor.
Qed.

Lemma writes_branch f c k v e rest : writesBuild f ->
  let l := (k, v) :: e :: rest in
  fueled (S f) l -> sortedMap l -> Forall wfEntry (under c l) ->
  (r1 ← hash256_children sha3 (hash256rlp sha3 f) (seqZ 0 16)
          (under c (if decide (k = []) then e :: rest else l)) (sizeZ c) (listStream 17 []);
   RLPStream.append r1 (match k with [] => v | _ => [] end) false)
  = Ok (RLPStream.mk (enc sha3 (TBranch (map (fun i => build f (below l i)) (seqZ 0 16))
                                  (match k with [] => v | _ => [] end))) []).
Proof.
  intros IH l Hf Hs Hwc. pose proof (under_wf c l Hwc) as Hw.
  destruct (after_first_ok k v e rest Hs Hw) as (Hb1 & Hb2 & Hb3 & Eb). fold l in Hb1, Hb2, Hb3, Eb.
  set (b := if decide (k = []) then e :: rest else l) in *.
  rewrite (hash256_children_spec _ f c b 16 0 []); try done.
  2: { intros j Hj. replace (sizeZ c + 1) with (sizeZ (c ++ [j])) by (rewrite sizeZ_app; done).
       rewrite Eb in Hj |- *. apply IH; [by apply fueled_below|by apply below_sorted|].
       unfold under. rewrite List.Forall_map.
       apply (below_Forall (fun e => wfEntry (c ++ e.1, e.2))); [|by rewrite <-List.Forall_map].
       intros k1 v1. cbn. by rewrite <-app_assoc. }
  rewrite bind_Ok_l. cbn [app]. pose proof (children_small f b (seqZ 0 16) Hb3) as Hsm.
  assert (map (childItem f b) (seqZ 0 16) = map (childItem f l) (seqZ 0 16)) as Em
    by (apply map_ext; intros i; by rewrite Eb).
  change (seqZ 0 (Z.of_nat 16)) with (seqZ 0 16). rewrite Em in Hsm |- *.
  pose proof Hw as [[_ Hv] _]%Forall_cons_1. cbn [snd] in Hv.
  assert (wfValue (match k with [] => v | _ => [] end)) as Hv'
    by (destruct k; [done|]; split; [by apply Forall_nil_2|done]).
  rewrite append_small; [|done|done|by apply smallItem_Str|destruct Hv'; lia].
  rewrite listStream_done by done. unfold enc. cbn [nodeItem]. by rewrite map_map.
Qed.

Lemma hash256rlp_spec f : writesBuild f.
Proof.
  induction f as [|f IH]; intros c l Hf Hs Hwc; [destruct Hf; lia|].
  pose proof (under_wf c l Hwc) as Hw. destruct l as [|[k v] [|e rest]].
  - cbn [under map hash256rlp]. by rewrite append_empty.
  - apply Forall_cons_1 in Hw as [[Hk Hv] _]. apply Forall_cons_1 in Hwc as [[Hck _] _]. cbn [fst snd] in *.
    cbn [under map hash256rlp fst snd]. rewrite listStream_open, bind_Ok_l by lia. rewrite path_rest by done.
    pose proof (smallItem_hp true k Hk) as Hhp. pose proof (hp_size true k). destruct Hk as [_ Hks].
    rewrite append_small, bind_Ok_l by (done || lia). cbn [app].
    rewrite append_small; [|done|by apply Forall_singleton|by apply smallItem_Str|destruct Hv; lia].
    by rewrite listStream_done.
  - pose proof Hwc as [[Hck _] _]%Forall_cons_1. rewrite build_many, hash256rlp_many by done. cbv zeta.
    destruct (Nat.ltb_spec 0 (cpAll k (e :: rest))); [by apply writes_ext|by apply writes_branch].
Qed.

Lemma fueled_keyFuel l : fueled (keyFuel l) l.
Proof.
  split; [unfold keyFuel; lia|]. apply List.Forall_forall. intros e He. unfold keyFuel.
  assert (length e.1 <= list_max (map (fun e => length e.1) l))%nat; [|lia].
  pose proof (proj1 (list_max_le (map (fun e => length e.1) l) _) (le_n _)) as Hm.
  rewrite List.Forall_map in Hm. exact (proj1 (List.Forall_forall _ _) Hm e He).
Qed.

Lemma mapAssign_Forall (P : bytes * bytes -> Prop) k v m :
  (forall k' w, P (k', w) -> k' = k -> P (k', v)) -> P (k, v) -> Forall P m -> Forall P (mapAssign k v m).
Proof.
  intros Hu Hk. induction 1 as [|[k' v'] m Hx Hm IH]; [by repeat constructor|]. cbn [mapAssign].
  destruct (bytesLt k k') eqn:E1; [by repeat constructor|].
  destruct (bytesLt k' k) eqn:E2; constructor; try done.
  eapply Hu; [exact Hx|]. symmetry. by apply bytesLt_total.
Qed.

(** The entries of a map of byte strings, by nibble path *)
Definition byPath (s : BytesMap) : list (bytes * bytes) := map (fun e => (asNibbles e.1, e.2)) s.

Lemma toHexMap_cons e s : toHexMap (e :: s) = mapAssign (asNibbles e.1) e.2 (toHexMap s).
Proof. unfold toHexMap. cbn [rev]. by rewrite foldl_app. Qed.

Lemma toHexMap_sorted s : sortedMap (toHexMap s).
Proof. induction s as [|e s IH]; [constructor|]. rewrite toHexMap_cons. by apply mapAssign_sorted. Qed.

Lemma toHexMap_value s p : valueAt (toHexMap s) p = valueAt (byPath s) p.
Proof.
  induction s as [|[k v] s IH]; [done|]. rewrite toHexMap_cons, mapAssign_value by apply toHexMap_sorted.
  cbn [fst snd byPath map valueAt]. fold (byPath s). rewrite IH.
  destruct (decide (p = asNibbles k)) as [->|]; [by rewrite decide_True|by rewrite decide_False].
Qed.

(** A map whose keys and values are short enough, with no empty value *)
Definition wfMap (s : BytesMap) : Prop :=
  Forall (fun e => wf_bytes e.1 /\ sizeZ e.1 < 2 ^ 29 /\ wfValue e.2 /\ e.2 <> []) s.

Lemma asNibbles_path k : wf_bytes k -> sizeZ k < 2 ^ 29 -> wfPath (asNibbles k).
Proof.
  intros Hk Hs. split.
  - clear Hs. induction Hk as [|b k Hb Hk IH]; [by apply Forall_nil_2|]. unfold asNibbles. cbn [flat_map app].
    unfold is_byte in Hb.
    constructor; [split; [apply Z.div_pos; lia|apply Z.div_lt_upper_bound; lia]|].
    constructor; [apply Z.mod_pos_bound; lia|exact IH].
  - enough (sizeZ (asNibbles k) = 2 * sizeZ k) by lia. clear Hk Hs.
    induction k as [|b k IH]; [done|]. unfold asNibbles in *. cbn [flat_map app]. rewrite !sizeZ_cons, IH. lia.
Qed.

Lemma toHexMap_ok s : wfMap s -> Forall wfEntry (toHexMap s) /\ filled (toHexMap s).
Proof.
  induction 1 as [|[k v] s (Hk & Hks & Hv & Hne) Hs [IH1 IH2]]; [by repeat constructor|].
  rewrite toHexMap_cons. cbn [fst snd] in *. split; apply mapAssign_Forall; try done.
  - by intros k' w [? _] _.
  - split; [by apply asNibbles_path|done].
Qed.

(** The trie of a map *)
Definition trieOf (s : BytesMap) : trie := build (keyFuel (toHexMap s)) (toHexMap s).

Lemma trieOf_sound s : wfMap s -> sound (trieOf s).
Proof.
  intros Hs. destruct (toHexMap_ok s Hs) as [Hw Hf]. split; [by apply build_wf|].
  apply build_canonical; [apply fueled_keyFuel|apply toHexMap_sorted|done|done].
Qed.

Lemma trieOf_get s p : Forall is_nibble p -> get (trieOf s) p = valueAt (byPath s) p.
Proof.
  intros Hp. unfold trieOf. rewrite build_get; [apply toHexMap_value|apply fueled_keyFuel|apply toHexMap_sorted|done].
Qed.

Lemma rlp256_spec s : wfMap s -> rlp256 sha3 s = Ok (enc sha3 (trieOf s)).
Proof.
  intros Hs. destruct s as [|e s]; [unfold rlp256, rlpEmpty; by rewrite append_empty|].
  destruct (toHexMap_ok _ Hs) as [Hw Hf]. unfold rlp256.
  replace (toHexMap (e :: s)) with (under [] (toHexMap (e :: s))) at 2
    by (unfold under; rewrite <-(map_id (toHexMap (e :: s))) at 2; apply map_ext; by intros []).
  change 0 with (sizeZ (@nil Z)). rewrite hash256rlp_spec; [done|apply fueled_keyFuel|apply toHexMap_sorted|].
  unfold under. rewrite List.Forall_map. eapply Forall_impl; [|exact Hw]. by intros [].
Qed.

End Writes.

(** ** Properties *)

(** C12: the root that [hash256] computes from a whole map is the hash of the node of
    the canonical trie that holds exactly the entries of the map: that trie
    exists, and whichever canonical trie holds the entries, however it came about,
    [rlp256] gives its encoding and [hash256] its hash. *)
Theorem hash256_canonical (sha3 : bytes -> bytes) (s : BytesMap)
  (Hsha3 : forall d, wf_bytes (sha3 d) /\ length (sha3 d) = 32%nat) (Hs : wfMap s) :
  (exists t, sound t /\ forall p, Forall is_nibble p -> get t p = valueAt (byPath s) p) /\
  forall t, sound t -> (forall p, Forall is_nibble p -> get t p = valueAt (byPath s) p) ->
    rlp256 sha3 s = Ok (enc sha3 t) /\ hash256 sha3 s = Ok (sha3 (enc sha3 t)).
Proof.
  split; [exists (trieOf s); split; [by apply trieOf_sound|intros; by apply trieOf_get]|].
  intros t Ht Hg. assert (t = trieOf s) as ->.
  { apply sound_unique; [done|by apply trieOf_sound|]. intros p Hp. by rewrite Hg, trieOf_get. }
  unfold hash256. by rewrite rlp256_spec.
Qed.

(** *** Maps over the indices of a list *)

Lemma rlpUnsigned_ok i : 0 <= i < 2 ^ 32 -> rlpUnsigned i = Ok (encode (int_item i)).
Proof.
  intros Hi. destruct (int_item_ok 32 i ltac:(lia) ltac:(lia)) as (_ & _ & Hb).
  unfold rlpUnsigned. by rewrite (appendInt_spec _ i) by lia.
Qed.

(** The entries [rlp(j) => d] for [d] in [l], counted from [j] on *)
Fixpoint indexed (j : Z) (l : list bytes) : BytesMap :=
  match l with [] => [] | d :: l' => (encode (int_item j), d) :: indexed (j + 1) l' end.

Definition assignAll (l m : BytesMap) : BytesMap := foldl (fun m e => mapAssign e.1 e.2 m) m l.

Lemma orderedMap_ok l j m : 0 <= j -> j + sizeZ l < 2 ^ 32 -> orderedMap j l m = Ok (assignAll (indexed j l) m).
Proof.
  revert j m. induction l as [|d l IH]; intros j m Hj Hl; [done|]. rewrite sizeZ_cons in Hl.
  pose proof (sizeZ_nonneg l). cbn [orderedMap]. rewrite rlpUnsigned_ok, bind_Ok_l by lia.
  rewrite wrap_id by (unfold fits; lia). rewrite IH by lia. done.
Qed.

Lemma rootOver_ok l j m gv : 0 <= j -> j + sizeZ l < 2 ^ 32 ->
  (forall i d, l !! i = Some d -> gv (j + Z.of_nat i) = Ok d) ->
  rootOver_loop (length l) j rlpUnsigned gv m = Ok (assignAll (indexed j l) m).
Proof.
  revert j m. induction l as [|d l IH]; intros j m Hj Hl Hg; [done|]. rewrite sizeZ_cons in Hl.
  pose proof (sizeZ_nonneg l). cbn [length rootOver_loop]. rewrite rlpUnsigned_ok, bind_Ok_l by lia.
  pose proof (Hg 0%nat d eq_refl) as E. rewrite Z.add_0_r in E. rewrite E, bind_Ok_l.
  rewrite IH; [done|lia|lia|]. intros i d' Hi. rewrite <-(Hg (S i) d' Hi). f_equal. lia.
Qed.

Lemma index_key_inj i j : 0 <= i < 2 ^ 32 -> 0 <= j < 2 ^ 32 ->
  encode (int_item i) = encode (int_item j) -> i = j.
Proof.
  intros Hi Hj E. pose proof (toInt_encode i 32 Strict ltac:(lia) ltac:(lia)) as E1.
  pose proof (toInt_encode j 32 Strict ltac:(lia) ltac:(lia)) as E2. rewrite E in E1. congruence.
Qed.

Lemma assignAll_sorted l m : sortedMap m -> sortedMap (assignAll l m).
Proof. revert m. induction l as [|e l IH]; intros m Hm; [done|]. cbn. by apply IH, mapAssign_sorted. Qed.

Lemma assignAll_absent l m k : sortedMap m -> Forall (fun e => e.1 <> k) l -> valueAt (assignAll l m) k = valueAt m k.
Proof.
  intros Hm Hl. revert m Hm. induction Hl as [|e l He Hl IH]; intros m Hm; [done|]. cbn [assignAll foldl].
  fold (assignAll l (mapAssign e.1 e.2 m)). rewrite IH by by apply mapAssign_sorted.
  rewrite mapAssign_value by done. by rewrite decide_False.
Qed.

Lemma assignAll_value l m k v : sortedMap m -> NoDup l.*1 -> (k, v) ∈ l -> valueAt (assignAll l m) k = v.
Proof.
  revert m. induction l as [|e l IH]; intros m Hm Hnd Hin; [by apply not_elem_of_nil in Hin|].
  apply list.NoDup_cons in Hnd as [He Hnd]. cbn [assignAll foldl]. fold (assignAll l (mapAssign e.1 e.2 m)).
  apply elem_of_cons in Hin as [<-|Hin].
  - rewrite assignAll_absent; [|by apply mapAssign_sorted|].
    + rewrite mapAssign_value by done. by rewrite decide_True.
    + apply List.Forall_forall. intros e' He' E. apply He. cbn [fst] in *. rewrite <-E.
      apply list_elem_of_fmap_2, list_elem_of_In. done.
  - apply IH; [by apply mapAssign_sorted|done|done].
Qed.

Lemma indexed_elem l j i d : l !! i = Some d -> (encode (int_item (j + Z.of_nat i)), d) ∈ indexed j l.
Proof.
  revert j i. induction l as [|d0 l IH]; intros j i Hi; [done|]. cbn [indexed].
  destruct i as [|i]; cbn in Hi.
  - injection Hi as ->. rewrite Z.add_0_r. by apply elem_of_cons; left.
  - apply elem_of_cons; right. replace (j + Z.of_nat (S i)) with (j + 1 + Z.of_nat i) by lia. by apply IH.
Qed.

Lemma indexed_inv l j e : e ∈ indexed j l ->
  exists i, e.1 = encode (int_item (j + Z.of_nat i)) /\ l !! i = Some e.2.
Proof.
  revert j. induction l as [|d l IH]; intros j He; [by apply not_elem_of_nil in He|]. cbn [indexed] in He.
  apply elem_of_cons in He as [->|He].
  - exists 0%nat. by rewrite Z.add_0_r.
  - destruct (IH _ He) as (i & E & Hl). exists (S i). split; [|done]. rewrite E. do 2 f_equal. lia.
Qed.

Lemma indexed_nodup l j : 0 <= j -> j + sizeZ l < 2 ^ 32 -> NoDup (indexed j l).*1.
Proof.
  revert j. induction l as [|d l IH]; intros j Hj Hl; [constructor|]. rewrite sizeZ_cons in Hl.
  pose proof (sizeZ_nonneg l). cbn [indexed fmap list_fmap fst]. constructor; [|apply IH; lia].
  intros ((k & v) & E & Hin)%list_elem_of_fmap_1. destruct (indexed_inv _ _ _ Hin) as (i & E' & Hi).
  cbn [fst snd] in *. apply lookup_lt_Some in Hi. unfold sizeZ in Hl.
  assert (j = j + 1 + Z.of_nat i); [|lia]. apply index_key_inj; [lia|lia|congruence].
Qed.

Lemma index_key_ok i : 0 <= i < 2 ^ 32 ->
  wf_bytes (encode (int_item i)) /\ sizeZ (encode (int_item i)) < 2 ^ 29.
Proof.
  intros Hi. destruct (int_item_ok 32 i ltac:(lia) ltac:(lia)) as (Hw & Hf & _).
  split; [by apply encode_wf|]. pose proof (encode_int_size i ltac:(unfold fits; lia)). lia.
Qed.

Lemma assignAll_wfMap l m : wfMap l -> wfMap m -> wfMap (assignAll l m).
Proof.
  intros Hl. revert m. induction Hl as [|e l He Hl IH]; intros m Hm; [done|]. cbn. apply IH.
  apply mapAssign_Forall; [|by destruct e|done]. intros k w (? & ? & _) _. destruct He as (_ & _ & ? & ?). done.
Qed.

Lemma assignAll_keys (P : bytes -> Prop) l m :
  Forall (fun e => P e.1) l -> Forall (fun e => P e.1) m -> Forall (fun e => P e.1) (assignAll l m).
Proof.
  intros Hl. revert m. induction Hl as [|e l He Hl IH]; intros m Hm; [done|]. cbn. apply IH.
  by apply mapAssign_Forall.
Qed.

Lemma indexed_wfMap l j : 0 <= j -> j + sizeZ l < 2 ^ 32 -> Forall (fun d => wfValue d /\ d <> []) l ->
  wfMap (indexed j l).
Proof.
  intros Hj Hl Hd. revert j Hj Hl. induction Hd as [|d l [Hv Hne] Hd IH]; intros j Hj Hl; [constructor|].
  rewrite sizeZ_cons in Hl. pose proof (sizeZ_nonneg l). destruct (index_key_ok j) as [? ?]; [lia|].
  constructor; [done|]. apply IH; lia.
Qed.

Lemma valueAt_elem l k : valueAt l k <> [] -> (k, valueAt l k) ∈ l.
Proof.
  induction l as [|[k' v] l IH]; [done|]. cbn [valueAt]. destruct (decide (k' = k)) as [->|]; intros Hv.
  - by apply elem_of_cons; left.
  - apply elem_of_cons; right. by apply IH.
Qed.

Lemma asNibbles_inj a b : wf_bytes a -> wf_bytes b -> asNibbles a = asNibbles b -> a = b.
Proof.
  intros Ha. revert b. induction Ha as [|x a Hx Ha IH]; intros b Hb E; destruct Hb as [|y b Hy Hb]; try done.
  unfold asNibbles in E. cbn [flat_map app] in E. injection E as E1 E2 E3. f_equal; [|by apply IH].
  rewrite (Z.div_mod x 16), (Z.div_mod y 16) by lia. congruence.
Qed.

Lemma byPath_value s k : wfMap s -> wf_bytes k -> valueAt (byPath s) (asNibbles k) = valueAt s k.
Proof.
  intros Hs Hk. induction Hs as [|[k' v] s (Hk' & _) Hs IH]; [done|]. cbn [byPath map valueAt fst snd] in *.
  fold (byPath s). rewrite IH. destruct (decide (k' = k)) as [->|Hn]; [by rewrite decide_True|].
  rewrite decide_False; [done|]. intros E. apply Hn. by apply asNibbles_inj.
Qed.

(** The root over a list of byte strings (the transactions or the receipts of a
    block) commits to every one of them at its position: both ways of computing
    it give the hash of a canonical trie that holds, at the path of [rlp(i)], the
    [i]-th string, and nothing else. *)
Theorem ordered_root_commits (sha3 : bytes -> bytes) (data : list bytes)
  (Hsha3 : forall d, wf_bytes (sha3 d) /\ length (sha3 d) = 32%nat)
  (Hd : Forall (fun d => wfValue d /\ d <> []) data) (Hn : sizeZ data < 2 ^ 32) :
  orderedTrieRoot sha3 data
  = trieRootOver sha3 (sizeZ data) rlpUnsigned (fun i => Ok (nth (Z.to_nat i) data [])) /\
  exists t, sound t /\ orderedTrieRoot sha3 data = Ok (sha3 (enc sha3 t)) /\
    (forall i d, data !! i = Some d -> get t (asNibbles (encode (int_item (Z.of_nat i)))) = d) /\
    forall p, Forall is_nibble p -> get t p <> [] ->
      exists i, (i < length data)%nat /\ p = asNibbles (encode (int_item (Z.of_nat i))).
Proof.
  unfold orderedTrieRoot, trieRootOver, sizeZ at 1. rewrite Nat2Z.id.
  rewrite orderedMap_ok, (rootOver_ok data 0) by first [lia|intros i d Hi; rewrite Z.add_0_l, Nat2Z.id;
    by rewrite (nth_lookup_Some _ _ _ d)].
  split; [done|]. rewrite bind_Ok_l. set (m := assignAll (indexed 0 data) []).
  assert (wfMap m) as Hm by (apply assignAll_wfMap; [by apply indexed_wfMap|constructor]).
  exists (trieOf m). split_and!; [by apply trieOf_sound|by unfold hash256; rewrite rlp256_spec| |].
  - intros i d Hi. pose proof (lookup_lt_Some _ _ _ Hi). unfold sizeZ in Hn.
    destruct (index_key_ok (Z.of_nat i)) as [Hk Hks]; [lia|].
    rewrite trieOf_get by by apply asNibbles_path. rewrite byPath_value by done.
    apply assignAll_value; [constructor|by apply indexed_nodup|]. by apply (indexed_elem data 0 i).
  - intros p Hp Hg. rewrite trieOf_get in Hg by done. apply valueAt_elem in Hg. unfold byPath in Hg at 2.
    apply list_elem_of_In, in_map_iff in Hg as ([k v] & E & Hin). injection E as <- _.
    assert (Forall (fun e => exists i, (i < length data)%nat /\ e.1 = encode (int_item (Z.of_nat i))) m) as Hkeys.
    { apply (assignAll_keys (fun k => exists i, (i < length data)%nat /\ k = encode (int_item (Z.of_nat i)))); [|constructor].
      apply List.Forall_forall. intros e He. apply list_elem_of_In in He.
      destruct (indexed_inv _ _ _ He) as (i & E & Hi). exists i. split; [by eapply lookup_lt_Some|]. by rewrite E. }
    destruct (proj1 (List.Forall_forall _ _) Hkeys _ Hin) as (i & Hi & E). cbn in E. exists i. by rewrite E.
Qed.

(** *** Witnesses *)

Definition constHash (d : bytes) : bytes := replicate 32 7.

Lemma constHash_wf d : wf_bytes (constHash d) /\ length (constHash d) = 32%nat.
Proof. split; [|done]. by repeat constructor. Qed.

(** Two keys that share their first nibble: an extension above a branch. *)
Lemma hash256_canonical_witness :
  wfMap [([1], [5]); ([2], [6])] /\
  rlp256 constHash [([1], [5]); ([2], [6])] = Ok (enc constHash (trieOf [([1], [5]); ([2], [6])])) /\
  trieOf [([1], [5]); ([2], [6])]
  = TExt [0] (TBranch ([TEmpty; TLeaf [] [5]; TLeaf [] [6]] ++ replicate 13 TEmpty) []).
Proof.
  assert (wfMap [([1], [5]); ([2], [6])]) as Hw by (repeat constructor; done).
  split_and!; [done| |vm_compute; reflexivity].
  destruct (hash256_canonical constHash _ constHash_wf Hw) as [_ H].
  apply (H (trieOf [([1], [5]); ([2], [6])])); [by apply trieOf_sound|intros; by apply trieOf_get].
Defined.

Lemma ordered_root_commits_witness :
  exists t, sound t /\ orderedTrieRoot constHash [[1; 2]; [3]] = Ok (constHash (enc constHash t)) /\
  get t (asNibbles [128]) = [1; 2] /\ get t (asNibbles [1]) = [3].
Proof.
  destruct (ordered_root_commits constHash [[1; 2]; [3]] constHash_wf) as [_ (t & Ht & E & Hg & _)];
    [by repeat constructor|done|].
  exists t. split_and!; [done|exact E|exact (Hg 0%nat [1; 2] eq_refl)|exact (Hg 1%nat [3] eq_refl)].
Defined.
