(* ===== verification/MemoryDB.v ===== *)
(** * libdevcore/MemoryDB.{h,cpp} and OverlayDB.{h,cpp}: the node databases

    A [MemoryDB] counts references to the nodes it holds; killing a node only
    lowers its count, and [purge] drops what is not referenced.  An [OverlayDB]
    puts one in front of a LevelDB store, a third-party library, which is modelled
    by the map of its contents ([Put] and [Delete] change it, [Get] reads it).
    Locks and the retries of a failing disk write are left out. *)

From Stdlib Require Import ZArith Lia.
From stdpp Require Import base list option gmap.
From S2P Require Import Prelude CommonData RLP.

(** ** MemoryDB

    [m_seen] is not a member of the class: it records every string ever inserted,
    so that the theorems can say that no two of them have the same hash.  No
    operation reads it. *)
Record MemoryDB := mkMemoryDB {
  m_main : gmap bytes (bytes * Z);
  m_aux : gmap bytes (bytes * bool);
  m_enforceRefs : bool;
  m_seen : list bytes
}.

Definition set_main (m : gmap bytes (bytes * Z)) (db : MemoryDB) : MemoryDB :=
  mkMemoryDB m (m_aux db) (m_enforceRefs db) (m_seen db).
Definition set_aux (a : gmap bytes (bytes * bool)) (db : MemoryDB) : MemoryDB :=
  mkMemoryDB (m_main db) a (m_enforceRefs db) (m_seen db).

Definition emptyMemoryDB : MemoryDB := mkMemoryDB ∅ ∅ false [].

(** [operator=]: the flag of the target stays *)
Definition mem_assign (db c : MemoryDB) : MemoryDB := mkMemoryDB (m_main c) (m_aux c) (m_enforceRefs db) (m_seen c).

Definition mem_clear (db : MemoryDB) : MemoryDB := set_aux ∅ (set_main ∅ db).

(** [EnforceRefs]: the flag while the guard lives *)
Definition enforceRefs (r : bool) (db : MemoryDB) : MemoryDB :=
  mkMemoryDB (m_main db) (m_aux db) r (m_seen db).

Definition mem_get (db : MemoryDB) : gmap bytes bytes :=
  omap (fun e => if negb (m_enforceRefs db) || (0 <? e.2) then Some e.1 else None) (m_main db).

Definition mem_lookup (db : MemoryDB) (h : bytes) : bytes :=
  match m_main db !! h with
  | Some (v, n) => if negb (m_enforceRefs db) || (0 <? n) then v else []
  | None => []
  end.

Definition mem_exists (db : MemoryDB) (h : bytes) : bool :=
  match m_main db !! h with
  | Some (_, n) => negb (m_enforceRefs db) || (0 <? n)
  | None => false
  end.

(** The count is an [unsigned]. *)
Definition mem_insert (db : MemoryDB) (h v : bytes) : MemoryDB :=
  mkMemoryDB
    (match m_main db !! h with
     | Some (_, n) => <[h := (v, u32 (n + 1))]> (m_main db)
     | None => <[h := (v, 1)]> (m_main db)
     end) (m_aux db) (m_enforceRefs db) (v :: m_seen db).

Definition mem_kill (db : MemoryDB) (h : bytes) : MemoryDB * bool :=
  match m_main db !! h with
  | Some (v, n) => if 0 <? n then (set_main (<[h := (v, n - 1)]> (m_main db)) db, true) else (db, false)
  | None => (db, false)
  end.

Definition mem_lookupAux (db : MemoryDB) (h : bytes) : bytes :=
  match m_aux db !! h with
  | Some (v, b) => if negb (m_enforceRefs db) || b then v else []
  | None => []
  end.

(** [m_aux[_h].second = false], which makes an empty entry where there is none *)
Definition removeAux (db : MemoryDB) (h : bytes) : MemoryDB :=
  set_aux (<[h := (match m_aux db !! h with Some (v, _) => v | None => [] end, false)]> (m_aux db)) db.

Definition insertAux (db : MemoryDB) (h v : bytes) : MemoryDB :=
  set_aux (<[h := (v, true)]> (m_aux db)) db.

Definition mem_purge (db : MemoryDB) : MemoryDB :=
  set_aux (filter (fun e => e.2.2 = true) (m_aux db)) (set_main (filter (fun e => e.2.2 <> 0) (m_main db)) db).

Definition mem_keys (db : MemoryDB) : gset bytes := dom (filter (fun e => e.2.2 <> 0) (m_main db)).

(** ** OverlayDB *)

Record OverlayDB := mkOverlayDB { od_mem : MemoryDB; od_db : option (gmap bytes bytes) }.

(** [m_db->Get(...)]: the value stays empty when the key is absent *)
Definition ldb_get (d : option (gmap bytes bytes)) (k : bytes) : bytes :=
  match d with Some m => default [] (m !! k) | None => [] end.

Definition od_lookup (db : OverlayDB) (h : bytes) : bytes :=
  let ret := mem_lookup (od_mem db) h in
  if sizeZ ret =? 0 then ldb_get (od_db db) h else ret.

Definition od_exists (db : OverlayDB) (h : bytes) : bool :=
  if mem_exists (od_mem db) h then true else negb (sizeZ (ldb_get (od_db db) h) =? 0).

Definition od_insert (db : OverlayDB) (h v : bytes) : OverlayDB :=
  mkOverlayDB (mem_insert (od_mem db) h v) (od_db db).

Definition od_kill (db : OverlayDB) (h : bytes) : OverlayDB :=
  mkOverlayDB (fst (mem_kill (od_mem db) h)) (od_db db).

Definition deepkill (db : OverlayDB) (h : bytes) : OverlayDB :=
  mkOverlayDB (od_mem (od_kill db h)) (option_map (delete h) (od_db db)).

Definition auxKey (h : bytes) : bytes := h ++ [255].

Definition od_lookupAux (db : OverlayDB) (h : bytes) : bytes :=
  let ret := mem_lookupAux (od_mem db) h in
  if negb (sizeZ ret =? 0) then ret else ldb_get (od_db db) (auxKey h).

(** [commit]: the batch holds the referenced nodes, then the auxiliary entries *)
Definition batch_main (m : gmap bytes (bytes * Z)) (d : gmap bytes bytes) : gmap bytes bytes :=
  map_fold (fun h e acc => if e.2 =? 0 then acc else <[h := e.1]> acc) d m.

Definition batch_aux (m : gmap bytes (bytes * bool)) (d : gmap bytes bytes) : gmap bytes bytes :=
  map_fold (fun h e acc => if (e.2 : bool) then <[auxKey h := e.1]> acc else acc) d m.

Definition od_commit (db : OverlayDB) : OverlayDB :=
  match od_db db with
  | Some d => mkOverlayDB (mem_clear (od_mem db)) (Some (batch_aux (m_aux (od_mem db)) (batch_main (m_main (od_mem db)) d)))
  | None => db
  end.

Definition od_rollback (db : OverlayDB) : OverlayDB :=
  mkOverlayDB (set_main ∅ (od_mem db)) (od_db db).

(** ** What a trie needs of its database

    The template parameter of [GenericTrieDB]. *)
Class NodeDB (DB : Type) := {
  nd_lookup : DB -> bytes -> bytes;
  nd_exists : DB -> bytes -> bool;
  nd_insert : DB -> bytes -> bytes -> DB;
  nd_kill : DB -> bytes -> DB
}.

#[export] Instance MemoryDB_NodeDB : NodeDB MemoryDB := {|
  nd_lookup := mem_lookup; nd_exists := mem_exists; nd_insert := mem_insert;
  nd_kill db h := fst (mem_kill db h)
|}.

#[export] Instance OverlayDB_NodeDB : NodeDB OverlayDB := {|
  nd_lookup := od_lookup; nd_exists := od_exists; nd_insert := od_insert; nd_kill := od_kill
|}.

(** No two different strings of the list have the same hash. *)
Definition seenClear (sha3 : bytes -> bytes) (seen : list bytes) : Prop :=
  forall a b, a ∈ seen -> b ∈ seen -> sha3 a = sha3 b -> a = b.

Lemma seenClear_sub sha3 l l' : l ⊆ l' -> seenClear sha3 l' -> seenClear sha3 l.
Proof. intros Hs H a b Ha Hb. apply H; by apply Hs. Qed.

(** What it may rely on.  [nd_inv] is kept by every operation, [nd_seen] lists the
    strings inserted so far; as long as their hashes differ, an insertion leaves
    the other nodes alone. *)
Class NodeDBLaws (DB : Type) `{NodeDB DB} (sha3 : bytes -> bytes) := {
  nd_inv : DB -> Prop;
  nd_seen : DB -> list bytes;
  nd_insert_inv : forall db v, nd_inv db -> nd_inv (nd_insert db (sha3 v) v);
  nd_insert_seen : forall db v, nd_seen (nd_insert db (sha3 v) v) = v :: nd_seen db;
  nd_insert_same : forall db v, nd_inv db -> v <> [] -> nd_lookup (nd_insert db (sha3 v) v) (sha3 v) = v;
  nd_insert_old : forall db v h, nd_inv db -> seenClear sha3 (v :: nd_seen db) ->
    nd_lookup db h <> [] -> nd_lookup (nd_insert db (sha3 v) v) h = nd_lookup db h;
  nd_kill_inv : forall db h, nd_inv db -> nd_inv (nd_kill db h);
  nd_kill_seen : forall db h, nd_seen (nd_kill db h) = nd_seen db;
  nd_kill_lookup : forall db h h', nd_inv db -> nd_lookup (nd_kill db h) h' = nd_lookup db h'
}.

(** ** Both databases keep the laws *)

(** Nodes are under their hashes, and counts are not enforced. *)
Definition memInv (sha3 : bytes -> bytes) (db : MemoryDB) : Prop :=
  m_enforceRefs db = false /\
  forall h v n, m_main db !! h = Some (v, n) -> h = sha3 v /\ v ∈ m_seen db.

Lemma memInv_empty sha3 : memInv sha3 emptyMemoryDB.
Proof. split; [done|]. intros h v n He. cbn in He. by rewrite lookup_empty in He. Qed.

Section Laws.
Context (sha3 : bytes -> bytes).

Lemma memInv_insert db v : memInv sha3 db -> memInv sha3 (mem_insert db (sha3 v) v).
Proof.
  intros [He Hi]. split; [done|]. intros h w n Hl. cbn [m_main mem_insert m_seen] in *.
  assert (<[sha3 v := (v, n)]> (m_main db) !! h = Some (w, n) \/ m_main db !! h = Some (w, n)) as Hc.
  { destruct (decide (h = sha3 v)) as [->|Hne].
    - left. rewrite lookup_insert_eq.
      destruct (m_main db !! sha3 v) as [[w0 n0]|]; rewrite lookup_insert_eq in Hl; by injection Hl as <-.
    - right. destruct (m_main db !! sha3 v) as [[w0 n0]|]; by rewrite lookup_insert_ne in Hl. }
  destruct Hc as [Hc|Hc].
  - apply lookup_insert_Some in Hc as [[<- E]|[_ Hc]].
    + injection E as <-. split; [done|]. by apply elem_of_cons; left.
    + destruct (Hi _ _ _ Hc). split; [done|]. by apply elem_of_cons; right.
  - destruct (Hi _ _ _ Hc). split; [done|]. by apply elem_of_cons; right.
Qed.

Lemma mem_lookup_insert db h v h' : m_enforceRefs db = false ->
  mem_lookup (mem_insert db h v) h' = if decide (h' = h) then v else mem_lookup db h'.
Proof.
  intros He. unfold mem_lookup. cbn [m_main m_enforceRefs mem_insert]. rewrite He. cbn [negb orb].
  destruct (decide (h' = h)) as [->|Hne].
  - destruct (m_main db !! h) as [[w n]|]; by rewrite lookup_insert_eq.
  - destruct (m_main db !! h) as [[w n]|]; by rewrite lookup_insert_ne.
Qed.

Lemma mem_lookup_kill db h h' : m_enforceRefs db = false -> mem_lookup (fst (mem_kill db h)) h' = mem_lookup db h'.
Proof.
  intros He. unfold mem_kill. destruct (m_main db !! h) as [[v n]|] eqn:E; [|done].
  destruct (0 <? n); [|done]. cbn [fst]. unfold mem_lookup. cbn [m_main m_enforceRefs set_main]. rewrite He.
  cbn [negb orb]. destruct (decide (h' = h)) as [->|Hne]; [by rewrite lookup_insert_eq, E|by rewrite lookup_insert_ne].
Qed.

Lemma memInv_kill db h : memInv sha3 db -> memInv sha3 (fst (mem_kill db h)).
Proof.
  intros [He Hi]. unfold mem_kill. destruct (m_main db !! h) as [[v n]|] eqn:E; [|done].
  destruct (0 <? n); [|done]. split; [done|]. cbn [fst m_main set_main m_seen]. intros h' w n' Hl.
  apply lookup_insert_Some in Hl as [[<- Ew]|[_ Hl]]; [|by eapply Hi]. injection Ew as <- _. by eapply Hi.
Qed.

Lemma mem_kill_seen db h : m_seen (fst (mem_kill db h)) = m_seen db.
Proof. unfold mem_kill. destruct (m_main db !! h) as [[v n]|]; [|done]. by destruct (0 <? n). Qed.

Lemma mem_lookup_inv db h : memInv sha3 db -> mem_lookup db h <> [] ->
  h = sha3 (mem_lookup db h) /\ mem_lookup db h ∈ m_seen db.
Proof.
  intros [He Hi]. unfold mem_lookup. rewrite He. destruct (m_main db !! h) as [[v n]|] eqn:E; [|done].
  intros _. cbn. by eapply Hi.
Qed.

#[export] Instance MemoryDB_laws : NodeDBLaws MemoryDB sha3.
Proof.
  refine {| nd_inv := memInv sha3; nd_seen := m_seen |}.
  - apply memInv_insert.
  - done.
  - intros db v [He _] _. cbn. rewrite mem_lookup_insert by done. by rewrite decide_True.
  - intros db v h Hi Hc Hl. cbn in *. rewrite mem_lookup_insert by apply Hi.
    destruct (decide (h = sha3 v)) as [->|]; [|done].
    destruct (mem_lookup_inv db _ Hi Hl) as [Eh Hin]. apply Hc; [by apply elem_of_cons; left|by apply elem_of_cons; right|done].
  - intros db h. apply memInv_kill.
  - intros db h. apply mem_kill_seen.
  - intros db h h' [He _]. by apply mem_lookup_kill.
Defined.

(** The disk holds nodes under their hashes; entries with longer keys are auxiliary. *)
Definition odInv (db : OverlayDB) : Prop :=
  memInv sha3 (od_mem db) /\
  forall h, length h = 32%nat -> ldb_get (od_db db) h <> [] ->
    h = sha3 (ldb_get (od_db db) h) /\ ldb_get (od_db db) h ∈ m_seen (od_mem db).

Hypothesis Hsha3 : forall d, wf_bytes (sha3 d) /\ length (sha3 d) = 32%nat.

Lemma od_lookup_nil (v w : bytes) : (if sizeZ v =? 0 then w else v) = match v with [] => w | _ => v end.
Proof. destruct v; [done|]. rewrite sizeZ_cons. pose proof (sizeZ_nonneg v). by destruct (Z.eqb_spec (1 + sizeZ v) 0); [lia|]. Qed.

Definition OverlayDB_laws : NodeDBLaws OverlayDB sha3.
Proof.
  refine {| nd_inv := odInv; nd_seen db := m_seen (od_mem db) |}.
  - intros db v [Hm Hd]. split; [by apply memInv_insert|]. intros h Hh Hl.
    destruct (Hd h Hh Hl). split; [done|]. by apply elem_of_cons; right.
  - done.
  - intros db v [[He _] _] Hv. cbn. unfold od_lookup, od_insert. cbn [od_mem od_db].
    rewrite mem_lookup_insert, decide_True by done. rewrite od_lookup_nil. by destruct v.
  - intros db v h [Hm Hd] Hc Hl. cbn in *. unfold od_lookup, od_insert in *. cbn [od_mem od_db] in *.
    rewrite od_lookup_nil in Hl |- *. rewrite od_lookup_nil. rewrite mem_lookup_insert by apply Hm.
    destruct (decide (h = sha3 v)) as [->|]; [|done].
    assert (forall w, w <> [] -> sha3 v = sha3 w -> w ∈ m_seen (od_mem db) -> v = w) as Hvw.
    { intros w _ E Hw. apply Hc; [by apply elem_of_cons; left|by apply elem_of_cons; right|done]. }
    destruct (mem_lookup (od_mem db) (sha3 v)) as [|x w] eqn:E.
    + destruct (Hd (sha3 v)) as [E2 Hin]; [apply Hsha3|done|].
      pose proof (Hvw _ Hl E2 Hin) as Ev. by destruct v.
    + destruct (mem_lookup_inv (od_mem db) (sha3 v) Hm) as [E2 Hin]; [by rewrite E|]. rewrite E in E2, Hin.
      pose proof (Hvw _ Hl E2 Hin) as Ev. by destruct v.
  - intros db h [Hm Hd]. split; [by apply memInv_kill|]. intros h' Hh Hl. cbn. rewrite mem_kill_seen. by apply Hd.
  - intros db h. apply mem_kill_seen.
  - intros db h h' [[He _] _]. cbn. unfold od_lookup, od_kill. cbn [od_mem od_db]. by rewrite mem_lookup_kill.
Defined.

End Laws.

(** ** What is on disk after a commit *)

Lemma batch_main_lookup m d h : batch_main m d !! h =
  match m !! h with Some (v, n) => if n =? 0 then d !! h else Some v | None => d !! h end.
Proof.
  unfold batch_main. revert h.
  apply (map_fold_weak_ind (fun (r : gmap bytes bytes) (m : gmap bytes (bytes * Z)) => forall h, r !! h =
    match m !! h with Some (v, n) => if n =? 0 then d !! h else Some v | None => d !! h end)).
  { intros h. by rewrite lookup_empty. }
  intros k [w n] m' r Hk IH h. cbn [fst snd]. destruct (decide (h = k)) as [->|Hne].
  - rewrite lookup_insert_eq. destruct (n =? 0); [|by rewrite lookup_insert_eq]. by rewrite IH, Hk.
  - rewrite lookup_insert_ne by done. destruct (n =? 0); [|rewrite lookup_insert_ne by done]; apply IH.
Qed.

Lemma auxKey_inj a b : auxKey a = auxKey b -> a = b.
Proof. apply app_inv_tail. Qed.

Lemma batch_aux_lookup m d :
  (forall k, (forall h, is_Some (m !! h) -> k <> auxKey h) -> batch_aux m d !! k = d !! k) /\
  (forall h, batch_aux m d !! auxKey h =
     match m !! h with Some (v, true) => Some v | _ => d !! auxKey h end).
Proof.
  unfold batch_aux.
  apply (map_fold_weak_ind (fun (r : gmap bytes bytes) (m : gmap bytes (bytes * bool)) =>
    (forall k, (forall h, is_Some (m !! h) -> k <> auxKey h) -> r !! k = d !! k) /\
    (forall h, r !! auxKey h = match m !! h with Some (v, true) => Some v | _ => d !! auxKey h end))).
  { split; [done|]. intros h. by rewrite lookup_empty. }
  intros k [w b] m' r Hk [IH1 IH2]. cbn [fst snd]. split.
  - intros k' Hk'. assert (r !! k' = d !! k') as E.
    { apply IH1. intros h Hh. apply Hk'. destruct (decide (h = k)) as [->|]; [by rewrite Hk in Hh; destruct Hh|].
      by rewrite lookup_insert_ne. }
    destruct b; [|done]. rewrite lookup_insert_ne; [done|]. intros <-. apply (Hk' k); [|done].
    rewrite lookup_insert_eq. by eexists.
  - intros h. destruct (decide (h = k)) as [->|Hne].
    + rewrite lookup_insert_eq. destruct b; [by rewrite lookup_insert_eq|]. by rewrite IH2, Hk.
    + rewrite (lookup_insert_ne m') by done. destruct b; [|by apply IH2].
      rewrite lookup_insert_ne by (by intros ?%auxKey_inj). apply IH2.
Qed.

(** ** Properties *)

(** Committing an overlay writes exactly the referenced nodes: the memory part is
    empty afterwards; a node is on disk if it had a reference or was there before;
    a node that had a reference, or whose copy on disk agrees, is found as before,
    one that was killed and never written is gone; auxiliary entries move to disk
    unless they were removed; rolling back drops the nodes in memory. *)
Theorem overlay_commit (db : OverlayDB) (d : gmap bytes bytes) (h : bytes)
  (Hd : od_db db = Some d) (He : m_enforceRefs (od_mem db) = false)
  (Hm : forall k, is_Some (m_main (od_mem db) !! k) -> length k = 32%nat)
  (Hk : forall k, is_Some (m_aux (od_mem db) !! k) -> length k = 32%nat) (Hh : length h = 32%nat) :
  m_main (od_mem (od_commit db)) = ∅ /\ m_aux (od_mem (od_commit db)) = ∅ /\
  od_lookup (od_commit db) h =
    match m_main (od_mem db) !! h with
    | Some (v, n) => if n =? 0 then ldb_get (od_db db) h else v
    | None => ldb_get (od_db db) h
    end /\
  (match m_main (od_mem db) !! h with
   | Some (v, n) => (n <> 0 /\ v <> []) \/ (n = 0 /\ ldb_get (od_db db) h = od_lookup db h)
   | None => True
   end -> od_lookup (od_commit db) h = od_lookup db h) /\
  od_lookupAux (od_commit db) h =
    match m_aux (od_mem db) !! h with
    | Some (v, true) => v
    | _ => ldb_get (od_db db) (auxKey h)
    end /\
  od_lookup (od_rollback db) h = ldb_get (od_db db) h.
Proof.
  assert (od_lookup (od_commit db) h =
    match m_main (od_mem db) !! h with
    | Some (v, n) => if n =? 0 then ldb_get (od_db db) h else v
    | None => ldb_get (od_db db) h
    end) as Hl.
  { unfold od_lookup, od_commit. rewrite Hd. cbn [od_mem od_db]. unfold mem_lookup. cbn [mem_clear set_aux set_main m_main].
    rewrite lookup_empty. cbn [sizeZ length Z.of_nat Z.eqb ldb_get].
    rewrite (proj1 (batch_aux_lookup _ _)).
    2: { intros k Hs ->. unfold auxKey in Hh. rewrite length_app, (Hk k Hs) in Hh. done. }
    rewrite batch_main_lookup. destruct (m_main (od_mem db) !! h) as [[v n]|]; [|done]. by destruct (n =? 0). }
  split_and!; [unfold od_commit; by rewrite Hd|unfold od_commit; by rewrite Hd|done| | |].
  - rewrite Hl. unfold od_lookup. rewrite !od_lookup_nil. unfold mem_lookup. rewrite He. cbn [negb orb].
    destruct (m_main (od_mem db) !! h) as [[v n]|]; [|done].
    intros [[Hn Hv]|[-> Hv]]; [|exact Hv]. destruct (Z.eqb_spec n 0); [done|]. by destruct v.
  - unfold od_lookupAux, od_commit. rewrite Hd. cbn [od_mem od_db]. unfold mem_lookupAux.
    cbn [mem_clear set_aux set_main m_aux]. rewrite lookup_empty. cbn [sizeZ length Z.of_nat Z.eqb negb ldb_get].
    rewrite (proj2 (batch_aux_lookup _ _)). destruct (m_aux (od_mem db) !! h) as [[v []]|] eqn:Ea; try done.
    all: rewrite batch_main_lookup; destruct (m_main (od_mem db) !! auxKey h) eqn:Em; [|done].
    all: specialize (Hm (auxKey h) ltac:(by rewrite Em)); unfold auxKey in Hm; rewrite length_app, Hh in Hm; done.
  - unfold od_lookup, od_rollback. cbn [od_mem od_db]. unfold mem_lookup. cbn [set_main m_main]. by rewrite lookup_empty.
Qed.

Lemma overlay_commit_witness :
  let db := mkOverlayDB (mkMemoryDB {[ replicate 32 1 := ([5], 1); replicate 32 2 := ([6], 0) ]} ∅ false [[5]; [6]]) (Some ∅) in
  od_lookup (od_commit db) (replicate 32 1) = [5] /\ od_lookup (od_commit db) (replicate 32 2) = [] /\
  od_lookup db (replicate 32 2) = [6].
Proof.
  set (db := mkOverlayDB _ _).
  assert (forall k, is_Some (m_main (od_mem db) !! k) -> length k = 32%nat) as Hm.
  { intros k [e He]. cbn in He. apply lookup_insert_Some in He as [[<- _]|[_ He]]; [done|].
    apply lookup_insert_Some in He as [[<- _]|[_ He]]; [done|]. by rewrite lookup_empty in He. }
  assert (forall k, is_Some (m_aux (od_mem db) !! k) -> length k = 32%nat) as Hk.
  { intros k [e He]. cbn in He. by rewrite lookup_empty in He. }
  destruct (overlay_commit db ∅ (replicate 32 1) eq_refl eq_refl Hm Hk eq_refl) as (_ & _ & E1 & _).
  destruct (overlay_commit db ∅ (replicate 32 2) eq_refl eq_refl Hm Hk eq_refl) as (_ & _ & E2 & _).
  split_and!; [rewrite E1|rewrite E2|]; vm_compute; reflexivity.
Defined.
