(* ===== verification/TrieDB.v ===== *)
(** * libdevcore/TrieDB.h: the Merkle-Patricia trie over a node database

    [GenericTrieDB] keeps the hash of its root node; nodes of 32 bytes or more are
    in the database under their hashes, shorter ones inside their parents.  The
    operations are written over any database of the class [NodeDB], threading it
    explicitly; a trie is its root together with the database.  The hash-keyed
    view [HashedGenericTrieDB], which the state uses, is at the end.

    An RLP object is modelled by its bytes; its index cache never changes what an
    access returns, so each access starts from a fresh one.  [assert] is an error
    value here. *)

From Stdlib Require Import ZArith Lia.
From stdpp Require Import base list list_numbers option.
From S2P Require Import Prelude CommonData RLP FixedHash TrieCommon MemoryDB.

Inductive trie_error :=
| TrieRLP (e : rlp_error)
| RootNotFound
| BadRoot
| AssertionFailed
| NoReturn.

Abbreviation res := (result trie_error).

Definition rlp_ {A} (r : result rlp_error A) : res A :=
  match r with Ok a => Ok a | Throw e => Throw (TrieRLP e) end.

(** [r[i]], [r.itemCount()] *)
Definition nth_ (d : bytes) (i : Z) : res bytes := rlp_ (snd (RLP.index (RLP.mk d) i)).

Definition count_ (d : bytes) : res Z :=
  match RLP.itemCount d with Some r => rlp_ r | None => Throw NoReturn end.

Definition toHash256 (d : bytes) : res bytes := rlp_ (RLP.toHash 32 d Strict).

(** [assert(c)] *)
Definition assert_ (c : bool) : res unit := guard_or c AssertionFailed.

Definition RLPNull : bytes := [128].

(** [keyOf] and [isLeaf] of a two-item node *)
Definition keyOfNode (d : bytes) : res NibbleSlice := x ← nth_ d 0; p ← rlp_ (RLP.payload x); Ok (keyOf p).
Definition isLeafNode (d : bytes) : res bool :=
  n ← count_ d; _ ← assert_ (RLP.isList d && (n =? 2));
  x ← nth_ d 0; p ← rlp_ (RLP.payload x); Ok (isLeaf p).

(** [rlpList] of a hex-prefix string or an item, and a value or an item *)
Definition stream2 : res RLPStream.t := rlp_ (RLPStream.appendList RLPStream.empty 2).
Definition stream17 : res RLPStream.t := rlp_ (RLPStream.appendList RLPStream.empty 17).
Definition putStr (s : RLPStream.t) (d : bytes) : res RLPStream.t := rlp_ (RLPStream.append s d false).
Definition putItem (s : RLPStream.t) (d : bytes) : res RLPStream.t := rlp_ (RLPStream.appendRaw s d 1).
Definition finish (s : RLPStream.t) : res bytes := rlp_ (RLPStream.out s).

(** [for (i = from; i < to; ++i) s << orig[i]] *)
Fixpoint putItems (orig : bytes) (is_ : list Z) (s : RLPStream.t) : res RLPStream.t :=
  match is_ with
  | [] => Ok s
  | i :: is' => x ← nth_ orig i; s1 ← putItem s x; putItems orig is' s1
  end.

(** [uniqueInUse] of TrieCommon.cpp *)
Fixpoint uniqueInUse_loop (orig : bytes) (except : Z) (is_ : list Z) (used : Z) : res Z :=
  match is_ with
  | [] => Ok used
  | i :: is' =>
      if negb (i =? except) then
        x ← nth_ orig i;
        if negb (RLP.isEmpty x) then
          if used =? 255 then uniqueInUse_loop orig except is' (u8 i) else Ok 255
        else uniqueInUse_loop orig except is' used
      else uniqueInUse_loop orig except is' used
  end.

Definition uniqueInUse (orig : bytes) (except : Z) : res Z := uniqueInUse_loop orig except (seqZ 0 17) 255.

Section TrieDB.
Context {DB : Type} `{NodeDB DB} (sha3 : bytes -> bytes).

(** [node], [forceInsertNode], [forceKillNode], [killNode] *)
Definition node (db : DB) (h : bytes) : bytes := nd_lookup db h.

Definition forceInsertNode (db : DB) (v : bytes) : bytes * DB := (sha3 v, nd_insert db (sha3 v) v).

Definition forceKillNode (db : DB) (h : bytes) : DB := nd_kill db h.

Definition killNode (db : DB) (d h : bytes) : DB := if 32 <=? sizeZ d then forceKillNode db h else db.

(** [RLP(node(h))] *)
Definition nodeRLP (db : DB) (h : bytes) : res bytes := rlp_ (RLP.construct (node db h) VeryStrict).

Definition streamNode (db : DB) (s : RLPStream.t) (b : bytes) : res (RLPStream.t * DB) :=
  if sizeZ b <? 32 then s1 ← putItem s b; Ok (s1, db)
  else
    let '(h, db1) := forceInsertNode db b in
    s1 ← rlp_ (RLPStream.appendHash s h false false); Ok (s1, db1).

(** The two-item or 17-item shape that the operations assert *)
Definition assertNode (d : bytes) (n : Z) : res unit :=
  assert_ (RLP.isList d && ((n =? 2) || (n =? 17))).

(** ** Looking up *)

(** [n.isList() ? n : RLP(node(n.toHash<h256>()))] *)
Definition follow (db : DB) (n : bytes) : res bytes :=
  if RLP.isList n then Ok n else h ← toHash256 n; nodeRLP db h.

Fixpoint atAux (fuel : nat) (db : DB) (here : bytes) (key : NibbleSlice) : res bytes :=
  match fuel with
  | O => Throw NoReturn
  | S f =>
      if RLP.isEmpty here || RLP.isNull here then Ok []
      else
        itemCount ← count_ here;
        _ ← assertNode here itemCount;
        if itemCount =? 2 then
          k ← keyOfNode here;
          leaf ← isLeafNode here;
          if ns_eqb key k && leaf then x ← nth_ here 1; rlp_ (RLP.toBytes x LaissezFaire)
          else if ns_contains key k && negb leaf then
            x ← nth_ here 1; n ← follow db x; atAux f db n (ns_mid key (ns_size k))
          else Ok []
        else if ns_size key =? 0 then x ← nth_ here 16; rlp_ (RLP.toBytes x LaissezFaire)
        else
          n ← nth_ here (ns_at key 0);
          if RLP.isEmpty n then Ok []
          else n' ← follow db n; atAux f db n' (ns_mid key 1)
  end.

(** A key of [n] nibbles meets at most [n + 1] nodes. *)
Definition at_fuel (key : NibbleSlice) : nat := S (Z.to_nat (ns_size key)).

Definition trie_lookup (db : DB) (root key : bytes) : res bytes :=
  r ← nodeRLP db root; atAux (at_fuel (mkSlice key 0)) db r (mkSlice key 0).

Definition trie_contains (db : DB) (root key : bytes) : res bool :=
  v ← trie_lookup db root key; Ok (negb (sizeZ v =? 0)).

(** ** Inserting *)

Definition place (db : DB) (orig : bytes) (k : NibbleSlice) (s : bytes) : res (bytes * DB) :=
  let db1 := killNode db orig (sha3 orig) in
  if RLP.isEmpty orig then
    r0 ← stream2; r1 ← putStr r0 (hexPrefixEncode_slice k true 0 (-1)); r2 ← putStr r1 s;
    o ← finish r2; Ok (o, db1)
  else
    itemCount ← count_ orig;
    _ ← assertNode orig itemCount;
    if itemCount =? 2 then
      x ← nth_ orig 0;
      r0 ← stream2; r1 ← putItem r0 x; r2 ← putStr r1 s; o ← finish r2; Ok (o, db1)
    else
      r0 ← stream17; r1 ← putItems orig (seqZ 0 16) r0; r2 ← putStr r1 s; o ← finish r2; Ok (o, db1).

Definition cleve (db : DB) (orig : bytes) (s : Z) : res (bytes * DB) :=
  let db1 := killNode db orig (sha3 orig) in
  itemCount ← count_ orig;
  _ ← assert_ (RLP.isList orig && (itemCount =? 2));
  k ← keyOfNode orig;
  _ ← assert_ (negb (s =? 0) && (s <=? ns_size k));
  leaf ← isLeafNode orig;
  x ← nth_ orig 1;
  b0 ← stream2; b1 ← putStr b0 (hexPrefixEncode_slice k leaf s (-1)); b2 ← putItem b1 x; bottom ← finish b2;
  t0 ← stream2; t1 ← putStr t0 (hexPrefixEncode_slice k false 0 s);
  '(t2, db2) ← streamNode db1 t1 bottom;
  top ← finish t2; Ok (top, db2).

(** [for (i = 0; i < 16; ++i) if (i == b) ... else r << ""] of [branch] *)
Fixpoint branch_loop (db : DB) (orig : bytes) (k : NibbleSlice) (leaf : bool) (b : Z) (is_ : list Z)
    (r : RLPStream.t) : res (RLPStream.t * DB) :=
  match is_ with
  | [] => Ok (r, db)
  | i :: is' =>
      '(r1, db1) ←
        (if i =? b then
           x ← nth_ orig 1;
           if leaf || (1 <? ns_size k) then
             s0 ← stream2; s1 ← putStr s0 (hexPrefixEncode_slice (ns_mid k 1) leaf 0 (-1));
             s2 ← putItem s1 x; n ← finish s2; streamNode db r n
           else r1 ← putItem r x; Ok (r1, db)
         else r1 ← putStr r []; Ok (r1, db));
      branch_loop db1 orig k leaf b is' r1
  end.

Fixpoint putEmpties (n : nat) (r : RLPStream.t) : res RLPStream.t :=
  match n with O => Ok r | S n' => r1 ← putStr r []; putEmpties n' r1 end.

Definition branch (db : DB) (orig : bytes) : res (bytes * DB) :=
  itemCount ← count_ orig;
  _ ← assert_ (RLP.isList orig && (itemCount =? 2));
  let db1 := killNode db orig (sha3 orig) in
  k ← keyOfNode orig;
  r0 ← stream17;
  if ns_size k =? 0 then
    leaf ← isLeafNode orig;
    _ ← assert_ leaf;
    r1 ← putEmpties 16 r0;
    x ← nth_ orig 1;
    r2 ← putItem r1 x; o ← finish r2; Ok (o, db1)
  else
    let b := ns_at k 0 in
    leaf ← isLeafNode orig;
    '(r1, db2) ← branch_loop db1 orig k leaf b (seqZ 0 16) r0;
    r2 ← putStr r1 []; o ← finish r2; Ok (o, db2).

(** [mergeAtAux], given [mergeAt] without the hash argument *)
Definition mergeAtAux (mergeAt : DB -> bytes -> NibbleSlice -> bytes -> bool -> res (bytes * DB))
    (db : DB) (out : RLPStream.t) (orig : bytes) (k : NibbleSlice) (v : bytes) : res (RLPStream.t * DB) :=
  '(r, isRemovable) ←
    (if negb (RLP.isList orig) && negb (RLP.isEmpty orig) then
       h ← toHash256 orig; r ← nodeRLP db h; _ ← assert_ (negb (RLP.isNull r)); Ok (r, true)
     else Ok (orig, false));
  '(b, db1) ← mergeAt db r k v (negb isRemovable);
  streamNode db1 out b.

(** [for (i = 0; i < 17; ++i) if (i == n) mergeAtAux(...) else r.append(orig[i])] *)
Fixpoint mergeAt_children (mergeAt : DB -> bytes -> NibbleSlice -> bytes -> bool -> res (bytes * DB))
    (db : DB) (orig : bytes) (k : NibbleSlice) (v : bytes) (is_ : list Z) (r : RLPStream.t)
  : res (RLPStream.t * DB) :=
  match is_ with
  | [] => Ok (r, db)
  | i :: is' =>
      x ← nth_ orig i;
      '(r1, db1) ← (if i =? ns_at k 0 then mergeAtAux mergeAt db r x (ns_mid k 1) v
                    else r1 ← putItem r x; Ok (r1, db));
      mergeAt_children mergeAt db1 orig k v is' r1
  end.

(** [mergeAt]; the overload without a hash takes the one of the node's bytes *)
Fixpoint mergeAt (fuel : nat) (db : DB) (orig origHash : bytes) (k : NibbleSlice) (v : bytes) (inLine : bool)
  : res (bytes * DB) :=
  match fuel with
  | O => Throw NoReturn
  | S f =>
      let mergeAt' := fun db d k v inLine => mergeAt f db d (sha3 d) k v inLine in
      if RLP.isEmpty orig then place db orig k v
      else
        itemCount ← count_ orig;
        _ ← assertNode orig itemCount;
        if itemCount =? 2 then
          ko ← keyOfNode orig;
          leaf ← isLeafNode orig;
          if ns_eqb ko k && leaf then place db orig k v
          else if ns_contains k ko && negb leaf then
            let db1 := if inLine then db else killNode db orig origHash in
            s0 ← stream2; x0 ← nth_ orig 0; s1 ← putItem s0 x0;
            x1 ← nth_ orig 1;
            '(s2, db2) ← mergeAtAux mergeAt' db1 s1 x1 (ns_mid k (ns_size ko)) v;
            o ← finish s2; Ok (o, db2)
          else
            let sh := ns_shared k ko in
            if negb (sh =? 0) then
              '(cleved, db1) ← cleve db orig sh;
              r ← rlp_ (RLP.construct cleved VeryStrict);
              mergeAt' db1 r k v true
            else
              '(branched, db1) ← branch db orig;
              r ← rlp_ (RLP.construct branched VeryStrict);
              mergeAt' db1 r k v true
        else if ns_size k =? 0 then place db orig k v
        else
          let db1 := if inLine then db else killNode db orig origHash in
          r0 ← stream17;
          '(r1, db2) ← mergeAt_children mergeAt' db1 orig k v (seqZ 0 17) r0;
          o ← finish r1; Ok (o, db2)
  end.

(** Between two nibbles of the key the node may be cleft and branched. *)
Definition merge_fuel (key : NibbleSlice) : nat := 3 * Z.to_nat (ns_size key) + 4.

Definition trie_insert_ (db : DB) (root key value : bytes) : res (DB * bytes) :=
  let rootValue := node db root in
  _ ← assert_ (negb (sizeZ rootValue =? 0));
  r ← rlp_ (RLP.construct rootValue VeryStrict);
  let k := mkSlice key 0 in
  '(b, db1) ← mergeAt (merge_fuel k) db r root k value false;
  let db2 := if sizeZ rootValue <? 32 then forceKillNode db1 root else db1 in
  let '(h, db3) := forceInsertNode db2 b in
  Ok (db3, h).

(** ** Removing *)

Definition isTwoItemNode (db : DB) (n : bytes) : res bool :=
  a ← ((if RLP.isData n then h ← toHash256 n; r ← nodeRLP db h; c ← count_ r; Ok (c =? 2) else Ok false) : res bool);
  if (a : bool) then Ok true
  else if RLP.isList n then c ← count_ n; Ok (c =? 2) else Ok false.

Definition deref (db : DB) (n : bytes) : res bytes :=
  if RLP.isList n then Ok n else h ← toHash256 n; Ok (node db h).

Definition graft (db : DB) (orig : bytes) : res (bytes * DB) :=
  c ← count_ orig;
  _ ← assert_ (RLP.isList orig && (c =? 2));
  x1 ← nth_ orig 1;
  '(n, db1) ←
    (if RLP.isList x1 then Ok (x1, db)
     else lh ← toHash256 x1; n ← rlp_ (RLP.construct (node db lh) VeryStrict); Ok (n, forceKillNode db lh));
  cn ← count_ n;
  _ ← assert_ (cn =? 2);
  k ← keyOfNode orig; kn ← keyOfNode n; leaf ← isLeafNode n; y1 ← nth_ n 1;
  r0 ← stream2; r1 ← putStr r0 (hexPrefixEncode_slices k kn leaf); r2 ← putItem r1 y1;
  o ← finish r2; Ok (o, db1).

Definition merge (orig : bytes) (i : Z) : res bytes :=
  c ← count_ orig;
  _ ← assert_ (RLP.isList orig && (c =? 17));
  s0 ← stream2;
  x ← nth_ orig i;
  s1 ← (if negb (i =? 16) then
          _ ← assert_ (negb (RLP.isEmpty x)); putStr s0 (hexPrefixEncode_data [i] false 1 2 0)
        else putStr s0 (hexPrefixEncode [] true 0 (-1)));
  s2 ← putItem s1 x;
  finish s2.

(** The node that is left when one child is in use: merged, and grafted when the
    child is itself a two-item node *)
Definition collapse (db : DB) (d : bytes) (used : Z) : res (bytes * DB) :=
  x ← nth_ d used;
  two ← isTwoItemNode db x;
  merged ← merge d used;
  if (two : bool) then r ← rlp_ (RLP.construct merged VeryStrict); graft db r else Ok (merged, db).

(** [deleteAtAux], given [deleteAt]; [None] is [false] *)
Definition deleteAtAux (deleteAt : DB -> bytes -> NibbleSlice -> res (bytes * DB))
    (db : DB) (out : RLPStream.t) (orig : bytes) (k : NibbleSlice) : res (option RLPStream.t * DB) :=
  '(b, db1) ← (if RLP.isEmpty orig then Ok ([], db) else n ← follow db orig; deleteAt db n k);
  if sizeZ b =? 0 then Ok (None, db1)
  else '(s, db2) ← streamNode db1 out b; Ok (Some s, db2).

Fixpoint deleteAt_children (deleteAt : DB -> bytes -> NibbleSlice -> res (bytes * DB))
    (db : DB) (orig : bytes) (k : NibbleSlice) (is_ : list Z) (r : RLPStream.t)
  : res (option RLPStream.t * DB) :=
  match is_ with
  | [] => Ok (Some r, db)
  | i :: is' =>
      x ← nth_ orig i;
      if i =? ns_at k 0 then
        '(r1, db1) ← deleteAtAux deleteAt db r x (ns_mid k 1);
        match r1 with
        | None => Ok (None, db1)
        | Some r1 => deleteAt_children deleteAt db1 orig k is' r1
        end
      else r1 ← putItem r x; deleteAt_children deleteAt db orig k is' r1
  end.

(** [deleteAt]; the empty string says that the key was not found *)
Fixpoint deleteAt (fuel : nat) (db : DB) (orig : bytes) (k : NibbleSlice) : res (bytes * DB) :=
  match fuel with
  | O => Throw NoReturn
  | S f =>
      if RLP.isEmpty orig then Ok ([], db)
      else
        itemCount ← count_ orig;
        _ ← assertNode orig itemCount;
        if itemCount =? 2 then
          ko ← keyOfNode orig;
          leaf ← isLeafNode orig;
          if ns_eqb ko k && leaf then Ok (RLPNull, killNode db orig (sha3 orig))
          else if ns_contains k ko then
            s0 ← stream2; x0 ← nth_ orig 0; s1 ← putItem s0 x0; x1 ← nth_ orig 1;
            '(s2, db1) ← deleteAtAux (deleteAt f) db s1 x1 (ns_mid k (ns_size ko));
            match s2 with
            | None => Ok ([], db1)
            | Some s2 =>
                let db2 := killNode db1 orig (sha3 orig) in
                o ← finish s2;
                r ← rlp_ (RLP.construct o VeryStrict);
                y ← nth_ r 1;
                two ← isTwoItemNode db2 y;
                if (two : bool) then graft db2 r else Ok (o, db2)
            end
          else Ok ([], db)
        else
          x16 ← nth_ orig 16;
          if (ns_size k =? 0) && negb (RLP.isEmpty x16) then
            let db1 := killNode db orig (sha3 orig) in
            used ← uniqueInUse orig 16;
            if negb (used =? 255) then collapse db1 orig used
            else r0 ← stream17; r1 ← putItems orig (seqZ 0 16) r0; r2 ← putStr r1 []; o ← finish r2; Ok (o, db1)
          else
            r0 ← stream17;
            '(r1, db1) ← deleteAt_children (deleteAt f) db orig k (seqZ 0 17) r0;
            match r1 with
            | None => Ok ([], db1)
            | Some r1 =>
                let db2 := killNode db1 orig (sha3 orig) in
                o ← finish r1;
                r ← rlp_ (RLP.construct o VeryStrict);
                used ← uniqueInUse r 255;
                if used =? 255 then Ok (o, db2) else collapse db2 r used
            end
  end.

Definition trie_remove_ (db : DB) (root key : bytes) : res (DB * bytes) :=
  let rv := node db root in
  r ← rlp_ (RLP.construct rv VeryStrict);
  let k := mkSlice key 0 in
  '(b, db1) ← deleteAt (at_fuel k) db r k;
  if negb (sizeZ b =? 0) then
    let db2 := if sizeZ rv <? 32 then forceKillNode db1 root else db1 in
    let '(h, db3) := forceInsertNode db2 b in
    Ok (db3, h)
  else Ok (db1, root).

(** ** Opening *)

(** [c_shaNull], the hash of the empty node *)
Definition shaNull : bytes := sha3 RLPNull.

(** [setRoot] with [Verification::Normal]; [init] inserts the empty node *)
Definition init_ (db : DB) : DB * bytes := let '(h, db1) := forceInsertNode db RLPNull in (db1, h).

Definition setRoot (db : DB) (root : bytes) : res (DB * bytes) :=
  let '(db1, r) := if bool_decide (root = shaNull) && negb (nd_exists db root) then init_ db else (db, root) in
  if sizeZ (node db1 r) =? 0 then Throw RootNotFound else Ok (db1, r).

Definition trie_isNull (db : DB) (root : bytes) : bool := sizeZ (node db root) =? 0.
Definition trie_isEmpty (db : DB) (root : bytes) : bool :=
  bool_decide (root = shaNull) && negb (sizeZ (node db root) =? 0).
Definition trie_root (db : DB) (root : bytes) : res bytes :=
  if sizeZ (node db root) =? 0 then Throw BadRoot else Ok root.

(** ** [HashedGenericTrieDB] *)

Definition hashed_at (db : DB) (root key : bytes) : res bytes := trie_lookup db root (sha3 key).
Definition hashed_insert (db : DB) (root key value : bytes) : res (DB * bytes) :=
  trie_insert_ db root (sha3 key) value.
Definition hashed_remove (db : DB) (root key : bytes) : res (DB * bytes) := trie_remove_ db root (sha3 key).
Definition hashed_contains (db : DB) (root key : bytes) : res bool := trie_contains db root (sha3 key).

End TrieDB.

(** ** [FatGenericTrieDB]: the preimages of the keys are kept as auxiliary entries *)

Definition fat_insert (sha3 : bytes -> bytes) (db : OverlayDB) (root key value : bytes) : res (OverlayDB * bytes) :=
  '(db1, r) ← trie_insert_ sha3 db root (sha3 key) value;
  Ok (mkOverlayDB (insertAux (od_mem db1) (sha3 key) key) (od_db db1), r).
