(* ===== verification/TrieDBTheory.v ===== *)
(** * The trie over its database refines the abstract trie

    The nodes that [GenericTrieDB] reads and writes are the encodings of abstract
    tries ([Trie]); each operation on them is followed by its abstract
    counterpart, which also says which nodes are written. *)

From Stdlib Require Import ZArith Lia.
From stdpp Require Import base list list_numbers option.
From S2P Require Import Prelude CommonData RLP RLPTheory FixedHash TrieCommon Trie MemoryDB TrieDB.

(** ** Reading items *)

Definition goodItem (i : item) : Prop := wf_item i /\ fitsItem i.

Lemma nth_item l i x : goodItem (Lst l) -> l !! Z.to_nat i = Some x -> 0 <= i < 2 ^ 32 ->
  nth_ (encode (Lst l)) i = Ok (encode x).
Proof.
  intros [Hw Hf] Hx Hi. destruct (index_ok l (RLP.mk (encode (Lst l))) i Hw Hf (cache_fresh l)) as (o & E & _).
  { unfold size_max. lia. }
  unfold nth_. rewrite E. cbn. unfold item_bytes. by rewrite Hx.
Qed.

Lemma count_item l : goodItem (Lst l) -> count_ (encode (Lst l)) = Ok (sizeZ l).
Proof.
  intros [Hw Hf]. unfold count_, RLP.itemCount.
  destruct (reads_exact (Lst l) Hw Hf) as [_ _ -> _ _ _ _]. cbn [is_Lst]. by rewrite items_encode.
Qed.

Lemma isList_item i : goodItem i -> RLP.isList (encode i) = is_Lst i.
Proof. intros [Hw Hf]. by destruct (reads_exact i Hw Hf). Qed.

Lemma isData_item i : goodItem i -> RLP.isData (encode i) = negb (is_Lst i).
Proof. intros [Hw Hf]. by destruct (reads_exact i Hw Hf). Qed.

Lemma isNull_item i : goodItem i -> RLP.isNull (encode i) = false.
Proof. intros [Hw Hf]. by destruct (reads_exact i Hw Hf). Qed.

Lemma isEmpty_Str b : goodItem (Str b) -> RLP.isEmpty (encode (Str b)) = bool_decide (b = []).
Proof.
  intros Hg. unfold RLP.isEmpty. rewrite isNull_item by done. cbn [negb andb].
  change c_rlpDataImmLenStart with 128. change c_rlpListStart with 192.
  destruct b as [|x b]; [done|]. rewrite bool_decide_eq_false_2 by done.
  destruct Hg as [Hw Hf]. cbn [encode]. rewrite sizeZ_cons. pose proof (sizeZ_nonneg b).
  destruct ((1 + sizeZ b =? 1) && (at_ (x :: b) 0 <? 128)) eqn:E1.
  - apply andb_true_iff in E1 as [_ E1]. apply Z.ltb_lt in E1. change (at_ (x :: b) 0) with x in *.
    destruct (Z.eqb_spec x 128); [lia|]. by destruct (Z.eqb_spec x 192); [lia|].
  - unfold header. destruct (Z.ltb_spec (1 + sizeZ b) 56).
    + cbn [app]. change (at_ ((128 + (1 + sizeZ b)) :: x :: b) 0) with (128 + (1 + sizeZ b)).
      destruct (Z.eqb_spec (128 + (1 + sizeZ b)) 128); [lia|]. by destruct (Z.eqb_spec (128 + (1 + sizeZ b)) 192); [lia|].
    + cbn [app]. set (y := 128 + 55 + _). change (at_ (y :: _) 0) with y.
      unfold fitsItem in Hf. cbn [encode] in Hf. rewrite sizeZ_cons, E1, sizeZ_app, sizeZ_cons in Hf.
      pose proof (sizeZ_nonneg (header 128 (1 + sizeZ b))).
      pose proof (bytesRequired_u64 (1 + sizeZ b) ltac:(lia)). pose proof (bytesRequired_big (1 + sizeZ b) ltac:(lia)).
      unfold y. destruct (Z.eqb_spec (128 + 55 + Z.of_nat (bytesRequired (1 + sizeZ b))) 128); [lia|].
      by destruct (Z.eqb_spec (128 + 55 + Z.of_nat (bytesRequired (1 + sizeZ b))) 192); [lia|].
Qed.

Lemma isEmpty_Lst l : goodItem (Lst l) -> l <> [] -> RLP.isEmpty (encode (Lst l)) = false.
Proof.
  intros Hg Hl. unfold RLP.isEmpty. rewrite isNull_item by done. cbn [negb andb].
  change c_rlpDataImmLenStart with 128. change c_rlpListStart with 192.
  assert (1 <= sizeZ (flat_map encode l)) as Hs.
  { destruct l as [|i l]; [done|]. rewrite sizeZ_flat_map_cons. pose proof (encode_nonempty i).
    pose proof (sizeZ_nonneg (flat_map encode l)). lia. }
  cbn [encode]. unfold header. set (n := sizeZ (flat_map encode l)) in *. destruct (Z.ltb_spec n 56); cbn [app].
  - change (at_ ((192 + n) :: flat_map encode l) 0) with (192 + n).
    destruct (Z.eqb_spec (192 + n) 128); [lia|]. by destruct (Z.eqb_spec (192 + n) 192); [lia|].
  - set (y := 192 + 55 + _). change (at_ (y :: _) 0) with y. unfold y.
    destruct (Z.eqb_spec (192 + 55 + Z.of_nat (bytesRequired n)) 128); [lia|].
    by destruct (Z.eqb_spec (192 + 55 + Z.of_nat (bytesRequired n)) 192); [lia|].
Qed.

Lemma payload_Str b : goodItem (Str b) -> RLP.payload (encode (Str b)) = Ok b.
Proof. intros [Hw Hf]. by rewrite payload_exact. Qed.

Lemma construct_item i : goodItem i -> RLP.construct (encode i) VeryStrict = Ok (encode i).
Proof. intros [Hw Hf]. by apply construct_exact. Qed.

Lemma toHash_item h : wf_bytes h -> length h = 32%nat -> toHash256 (encode (Str h)) = Ok h.
Proof.
  intros Hw Hl. unfold toHash256. rewrite toHash_encode; [done|done| |done]. unfold sizeZ. lia.
Qed.

Lemma toStr_item v : wfValue v -> RLP.toBytes (encode (Str v)) LaissezFaire = Ok v.
Proof. intros [Hw Hs]. by apply toBytes_encode. Qed.

Lemma smallItem_good i : smallItem i -> goodItem i.
Proof. intros [Hw Hs]. split; [done|]. unfold fitsItem. lia. Qed.

Lemma smallItems_good l : Forall smallItem l -> sizeZ l < 2 ^ 20 -> goodItem (Lst l).
Proof. intros Hl Hn. by apply small_items. Qed.

(** ** Writing items *)

Lemma putStr_small n l b : sizeZ l < n <= 17 -> Forall smallItem l -> smallItem (Str b) -> sizeZ b < 2 ^ 64 ->
  putStr (listStream n l) b = Ok (listStream n (l ++ [Str b])).
Proof.
  intros Hn Hl Hb Hs. unfold putStr. rewrite listStream_append; [done|lia|done|]. by apply (smallItems_snoc n).
Qed.

Lemma putItem_small n l x : sizeZ l < n <= 17 -> Forall smallItem l -> smallItem x ->
  putItem (listStream n l) (encode x) = Ok (listStream n (l ++ [x])).
Proof.
  intros Hn Hl Hx. unfold putItem. rewrite listStream_raw; [done|lia|]. by apply (smallItems_snoc n).
Qed.

Lemma stream2_ok : stream2 = Ok (listStream 2 []).
Proof. unfold stream2. by rewrite listStream_open. Qed.

Lemma stream17_ok : stream17 = Ok (listStream 17 []).
Proof. unfold stream17. by rewrite listStream_open. Qed.

Lemma finish_ok n l : sizeZ l = n -> finish (listStream n l) = Ok (encode (Lst l)).
Proof. intros Hl. unfold finish. by rewrite listStream_out. Qed.

Lemma putItems_ok n orig l is_ done_ : goodItem (Lst l) -> orig = encode (Lst l) -> Forall smallItem l ->
  Forall (fun i => 0 <= i < sizeZ l) is_ -> sizeZ l < 2 ^ 20 ->
  sizeZ done_ + sizeZ is_ <= n <= 17 -> Forall smallItem done_ ->
  putItems orig is_ (listStream n done_)
  = Ok (listStream n (done_ ++ map (fun i => nth (Z.to_nat i) l (Str [])) is_)).
Proof.
  intros Hg -> Hs Hi Hl. revert done_. induction Hi as [|i is_ Hi His IH]; intros done_ Hn Hd.
  { cbn. by rewrite app_nil_r. }
  rewrite sizeZ_cons in Hn. pose proof (sizeZ_nonneg is_). cbn [putItems map].
  destruct (lookup_lt_is_Some_2 l (Z.to_nat i)) as [x Hx]; [unfold sizeZ in Hi; lia|].
  rewrite (nth_item l i x), bind_Ok_l by (done || lia). rewrite (nth_lookup_Some _ _ _ x Hx).
  assert (smallItem x) as Hsx
    by exact (Forall_lookup_1 _ _ _ _ Hs Hx).
  rewrite putItem_small, bind_Ok_l by (done || lia). rewrite IH.
  - by rewrite <-app_assoc.
  - rewrite sizeZ_app. change (sizeZ [x]) with 1. lia.
  - apply Forall_app. split; [done|]. by apply Forall_singleton.
Qed.

(** ** Keys as lists of nibbles *)

Definition keyIs (s : NibbleSlice) (p : list Z) : Prop := slice_ok s /\ nibblesS s = p /\ wfPath p.

Lemma keyIs_size s p : keyIs s p -> ns_size s = sizeZ p.
Proof. intros (_ & <- & _). by rewrite nibblesS_length. Qed.

Lemma keyIs_eqb a p b q : keyIs a p -> keyIs b q -> ns_eqb a b = bool_decide (p = q).
Proof.
  intros (Ha & <- & _) (Hb & <- & _). apply eq_true_iff_eq. rewrite bool_decide_eq_true. by apply ns_eqb_spec.
Qed.

Lemma keyIs_contains a p b q : keyIs a p -> keyIs b q ->
  ns_contains a b = match stripPrefix q p with Some _ => true | None => false end.
Proof.
  intros (Ha & <- & _) (Hb & <- & _). apply eq_true_iff_eq. rewrite ns_contains_spec by done.
  destruct (stripPrefix (nibblesS b) (nibblesS a)) as [r|] eqn:E.
  - apply stripPrefix_Some in E. split; [done|]. intros _. by exists r.
  - apply stripPrefix_None in E. by split.
Qed.

Lemma keyIs_shared a p b q : keyIs a p -> keyIs b q -> ns_shared a b = Z.of_nat (cp p q).
Proof. intros (Ha & <- & _) (Hb & <- & _). by rewrite ns_shared_spec. Qed.

Lemma keyIs_drop s p n : keyIs s p -> (n <= length p)%nat -> keyIs (ns_mid s (Z.of_nat n)) (drop n p).
Proof.
  intros Hk Hn. pose proof (keyIs_size s p Hk) as Hs. destruct Hk as (Hok & Hp & Hw).
  destruct (ns_mid_spec s (Z.of_nat n) Hok) as [Hm E]; [unfold sizeZ in Hs; lia|].
  split; [done|]. rewrite E, Nat2Z.id, Hp. split; [done|].
  apply (wfPath_app (take n p)). by rewrite take_drop.
Qed.

Lemma keyIs_mid a p b q r : keyIs a p -> keyIs b q -> stripPrefix q p = Some r -> keyIs (ns_mid a (ns_size b)) r.
Proof.
  intros Ha Hb ->%stripPrefix_Some. rewrite (keyIs_size b q Hb). unfold sizeZ.
  pose proof (keyIs_drop a (q ++ r) (length q) Ha) as Hd. rewrite drop_app_length in Hd. apply Hd.
  rewrite length_app. lia.
Qed.

Lemma keyIs_tail s x p : keyIs s (x :: p) -> keyIs (ns_mid s 1) p.
Proof. intros Hk. apply (keyIs_drop s (x :: p) 1 Hk). cbn. lia. Qed.

Lemma keyIs_head s x p : keyIs s (x :: p) -> ns_at s 0 = x.
Proof.
  intros Hk. pose proof (keyIs_size s _ Hk) as Hs. destruct Hk as (_ & E & _).
  rewrite sizeZ_cons in Hs. pose proof (sizeZ_nonneg p).
  unfold nibblesS in E. rewrite window_cons in E by lia. by injection E.
Qed.

Lemma keyIs_window s p b e : keyIs s p -> 0 <= b <= e -> e <= sizeZ p ->
  window s b e = take (Z.to_nat (e - b)) (drop (Z.to_nat b) p).
Proof.
  intros Hk Hb He. rewrite <-(keyIs_size s p Hk) in He. destruct Hk as (_ & <- & _). unfold nibblesS, window.
  rewrite Z.sub_0_r. rewrite <-fmap_drop, <-fmap_take. f_equal. apply list_eq. intros j.
  destruct (decide (j < Z.to_nat (e - b))%nat).
  - rewrite lookup_take_lt, lookup_drop by lia. rewrite !lookup_seqZ_lt by lia. f_equal. lia.
  - rewrite lookup_take_ge, lookup_seqZ_ge by lia. done.
Qed.

(** The paths that the encoder of slices is asked for: from [n] on, and up to [n] *)
Lemma encode_from s p leaf n : keyIs s p -> (n <= length p)%nat ->
  hexPrefixEncode_slice s leaf (Z.of_nat n) (-1) = hp leaf (drop n p).
Proof.
  intros Hk Hn. pose proof (keyIs_size s p Hk) as Hs.
  assert (endOf (ns_size s) (-1) = sizeZ p) as Ee by (unfold endOf; change (-1 <? 0) with true; cbn match; lia).
  rewrite hexPrefixEncode_slice_hp, Ee; rewrite ?Ee; [|apply Hk|unfold sizeZ; lia|lia].
  rewrite (keyIs_window s p) by (done || unfold sizeZ; lia). f_equal. rewrite Nat2Z.id. apply take_ge.
  rewrite length_drop. unfold sizeZ. lia.
Qed.

Lemma encode_all s p leaf : keyIs s p -> hexPrefixEncode_slice s leaf 0 (-1) = hp leaf p.
Proof. intros Hk. exact (encode_from s p leaf 0 Hk (Nat.le_0_l _)). Qed.

Lemma encode_upto s p n : keyIs s p -> (n <= length p)%nat ->
  hexPrefixEncode_slice s false 0 (Z.of_nat n) = hp false (take n p).
Proof.
  intros Hk Hn. pose proof (keyIs_size s p Hk) as Hs.
  assert (endOf (ns_size s) (Z.of_nat n) = Z.of_nat n) as Ee
    by (unfold endOf; destruct (Z.ltb_spec (Z.of_nat n) 0); [lia|done]).
  rewrite hexPrefixEncode_slice_hp, Ee; rewrite ?Ee; [|apply Hk|lia|unfold sizeZ in *; lia].
  rewrite (keyIs_window s p) by (done || unfold sizeZ; lia). rewrite Z.sub_0_r, Nat2Z.id. done.
Qed.

Lemma keyIs_hp leaf p : wfPath p -> isLeaf (hp leaf p) = leaf /\ keyIs (keyOf (hp leaf p)) p.
Proof.
  intros Hp. destruct (hp_decode leaf p) as (? & ? & ?); [apply Hp|apply Hp|]. split; [done|]. by split_and!.
Qed.

(** ** Nodes *)

Section Nodes.
Context {DB : Type} `{NodeDB DB} (sha3 : bytes -> bytes) `{!NodeDBLaws DB sha3}.
Hypothesis Hsha3 : forall d, wf_bytes (sha3 d) /\ length (sha3 d) = 32%nat.

Abbreviation ref t := (refItem sha3 (nodeItem sha3 t)).

(** The items of a node that is not empty *)
Definition itemsOf (t : trie) : list item :=
  match t with
  | TEmpty => []
  | TLeaf p v => [Str (hp true p); Str v]
  | TExt p c => [Str (hp false p); ref c]
  | TBranch cs v => map (fun c => ref c) cs ++ [Str v]
  end.

Lemma nodeItem_Lst t : t <> TEmpty -> nodeItem sha3 t = Lst (itemsOf t).
Proof. by destruct t. Qed.

Lemma ref_small t : wfTrie t -> smallItem (ref t).
Proof. intros Ht. apply (smallItem_ref sha3 Hsha3). by apply (nodeItem_wf sha3 Hsha3). Qed.

Lemma node_good t : wfTrie t -> goodItem (nodeItem sha3 t).
Proof. intros Ht. by apply (nodeItem_wf sha3 Hsha3). Qed.

Lemma itemsOf_small t : wfTrie t -> Forall smallItem (itemsOf t).
Proof.
  destruct t as [|p v|p c|cs v]; intros Hw; [constructor| | |].
  - destruct Hw as [Hp Hv]. repeat constructor; try apply (smallItem_hp true p Hp); apply (smallItem_Str v Hv).
  - destruct Hw as [[Hp _] Hc]. repeat constructor; try apply (smallItem_hp false p Hp); apply (ref_small c Hc).
  - apply wfTrie_branch in Hw as (_ & Hv & Hc). apply Forall_app. split.
    + apply Forall_map. eapply Forall_impl; [|exact Hc]. apply ref_small.
    + apply Forall_singleton. by apply smallItem_Str.
Qed.

Lemma itemsOf_size t : wfTrie t -> t <> TEmpty ->
  sizeZ (itemsOf t) = match t with TBranch _ _ => 17 | _ => 2 end.
Proof.
  destruct t as [|p v|p c|cs v]; intros Hw Hne; try done. apply wfTrie_branch in Hw as (Hl & _ & _).
  cbn [itemsOf]. rewrite sizeZ_app. unfold sizeZ. rewrite length_map, Hl. done.
Qed.

Lemma enc_isEmpty t : wfTrie t -> RLP.isEmpty (enc sha3 t) = bool_decide (t = TEmpty).
Proof.
  intros Hw. pose proof (node_good t Hw) as Hg. unfold enc. destruct (decide (t = TEmpty)) as [->|Hne].
  - rewrite bool_decide_eq_true_2 by done. done.
  - rewrite bool_decide_eq_false_2 by done. rewrite nodeItem_Lst in Hg |- * by done.
    apply isEmpty_Lst; [done|]. pose proof (itemsOf_size t Hw Hne). destruct (itemsOf t); [by destruct t|done].
Qed.

Lemma enc_isList t : wfTrie t -> RLP.isList (enc sha3 t) = negb (bool_decide (t = TEmpty)).
Proof.
  intros Hw. unfold enc. rewrite isList_item by by apply node_good. destruct t; done.
Qed.

Lemma enc_isNull t : wfTrie t -> RLP.isNull (enc sha3 t) = false.
Proof. intros Hw. apply isNull_item. by apply node_good. Qed.

Lemma enc_nth t i x : wfTrie t -> itemsOf t !! Z.to_nat i = Some x -> 0 <= i < 2 ^ 32 ->
  nth_ (enc sha3 t) i = Ok (encode x).
Proof.
  intros Hw Hx Hi. pose proof (node_good t Hw) as Hg. unfold enc. destruct (decide (t = TEmpty)) as [->|Hne].
  - cbn in Hx. by rewrite lookup_nil in Hx.
  - rewrite nodeItem_Lst in Hg |- * by done. by apply nth_item.
Qed.

Lemma enc_count t : wfTrie t -> t <> TEmpty ->
  count_ (enc sha3 t) = Ok (match t with TBranch _ _ => 17 | _ => 2 end).
Proof.
  intros Hw Hne. pose proof (node_good t Hw) as Hg. unfold enc. rewrite nodeItem_Lst in Hg |- * by done.
  rewrite count_item by done. by rewrite itemsOf_size.
Qed.

Lemma enc_construct t : wfTrie t -> RLP.construct (enc sha3 t) VeryStrict = Ok (enc sha3 t).
Proof. intros Hw. apply construct_item. by apply node_good. Qed.

Lemma enc_nonempty t : enc sha3 t <> [].
Proof. apply encode_not_nil. Qed.

(** A two-item node: its path and whether it is a leaf *)
Definition pathOf (t : trie) : list Z := match t with TLeaf p _ | TExt p _ => p | _ => [] end.
Definition leafOf (t : trie) : bool := match t with TLeaf _ _ => true | _ => false end.
Definition isPair (t : trie) : Prop := match t with TLeaf _ _ | TExt _ _ => True | _ => False end.

Lemma pair_wfPath t : wfTrie t -> isPair t -> wfPath (pathOf t).
Proof. destruct t; intros Hw Hp; try done; [apply Hw|apply Hw]. Qed.

Lemma pair_item0 t : isPair t -> itemsOf t !! 0%nat = Some (Str (hp (leafOf t) (pathOf t))).
Proof. by destruct t. Qed.

Lemma pair_payload t : wfTrie t -> isPair t ->
  nth_ (enc sha3 t) 0 = Ok (encode (Str (hp (leafOf t) (pathOf t)))) /\
  RLP.payload (encode (Str (hp (leafOf t) (pathOf t)))) = Ok (hp (leafOf t) (pathOf t)).
Proof.
  intros Hw Hp. split; [apply enc_nth; [done|by apply pair_item0|lia]|].
  apply payload_Str, smallItem_good, smallItem_hp. by apply pair_wfPath.
Qed.

Lemma enc_keyOf t : wfTrie t -> isPair t ->
  exists s, keyOfNode (enc sha3 t) = Ok s /\ keyIs s (pathOf t).
Proof.
  intros Hw Hp. destruct (pair_payload t Hw Hp) as [E1 E2]. unfold keyOfNode. rewrite E1, bind_Ok_l, E2. cbn.
  eexists. split; [done|]. apply keyIs_hp. by apply pair_wfPath.
Qed.

Lemma enc_isLeaf t : wfTrie t -> isPair t -> isLeafNode (enc sha3 t) = Ok (leafOf t).
Proof.
  intros Hw Hp. assert (t <> TEmpty) by by destruct t. destruct (pair_payload t Hw Hp) as [E1 E2].
  unfold isLeafNode. rewrite enc_count, bind_Ok_l, enc_isList by done. rewrite bool_decide_eq_false_2 by done.
  assert (assert_ (negb false && (match t with TBranch _ _ => 17 | _ => 2 end =? 2)) = Ok tt) as -> by by destruct t.
  rewrite bind_Ok_l, E1, bind_Ok_l, E2. cbn [rlp_]. rewrite bind_Ok_l.
  by rewrite (proj1 (keyIs_hp _ _ (pair_wfPath _ Hw Hp))).
Qed.

Lemma enc_assertNode t : wfTrie t -> t <> TEmpty ->
  assertNode (enc sha3 t) (match t with TBranch _ _ => 17 | _ => 2 end) = Ok tt.
Proof.
  intros Hw Hne. unfold assertNode. rewrite enc_isList, bool_decide_eq_false_2 by done. by destruct t.
Qed.

(** *** Nodes in the database *)

(** A node that its parent refers to by its hash can be found. *)
Definition present (db : DB) (t : trie) : Prop :=
  32 <= sizeZ (enc sha3 t) -> nd_lookup db (sha3 (enc sha3 t)) = enc sha3 t.

Fixpoint stored (db : DB) (t : trie) : Prop :=
  match t with
  | TEmpty | TLeaf _ _ => True
  | TExt _ c => present db c /\ stored db c
  | TBranch cs _ =>
      (fix go l := match l with [] => True | x :: xs => (present db x /\ stored db x) /\ go xs end) cs
  end.

Definition linked (db : DB) (t : trie) : Prop := present db t /\ stored db t.

Lemma stored_branch db cs v : stored db (TBranch cs v) <-> Forall (linked db) cs.
Proof.
  cbn [stored]. induction cs as [|c cs IH]; [by split; [constructor|]|].
  rewrite IH. split; [by intros []; constructor|by intros [? ?]%Forall_cons_1].
Qed.

Lemma present_empty db : present db TEmpty.
Proof. intros Hs. done. Qed.

Lemma linked_child db cs v x : stored db (TBranch cs v) -> linked db (child cs x).
Proof. intros Hs%stored_branch. apply child_Forall; [|done]. split; [apply present_empty|done]. Qed.

(** Nothing that could be found has changed. *)
Definition keeps (db db' : DB) : Prop := forall h, nd_lookup db h <> [] -> nd_lookup db' h = nd_lookup db h.

#[export] Instance keeps_preorder : PreOrder keeps.
Proof.
  split; [by intros db h|]. intros a b c Hab Hbc h Hh. rewrite Hbc, Hab; [done|done|]. by rewrite Hab.
Qed.

Lemma present_keeps db db' t : keeps db db' -> present db t -> present db' t.
Proof. intros Hk Hp Hs. rewrite Hk by (rewrite Hp by done; apply enc_nonempty). by apply Hp. Qed.

Lemma stored_keeps db db' t : keeps db db' -> stored db t -> stored db' t.
Proof.
  intros Hk. induction t as [|p v|p c IH|cs v IH] using trie_nested_ind; try done.
  - intros [Hp Hs]. split; [by eapply present_keeps|by apply IH].
  - rewrite !stored_branch. intros Hs. induction Hs as [|c cs [Hp Hs] Hf IHf]; [constructor|].
    apply Forall_cons_1 in IH as [IHc IH]. constructor; [|by apply IHf].
    split; [by eapply present_keeps|by apply IHc].
Qed.

Lemma linked_keeps db db' t : keeps db db' -> linked db t -> linked db' t.
Proof. intros Hk [Hp Hs]. split; [by eapply present_keeps|by eapply stored_keeps]. Qed.

Lemma ref_isEmpty c : wfTrie c -> RLP.isEmpty (encode (ref c)) = bool_decide (c = TEmpty).
Proof.
  intros Hw. unfold refItem. fold (enc sha3 c). destruct (Z.ltb_spec (sizeZ (enc sha3 c)) 32); [by apply enc_isEmpty|].
  rewrite isEmpty_Str by (apply smallItem_good; by apply (smallItem_hash sha3 Hsha3)).
  rewrite !bool_decide_eq_false_2; [done| |].
  - intros ->. change (sizeZ (enc sha3 TEmpty)) with 1 in *. lia.
  - destruct (Hsha3 (enc sha3 c)) as [_ Hl]. by destruct (sha3 (enc sha3 c)).
Qed.

Lemma ref_isList c : wfTrie c ->
  RLP.isList (encode (ref c)) = negb (bool_decide (c = TEmpty)) && (sizeZ (enc sha3 c) <? 32).
Proof.
  intros Hw. unfold refItem. fold (enc sha3 c). destruct (Z.ltb_spec (sizeZ (enc sha3 c)) 32).
  - rewrite andb_true_r. by apply enc_isList.
  - rewrite andb_false_r. rewrite isList_item; [done|]. apply smallItem_good. by apply (smallItem_hash sha3 Hsha3).
Qed.

Lemma ref_hash c : 32 <= sizeZ (enc sha3 c) -> toHash256 (encode (ref c)) = Ok (sha3 (enc sha3 c)).
Proof.
  intros Hs. unfold refItem. fold (enc sha3 c). destruct (Z.ltb_spec (sizeZ (enc sha3 c)) 32); [lia|].
  destruct (Hsha3 (enc sha3 c)). by apply toHash_item.
Qed.

Lemma ref_inline c : sizeZ (enc sha3 c) < 32 -> encode (ref c) = enc sha3 c.
Proof. intros Hs. unfold refItem. fold (enc sha3 c). by destruct (Z.ltb_spec (sizeZ (enc sha3 c)) 32); [|lia]. Qed.

Lemma nodeRLP_ok db c : wfTrie c -> present db c -> 32 <= sizeZ (enc sha3 c) ->
  nodeRLP db (sha3 (enc sha3 c)) = Ok (enc sha3 c).
Proof. intros Hw Hp Hs. unfold nodeRLP, node. rewrite Hp, enc_construct by done. done. Qed.

Lemma follow_ref db c : wfTrie c -> c <> TEmpty -> present db c -> follow db (encode (ref c)) = Ok (enc sha3 c).
Proof.
  intros Hw Hne Hp. unfold follow. rewrite ref_isList, bool_decide_eq_false_2 by done. cbn [negb andb].
  destruct (Z.ltb_spec (sizeZ (enc sha3 c)) 32); [by rewrite ref_inline|].
  rewrite ref_hash, bind_Ok_l by done. by apply nodeRLP_ok.
Qed.

Lemma branch_child_item cs v x : wfTrie (TBranch cs v) -> is_nibble x ->
  itemsOf (TBranch cs v) !! Z.to_nat x = Some (ref (child cs x)).
Proof.
  intros (Hl & _ & _)%wfTrie_branch Hx. unfold is_nibble in Hx. cbn [itemsOf].
  rewrite lookup_app_l by (rewrite length_map; lia). change (map (fun c => ref c) cs) with ((fun c => ref c) <$> cs).
  rewrite list_lookup_fmap. destruct (nibble_lookup cs (Z.to_nat x) Hl ltac:(lia)) as [_ E].
  rewrite E. cbn. by rewrite Z2Nat.id by lia.
Qed.

Lemma branch_value_item cs v : wfTrie (TBranch cs v) -> itemsOf (TBranch cs v) !! 16%nat = Some (Str v).
Proof.
  intros (Hl & _ & _)%wfTrie_branch. cbn [itemsOf]. rewrite lookup_app_r; rewrite length_map, Hl; [done|lia].
Qed.

(** ** Looking up *)

Lemma atAux_ok fuel db t k p : sound t -> stored db t -> keyIs k p -> (length p < fuel)%nat ->
  atAux fuel db (enc sha3 t) k = Ok (get t p).
Proof.
  revert t k p. induction fuel as [|f IH]; intros t k p [Hw Hc] Hs Hk Hf; [lia|]. cbn [atAux].
  rewrite enc_isEmpty, enc_isNull, orb_false_r by done. destruct (decide (t = TEmpty)) as [->|Hne].
  { by rewrite bool_decide_eq_true_2. }
  rewrite bool_decide_eq_false_2, enc_count, bind_Ok_l, enc_assertNode, bind_Ok_l by done.
  destruct t as [|q v|q c|cs v]; [done| | |]; cbn [Z.eqb Pos.eqb].
  - destruct (enc_keyOf _ Hw I) as (s & -> & Hq). rewrite bind_Ok_l, enc_isLeaf, bind_Ok_l by done.
    cbn [leafOf pathOf negb] in *. rewrite andb_true_r, andb_false_r, (keyIs_eqb k p s q) by done.
    cbn [get]. destruct (decide (q = p)) as [->|Hqp].
    + rewrite bool_decide_eq_true_2 by done. rewrite (enc_nth _ 1 (Str v)) by done. rewrite bind_Ok_l.
      rewrite toStr_item; [done|apply Hw].
    + by rewrite bool_decide_eq_false_2 by congruence.
  - destruct (enc_keyOf _ Hw I) as (s & -> & Hq). rewrite bind_Ok_l, enc_isLeaf, bind_Ok_l by done.
    cbn [leafOf pathOf negb] in *. rewrite andb_true_r, andb_false_r, (keyIs_contains k p s q) by done. cbn [get].
    destruct (stripPrefix q p) as [r|] eqn:E; [|done]. destruct Hw as [[Hwq Hqn] Hwc]. destruct Hc as (_ & Hb & Hc).
    destruct Hs as [Hp Hs]. rewrite (enc_nth _ 1 (ref c)), bind_Ok_l by (done || by split).
    rewrite follow_ref, bind_Ok_l by (done || by destruct c). apply IH; [done|done|by eapply keyIs_mid|].
    apply stripPrefix_Some in E as ->. rewrite length_app in Hf. destruct q; [done|]. cbn in Hf. lia.
  - rewrite (keyIs_size k p Hk). destruct p as [|x p].
    + cbn [sizeZ length Z.of_nat Z.eqb get]. rewrite (enc_nth _ 16 (Str v)), bind_Ok_l by (done || by apply branch_value_item).
      rewrite toStr_item; [done|]. apply wfTrie_branch in Hw as (_ & ? & _). done.
    + rewrite sizeZ_cons. pose proof (sizeZ_nonneg p). destruct (Z.eqb_spec (1 + sizeZ p) 0); [lia|].
      rewrite (keyIs_head k x p), get_branch by done. pose proof Hk as (_ & _ & [[Hx _]%Forall_cons_1 _]).
      unfold is_nibble in Hx. rewrite (enc_nth _ x (ref (child cs x))), bind_Ok_l by (done || lia || by apply branch_child_item).
      pose proof (wf_child cs v x Hw) as Hwx. rewrite ref_isEmpty by done.
      destruct (linked_child db cs v x Hs) as [Hpx Hsx]. destruct (decide (child cs x = TEmpty)) as [E|Hne'].
      * rewrite bool_decide_eq_true_2 by done. by rewrite E.
      * rewrite bool_decide_eq_false_2, follow_ref, bind_Ok_l by done.
        apply IH; [by apply (sound_child cs v x)|done|by eapply keyIs_tail|]. cbn in Hf. lia.
Qed.

(** ** What an operation did to the database

    It wrote the strings [ws], the last one first, and left what was there. *)

Record wrote (ws : list bytes) (db db' : DB) : Prop := mkWrote {
  wrote_inv : nd_inv db';
  wrote_seen : nd_seen db' = ws ++ nd_seen db;
  wrote_keeps : keeps db db'
}.

Lemma wrote_refl db : nd_inv db -> wrote [] db db.
Proof. intros Hi. by split. Qed.

Lemma wrote_trans ws1 ws2 db db1 db2 : wrote ws1 db db1 -> wrote ws2 db1 db2 -> wrote (ws2 ++ ws1) db db2.
Proof.
  intros [_ S1 K1] [I2 S2 K2]. split; [done|by rewrite S2, S1, app_assoc|by transitivity db1].
Qed.

Lemma wrote_kill db d h : nd_inv db -> wrote [] db (killNode db d h).
Proof.
  intros Hi. unfold killNode, forceKillNode. destruct (32 <=? sizeZ d); [|by apply wrote_refl].
  split; [by apply nd_kill_inv|apply nd_kill_seen|]. intros h' _. by apply nd_kill_lookup.
Qed.

Lemma wrote_forceKill db h : nd_inv db -> wrote [] db (forceKillNode db h).
Proof.
  intros Hi. split; [by apply nd_kill_inv|apply nd_kill_seen|]. intros h' _. by apply nd_kill_lookup.
Qed.

(** *** Writing a child *)

Definition wr (t : trie) : list bytes := if 32 <=? sizeZ (enc sha3 t) then [enc sha3 t] else [].

Abbreviation clearFor ws db := (seenClear sha3 (ws ++ nd_seen db)).

Lemma clear_part ws ws' db : clearFor (ws ++ ws') db -> clearFor ws' db.
Proof. apply seenClear_sub. intros x Hx. rewrite <-app_assoc. apply elem_of_app. by right. Qed.

Lemma clear_after ws ws' db db' : wrote ws' db db' -> clearFor (ws ++ ws') db -> clearFor ws db'.
Proof. intros [_ S _] Hc. by rewrite S, app_assoc. Qed.

Lemma streamNode_ok db n l c : wfTrie c -> nd_inv db -> clearFor (wr c) db ->
  sizeZ l < n <= 17 -> Forall smallItem l ->
  exists db', streamNode sha3 db (listStream n l) (enc sha3 c) = Ok (listStream n (l ++ [ref c]), db') /\
    wrote (wr c) db db' /\ present db' c.
Proof.
  intros Hw Hi Hc Hn Hl. pose proof (ref_small c Hw) as Hsm. unfold streamNode, wr in *.
  destruct (Z.ltb_spec (sizeZ (enc sha3 c)) 32), (Z.leb_spec 32 (sizeZ (enc sha3 c))); try lia.
  - exists db. rewrite <-(ref_inline c), putItem_small, bind_Ok_l by (done || lia).
    split_and!; [done|by apply wrote_refl|]. intros ?. lia.
  - exists (nd_insert db (sha3 (enc sha3 c)) (enc sha3 c)). cbn [forceInsertNode].
    unfold RLPStream.appendHash. cbn [andb]. unfold refItem in *. fold (enc sha3 c) in *.
    destruct (Z.ltb_spec (sizeZ (enc sha3 c)) 32); [lia|].
    destruct (Hsha3 (enc sha3 c)) as [_ Hlen].
    assert (rlp_ (RLPStream.append (listStream n l) (sha3 (enc sha3 c)) false)
            = Ok (listStream n (l ++ [Str (sha3 (enc sha3 c))]))) as ->.
    { apply (putStr_small n l); [done|done|done|]. unfold sizeZ. lia. }
    rewrite bind_Ok_l. split_and!; [done| |].
    + split; [by apply nd_insert_inv|apply nd_insert_seen|]. intros h Hh. by apply nd_insert_old.
    + intros _. apply nd_insert_same; [done|apply enc_nonempty].
Qed.

(** ** Cleaving and branching *)

Definition dropPath (n : nat) (t : trie) : trie :=
  match t with
  | TLeaf p v => TLeaf (drop n p) v
  | TExt p c => TExt (drop n p) c
  | t => t
  end.

Definition item1 (t : trie) : item :=
  match t with TLeaf _ v => Str v | TExt _ c => ref c | _ => Str [] end.

Lemma pair_items t : isPair t -> itemsOf t = [Str (hp (leafOf t) (pathOf t)); item1 t].
Proof. by destruct t. Qed.

Lemma dropPath_facts n t : isPair t ->
  isPair (dropPath n t) /\ leafOf (dropPath n t) = leafOf t /\ pathOf (dropPath n t) = drop n (pathOf t) /\
  item1 (dropPath n t) = item1 t.
Proof. by destruct t. Qed.

Lemma item1_small t : wfTrie t -> isPair t -> smallItem (item1 t).
Proof.
  intros Hw Hp. pose proof (itemsOf_small t Hw) as Hs. rewrite pair_items in Hs by done.
  by apply Forall_cons_1 in Hs as [_ [? _]%Forall_cons_1].
Qed.

Lemma enc_item1 t : wfTrie t -> isPair t -> nth_ (enc sha3 t) 1 = Ok (encode (item1 t)).
Proof. intros Hw Hp. apply enc_nth; [done|by rewrite pair_items|lia]. Qed.

(** A split that leaves a path where one is needed *)
Definition splits (n : nat) (t : trie) : Prop := (n <= length (pathOf t))%nat /\ (leafOf t = false -> (n < length (pathOf t))%nat).

Lemma dropPath_wf n t : wfTrie t -> isPair t -> splits n t -> wfTrie (dropPath n t).
Proof.
  intros Hw Hp [Hn Hx]. pose proof (pair_wfPath t Hw Hp) as Hpath.
  assert (wfPath (drop n (pathOf t))) as Hd by (apply (wfPath_app (take n (pathOf t))); by rewrite take_drop).
  destruct t as [|p v|p c|cs v]; try done; cbn in *.
  - split; [done|apply Hw].
  - split; [split; [done|]|apply Hw]. specialize (Hx eq_refl). intros E. apply (f_equal length) in E.
    rewrite length_drop in E. cbn in E. lia.
Qed.

Lemma stored_pair db t n : isPair t -> stored db (dropPath n t) <-> stored db t.
Proof. by destruct t. Qed.

(** The stream of a pair *)
Lemma pair_stream {A} t (K : bytes -> res A) : wfTrie t -> isPair t ->
  (s0 ← stream2; s1 ← putStr s0 (hp (leafOf t) (pathOf t)); s2 ← putItem s1 (encode (item1 t)); o ← finish s2; K o)
  = K (enc sha3 t).
Proof.
  intros Hw Hp. pose proof (pair_wfPath t Hw Hp) as Hpath. pose proof (smallItem_hp (leafOf t) _ Hpath) as Hh.
  pose proof (hp_size (leafOf t) (pathOf t)). destruct Hpath as [_ Hps].
  rewrite stream2_ok, bind_Ok_l, putStr_small, bind_Ok_l by (done || lia). cbn [app].
  rewrite putItem_small, bind_Ok_l; [|done|by apply Forall_singleton|by apply item1_small].
  cbn [app]. rewrite finish_ok, bind_Ok_l by done. unfold enc. rewrite nodeItem_Lst by by destruct t. by rewrite pair_items.
Qed.

Definition cleveT (n : nat) (t : trie) : trie := TExt (take n (pathOf t)) (dropPath n t).

Lemma cleveT_wf n t : wfTrie t -> isPair t -> splits n t -> (0 < n)%nat -> wfTrie (cleveT n t).
Proof.
  intros Hw Hp Hs Hn. pose proof (pair_wfPath t Hw Hp) as Hpath. split; [|by apply dropPath_wf]. split.
  - apply (wfPath_app _ (drop n (pathOf t))). by rewrite take_drop.
  - destruct Hs as [Hl _]. intros E. apply (f_equal length) in E. rewrite length_take in E. cbn in E. lia.
Qed.

Lemma cleve_ok db t n : wfTrie t -> isPair t -> splits n t -> (0 < n)%nat -> nd_inv db ->
  clearFor (wr (dropPath n t)) db -> stored db t ->
  exists db', cleve sha3 db (enc sha3 t) (Z.of_nat n) = Ok (enc sha3 (cleveT n t), db') /\
    wrote (wr (dropPath n t)) db db' /\ stored db' (cleveT n t).
Proof.
  intros Hw Hp Hs Hn Hi Hc Hst. assert (t <> TEmpty) as Hne by by destruct t.
  pose proof (wrote_kill db (enc sha3 t) (sha3 (enc sha3 t)) Hi) as Hk.
  destruct (enc_keyOf t Hw Hp) as (s & Ek & Hks). pose proof (keyIs_size s _ Hks) as Hsz.
  pose proof (dropPath_wf n t Hw Hp Hs) as Hwd. destruct (dropPath_facts n t Hp) as (Hpd & Hld & Hpa & Hit).
  unfold cleve. rewrite enc_count, bind_Ok_l, enc_isList, bool_decide_eq_false_2 by done.
  assert (assert_ (negb false && (match t with TBranch _ _ => 17 | _ => 2 end =? 2)) = Ok tt) as -> by by destruct t.
  rewrite bind_Ok_l, Ek, bind_Ok_l.
  assert (assert_ (negb (Z.of_nat n =? 0) && (Z.of_nat n <=? ns_size s)) = Ok tt) as ->.
  { rewrite Hsz. destruct Hs as [Hl _]. unfold sizeZ. destruct (Z.eqb_spec (Z.of_nat n) 0); [lia|].
    by destruct (Z.leb_spec (Z.of_nat n) (Z.of_nat (length (pathOf t)))); [|lia]. }
  rewrite bind_Ok_l, enc_isLeaf, bind_Ok_l, enc_item1, bind_Ok_l by done.
  rewrite (encode_from s (pathOf t)), (encode_upto s (pathOf t)) by (done || apply Hs).
  pose proof (fun A K => @pair_stream A _ K Hwd Hpd) as Eb. rewrite Hld, Hpa, Hit in Eb. rewrite Eb.
  pose proof (cleveT_wf n t Hw Hp Hs Hn) as [[Hwt _] _].
  pose proof (smallItem_hp false _ Hwt) as Hh. pose proof (hp_size false (take n (pathOf t))). destruct Hwt as [_ Hts].
  rewrite stream2_ok, bind_Ok_l, putStr_small, bind_Ok_l by (done || lia). cbn [app].
  destruct (streamNode_ok (killNode db (enc sha3 t) (sha3 (enc sha3 t))) 2 [Str (hp false (take n (pathOf t)))] (dropPath n t))
    as (db' & E & Hwr & Hpr); [done|apply Hk|by eapply clear_after; [exact Hk|rewrite app_nil_r]|done|by apply Forall_singleton|].
  rewrite E, bind_Ok_l, finish_ok, bind_Ok_l by done. exists db'. split; [done|].
  pose proof (wrote_trans _ _ _ _ _ Hk Hwr) as Hall. rewrite app_nil_r in Hall. split; [done|].
  split; [done|]. apply stored_pair; [done|]. eapply stored_keeps; [apply Hall|done].
Qed.

(** *** Loops over the items of a node *)

Lemma items_range (l : list item) b n : (b + n <= length l)%nat ->
  map (fun i => nth (Z.to_nat i) l (Str [])) (seqZ (Z.of_nat b) (Z.of_nat n)) = take n (drop b l).
Proof.
  intros Hn. change (map (fun i => nth (Z.to_nat i) l (Str []))) with (fmap (M := list) (fun i => nth (Z.to_nat i) l (Str []))).
  apply list_eq. intros j. rewrite list_lookup_fmap. destruct (decide (j < n)%nat).
  - rewrite lookup_seqZ_lt, lookup_take_lt, lookup_drop by lia. cbn.
    destruct (lookup_lt_is_Some_2 l (b + j)) as [x Hx]; [lia|]. rewrite Hx. f_equal.
    replace (Z.to_nat (Z.of_nat b + Z.of_nat j)) with (b + j)%nat by lia. by apply nth_lookup_Some.
  - rewrite lookup_seqZ_ge, lookup_take_ge by lia. done.
Qed.

Lemma seqZ_split x m : (x < m)%nat -> seqZ 0 (Z.of_nat m) =
  seqZ 0 (Z.of_nat x) ++ Z.of_nat x :: seqZ (Z.of_nat (S x)) (Z.of_nat (m - S x)).
Proof.
  intros Hx. replace (Z.of_nat m) with (Z.of_nat x + Z.of_nat (m - x)) by lia. rewrite seqZ_app by lia.
  f_equal. rewrite seqZ_cons by lia. rewrite Z.add_0_l. f_equal. f_equal; lia.
Qed.

Lemma seqZ_avoids a n x : x < a \/ a + Z.of_nat n <= x -> Forall (fun i => i <> x) (seqZ a (Z.of_nat n)).
Proof. intros Hx. apply List.Forall_forall. intros i Hi%list_elem_of_In%elem_of_seqZ. lia. Qed.

Lemma seqZ_range a n m : 0 <= a -> a + Z.of_nat n <= m -> Forall (fun i => 0 <= i < m) (seqZ a (Z.of_nat n)).
Proof. intros Ha Hx. apply List.Forall_forall. intros i Hi%list_elem_of_In%elem_of_seqZ. lia. Qed.

Definition empties : list trie := replicate 16 TEmpty.

Lemma ref_empty : ref TEmpty = Str [].
Proof. done. Qed.

Lemma smallItem_nil : smallItem (Str []).
Proof. split; [by apply Forall_nil_2|done]. Qed.

Lemma putEmpties_ok n m done_ : sizeZ done_ + Z.of_nat m <= n <= 17 -> Forall smallItem done_ ->
  putEmpties m (listStream n done_) = Ok (listStream n (done_ ++ replicate m (Str []))).
Proof.
  revert done_. induction m as [|m IH]; intros done_ Hn Hd; cbn [putEmpties replicate]; [by rewrite app_nil_r|].
  rewrite putStr_small, bind_Ok_l; [|lia|done|apply smallItem_nil|done].
  rewrite IH; [by rewrite <-app_assoc|rewrite sizeZ_app; change (sizeZ [Str []]) with 1; lia|].
  apply Forall_app. split; [done|]. apply Forall_singleton, smallItem_nil.
Qed.

Lemma branch_loop_other db orig k leaf b is_ n done_ :
  Forall (fun i => i <> b) is_ -> sizeZ done_ + sizeZ is_ <= n <= 17 -> Forall smallItem done_ ->
  branch_loop sha3 db orig k leaf b is_ (listStream n done_)
  = Ok (listStream n (done_ ++ replicate (length is_) (Str [])), db).
Proof.
  intros Hb. revert done_. induction Hb as [|i is_ Hi Hb IH]; intros done_ Hn Hd; cbn [branch_loop length replicate];
    [by rewrite app_nil_r|].
  rewrite sizeZ_cons in Hn. pose proof (sizeZ_nonneg is_). destruct (Z.eqb_spec i b); [done|].
  rewrite putStr_small, !bind_Ok_l; [|lia|done|apply smallItem_nil|done].
  rewrite IH; [by rewrite <-app_assoc|rewrite sizeZ_app; change (sizeZ [Str []]) with 1; lia|].
  apply Forall_app. split; [done|]. apply Forall_singleton, smallItem_nil.
Qed.

Lemma branch_loop_app db orig k leaf b is1 is2 r :
  branch_loop sha3 db orig k leaf b (is1 ++ is2) r
  = ('(r1, db1) ← branch_loop sha3 db orig k leaf b is1 r; branch_loop sha3 db1 orig k leaf b is2 r1).
Proof.
  revert db r. induction is1 as [|i is1 IH]; intros db r; cbn [app branch_loop]; [done|].
  destruct (if i =? b then _ else _) as [[r1 db1]|e]; cbn; [apply IH|done].
Qed.

Definition below1 (t : trie) : trie := match t with TExt [_] c => c | _ => dropPath 1 t end.
Definition valueOf (t : trie) : bytes := match t with TLeaf _ v | TBranch _ v => v | _ => [] end.

Definition branchT (t : trie) : trie :=
  match pathOf t with
  | [] => TBranch empties (valueOf t)
  | x :: _ => TBranch (<[Z.to_nat x := below1 t]> empties) []
  end.

(** Whether the child of the new branch is a new node *)
Definition branchW (t : trie) : list bytes :=
  match t with TLeaf (_ :: _) _ | TExt (_ :: _ :: _) _ => wr (dropPath 1 t) | _ => [] end.

Lemma empties_insert x c : (x < 16)%nat ->
  map (fun c => ref c) (<[x := c]> empties) = replicate x (Str []) ++ ref c :: replicate (15 - x) (Str []).
Proof.
  intros Hx. unfold empties. rewrite insert_replicate_lt by done.
  change (map (fun c => ref c)) with (fmap (M := list) (fun c => ref c)).
  rewrite fmap_app, fmap_cons, !fmap_replicate, ref_empty. done.
Qed.

Lemma below1_facts t : wfTrie t -> isPair t -> pathOf t <> [] -> wfTrie (below1 t).
Proof.
  intros Hw Hp Hne. destruct t as [|p v|p c|cs v]; try done.
  - apply (dropPath_wf 1 (TLeaf p v)); [done|done|]. destruct p; [done|]. split; [cbn; lia|done].
  - destruct p as [|x [|y p]]; [done|apply Hw|]. apply (dropPath_wf 1 (TExt (x :: y :: p) c)); [done|done|].
    split; cbn; lia.
Qed.

Lemma branchT_wf t : wfTrie t -> isPair t -> wfTrie (branchT t).
Proof.
  intros Hw Hp. assert (wfValue []) as Hnil by (split; [by apply Forall_nil_2|done]).
  assert (Forall wfTrie empties) as He by by apply Forall_replicate.
  unfold branchT. destruct (pathOf t) as [|x p] eqn:E; apply wfTrie_branch.
  - split_and!; [done| |done]. destruct t; try done. apply Hw.
  - split_and!; [by rewrite length_insert|done|]. apply Forall_insert; [done|].
    apply below1_facts; [done|done|]. by rewrite E.
Qed.

(** What the loop of [branch] does at the nibble of the path *)
Lemma branch_step db t s x p done_ : wfTrie t -> isPair t -> keyIs s (pathOf t) -> pathOf t = x :: p ->
  nd_inv db -> clearFor (branchW t) db -> stored db t -> sizeZ done_ < 17 -> Forall smallItem done_ ->
  exists db', (x1 ← nth_ (enc sha3 t) 1;
     if leafOf t || (1 <? ns_size s) then
       s0 ← stream2; s1 ← putStr s0 (hexPrefixEncode_slice (ns_mid s 1) (leafOf t) 0 (-1));
       s2 ← putItem s1 x1; n ← finish s2; streamNode sha3 db (listStream 17 done_) n
     else r1 ← putItem (listStream 17 done_) x1; Ok (r1, db))
    = Ok (listStream 17 (done_ ++ [ref (below1 t)]), db') /\
    wrote (branchW t) db db' /\ linked db' (below1 t).
Proof.
  intros Hw Hp Hs Hx Hi Hc Hst Hn Hd. rewrite enc_item1, bind_Ok_l by done.
  rewrite (keyIs_size s (pathOf t)), Hx, sizeZ_cons by done. rewrite Hx in Hs. pose proof (keyIs_tail s x p Hs) as Hs1.
  assert (wfTrie (below1 t)) as Hwb by (apply below1_facts; [done|done|by rewrite Hx]).
  destruct (dropPath_facts 1 t Hp) as (Hpd & Hld & Hpa & Hit). rewrite Hx in Hpa. cbn [drop] in Hpa.
  destruct (leafOf t || (1 <? 1 + sizeZ p)) eqn:El.
  - assert (below1 t = dropPath 1 t /\ branchW t = wr (dropPath 1 t)) as [Eb Ew].
    { destruct t as [|p' v|p' c|]; try done; cbn in Hx; subst p'; [done|].
      cbn [leafOf orb] in El. destruct p; [done|done]. }
    rewrite Eb in *. rewrite Ew in *. rewrite (encode_all _ p) by done.
    pose proof (fun A K => @pair_stream A _ K Hwb Hpd) as Es. rewrite Hld, Hpa, Hit in Es. rewrite Es.
    destruct (streamNode_ok db 17 done_ (dropPath 1 t)) as (db' & E & Hwr & Hpr); [done|done|done|lia|done|].
    exists db'. split_and!; [done|done|split; [done|]]. apply stored_pair; [done|]. by eapply stored_keeps; [apply Hwr|].
  - apply orb_false_iff in El as [Elf Elt]. apply Z.ltb_ge in Elt. pose proof (sizeZ_nonneg p).
    assert (p = []) as -> by (apply sizeZ_0; lia).
    destruct t as [|p' v|p' c|]; try done. cbn in Hx. subst p'. cbn [below1 branchW item1] in *.
    exists db. rewrite putItem_small, bind_Ok_l; [|lia|done|by apply ref_small].
    split_and!; [done|by apply wrote_refl|]. apply Hst.
Qed.

Lemma enc_Lst t l : t <> TEmpty -> itemsOf t = l -> encode (Lst l) = enc sha3 t.
Proof. intros Hne <-. unfold enc. by rewrite nodeItem_Lst. Qed.

Lemma replicate_small m : Forall smallItem (replicate m (Str [])).
Proof. apply Forall_replicate, smallItem_nil. Qed.

Lemma branch_ok db t : wfTrie t -> isPair t -> nd_inv db -> clearFor (branchW t) db -> stored db t ->
  exists db', branch sha3 db (enc sha3 t) = Ok (enc sha3 (branchT t), db') /\
    wrote (branchW t) db db' /\ stored db' (branchT t).
Proof.
  intros Hw Hp Hi Hc Hst. assert (t <> TEmpty) as Hne by by destruct t.
  pose proof (wrote_kill db (enc sha3 t) (sha3 (enc sha3 t)) Hi) as Hk.
  destruct (enc_keyOf t Hw Hp) as (s & Ek & Hs). pose proof (keyIs_size s _ Hs) as Hsz.
  unfold branch. rewrite enc_count, bind_Ok_l, enc_isList, bool_decide_eq_false_2 by done.
  assert (assert_ (negb false && (match t with TBranch _ _ => 17 | _ => 2 end =? 2)) = Ok tt) as -> by by destruct t.
  rewrite bind_Ok_l, Ek, bind_Ok_l, stream17_ok, bind_Ok_l, Hsz. set (db1 := killNode _ _ _) in *.
  destruct (pathOf t) as [|x p] eqn:Ex.
  - destruct t as [|p' v|p' c|]; try done; cbn in Ex; subst p'; [|by destruct Hw as [[_ ?] _]].
    change (sizeZ (@nil Z) =? 0) with true. cbn match. rewrite enc_isLeaf, bind_Ok_l by done. cbn [leafOf assert_ guard_or].
    rewrite bind_Ok_l, putEmpties_ok, bind_Ok_l by (done || by constructor).
    rewrite enc_item1, bind_Ok_l by done. cbn [item1 app].
    rewrite putItem_small, bind_Ok_l; [|done|apply replicate_small|apply (item1_small (TLeaf [] v)); done].
    rewrite finish_ok, bind_Ok_l by done. exists db1. split_and!; [|done|].
    + by rewrite (enc_Lst (branchT (TLeaf [] v))).
    + apply stored_branch, Forall_replicate. split; [apply present_empty|done].
  - rewrite sizeZ_cons. pose proof (sizeZ_nonneg p). destruct (Z.eqb_spec (1 + sizeZ p) 0); [lia|].
    rewrite enc_isLeaf, bind_Ok_l by done. pose proof (pair_wfPath t Hw Hp) as Hpath. rewrite Ex in Hpath.
    destruct Hpath as [[Hx _]%Forall_cons_1 _]. unfold is_nibble in Hx.
    rewrite (keyIs_head s x p) by done. rewrite <-Ex in Hs.
    change (seqZ 0 16) with (seqZ 0 (Z.of_nat 16)). rewrite (seqZ_split (Z.to_nat x) 16), branch_loop_app by lia.
    rewrite branch_loop_other, bind_Ok_l; [|apply seqZ_avoids; lia|unfold sizeZ; rewrite length_seqZ; cbn; lia|constructor].
    rewrite length_seqZ, Nat2Z.id. cbn [app branch_loop]. rewrite Z2Nat.id, Z.eqb_refl by lia.
    destruct (branch_step db1 t s x p (replicate (Z.to_nat x) (Str []))) as (db' & -> & Hwr & Hl); try done.
    { apply Hk. }
    { eapply clear_after; [exact Hk|]. by rewrite app_nil_r. }
    { eapply stored_keeps; [apply Hk|done]. }
    { unfold sizeZ. rewrite length_replicate. lia. }
    { apply replicate_small. }
    rewrite bind_Ok_l. rewrite branch_loop_other, bind_Ok_l.
    2: { apply seqZ_avoids. lia. }
    2: { unfold sizeZ. rewrite length_app, length_replicate, length_seqZ. cbn [length]. lia. }
    2: { apply Forall_app. split; [apply replicate_small|]. apply Forall_singleton, ref_small, below1_facts; [done|done|by rewrite Ex]. }
    rewrite length_seqZ, Nat2Z.id.
    replace (replicate (Z.to_nat x) (Str []) ++ [ref (below1 t)]) with ([] ++ replicate (Z.to_nat x) (Str []) ++ [ref (below1 t)]) by done.
    rewrite app_nil_l, <-app_assoc. cbn [app]. rewrite <-empties_insert by lia.
    pose proof (branchT_wf t Hw Hp) as Hwb. pose proof (itemsOf_small _ Hwb) as Hsm. unfold branchT in Hsm. rewrite Ex in Hsm.
    cbn [itemsOf] in Hsm. apply Forall_app in Hsm as [Hsm _].
    rewrite putStr_small, bind_Ok_l; [|unfold sizeZ; rewrite length_map, length_insert; done|done|apply smallItem_nil|done].
    rewrite finish_ok, bind_Ok_l by (unfold sizeZ; rewrite length_app, length_map, length_insert; done).
    exists db'. pose proof (wrote_trans _ _ _ _ _ Hk Hwr) as Hall. rewrite app_nil_r in Hall. split_and!; [|done|].
    + unfold branchT. rewrite Ex. by rewrite (enc_Lst (TBranch (<[Z.to_nat x := below1 t]> empties) [])).
    + unfold branchT. rewrite Ex. apply stored_branch, Forall_insert; [|done].
      apply Forall_replicate. split; [apply present_empty|done].
Qed.

Definition placeT (t : trie) (p : list Z) (v : bytes) : trie :=
  match t with
  | TLeaf q _ => TLeaf q v
  | TBranch cs _ => TBranch cs v
  | _ => TLeaf p v
  end.

Lemma place_ok db t k p v : wfTrie t -> (forall q c, t <> TExt q c) -> keyIs k p -> wfValue v -> nd_inv db ->
  exists db', place sha3 db (enc sha3 t) k v = Ok (enc sha3 (placeT t p v), db') /\ wrote [] db db'.
Proof.
  intros Hw Hx Hk Hv Hi. exists (killNode db (enc sha3 t) (sha3 (enc sha3 t))).
  split; [|by apply wrote_kill]. unfold place. rewrite enc_isEmpty by done.
  destruct t as [|q w|q c|cs w]; [| |by edestruct Hx|].
  - rewrite bool_decide_eq_true_2 by done. rewrite (encode_all k p) by done. destruct Hk as (_ & _ & Hp).
    pose proof (fun A K => @pair_stream A (TLeaf p v) K) as Es. cbn [leafOf pathOf item1] in Es.
    rewrite stream2_ok, bind_Ok_l. pose proof (smallItem_hp true p Hp) as Hh. pose proof (hp_size true p).
    pose proof (smallItem_Str v Hv) as Hsv. destruct Hp as [_ Hps]. destruct Hv as [_ Hvs].
    rewrite putStr_small, bind_Ok_l by (done || lia). cbn [app].
    rewrite putStr_small, bind_Ok_l; [|done|by apply Forall_singleton|done|lia].
    cbn [app]. by rewrite finish_ok.
  - rewrite bool_decide_eq_false_2, enc_count, bind_Ok_l, enc_assertNode, bind_Ok_l by done. cbn [Z.eqb Pos.eqb].
    rewrite (enc_nth _ 0 (Str (hp true q))), bind_Ok_l by (done || lia). destruct Hw as [Hq _].
    pose proof (smallItem_hp true q Hq) as Hh. pose proof (smallItem_Str v Hv) as Hsv. destruct Hv as [_ Hvs].
    rewrite stream2_ok, bind_Ok_l, putItem_small, bind_Ok_l by done. cbn [app].
    rewrite putStr_small, bind_Ok_l; [|done|by apply Forall_singleton|done|lia].
    cbn [app]. by rewrite finish_ok.
  - rewrite bool_decide_eq_false_2, enc_count, bind_Ok_l, enc_assertNode, bind_Ok_l by done. cbn [Z.eqb Pos.eqb].
    pose proof (itemsOf_small _ Hw) as Hsm. pose proof (node_good _ Hw) as Hg.
    assert (sizeZ (itemsOf (TBranch cs w)) = 17) as Hsz by by apply itemsOf_size.
    rewrite stream17_ok, bind_Ok_l. change (seqZ 0 16) with (seqZ 0 (Z.of_nat 16)).
    rewrite (putItems_ok 17 _ (itemsOf (TBranch cs w))); [|done|done|done|rewrite Hsz; by apply seqZ_range|lia|done|constructor].
    rewrite bind_Ok_l. cbn [app]. change (seqZ 0 (Z.of_nat 16)) with (seqZ (Z.of_nat 0) (Z.of_nat 16)).
    unfold sizeZ in Hsz. rewrite items_range by lia.
    apply wfTrie_branch in Hw as (Hl & Hw & Hc). pose proof (smallItem_Str v Hv) as Hsv. destruct Hv as [_ Hvs].
    assert (take 16 (drop 0 (itemsOf (TBranch cs w))) = map (fun c => ref c) cs) as ->.
    { rewrite drop_0. cbn [itemsOf]. rewrite take_app_le by (rewrite length_map; lia). apply take_ge. rewrite length_map. lia. }
    apply Forall_app in Hsm as [Hsm _].
    rewrite putStr_small, bind_Ok_l; [|unfold sizeZ; rewrite length_map, Hl; done|done|done|lia].
    rewrite finish_ok, bind_Ok_l by (unfold sizeZ; rewrite length_app, length_map, Hl; done). done.
Qed.

(** ** Inserting

    The steps of [mergeAt] on tries, with the nodes they write. *)
Fixpoint mergeT (fuel : nat) (t : trie) (k : list Z) (v : bytes) : option (trie * list bytes) :=
  match fuel with
  | O => None
  | S f =>
      match t with
      | TEmpty => Some (TLeaf k v, [])
      | TBranch cs w =>
          match k with
          | [] => Some (TBranch cs v, [])
          | x :: k' =>
              '(c, ws) ← mergeT f (child cs x) k' v; Some (TBranch (<[Z.to_nat x := c]> cs) w, wr c ++ ws)
          end
      | _ =>
          if leafOf t && bool_decide (pathOf t = k) then Some (placeT t k v, [])
          else
            match t, stripPrefix (pathOf t) k with
            | TExt p c, Some k' => '(c', ws) ← mergeT f c k' v; Some (TExt p c', wr c' ++ ws)
            | _, _ =>
                let n := cp k (pathOf t) in
                if (0 <? n)%nat then '(t', ws) ← mergeT f (cleveT n t) k v; Some (t', ws ++ wr (dropPath n t))
                else '(t', ws) ← mergeT f (branchT t) k v; Some (t', ws ++ branchW t)
            end
      end
  end.

Definition mergeSim (f : nat) : Prop := forall db t h k p v il t' ws,
  wfTrie t -> stored db t -> nd_inv db -> keyIs k p -> wfValue v ->
  mergeT f t p v = Some (t', ws) -> clearFor ws db ->
  exists db', mergeAt sha3 f db (enc sha3 t) h k v il = Ok (enc sha3 t', db') /\
    wrote ws db db' /\ stored db' t' /\ wfTrie t'.

Abbreviation mergeAt' f := (fun db d k v il => mergeAt sha3 f db d (sha3 d) k v il).

Lemma mergeAtAux_sim f db n l c k p v c' ws : mergeSim f ->
  wfTrie c -> linked db c -> nd_inv db -> keyIs k p -> wfValue v ->
  mergeT f c p v = Some (c', ws) -> clearFor (wr c' ++ ws) db ->
  sizeZ l < n <= 17 -> Forall smallItem l ->
  exists db', mergeAtAux sha3 (mergeAt' f) db (listStream n l) (encode (ref c)) k v
      = Ok (listStream n (l ++ [ref c']), db') /\
    wrote (wr c' ++ ws) db db' /\ linked db' c' /\ wfTrie c'.
Proof.
  intros IH Hw [Hp Hst] Hi Hk Hv Hm Hc Hn Hl. unfold mergeAtAux.
  assert ((if negb (RLP.isList (encode (ref c))) && negb (RLP.isEmpty (encode (ref c))) then
             h ← toHash256 (encode (ref c)); r ← nodeRLP db h; _ ← assert_ (negb (RLP.isNull r)); Ok (r, true)
           else Ok (encode (ref c), false))
          = Ok (enc sha3 c, negb (bool_decide (c = TEmpty)) && negb (sizeZ (enc sha3 c) <? 32))) as ->.
  { rewrite ref_isList, ref_isEmpty by done. destruct (decide (c = TEmpty)) as [->|Hne].
    - rewrite bool_decide_eq_true_2 by done. done.
    - rewrite bool_decide_eq_false_2 by done. cbn [negb andb].
      destruct (Z.ltb_spec (sizeZ (enc sha3 c)) 32); cbn [negb andb]; [by rewrite ref_inline|].
      rewrite ref_hash, bind_Ok_l, nodeRLP_ok, bind_Ok_l, enc_isNull by done. done. }
  rewrite bind_Ok_l. edestruct (IH db c) as (db1 & -> & Hwr & Hst1 & Hw1); try done; [by eapply clear_part|].
  rewrite bind_Ok_l. destruct (streamNode_ok db1 n l c') as (db2 & -> & Hwr2 & Hpr); try done.
  { apply Hwr. }
  { by eapply clear_after. }
  exists db2. split_and!; [done|by eapply wrote_trans|split; [done|]|done].
  eapply stored_keeps; [apply Hwr2|done].
Qed.

Lemma mergeAt_children_app m db orig k v is1 is2 r :
  mergeAt_children sha3 m db orig k v (is1 ++ is2) r
  = ('(r1, db1) ← mergeAt_children sha3 m db orig k v is1 r; mergeAt_children sha3 m db1 orig k v is2 r1).
Proof.
  revert db r. induction is1 as [|i is1 IH]; intros db r; cbn [app mergeAt_children]; [done|].
  destruct (nth_ orig i) as [x|e]; cbn; [|done].
  destruct (if i =? ns_at k 0 then _ else _) as [[r1 db1]|e]; cbn; [apply IH|done].
Qed.

Lemma mergeAt_children_other m db orig k v is_ r : Forall (fun i => i <> ns_at k 0) is_ ->
  mergeAt_children sha3 m db orig k v is_ r = (r1 ← putItems orig is_ r; Ok (r1, db)).
Proof.
  intros Hi. revert r. induction Hi as [|i is_ Hi His IH]; intros r; cbn [mergeAt_children putItems]; [done|].
  destruct (nth_ orig i) as [x|e]; cbn; [|done]. destruct (Z.eqb_spec i (ns_at k 0)); [done|].
  destruct (putItem r x) as [r1|e]; cbn; [apply IH|done].
Qed.

(** Replacing one child in the list of items *)
Lemma items_replace cs v x c : wfTrie (TBranch cs v) -> is_nibble x ->
  itemsOf (TBranch (<[Z.to_nat x := c]> cs) v)
  = take (Z.to_nat x) (itemsOf (TBranch cs v)) ++ ref c :: drop (S (Z.to_nat x)) (itemsOf (TBranch cs v)).
Proof.
  intros (Hl & _ & _)%wfTrie_branch Hx. unfold is_nibble in Hx. cbn [itemsOf].
  change (map (fun c => ref c)) with (fmap (M := list) (fun c => ref c)).
  rewrite list_fmap_insert, insert_take_drop by (rewrite length_fmap; lia).
  rewrite take_app_le, drop_app_le by (rewrite length_fmap; lia). by rewrite <-app_assoc.
Qed.

Lemma wf_replace cs v x c : wfTrie (TBranch cs v) -> wfTrie c -> wfTrie (TBranch (<[Z.to_nat x := c]> cs) v).
Proof.
  intros (Hl & Hv & Hc)%wfTrie_branch Hw. apply wfTrie_branch. split_and!; [by rewrite length_insert|done|].
  by apply Forall_insert.
Qed.

Lemma mergeAt_children_sim f db cs w k x p v c' ws : mergeSim f ->
  let t := TBranch cs w in
  wfTrie t -> stored db t -> nd_inv db -> keyIs k (x :: p) -> wfValue v ->
  mergeT f (child cs x) p v = Some (c', ws) -> clearFor (wr c' ++ ws) db ->
  exists db', (r0 ← stream17;
     '(r1, db2) ← mergeAt_children sha3 (mergeAt' f) db (enc sha3 t) k v (seqZ 0 17) r0;
     o ← finish r1; Ok (o, db2)) = Ok (enc sha3 (TBranch (<[Z.to_nat x := c']> cs) w), db') /\
    wrote (wr c' ++ ws) db db' /\ stored db' (TBranch (<[Z.to_nat x := c']> cs) w) /\
    wfTrie (TBranch (<[Z.to_nat x := c']> cs) w).
Proof.
  intros IH t Hw Hst Hi Hk Hv Hm Hc. pose proof (keyIs_head _ _ _ Hk) as Hh. pose proof (keyIs_tail _ _ _ Hk) as Hk1.
  pose proof Hk as (_ & _ & [[Hx _]%Forall_cons_1 _]). pose proof (branch_child_item cs w x Hw Hx) as Hix.
  pose proof Hx as Hx'. unfold is_nibble in Hx'.
  pose proof (itemsOf_small _ Hw) as Hsm. pose proof (node_good _ Hw) as Hg.
  assert (sizeZ (itemsOf t) = 17) as Hsz by by apply itemsOf_size.
  assert (length (itemsOf t) = 17%nat) as Hlen by (unfold sizeZ in Hsz; lia).
  rewrite stream17_ok, bind_Ok_l. change (seqZ 0 17) with (seqZ 0 (Z.of_nat 17)).
  rewrite (seqZ_split (Z.to_nat x) 17), mergeAt_children_app, mergeAt_children_other by (lia || rewrite Hh; apply seqZ_avoids; lia).
  rewrite (putItems_ok 17 _ (itemsOf t)); [|done|done|done|rewrite Hsz; apply seqZ_range; lia|lia|unfold sizeZ; rewrite length_seqZ; cbn; lia|constructor].
  rewrite !bind_Ok_l. change (seqZ 0 (Z.of_nat (Z.to_nat x))) with (seqZ (Z.of_nat 0) (Z.of_nat (Z.to_nat x))).
  rewrite items_range, drop_0 by lia. cbn [app mergeAt_children]. rewrite Hh, Z2Nat.id, Z.eqb_refl by lia.
  rewrite (enc_nth t x (ref (child cs x))), bind_Ok_l by (done || lia).
  edestruct (mergeAtAux_sim f db 17 (take (Z.to_nat x) (itemsOf t)) (child cs x)) as (db' & -> & Hwr & Hl & Hwc); try done.
  { by apply (wf_child cs w). }
  { by apply (linked_child db cs w). }
  { unfold sizeZ. rewrite length_take. lia. }
  { by apply Forall_take. }
  pose proof (wf_replace cs w x c' Hw Hwc) as Hw'.
  rewrite bind_Ok_l, mergeAt_children_other by (rewrite Hh; apply seqZ_avoids; lia).
  rewrite (putItems_ok 17 _ (itemsOf t)); [|done|done|done|rewrite Hsz; apply seqZ_range; lia|lia| |].
  2: { unfold sizeZ. rewrite length_seqZ, length_app, length_take. cbn [length]. lia. }
  2: { apply Forall_app. split; [by apply Forall_take|]. by apply Forall_singleton, ref_small. }
  rewrite !bind_Ok_l, items_range by lia. rewrite (take_ge (drop _ _)) by (rewrite length_drop; lia).
  rewrite <-app_assoc. cbn [app]. unfold t. rewrite <-items_replace by done.
  rewrite finish_ok, bind_Ok_l by (by apply itemsOf_size). exists db'. split_and!; [|done| |done].
  - by rewrite (enc_Lst (TBranch (<[Z.to_nat x := c']> cs) w)).
  - apply stored_branch, Forall_insert; [|done]. apply stored_branch in Hst. eapply Forall_impl; [|exact Hst].
    intros d. apply linked_keeps. apply Hwr.
Qed.

Lemma wrote_unless db (il : bool) d h : nd_inv db -> wrote [] db (if il then db else killNode db d h).
Proof. intros Hi. destruct il; [by apply wrote_refl|by apply wrote_kill]. Qed.

Lemma wrote_after ws db db1 db2 : wrote [] db db1 -> wrote ws db1 db2 -> wrote ws db db2.
Proof. intros H1 H2. pose proof (wrote_trans _ _ _ _ _ H1 H2) as Hw. by rewrite app_nil_r in Hw. Qed.

Lemma clear_killed ws db db1 : wrote [] db db1 -> clearFor ws db -> clearFor ws db1.
Proof. intros Hw Hc. eapply clear_after; [exact Hw|]. by rewrite app_nil_r. Qed.

Lemma cp_full k p : cp k p = length p -> exists r, k = p ++ r.
Proof.
  intros E. destruct (cp_take (length p) k p) as (Ht & Hk & _); [lia|]. exists (drop (length p) k).
  rewrite (take_ge p) in Ht by lia. rewrite <-Ht at 1. by rewrite take_drop.
Qed.

Lemma cp_splits t k : (leafOf t = false -> stripPrefix (pathOf t) k = None) -> splits (cp k (pathOf t)) t.
Proof.
  intros Hx. destruct (cp_le k (pathOf t)) as [_ Hl]. split; [done|]. intros Hf. specialize (Hx Hf).
  destruct (decide (cp k (pathOf t) = length (pathOf t))) as [E|]; [|lia].
  destruct (cp_full _ _ E) as [r ->]. by rewrite stripPrefix_app in Hx.
Qed.

(** How the abstract merge treats a leaf or an extension that has to be split *)
Definition mergeSplit (f : nat) (t : trie) (k : list Z) (v : bytes) : option (trie * list bytes) :=
  let n := cp k (pathOf t) in
  if (0 <? n)%nat then '(t', ws) ← mergeT f (cleveT n t) k v; Some (t', ws ++ wr (dropPath n t))
  else '(t', ws) ← mergeT f (branchT t) k v; Some (t', ws ++ branchW t).

Lemma mergeT_pair f t k v : isPair t -> mergeT (S f) t k v =
  if leafOf t && bool_decide (pathOf t = k) then Some (placeT t k v, [])
  else match t, stripPrefix (pathOf t) k with
       | TExt p c, Some k' => '(c', ws) ← mergeT f c k' v; Some (TExt p c', wr c' ++ ws)
       | _, _ => mergeSplit f t k v
       end.
Proof. destruct t as [|p w|p c|]; intros Hp; try done; cbn [mergeT]; cbn [pathOf]; by destruct (stripPrefix p k). Qed.

(** The part of [mergeAt] for such a node *)
Lemma mergeSplit_sim f db t s k p v t' ws : mergeSim f ->
  wfTrie t -> isPair t -> stored db t -> nd_inv db -> keyIs s (pathOf t) -> keyIs k p -> wfValue v ->
  (leafOf t = false -> stripPrefix (pathOf t) p = None) ->
  mergeSplit f t p v = Some (t', ws) -> clearFor ws db ->
  exists db', (if negb (ns_shared k s =? 0) then
       '(cleved, db1) ← cleve sha3 db (enc sha3 t) (ns_shared k s);
       r ← rlp_ (RLP.construct cleved VeryStrict); mergeAt' f db1 r k v true
     else
       '(branched, db1) ← branch sha3 db (enc sha3 t);
       r ← rlp_ (RLP.construct branched VeryStrict); mergeAt' f db1 r k v true)
    = Ok (enc sha3 t', db') /\ wrote ws db db' /\ stored db' t' /\ wfTrie t'.
Proof.
  intros IH Hw Hp Hst Hi Hs Hk Hv Hx Hm Hc. rewrite (keyIs_shared k p s (pathOf t)) by done.
  pose proof (cp_splits t p Hx) as Hsp. unfold mergeSplit in Hm.
  destruct (Nat.ltb_spec 0 (cp p (pathOf t))) as [Hn|Hn].
  - destruct (mergeT f _ p v) as [[t1 ws1]|] eqn:E; [|done]. injection Hm as <- <-.
    destruct (Z.eqb_spec (Z.of_nat (cp p (pathOf t))) 0); [lia|]. cbn [negb].
    destruct (cleve_ok db t (cp p (pathOf t))) as (db1 & -> & Hwr & Hst1); try done; [by eapply clear_part|].
    pose proof (cleveT_wf _ t Hw Hp Hsp Hn) as Hw1. rewrite bind_Ok_l, enc_construct by done. cbn [rlp_]. rewrite bind_Ok_l.
    destruct (IH db1 (cleveT (cp p (pathOf t)) t) (sha3 (enc sha3 (cleveT (cp p (pathOf t)) t))) k p v true t1 ws1) as (db2 & -> & Hwr2 & Hst2 & Hw2);
      try done; [apply Hwr|by eapply clear_after|].
    exists db2. split_and!; [done|by eapply wrote_trans|done|done].
  - destruct (mergeT f _ p v) as [[t1 ws1]|] eqn:E; [|done]. injection Hm as <- <-.
    destruct (Z.eqb_spec (Z.of_nat (cp p (pathOf t))) 0); [|lia]. cbn [negb].
    destruct (branch_ok db t) as (db1 & -> & Hwr & Hst1); try done; [by eapply clear_part|].
    pose proof (branchT_wf t Hw Hp) as Hw1. rewrite bind_Ok_l, enc_construct by done. cbn [rlp_]. rewrite bind_Ok_l.
    destruct (IH db1 (branchT t) (sha3 (enc sha3 (branchT t))) k p v true t1 ws1) as (db2 & -> & Hwr2 & Hst2 & Hw2);
      try done; [apply Hwr|by eapply clear_after|].
    exists db2. split_and!; [done|by eapply wrote_trans|done|done].
Qed.

(** The part for an extension whose path begins the key *)
Lemma mergeExt_sim f db q c s k p r v c' ws : mergeSim f ->
  let t := TExt q c in
  wfTrie t -> stored db t -> nd_inv db -> keyIs s q -> keyIs k p -> wfValue v -> stripPrefix q p = Some r ->
  mergeT f c r v = Some (c', ws) -> clearFor (wr c' ++ ws) db ->
  exists db', (s0 ← stream2; x0 ← nth_ (enc sha3 t) 0; s1 ← putItem s0 x0; x1 ← nth_ (enc sha3 t) 1;
      '(s2, db2) ← mergeAtAux sha3 (mergeAt' f) db s1 x1 (ns_mid k (ns_size s)) v;
      o ← finish s2; Ok (o, db2)) = Ok (enc sha3 (TExt q c'), db') /\
    wrote (wr c' ++ ws) db db' /\ stored db' (TExt q c') /\ wfTrie (TExt q c').
Proof.
  intros IH t Hw Hst Hi Hs Hk Hv Hr Hm Hc. pose proof Hw as [[Hq Hqn] Hwc].
  pose proof (smallItem_hp false q Hq) as Hh.
  rewrite stream2_ok, bind_Ok_l, (enc_nth t 0 (Str (hp false q))), bind_Ok_l by (done || lia).
  rewrite putItem_small, bind_Ok_l by done. rewrite (enc_nth t 1 (ref c)), bind_Ok_l by (done || lia).
  edestruct (mergeAtAux_sim f db 2 [Str (hp false q)] c) as (db' & -> & Hwr & Hl & Hw'); try done.
  { by eapply keyIs_mid. }
  { by apply Forall_singleton. }
  rewrite bind_Ok_l. cbn [app]. rewrite finish_ok, bind_Ok_l by done. by exists db'.
Qed.

Lemma mergeAt_sim f : mergeSim f.
Proof.
  induction f as [|f IH]; intros db t h k p v il t' ws Hw Hst Hi Hk Hv Hm Hc; [done|]. cbn [mergeAt].
  rewrite enc_isEmpty by done. destruct (decide (t = TEmpty)) as [->|Hne].
  { rewrite bool_decide_eq_true_2 by done. injection Hm as <- <-.
    destruct (place_ok db TEmpty k p v) as (db' & E & Hwr); try done. exists db'. split_and!; try done. split; [apply Hk|done]. }
  rewrite bool_decide_eq_false_2, enc_count, bind_Ok_l, enc_assertNode, bind_Ok_l by done.
  pose proof (wrote_unless db il (enc sha3 t) h Hi) as Hu.
  assert (isBranch t \/ isPair t) as [Hb|Hp] by (destruct t; try done; (by left) || by right).
  - destruct t as [| | |cs w]; try done. cbn [Z.eqb Pos.eqb]. rewrite (keyIs_size k p Hk). destruct p as [|x p].
    + injection Hm as <- <-. destruct (place_ok db (TBranch cs w) k [] v) as (db' & E & Hwr); try done.
      exists db'. split_and!; [done|done| |].
      * rewrite stored_branch. apply stored_branch in Hst. eapply Forall_impl; [|exact Hst]. intros c. apply linked_keeps, Hwr.
      * apply wfTrie_branch in Hw as (? & _ & ?). by apply wfTrie_branch.
    + rewrite sizeZ_cons. pose proof (sizeZ_nonneg p). destruct (Z.eqb_spec (1 + sizeZ p) 0); [lia|].
      cbn [mergeT] in Hm. destruct (mergeT f (child cs x) p v) as [[c' ws']|] eqn:E; [|done]. injection Hm as <- <-.
      destruct (mergeAt_children_sim f (if il then db else killNode db (enc sha3 (TBranch cs w)) h) cs w k x p v c' ws')
        as (db' & E' & Hwr & Hst' & Hw'); try done; [by eapply stored_keeps; [apply Hu|]|apply Hu|by eapply clear_killed|].
      rewrite E'. exists db'. split_and!; [done|by eapply wrote_after|done|done].
  - assert (match t with TBranch _ _ => 17 | _ => 2 end = 2) as -> by by destruct t.
    cbn [Z.eqb Pos.eqb]. destruct (enc_keyOf t Hw Hp) as (s & -> & Hs). rewrite bind_Ok_l, enc_isLeaf, bind_Ok_l by done.
    rewrite mergeT_pair in Hm by done. rewrite (keyIs_eqb s (pathOf t) k p), (keyIs_contains k p s (pathOf t)) by done.
    rewrite (andb_comm (bool_decide _)).
    destruct (leafOf t && bool_decide (pathOf t = p)) eqn:El.
    + apply andb_true_iff in El as [El <-%bool_decide_eq_true]. injection Hm as <- <-. destruct t as [|q w|q c|]; try done.
      destruct (place_ok db (TLeaf q w) k q v) as (db' & E & Hwr); try done. exists db'. split_and!; try done. split; [apply Hw|done].
    + destruct t as [|q w|q c|]; try done.
      * cbn [leafOf pathOf negb] in *. rewrite andb_false_r. by eapply (mergeSplit_sim f db (TLeaf q w)).
      * cbn [leafOf pathOf negb] in *. rewrite andb_true_r. destruct (stripPrefix q p) as [r|] eqn:Er.
        -- destruct (mergeT f c r v) as [[c' ws']|] eqn:E; [|done]. injection Hm as <- <-.
           edestruct (mergeExt_sim f (if il then db else killNode db (enc sha3 (TExt q c)) h) q c s k p r v c' ws')
             as (db' & E' & Hwr & Hst' & Hw'); try done; [by eapply stored_keeps; [apply Hu|]|apply Hu|by eapply clear_killed|].
           rewrite E'. exists db'. split_and!; [done|by eapply wrote_after|done|done].
        -- by eapply (mergeSplit_sim f db (TExt q c)).
Qed.

End Nodes.
