(* ===== verification/TrieDBInsert.v ===== *)
(** * Inserting into the trie: contents, canonical form, termination

    The abstract merge that [GenericTrieDB::mergeAt] was shown to follow changes
    one binding, keeps the trie canonical and needs no more steps than
    [merge_fuel] allows. *)

From Stdlib Require Import ZArith Lia.
From stdpp Require Import base list list_numbers option.
From S2P Require Import Prelude CommonData RLP RLPTheory FixedHash TrieCommon Trie TrieHash TrieHashTheory MemoryDB TrieDB TrieDBTheory.

Lemma child_insert cs x y c : length cs = 16%nat -> is_nibble x -> is_nibble y ->
  child (<[Z.to_nat x := c]> cs) y = if decide (y = x) then c else child cs y.
Proof.
  unfold is_nibble. intros Hl Hx Hy. unfold child. destruct (decide (y = x)) as [->|Hne].
  - apply nth_lookup_Some. apply list_lookup_insert_eq. lia.
  - destruct (nibble_lookup cs (Z.to_nat y) Hl ltac:(lia)) as [_ E]. apply nth_lookup_Some.
    rewrite list_lookup_insert_ne by lia. rewrite E. unfold child. by rewrite Z2Nat.id by lia.
Qed.

Lemma child_empties y : child empties y = TEmpty.
Proof. by apply child_Forall, Forall_replicate. Qed.

Lemma child_single x y c : is_nibble x -> is_nibble y ->
  child (<[Z.to_nat x := c]> empties) y = if decide (y = x) then c else TEmpty.
Proof. intros Hx Hy. rewrite child_insert by done. by rewrite child_empties. Qed.

Lemma get_leaf_app q p v k : get (TLeaf (q ++ p) v) (q ++ k) = get (TLeaf p v) k.
Proof.
  cbn [get]. destruct (decide (q ++ p = q ++ k)) as [E|E], (decide (p = k)) as [|Hn]; try done.
  - destruct Hn. by apply app_inv_head in E.
  - destruct E. by f_equal.
Qed.

Lemma stripPrefix_cut n p k : stripPrefix p k =
  match stripPrefix (take n p) k with Some r => stripPrefix (drop n p) r | None => None end.
Proof.
  revert p k. induction n as [|n IH]; intros p k; [by rewrite drop_0|]. destruct p as [|x p]; [done|]. cbn [take drop stripPrefix].
  destruct k as [|y k]; [done|]. destruct (x =? y); [apply IH|done].
Qed.

Lemma get_cleveT n t k : isPair t -> get (cleveT n t) k = get t k.
Proof.
  intros Hp. destruct t as [|p v|p c|]; try done; unfold cleveT; cbn [pathOf dropPath].
  - cbn [get]. destruct (stripPrefix (take n p) k) as [r|] eqn:E.
    + apply stripPrefix_Some in E as ->. destruct (decide (drop n p = r)) as [<-|Hn].
      * by rewrite decide_True by (by rewrite take_drop).
      * rewrite decide_False; [done|]. intros E. rewrite <-(take_drop n p) in E at 1. by apply app_inv_head in E.
    + rewrite decide_False; [done|]. intros <-. apply stripPrefix_None in E. destruct E. exists (drop n p). by rewrite take_drop.
  - cbn [get]. rewrite (stripPrefix_cut n p k). by destruct (stripPrefix (take n p) k).
Qed.

Lemma get_below1 x t p k : isPair t -> pathOf t = x :: p -> get (below1 t) k = get t (x :: k).
Proof.
  intros Hp Hx. destruct t as [|q v|q c|]; try done; cbn in Hx; subst q.
  - cbn [below1 dropPath drop get]. rewrite drop_0. repeat case_decide; (done || congruence).
  - destruct p as [|y p]; cbn [below1 dropPath drop get stripPrefix]; by rewrite ?drop_0, Z.eqb_refl.
Qed.

Lemma get_branchT t k : wfTrie t -> isPair t -> Forall is_nibble k -> get (branchT t) k = get t k.
Proof.
  intros Hw Hp Hk. pose proof (pair_wfPath t Hw Hp) as [Hn _]. unfold branchT. destruct (pathOf t) as [|x p] eqn:E.
  - destruct t as [|q v|q c|]; try done; cbn in E; subst q; [|by destruct Hw as [[_ ?] _]]. cbn [valueOf].
    destruct k as [|y k]; [done|]. rewrite get_branch, child_empties. done.
  - apply Forall_cons_1 in Hn as [Hx _]. destruct k as [|y k].
    + destruct t as [|q v|q c|]; try done; cbn in E; by subst q.
    + apply Forall_cons_1 in Hk as [Hy _]. rewrite get_branch, child_single by done. destruct (decide (y = x)) as [->|Hne].
      * by apply (get_below1 x t p).
      * destruct t as [|q v|q c|]; try done; cbn in E; subst q; cbn [get stripPrefix].
        -- by rewrite decide_False by congruence.
        -- by destruct (Z.eqb_spec x y); [congruence|].
Qed.

Section Merge.
Context (sha3 : bytes -> bytes).
Abbreviation mergeT := (mergeT sha3).
Abbreviation mergeSplit := (mergeSplit sha3).

Lemma mergeSplit_inv f t k v t' ws : mergeSplit f t k v = Some (t', ws) ->
  exists t1 ws1, mergeT f t1 k v = Some (t', ws1) /\
    (t1 = cleveT (cp k (pathOf t)) t /\ (0 < cp k (pathOf t))%nat \/ t1 = branchT t /\ cp k (pathOf t) = 0%nat).
Proof.
  unfold TrieDBTheory.mergeSplit. destruct (Nat.ltb_spec 0 (cp k (pathOf t))); intros Hm.
  - destruct (mergeT f _ k v) as [[t1 ws1]|] eqn:E; [|done]. injection Hm as <- <-. eexists _, _. split; [exact E|]. by left.
  - destruct (mergeT f _ k v) as [[t1 ws1]|] eqn:E; [|done]. injection Hm as <- <-. eexists _, _. split; [exact E|]. right.
    split; [done|lia].
Qed.

(** ** Contents *)

Lemma get_placeT t k v k' : (isBranch t -> k = []) -> (leafOf t = true -> pathOf t = k) -> (forall p c, t <> TExt p c) ->
  get (placeT t k v) k' = if decide (k' = k) then v else get t k'.
Proof.
  intros Hb Hl Hx. destruct t as [|p w|p c|cs w]; cbn [placeT].
  - cbn [get]. by destruct (decide (k = k')), (decide (k' = k)); congruence.
  - cbn in Hl. rewrite <-Hl by done. cbn [get]. destruct (decide (p = k')), (decide (k' = p)); congruence.
  - by destruct (Hx p c).
  - rewrite Hb by done. by destruct k'.
Qed.

Lemma mergeT_get f t k v t' ws k' : wfTrie t -> wfPath k -> Forall is_nibble k' ->
  mergeT f t k v = Some (t', ws) -> get t' k' = if decide (k' = k) then v else get t k'.
Proof.
  revert t k t' ws k'. induction f as [|f IH]; intros t k t' ws k' Hw Hk Hk' Hm; [done|].
  assert (forall p c, t = TExt p c -> forall r c' ws', k = p ++ r -> mergeT f c r v = Some (c', ws') ->
     get (TExt p c') k' = if decide (k' = k) then v else get t k') as Hext.
  { intros p c -> r c' ws' -> E. apply wfPath_app in Hk as [_ Hr]. cbn [get]. destruct (stripPrefix p k') as [r'|] eqn:Er.
    - apply stripPrefix_Some in Er as ->. apply Forall_app in Hk' as [_ Hk'].
      rewrite (IH c r c' ws') by (done || apply Hw). destruct (decide (r' = r)) as [->|Hne].
      + by rewrite decide_True.
      + rewrite decide_False; [done|]. by intros ?%app_inv_head.
    - rewrite decide_False; [done|]. intros ->. by rewrite stripPrefix_app in Er. }
  destruct t as [|p w|p c|cs w].
  - injection Hm as <- <-. by apply (get_placeT TEmpty).
  - rewrite mergeT_pair in Hm by done. cbn [leafOf pathOf andb] in Hm. destruct (decide (p = k)) as [<-|Hne].
    + rewrite bool_decide_eq_true_2 in Hm by done. injection Hm as <- <-. by apply (get_placeT (TLeaf p w)).
    + rewrite bool_decide_eq_false_2 in Hm by done. destruct (mergeSplit_inv f (TLeaf p w) k v t' ws) as (t1 & ws1 & E & Ht1).
      { by destruct (stripPrefix p k). }
      destruct Ht1 as [[-> Hn]|[-> Hn]].
      * rewrite (IH _ k t' ws1 k' (cleveT_wf _ (TLeaf p w) Hw I (cp_splits (TLeaf p w) k ltac:(done)) Hn) Hk Hk' E).
        by rewrite get_cleveT.
      * rewrite (IH _ k t' ws1 k' (branchT_wf (TLeaf p w) Hw I) Hk Hk' E). by rewrite get_branchT.
  - rewrite mergeT_pair in Hm by done. cbn [leafOf pathOf andb] in Hm. destruct (stripPrefix p k) as [r|] eqn:Er.
    + apply stripPrefix_Some in Er. destruct (mergeT f c r v) as [[c' ws']|] eqn:E; [|done]. injection Hm as <- <-.
      by eapply Hext.
    + destruct (mergeSplit_inv f (TExt p c) k v t' ws Hm) as (t1 & ws1 & E & [[-> Hn]|[-> Hn]]).
      * rewrite (IH _ k t' ws1 k' (cleveT_wf _ (TExt p c) Hw I (cp_splits (TExt p c) k ltac:(done)) Hn) Hk Hk' E).
        by rewrite get_cleveT.
      * rewrite (IH _ k t' ws1 k' (branchT_wf (TExt p c) Hw I) Hk Hk' E). by rewrite get_branchT.
  - cbn [TrieDBTheory.mergeT] in Hm. destruct k as [|x k].
    + injection Hm as <- <-. by apply (get_placeT (TBranch cs w)).
    + destruct (mergeT f (child cs x) k v) as [[c' ws']|] eqn:E; [|done]. injection Hm as <- <-.
      destruct k' as [|y k']; [by rewrite decide_False|]. rewrite !get_branch.
      pose proof Hk as [[Hx _]%Forall_cons_1 _]. apply Forall_cons_1 in Hk' as [Hy Hk'].
      pose proof (proj1 (wfTrie_branch _ _) Hw) as (Hl & _ & _). rewrite child_insert by done.
      destruct (decide (y = x)) as [->|Hne]; [|by rewrite decide_False by congruence].
      rewrite (IH (child cs x) k c' ws') by (done || by eapply wf_child || by apply (wfPath_app [x])).
      destruct (decide (k' = k)) as [->|]; [by rewrite decide_True|by rewrite decide_False by congruence].
Qed.

(** ** Canonical form *)

Lemma Forall_children (P : trie -> Prop) cs : length cs = 16%nat ->
  (forall x, is_nibble x -> P (child cs x)) -> Forall P cs.
Proof.
  intros Hl H. apply Forall_lookup_2. intros i c Hi. pose proof (lookup_lt_Some _ _ _ Hi).
  destruct (nibble_lookup cs i Hl ltac:(lia)) as [Hx E]. rewrite E in Hi. injection Hi as <-. by apply H.
Qed.

Lemma canonical_insert cs w x c : length cs = 16%nat -> is_nibble x -> c <> TEmpty ->
  canonical (TBranch cs w) -> canonical c -> canonical (TBranch (<[Z.to_nat x := c]> cs) w).
Proof.
  intros Hl Hx Hne [[_ Hf] Hc]%canonical_branch Hcc. apply canonical_branch. split; [|by apply Forall_insert]. split.
  - exists x. split; [done|]. by rewrite child_insert, decide_True by done.
  - intros y. destruct (Hf y) as [Hw|(z & Hz & Hzy & Hze)]; [by left|right]. exists z. split_and!; [done|done|].
    rewrite child_insert by done. by destruct (decide (z = x)).
Qed.

Lemma dropPath_canonical n t : canonical t -> isPair t -> splits n t -> canonical (dropPath n t).
Proof.
  intros Hc Hp [_ Hs]. destruct t as [|p v|p c|]; try done. destruct Hc as (_ & Hb & Hc). cbn in *. split_and!; try done.
  specialize (Hs eq_refl). intros E. apply (f_equal length) in E. rewrite length_drop in E. cbn in E. lia.
Qed.

Lemma below1_canonical t : canonical t -> isPair t -> pathOf t <> [] -> canonical (below1 t) /\ below1 t <> TEmpty.
Proof.
  intros Hc Hp Hne. destruct t as [|p v|p c|]; try done; cbn [pathOf] in Hne.
  destruct Hc as (_ & Hb & Hc). destruct p as [|x [|y p]]; [done| |].
  - split; [done|]. by destruct c.
  - by cbn [below1 dropPath drop canonical].
Qed.

(** A leaf or an extension that shares nothing with the key becomes a branch. *)
Lemma merge_noshare f t k v t' ws : sound t -> isPair t -> wfPath k -> v <> [] -> cp k (pathOf t) = 0%nat ->
  ~ (leafOf t = true /\ pathOf t = k) ->
  mergeT f (branchT t) k v = Some (t', ws) -> isBranch t' /\ canonical t'.
Proof.
  intros [Hw Hc] Hp Hk Hv Hcp Hnk Hm. pose proof (pair_wfPath t Hw Hp) as [Hn _].
  destruct f as [|f]; [done|]. unfold branchT in Hm. destruct (pathOf t) as [|x p] eqn:Ex.
  - destruct t as [|q w|q c|]; try done; cbn in Ex; subst q; [|by destruct Hw as [[_ ?] _]].
    cbn [TrieDBTheory.mergeT valueOf] in Hm. destruct k as [|y k]; [by destruct Hnk|].
    rewrite child_empties in Hm. destruct f as [|f]; [done|]. injection Hm as <- <-. split; [done|].
    destruct Hk as [[Hy _]%Forall_cons_1 _]. apply canonical_branch. split; [split|].
    + exists y. by rewrite child_single, decide_True.
    + intros z. by left.
    + apply Forall_insert; [by apply Forall_replicate|done].
  - apply Forall_cons_1 in Hn as [Hx _]. destruct (below1_canonical t Hc Hp ltac:(by rewrite Ex)) as [Hcb Hne].
    assert (Forall canonical (<[Z.to_nat x:=below1 t]> empties)) as Hfa
      by (apply Forall_insert; [by apply Forall_replicate|done]).
    cbn [TrieDBTheory.mergeT] in Hm. destruct k as [|y k].
    + injection Hm as <- <-. split; [done|]. apply canonical_branch. split; [split|done].
      * exists x. by rewrite child_single, decide_True.
      * intros z. by left.
    + destruct Hk as [[Hy _]%Forall_cons_1 _]. rewrite cp_cons in Hcp. destruct (decide (y = x)) as [|Hyx]; [done|].
      rewrite child_single, decide_False in Hm by done. destruct f as [|f]; [done|]. injection Hm as <- <-. split; [done|].
      assert (forall z, is_nibble z -> child (<[Z.to_nat y:=TLeaf k v]> (<[Z.to_nat x:=below1 t]> empties)) z
        = if decide (z = y) then TLeaf k v else if decide (z = x) then below1 t else TEmpty) as Hch.
      { intros z Hz. rewrite child_insert by (done || by rewrite length_insert). by rewrite child_single. }
      apply canonical_branch. split; [split|].
      * exists y. by rewrite Hch, decide_True.
      * intros z. right. destruct (decide (z = y)) as [->|Hzy].
        -- exists x. split_and!; [done|done|]. by rewrite Hch, decide_False, decide_True by done.
        -- exists y. split_and!; [done|done|]. by rewrite Hch, decide_True.
      * by apply Forall_insert.
Qed.

Lemma cp_drop_all k p : cp (drop (cp k p) k) (drop (cp k p) p) = 0%nat.
Proof. rewrite cp_drop by lia. lia. Qed.

Lemma stripPrefix_cp k p : stripPrefix (take (cp k p) p) k = Some (drop (cp k p) k).
Proof. destruct (cp_take (cp k p) k p (le_n _)) as (E & _ & _). apply stripPrefix_Some. by rewrite <-E, take_drop. Qed.

(** After the cleft only the part below is split further. *)
Lemma split_drop t k : isPair t -> let n := cp k (pathOf t) in
  (leafOf t = false -> stripPrefix (pathOf t) k = None) -> ~ (leafOf t = true /\ pathOf t = k) ->
  let d := dropPath n t in
  isPair d /\ cp (drop n k) (pathOf d) = 0%nat /\ ~ (leafOf d = true /\ pathOf d = drop n k) /\
  (leafOf d = false -> stripPrefix (pathOf d) (drop n k) = None).
Proof.
  intros Hp n Hx Hnk d. destruct (dropPath_facts sha3 n t Hp) as (Hpd & Hl & Ed & _).
  split; [done|]. split; [unfold d; rewrite Ed; apply cp_drop_all|]. split.
  - unfold d. rewrite Hl, Ed. intros [Hlf E]. apply Hnk. split; [done|]. rewrite <-(take_drop n k), <-(take_drop n (pathOf t)).
    rewrite E. f_equal. symmetry. by apply (cp_take n).
  - unfold d. rewrite Hl, Ed. intros Hlf. specialize (Hx Hlf). rewrite (stripPrefix_cut n) in Hx.
    unfold n in *. by rewrite stripPrefix_cp in Hx.
Qed.

Lemma mergeT_split f t k v : isPair t -> (leafOf t = false -> stripPrefix (pathOf t) k = None) ->
  ~ (leafOf t = true /\ pathOf t = k) -> mergeT (S f) t k v = mergeSplit f t k v.
Proof.
  intros Hp Hx Hnk. rewrite mergeT_pair by done.
  destruct (leafOf t && bool_decide (pathOf t = k)) eqn:E.
  { apply andb_true_iff in E as [E1 E2%bool_decide_eq_true]. by destruct Hnk. }
  destruct t as [|p w|p c|]; try done. cbn in Hx |- *. by rewrite Hx.
Qed.

Lemma merge_split_canonical f t k v t' ws : sound t -> isPair t -> wfPath k -> v <> [] ->
  (leafOf t = false -> stripPrefix (pathOf t) k = None) -> ~ (leafOf t = true /\ pathOf t = k) ->
  mergeSplit f t k v = Some (t', ws) -> canonical t' /\ t' <> TEmpty.
Proof.
  intros Hs Hp Hk Hv Hx Hnk (t1 & ws1 & E & Ht1)%mergeSplit_inv.
  destruct Ht1 as [[-> Hn]|[-> Hn]].
  - pose proof (cp_splits t k Hx) as Hsp. destruct (split_drop t k Hp Hx Hnk) as (Hpd & Hcd & Hnd & Hxd).
    destruct Hs as [Hw Hc]. pose proof (dropPath_canonical _ t Hc Hp Hsp) as Hcd'. pose proof (dropPath_wf _ t Hw Hp Hsp) as Hwd.
    set (n := cp k (pathOf t)) in *. destruct f as [|f]; [done|]. unfold cleveT in E. rewrite mergeT_pair in E by done.
    cbn [leafOf andb pathOf] in E. rewrite (stripPrefix_cp k (pathOf t) : stripPrefix (take n (pathOf t)) k = Some (drop n k)) in E.
    destruct (mergeT f (dropPath n t) (drop n k) v) as [[c ws2]|] eqn:E2; [|done]. injection E as <- <-.
    destruct f as [|f]; [done|]. rewrite mergeT_split in E2 by done.
    apply mergeSplit_inv in E2 as (t2 & ws3 & E3 & [[-> ?]|[-> _]]); [lia|].
    destruct (merge_noshare f (dropPath n t) (drop n k) v c ws3) as [Hb Hcc]; try done.
    { apply (wfPath_app (take n k)). by rewrite take_drop. }
    split; [|done]. cbn [canonical]. split_and!; [|done|done]. intros Ee. apply (f_equal length) in Ee.
    rewrite length_take in Ee. destruct Hsp as [Hsp _]. cbn in Ee. lia.
  - destruct (merge_noshare f t k v t' ws1) as [Hb Hc]; try done. split; [done|]. by destruct t'.
Qed.

Lemma mergeT_canonical f t k v t' ws : sound t -> wfPath k -> v <> [] ->
  mergeT f t k v = Some (t', ws) -> canonical t' /\ t' <> TEmpty /\ (isBranch t -> isBranch t').
Proof.
  revert t k t' ws. induction f as [|f IH]; intros t k t' ws Hs Hk Hv Hm; [done|].
  destruct t as [|p w|p c|cs w].
  - by injection Hm as <- <-.
  - rewrite mergeT_pair in Hm by done. cbn [leafOf pathOf andb] in Hm. destruct (decide (p = k)) as [<-|Hne].
    + rewrite bool_decide_eq_true_2 in Hm by done. by injection Hm as <- <-.
    + rewrite bool_decide_eq_false_2 in Hm by done. assert (mergeSplit f (TLeaf p w) k v = Some (t', ws)) as Hm'
        by by destruct (stripPrefix p k).
      destruct (merge_split_canonical f (TLeaf p w) k v t' ws) as [? ?]; try done. by intros [_ ?].
  - rewrite mergeT_pair in Hm by done. cbn [leafOf pathOf andb] in Hm. destruct (stripPrefix p k) as [r|] eqn:Er.
    + apply stripPrefix_Some in Er as ->. destruct (mergeT f c r v) as [[c' ws']|] eqn:E; [|done]. injection Hm as <- <-.
      destruct Hs as [[Hp Hw] (Hpn & Hb & Hc)]. apply wfPath_app in Hk as [_ Hr].
      destruct (IH c r c' ws') as (Hc' & _ & Hb'); try done. split_and!; try done. cbn. split_and!; try done. by apply Hb'.
    + destruct (merge_split_canonical f (TExt p c) k v t' ws) as [? ?]; try done. by intros [? _].
  - cbn [TrieDBTheory.mergeT] in Hm. destruct k as [|x k].
    + injection Hm as <- <-. split_and!; try done. destruct Hs as [_ [[He Hf] Hc]%canonical_branch].
      apply canonical_branch. split; [|done]. split; [done|]. intros y. by left.
    + destruct (mergeT f (child cs x) k v) as [[c' ws']|] eqn:E; [|done]. injection Hm as <- <-.
      pose proof Hk as [[Hx _]%Forall_cons_1 _]. destruct (IH (child cs x) k c' ws') as (Hc' & Hne & _); try done.
      { by apply (sound_child cs w). }
      { by apply (wfPath_app [x]). }
      destruct Hs as [(Hl & _ & _)%wfTrie_branch Hc]. split_and!; [|done|done]. by apply canonical_insert.
Qed.

(** ** Termination *)

Lemma mergeT_place_some f t k v : (t = TEmpty \/ isBranch t /\ k = []) -> is_Some (mergeT (S f) t k v).
Proof. intros [->|[Hb ->]]; [by eexists|]. by destruct t; [| | |eexists]. Qed.

Section Steps.
Variable n : nat.
Hypothesis IH : forall f t k v, wfTrie t -> (length k < n)%nat -> (3 * length k + 2 <= f)%nat -> is_Some (mergeT f t k v).

Lemma merge_branch_some f cs w k v : wfTrie (TBranch cs w) -> length k = n -> (3 * n + 1 <= f)%nat ->
  is_Some (mergeT f (TBranch cs w) k v).
Proof.
  intros Hw Hn Hf. destruct f as [|f]; [lia|]. destruct k as [|x k]; [by eexists|]. cbn in Hn. cbn [TrieDBTheory.mergeT].
  destruct (IH f (child cs x) k v) as [[c ws] ->]; [by eapply wf_child|lia|lia|]. by eexists.
Qed.

Lemma merge_noshare_some f t k v : wfTrie t -> isPair t -> length k = n -> cp k (pathOf t) = 0%nat ->
  (3 * n + 1 <= f)%nat -> is_Some (mergeSplit f t k v).
Proof.
  intros Hw Hp Hn Hcp Hf. unfold TrieDBTheory.mergeSplit. rewrite Hcp. cbn [Nat.ltb Nat.leb].
  pose proof (branchT_wf t Hw Hp) as Hwb.
  assert (exists cs w, branchT t = TBranch cs w) as (cs & w & E) by (unfold branchT; destruct (pathOf t); by eexists _, _).
  rewrite E in *. destruct (merge_branch_some f cs w k v Hwb Hn Hf) as [[t' ws] ->]. by eexists.
Qed.
End Steps.

Lemma merge_pair_some f t k v :
  (forall f t k' v, wfTrie t -> (length k' < length k)%nat -> (3 * length k' + 2 <= f)%nat -> is_Some (mergeT f t k' v)) ->
  wfTrie t -> isPair t -> (leafOf t = false -> stripPrefix (pathOf t) k = None) -> ~ (leafOf t = true /\ pathOf t = k) ->
  (3 * length k + 1 <= f)%nat -> is_Some (mergeT (S f) t k v).
Proof.
  intros IH Hw Hp Hx Hnk Hf. rewrite mergeT_split by done. destruct (decide (cp k (pathOf t) = 0%nat)) as [E|E].
  { by apply (merge_noshare_some (length k) IH). }
  destruct (split_drop t k Hp Hx Hnk) as (Hpd & Hcd & Hnd & Hxd).
  pose proof (dropPath_wf _ t Hw Hp (cp_splits t k Hx)) as Hwd. destruct (cp_le k (pathOf t)) as [Hle _].
  unfold TrieDBTheory.mergeSplit. set (n := cp k (pathOf t)) in *. destruct (Nat.ltb_spec 0 n); [|lia].
  destruct f as [|[|f]]; [lia|lia|]. unfold cleveT. rewrite mergeT_pair by done. cbn [leafOf andb pathOf].
  rewrite (stripPrefix_cp k (pathOf t) : stripPrefix (take n (pathOf t)) k = Some (drop n k)), mergeT_split by done.
  assert (length (drop n k) < length k)%nat as Hd by (rewrite length_drop; lia).
  destruct (merge_noshare_some (length (drop n k)) ltac:(intros; apply IH; (done || lia)) f (dropPath n t) (drop n k) v)
    as [[t' ws] ->]; (done || lia || by eexists).
Qed.

Lemma mergeT_terminates n f t k v : wfTrie t -> (length k < n)%nat -> (3 * length k + 2 <= f)%nat ->
  is_Some (mergeT f t k v).
Proof.
  revert f t k v. induction n as [|n IHn]; intros f t k v Hw Hn Hf; [lia|].
  assert (forall f t k' v, wfTrie t -> (length k' < length k)%nat -> (3 * length k' + 2 <= f)%nat -> is_Some (mergeT f t k' v)) as IH
    by (intros; apply IHn; (done || lia)).
  destruct t as [|p w|p c|cs w].
  - destruct f; [lia|]. by apply mergeT_place_some; left.
  - destruct f as [|f]; [lia|]. destruct (decide (p = k)) as [<-|Hne].
    + rewrite mergeT_pair by done. cbn [leafOf pathOf andb]. rewrite bool_decide_eq_true_2 by done. by eexists.
    + apply merge_pair_some; (done || lia || by intros [_ ?]).
  - destruct f as [|f]; [lia|]. destruct (stripPrefix p k) as [r|] eqn:Er.
    + rewrite mergeT_pair by done. cbn [leafOf pathOf andb]. rewrite Er. destruct Hw as [[_ Hpn] Hw].
      apply stripPrefix_Some in Er as ->. destruct p as [|x p]; [done|]. cbn in *. rewrite length_app in *.
      destruct (IH f c r v) as [[c' ws] ->]; [done|lia|lia|]. by eexists.
    + apply merge_pair_some; (done || lia || by intros [? _]).
  - apply (merge_branch_some (length k) IH); (done || lia).
Qed.

End Merge.

(** ** The trie as a map

    The keys are byte strings, so the paths are their nibbles. *)

Lemma asNibbles_nibblesOf d : wf_bytes d -> nibblesOf d 0 (sizeZ d * 2) = asNibbles d.
Proof.
  intros Hd. unfold nibblesOf. rewrite Z.sub_0_r.
  assert (forall j, (j < length d * 2)%nat -> asNibbles d !! j = Some (nibble d (Z.of_nat j))) as Hl.
  { induction Hd as [|b d Hb Hd IH]; intros j Hj; [cbn in Hj; lia|]. cbn in Hj. unfold asNibbles. cbn [flat_map app].
    fold (asNibbles d). unfold nibble. destruct j as [|[|j]].
    - cbn. by rewrite Z.shiftr_div_pow2.
    - cbn. change 15 with (Z.ones 4). by rewrite Z.land_ones.
    - cbn [lookup list_lookup]. rewrite IH by lia. unfold nibble.
      replace (Z.of_nat (S (S j))) with (Z.of_nat j + 1 * 2) by lia. rewrite Z.div_add by lia.
      assert (forall x, Z.land x 1 = x mod 2) as Hland by (intros x; by apply (Z.land_ones x 1)).
      rewrite !Hland, Z.mod_add by lia.
      assert (at_ (b :: d) (Z.of_nat j / 2 + 1) = at_ d (Z.of_nat j / 2)) as ->; [|done].
      pose proof (Z.div_pos (Z.of_nat j) 2). rewrite (Z.add_comm _ 1). change 1 with (sizeZ [b]). apply (at_app_r [b] d). lia. }
  apply list_eq. intros j. rewrite list_lookup_fmap. destruct (decide (j < length d * 2)%nat).
  - rewrite lookup_seqZ_lt by (unfold sizeZ; lia). cbn. by rewrite Hl.
  - rewrite lookup_seqZ_ge by (unfold sizeZ; lia). cbn. symmetry. apply lookup_ge_None.
    unfold asNibbles. rewrite (flat_map_constant_length (c := 2)) by done. lia.
Qed.

Lemma keyIs_bytes k : wf_bytes k -> sizeZ k < 2 ^ 29 -> keyIs (mkSlice k 0) (asNibbles k).
Proof.
  intros Hk Hs. pose proof (sizeZ_nonneg k). assert (slice_ok (mkSlice k 0)) as Hok by (split; [done|]; cbn; lia).
  split; [done|]. split; [|by apply asNibbles_path]. rewrite nibblesS_whole by done. by apply asNibbles_nibblesOf.
Qed.

Lemma byPath_assign k v m p : wf_bytes k -> wfMap m ->
  valueAt (byPath (mapAssign k v m)) p = if decide (p = asNibbles k) then v else valueAt (byPath m) p.
Proof.
  intros Hk Hm. induction Hm as [|[k' v'] m (Hk' & _) Hm IH]; cbn [mapAssign].
  { cbn. repeat case_decide; (done || congruence). }
  cbn [fst] in Hk'. destruct (bytesLt k k') eqn:E1; [|destruct (bytesLt k' k) eqn:E2].
  - cbn [byPath map valueAt fst snd]. repeat case_decide; (done || congruence).
  - cbn [byPath map valueAt fst snd]. fold (byPath (mapAssign k v m)). rewrite IH. fold (byPath m).
    destruct (decide (asNibbles k' = p)) as [<-|]; [|done]. rewrite decide_False; [done|].
    intros ->%asNibbles_inj; [|done|done]. by rewrite bytesLt_irrefl in E2.
  - pose proof (bytesLt_total _ _ E1 E2) as ->. cbn [byPath map valueAt fst snd].
    repeat case_decide; (done || congruence).
Qed.

(** What may be inserted *)
Definition entryOk (e : bytes * bytes) : Prop := wf_bytes e.1 /\ sizeZ e.1 < 2 ^ 29 /\ wfValue e.2 /\ e.2 <> [].

Lemma wfMap_assign k v m : entryOk (k, v) -> wfMap m -> wfMap (mapAssign k v m).
Proof. intros (Hk & Hs & Hv & Hn) Hm. apply mapAssign_Forall; [by intros k' w _ ->|done|done]. Qed.

Section Store.
Context {DB : Type} `{NodeDB DB} (sha3 : bytes -> bytes) `{!NodeDBLaws DB sha3}.
Hypothesis Hsha3 : forall d, wf_bytes (sha3 d) /\ length (sha3 d) = 32%nat.

(** The root in the database is that of the trie of the map [m]. *)
Record opens (db : DB) (root : bytes) (m : BytesMap) : Prop := mkOpens {
  opens_inv : nd_inv db;
  opens_sorted : sortedMap m;
  opens_wf : wfMap m;
  opens_root : root = sha3 (enc sha3 (trieOf m));
  opens_node : nd_lookup db root = enc sha3 (trieOf m);
  opens_stored : stored sha3 db (trieOf m)
}.

Lemma opens_keeps db db' root m : nd_inv db' -> keeps db db' -> opens db root m -> opens db' root m.
Proof.
  intros Hi Hk [_ Hs Hw Hr Hn Hst]. split; try done; [|by eapply stored_keeps].
  rewrite Hk, Hn; [done|]. rewrite Hn. apply enc_nonempty.
Qed.

Lemma opens_hash db root m : opens db root m -> hash256 sha3 m = Ok root.
Proof. intros [_ _ Hw -> _ _]. unfold hash256. by rewrite rlp256_spec. Qed.

Lemma opens_construct db root m : opens db root m ->
  RLP.construct (node db root) VeryStrict = Ok (enc sha3 (trieOf m)).
Proof. intros [_ _ Hw _ Hn _]. unfold node. rewrite Hn. apply (enc_construct sha3 Hsha3). by apply trieOf_sound. Qed.

Lemma lookup_opens db root m key : opens db root m -> wf_bytes key -> sizeZ key < 2 ^ 29 ->
  trie_lookup db root key = Ok (valueAt m key).
Proof.
  intros Ho Hk Hs. unfold trie_lookup, nodeRLP. rewrite (opens_construct db root m) by done. cbn [rlp_]. rewrite bind_Ok_l.
  destruct Ho as [Hi Hso Hw Hr Hn Hst]. pose proof (keyIs_bytes key Hk Hs) as Hki.
  rewrite (atAux_ok sha3 Hsha3 _ db (trieOf m) _ (asNibbles key)); [|by apply trieOf_sound|done|done|].
  - rewrite trieOf_get by apply Hki. by rewrite byPath_value.
  - unfold at_fuel. rewrite (keyIs_size _ _ Hki). unfold sizeZ. lia.
Qed.

(** The nodes an insertion writes, the root's first *)
Definition insertWrites (m : BytesMap) (key value : bytes) : list bytes :=
  match mergeT sha3 (merge_fuel (mkSlice key 0)) (trieOf m) (asNibbles key) value with
  | Some (t, ws) => enc sha3 t :: ws
  | None => []
  end.

Lemma insert_opens db root m key value : opens db root m -> entryOk (key, value) ->
  seenClear sha3 (insertWrites m key value ++ nd_seen db) ->
  exists db' root', trie_insert_ sha3 db root key value = Ok (db', root') /\
    opens db' root' (mapAssign key value m) /\ wrote sha3 (insertWrites m key value) db db'.
Proof.
  intros Ho Hen Hcl. pose proof Hen as (Hk & Hs & Hv & Hne). cbn [fst snd] in *.
  pose proof (keyIs_bytes key Hk Hs) as Hki. pose proof (opens_construct db root m Ho) as Hcon.
  pose proof Ho as [Hi Hso Hw Hr Hn Hst]. pose proof (trieOf_sound m Hw) as [Hwt Hct].
  unfold insertWrites in *. destruct (mergeT_terminates sha3 (S (length (asNibbles key))) (merge_fuel (mkSlice key 0)) (trieOf m)
    (asNibbles key) value) as [[t' ws] Em]; [done|lia| |].
  { unfold merge_fuel. rewrite (keyIs_size _ _ Hki). unfold sizeZ. lia. }
  rewrite Em in *. cbn [app] in Hcl.
  destruct (mergeAt_sim sha3 Hsha3 (merge_fuel (mkSlice key 0)) db (trieOf m) root (mkSlice key 0) (asNibbles key) value false t' ws)
    as (db1 & Ema & Hwr & Hst' & Hwt'); try done.
  { eapply seenClear_sub; [|exact Hcl]. intros x Hx. by apply elem_of_cons; right. }
  assert (t' = trieOf (mapAssign key value m)) as Et.
  { destruct (mergeT_canonical sha3 _ _ _ _ _ _ (conj Hwt Hct) (proj2 (proj2 Hki)) Hne Em) as (Hct' & _).
    apply sound_unique; [done|by apply trieOf_sound, wfMap_assign|]. intros p Hp.
    rewrite (mergeT_get sha3 _ _ _ _ _ _ p Hwt (proj2 (proj2 Hki)) Hp Em), !trieOf_get, byPath_assign by done. done. }
  unfold trie_insert_. unfold node in Hcon |- *. rewrite Hn in Hcon |- *.
  assert (assert_ (negb (sizeZ (enc sha3 (trieOf m)) =? 0)) = Ok tt) as ->.
  { pose proof (enc_nonempty sha3 (trieOf m)) as Hnil. destruct (enc sha3 (trieOf m)); [done|].
    rewrite sizeZ_cons. pose proof (sizeZ_nonneg l). by destruct (Z.eqb_spec (1 + sizeZ l) 0); [lia|]. }
  rewrite bind_Ok_l, Hcon. cbn [rlp_]. rewrite bind_Ok_l, Ema, bind_Ok_l.
  set (db2 := if _ <? 32 then forceKillNode db1 root else db1). cbn [forceInsertNode].
  assert (wrote sha3 ws db db2) as Hwr2.
  { unfold db2. destruct (_ <? 32); [|done]. pose proof (wrote_trans sha3 _ _ _ _ _ Hwr (wrote_forceKill sha3 db1 root (wrote_inv _ _ _ _ Hwr))) as E.
    done. }
  assert (seenClear sha3 (enc sha3 t' :: nd_seen db2)) as Hcl2 by by rewrite (wrote_seen _ _ _ _ Hwr2).
  assert (wrote sha3 [enc sha3 t'] db2 (nd_insert db2 (sha3 (enc sha3 t')) (enc sha3 t'))) as Hins.
  { split; [by apply nd_insert_inv, Hwr2|apply nd_insert_seen|]. intros h Hh. apply nd_insert_old; [apply Hwr2|done|done]. }
  eexists _, _. split; [done|]. split; [|exact (wrote_trans sha3 _ _ _ _ _ Hwr2 Hins)].
  split; [apply Hins|by apply mapAssign_sorted|by apply wfMap_assign|by rewrite <-Et| |].
  - rewrite nd_insert_same; [by rewrite Et|apply Hwr2|apply enc_nonempty].
  - rewrite <-Et. eapply stored_keeps; [apply Hins|]. eapply stored_keeps; [|exact Hst'].
    unfold db2. destruct (_ <? 32); [|done]. apply (wrote_forceKill sha3), Hwr.
Qed.

Lemma init_opens db : nd_inv db -> seenClear sha3 (RLPNull :: nd_seen db) ->
  opens (init_ sha3 db).1 (init_ sha3 db).2 [] /\ wrote sha3 [RLPNull] db (init_ sha3 db).1.
Proof.
  intros Hi Hc. cbn [init_ forceInsertNode fst snd].
  assert (wrote sha3 [RLPNull] db (nd_insert db (sha3 RLPNull) RLPNull)) as Hw.
  { split; [by apply nd_insert_inv|apply nd_insert_seen|]. intros h Hh. by apply nd_insert_old. }
  split; [|done]. split; [apply Hw|constructor|constructor|done| |done]. by apply nd_insert_same.
Qed.

End Store.

(** ** A sequence of insertions *)

Section Sequence.
Context {DB : Type} `{NodeDB DB} (sha3 : bytes -> bytes) `{!NodeDBLaws DB sha3}.
Hypothesis Hsha3 : forall d, wf_bytes (sha3 d) /\ length (sha3 d) = 32%nat.

Fixpoint inserts (db : DB) (root : bytes) (l : BytesMap) : res (DB * bytes) :=
  match l with
  | [] => Ok (db, root)
  | (k, v) :: l' => '(db1, root1) ← trie_insert_ sha3 db root k v; inserts db1 root1 l'
  end.

(** The nodes it writes, the last one first *)
Fixpoint insertsWrites (m : BytesMap) (l : BytesMap) : list bytes :=
  match l with
  | [] => []
  | (k, v) :: l' => insertsWrites (mapAssign k v m) l' ++ insertWrites sha3 m k v
  end.

Lemma inserts_opens db root m l : opens sha3 db root m -> Forall entryOk l ->
  seenClear sha3 (insertsWrites m l ++ nd_seen db) ->
  exists db' root', inserts db root l = Ok (db', root') /\ opens sha3 db' root' (assignAll l m) /\
    wrote sha3 (insertsWrites m l) db db'.
Proof.
  intros Ho Hl. revert db root m Ho. induction Hl as [|[k v] l He Hl IH]; intros db root m Ho Hc; cbn [inserts insertsWrites] in *.
  { exists db, root. split_and!; [done|done|]. apply wrote_refl, Ho. }
  destruct (insert_opens sha3 Hsha3 db root m k v) as (db1 & root1 & -> & Ho1 & Hw1); [done|done|by eapply clear_part|].
  destruct (IH db1 root1 (mapAssign k v m)) as (db2 & root2 & E & Ho2 & Hw2); [done|by eapply clear_after|].
  rewrite bind_Ok_l. exists db2, root2. split_and!; [done|done|by eapply wrote_trans].
Qed.
End Sequence.

(** The order of assignments to different keys does not matter. *)
Lemma trieOf_perm l l' : Forall entryOk l -> NoDup l.*1 -> l ≡ₚ l' -> trieOf (assignAll l []) = trieOf (assignAll l' []).
Proof.
  intros Hl Hn Hp. assert (Forall entryOk l') as Hl' by by rewrite <-Hp. assert (NoDup l'.*1) as Hn' by by rewrite <-Hp.
  assert (forall l, Forall entryOk l -> wfMap (assignAll l [])) as Hwf.
  { clear. intros l Hl. apply assignAll_wfMap; [done|constructor]. }
  apply sound_unique; [by apply trieOf_sound, Hwf|by apply trieOf_sound, Hwf|]. intros p Hp'.
  rewrite !trieOf_get by done.
  assert (forall l, Forall entryOk l -> forall q, q ∉ asNibbles <$> l.*1 -> valueAt (byPath (assignAll l [])) q = []) as Habs.
  { clear. intros l Hl q Hq. apply valueAt_absent. unfold byPath. rewrite List.Forall_map.
    assert (Forall (fun e => e.1 ∈ l.*1) (assignAll l [])) as Hk.
    { apply (assignAll_keys (fun k => k ∈ l.*1)); [|constructor]. apply List.Forall_forall. intros e He. by apply list_elem_of_fmap_2, list_elem_of_In. }
    eapply Forall_impl; [|exact Hk]. intros e He E. cbn [fst] in E. apply Hq. rewrite <-E. by apply list_elem_of_fmap_2. }
  destruct (decide (p ∈ asNibbles <$> l.*1)) as [Hin|Hout].
  - apply list_elem_of_fmap in Hin as (k & -> & Hk). apply list_elem_of_fmap in Hk as ([k' v] & -> & Hkv). cbn [fst] in *.
    assert (wf_bytes k') as Hkb by (rewrite list_elem_of_In in Hkv; by destruct (proj1 (List.Forall_forall _ _) Hl _ Hkv)).
    rewrite !byPath_value by auto. rewrite (assignAll_value l [] k' v), (assignAll_value l' [] k' v); (done || (by constructor) || by rewrite <-Hp).
  - rewrite !Habs; [done|done|by rewrite <-Hp|done|done].
Qed.

(** ** Properties *)

(** C10: inserting into a stored trie is assigning to the map it stands for: with
    nodes whose hashes differ, the insertion succeeds, the new root is that of
    the map with the entry, the same one that [hash256] computes from the whole
    map, every key is read back from the new trie as from that map, and every
    trie that could be opened before, under any root, still can. *)
Theorem trie_insert_refines {DB : Type} `{NodeDB DB} (sha3 : bytes -> bytes) `{!NodeDBLaws DB sha3}
  (db : DB) (root : bytes) (m : BytesMap) (key value : bytes)
  (Hsha3 : forall d, wf_bytes (sha3 d) /\ length (sha3 d) = 32%nat)
  (Ho : opens sha3 db root m) (He : entryOk (key, value))
  (Hc : seenClear sha3 (insertWrites sha3 m key value ++ nd_seen db)) :
  (forall k, wf_bytes k -> sizeZ k < 2 ^ 29 -> trie_lookup db root k = Ok (valueAt m k)) /\
  exists db' root', trie_insert_ sha3 db root key value = Ok (db', root') /\
    opens sha3 db' root' (mapAssign key value m) /\
    hash256 sha3 (mapAssign key value m) = Ok root' /\
    (forall k, wf_bytes k -> sizeZ k < 2 ^ 29 ->
       trie_lookup db' root' k = Ok (if decide (k = key) then value else valueAt m k)) /\
    forall r m', opens sha3 db r m' -> opens sha3 db' r m'.
Proof.
  split; [intros; by apply (lookup_opens sha3 Hsha3)|].
  destruct (insert_opens sha3 Hsha3 db root m key value Ho He Hc) as (db' & root' & E & Ho' & Hw).
  exists db', root'. split_and!; [done|done|by eapply opens_hash| |].
  - intros k Hk Hs. rewrite (lookup_opens sha3 Hsha3 db' root' _ k Ho') by done. by rewrite mapAssign_value by apply Ho.
  - intros r m'. apply opens_keeps; apply Hw.
Qed.

(** C13: a trie that is built up entry by entry from the empty one has the root that
    [hash256] computes from the finished map, whatever the order of the entries:
    permuting entries with different keys gives the same root. *)
Theorem trie_root_of_inserts {DB : Type} `{NodeDB DB} (sha3 : bytes -> bytes) `{!NodeDBLaws DB sha3}
  (db : DB) (l l' : BytesMap)
  (Hsha3 : forall d, wf_bytes (sha3 d) /\ length (sha3 d) = 32%nat)
  (Hi : nd_inv db) (Hl : Forall entryOk l) (Hn : NoDup l.*1) (Hp : l ≡ₚ l')
  (Hc : seenClear sha3 (insertsWrites sha3 [] l ++ RLPNull :: nd_seen db))
  (Hc' : seenClear sha3 (insertsWrites sha3 [] l' ++ RLPNull :: nd_seen db)) :
  exists db1 db1' root,
    inserts sha3 (init_ sha3 db).1 (init_ sha3 db).2 l = Ok (db1, root) /\
    inserts sha3 (init_ sha3 db).1 (init_ sha3 db).2 l' = Ok (db1', root) /\
    hash256 sha3 (assignAll l []) = Ok root /\ hash256 sha3 (assignAll l' []) = Ok root /\
    forall k v, (k, v) ∈ l -> trie_lookup db1 root k = Ok v /\ trie_lookup db1' root k = Ok v.
Proof.
  destruct (init_opens sha3 db Hi) as [Ho Hw].
  { eapply seenClear_sub; [|exact Hc]. intros x Hx. apply elem_of_app. by right. }
  assert (forall ws, seenClear sha3 (ws ++ RLPNull :: nd_seen db) -> seenClear sha3 (ws ++ nd_seen (init_ sha3 db).1)) as Hcl
    by (intros ws; by rewrite (wrote_seen _ _ _ _ Hw)).
  assert (Forall entryOk l') as Hl' by by rewrite <-Hp.
  destruct (inserts_opens sha3 Hsha3 _ _ [] l Ho Hl) as (db1 & r & E & Ho1 & _); [by apply Hcl|].
  destruct (inserts_opens sha3 Hsha3 _ _ [] l' Ho Hl') as (db1' & r' & E' & Ho1' & _); [by apply Hcl|].
  assert (r' = r) as -> by (rewrite (opens_root _ _ _ _ Ho1), (opens_root _ _ _ _ Ho1'); by rewrite (trieOf_perm l l')).
  exists db1, db1', r. split_and!; [done|done|by eapply opens_hash|by eapply opens_hash|].
  intros k v Hkv. assert (entryOk (k, v)) as (Hk & Hs & _)
    by (rewrite list_elem_of_In in Hkv; exact (proj1 (List.Forall_forall _ _) Hl _ Hkv)). cbn [fst] in *.
  rewrite (lookup_opens sha3 Hsha3 db1 r _ k Ho1), (lookup_opens sha3 Hsha3 db1' r _ k Ho1') by done.
  rewrite (assignAll_value l [] k v), (assignAll_value l' [] k v); (done || (by constructor) || (by rewrite <-Hp) || idtac).
Qed.

(** *** Witnesses *)

(** A hash that tells the nodes below apart *)
Definition mixHash (d : bytes) : bytes :=
  let h := foldl (fun a b => Z.land (a * 257 + b + 1) (Z.ones 64)) 1 d in
  map (fun i => Z.land (Z.shiftr h (8 * i)) 255) (seqZ 0 32).

Lemma mixHash_ok d : wf_bytes (mixHash d) /\ length (mixHash d) = 32%nat.
Proof.
  split; [|done]. unfold mixHash, wf_bytes. rewrite List.Forall_map. apply List.Forall_forall. intros i _.
  change 255 with (Z.ones 8). rewrite Z.land_ones by lia. apply Z.mod_pos_bound. lia.
Qed.

Definition seenClearb (sha3 : bytes -> bytes) (l : list bytes) : bool :=
  let hs := map (fun a => (a, sha3 a)) l in
  forallb (fun a => forallb (fun b => negb (bool_decide (a.2 = b.2)) || bool_decide (a.1 = b.1)) hs) hs.

Lemma seenClearb_ok sha3 l : seenClearb sha3 l = true -> seenClear sha3 l.
Proof.
  unfold seenClearb. intros E a b Ha%list_elem_of_In Hb%list_elem_of_In Hab. rewrite forallb_forall in E.
  specialize (E (a, sha3 a) (in_map (fun a => (a, sha3 a)) _ _ Ha)). rewrite forallb_forall in E.
  specialize (E (b, sha3 b) (in_map (fun a => (a, sha3 a)) _ _ Hb)). cbn [fst snd] in E.
  rewrite bool_decide_eq_true_2 in E by done. by apply bool_decide_eq_true in E.
Qed.

Definition sample : BytesMap :=
  [([1; 35; 69], [1; 2; 3]); ([1; 35; 70], replicate 40 5); ([17; 1; 1], [7]); ([1; 35], replicate 33 9)].

Lemma sample_ok : Forall entryOk sample.
Proof. repeat constructor; done. Qed.

Lemma trie_root_of_inserts_witness :
  exists db db' root, inserts mixHash (init_ mixHash emptyMemoryDB).1 (init_ mixHash emptyMemoryDB).2 sample = Ok (db, root) /\
    inserts mixHash (init_ mixHash emptyMemoryDB).1 (init_ mixHash emptyMemoryDB).2 (reverse sample) = Ok (db', root) /\
    trie_lookup db root [1; 35] = Ok (replicate 33 9).
Proof.
  destruct (trie_root_of_inserts mixHash (NodeDBLaws0 := MemoryDB_laws mixHash) emptyMemoryDB sample (reverse sample) mixHash_ok (memInv_empty _) sample_ok)
    as (db & db' & root & E & E' & _ & _ & Hl).
  - apply (bool_decide_unpack _). vm_compute. reflexivity.
  - symmetry. apply reverse_Permutation.
  - apply seenClearb_ok. vm_compute. reflexivity.
  - apply seenClearb_ok. vm_compute. reflexivity.
  - exists db, db', root. split_and!; [done|done|]. apply Hl. by apply (list_elem_of_lookup_2 _ 3%nat).
Defined.

Lemma trie_insert_refines_witness :
  let db := (init_ mixHash emptyMemoryDB).1 in let root := (init_ mixHash emptyMemoryDB).2 in
  exists db' root', trie_insert_ mixHash db root [1; 35] (replicate 33 9) = Ok (db', root') /\
    hash256 mixHash [([1; 35], replicate 33 9)] = Ok root' /\ trie_lookup db' root' [1; 35] = Ok (replicate 33 9).
Proof.
  intros db root.
  destruct (init_opens mixHash (NodeDBLaws0 := MemoryDB_laws mixHash) emptyMemoryDB (memInv_empty _)) as [Ho _]; [apply seenClearb_ok; vm_compute; reflexivity|].
  destruct (trie_insert_refines mixHash (NodeDBLaws0 := MemoryDB_laws mixHash) db root [] [1; 35] (replicate 33 9) mixHash_ok Ho) as [_ (db' & root' & E & _ & Eh & Hl & _)].
  - repeat constructor; done.
  - apply seenClearb_ok. vm_compute. reflexivity.
  - exists db', root'. split_and!; [done|done|]. apply (Hl [1; 35]); [by repeat constructor|done].
Defined.
