(* ===== verification/TrieDBRemove.v ===== *)
(** * Removing from the trie

    [GenericTrieDB::remove] for keys of one length, which is how the client uses
    the trie: every key of the state and of a storage is a hash.  (With keys that
    begin one another [deleteAt] goes wrong; see the findings of the manifest.)
    As for the insertion, [deleteAt] is followed by a function on abstract tries. *)

From Stdlib Require Import ZArith Lia Sorted.
From stdpp Require Import base list list_numbers option.
From S2P Require Import Prelude CommonData RLP RLPTheory FixedHash TrieCommon Trie TrieHash TrieHashTheory MemoryDB TrieDB TrieDBTheory TrieDBInsert.

(** ** Tries whose keys all have [n] nibbles *)

Fixpoint uniform (n : nat) (t : trie) : Prop :=
  match t with
  | TEmpty => True
  | TLeaf p _ => length p = n
  | TExt p c => exists m, n = (length p + m)%nat /\ uniform m c
  | TBranch cs v =>
      v = [] /\
      match n with
      | O => False
      | S m => (fix go l := match l with [] => True | x :: xs => uniform m x /\ go xs end) cs
      end
  end.

Lemma uniform_branch n cs v : uniform n (TBranch cs v) <-> v = [] /\ exists m, n = S m /\ Forall (uniform m) cs.
Proof.
  cbn [uniform]. f_equiv. destruct n as [|n].
  { split; [done|]. by intros (m & ? & _). }
  assert ((fix go l := match l with [] => True | x :: xs => uniform n x /\ go xs end) cs <-> Forall (uniform n) cs) as ->.
  { induction cs as [|c cs IH]; [by split|]. rewrite IH. split; [by intros []; constructor|by intros [? ?]%Forall_cons_1]. }
  split; [by eexists|]. by intros (m & [= <-] & ?).
Qed.

Lemma uniform_child n cs v x : uniform (S n) (TBranch cs v) -> uniform n (child cs x).
Proof. intros (_ & m & [= <-] & Hc)%uniform_branch. by apply child_Forall. Qed.

Lemma uniform_of_keys t n : sound t -> (forall k, Forall is_nibble k -> get t k <> [] -> length k = n) -> uniform n t.
Proof.
  revert n. induction t as [|p v|p c IH|cs v IH] using trie_nested_ind; intros n Hs Hk.
  - done.
  - destruct Hs as [[[Hp _] _] Hc]. apply (Hk p Hp). cbn [get]. by rewrite decide_True.
  - destruct Hs as [[[[Hp _] _] Hw] (_ & Hb & Hc)]. exists (n - length p)%nat.
    destruct (sound_inhabited c) as (k & Hkn & Hg); [done|by destruct c|].
    assert (length (p ++ k) = n) as Hl.
    { apply Hk; [apply Forall_app; by split|]. by rewrite get_ext. }
    rewrite length_app in Hl. split; [lia|]. apply IH; [done|]. intros k' Hk' Hg'.
    enough (length (p ++ k') = n) as E by (rewrite length_app in E; lia).
    apply Hk; [apply Forall_app; by split|]. by rewrite get_ext.
  - destruct (sound_branch_key cs v Hs) as (x & k & Hx & Hkn & Hg). pose proof (Hk _ (Forall_cons_2 _ _ _ Hx Hkn) Hg) as Hn.
    cbn in Hn. apply uniform_branch. split.
    { destruct v as [|b v]; [done|]. specialize (Hk [] (Forall_nil_2 _) ltac:(done)). cbn in Hk. lia. }
    exists (length k). split; [done|]. pose proof (proj1 Hs) as (Hl & _ & _)%wfTrie_branch.
    apply (Forall_children _ cs Hl). intros y Hy.
    assert (forall k', Forall is_nibble k' -> get (child cs y) k' <> [] -> length k' = length k) as Hky.
    { intros k' Hk' Hg'. rewrite <-(get_branch cs v y) in Hg'. specialize (Hk _ (Forall_cons_2 _ _ _ Hy Hk') Hg'). cbn in Hk. lia. }
    unfold child in *. destruct (nth_in_or_default (Z.to_nat y) cs TEmpty) as [Hin|E]; [|by rewrite E].
    refine (proj1 (List.Forall_forall _ _) IH _ Hin _ _ Hky). by apply (sound_child cs v y).
Qed.

Lemma uniform_get n t k : uniform n t -> get t k <> [] -> length k = n.
Proof.
  revert n k. induction t as [|p v|p c IH|cs v IH] using trie_nested_ind; intros n k Hu Hg.
  - done.
  - cbn [get] in Hg. destruct (decide (p = k)) as [<-|]; [done|done].
  - destruct (get_ext_prefix p c k Hg) as [r ->]. rewrite get_ext in Hg. destruct Hu as (m & -> & Hu).
    rewrite length_app. by rewrite (IH m r).
  - apply uniform_branch in Hu as (-> & m & -> & Hu). destruct k as [|x k]; [done|]. rewrite get_branch in Hg. cbn. f_equal.
    unfold child in Hg. destruct (nth_in_or_default (Z.to_nat x) cs TEmpty) as [Hin|E]; [|by rewrite E in Hg].
    refine (proj1 (List.Forall_forall _ _) IH _ Hin _ _ _ Hg). exact (proj1 (List.Forall_forall _ _) Hu _ Hin).
Qed.

(** ** The removal on tries *)

(** A path on top of a node that is not empty *)
Definition joinT (p : list Z) (c : trie) : trie :=
  match c with
  | TLeaf q v => TLeaf (p ++ q) v
  | TExt q d => TExt (p ++ q) d
  | c => TExt p c
  end.

Definition usedNibbles (cs : list trie) : list Z := filter (fun y => child cs y <> TEmpty) (seqZ 0 16).

Definition collapseT (cs : list trie) (v : bytes) : trie :=
  match usedNibbles cs with [y] => joinT [y] (child cs y) | _ => TBranch cs v end.

Section DelT.
Context (sha3 : bytes -> bytes).

(** [None] when the key is not there; otherwise the trie without it and the nodes
    that are written *)
Fixpoint delT (t : trie) (k : list Z) : option (trie * list bytes) :=
  match t with
  | TEmpty => None
  | TLeaf p _ => if decide (p = k) then Some (TEmpty, []) else None
  | TExt p c =>
      match stripPrefix p k with
      | Some k' => '(c', ws) ← delT c k'; Some (joinT p c', wr sha3 c' ++ ws)
      | None => None
      end
  | TBranch cs v =>
      match k with
      | [] => None
      | x :: k' =>
          '(c', ws) ← nth (Z.to_nat x) (map delT cs) (fun _ => None) k';
          Some (collapseT (<[Z.to_nat x := c']> cs) v, wr sha3 c' ++ ws)
      end
  end.

Lemma delT_branch cs v x k : delT (TBranch cs v) (x :: k) =
  ('(c', ws) ← delT (child cs x) k; Some (collapseT (<[Z.to_nat x := c']> cs) v, wr sha3 c' ++ ws)).
Proof.
  cbn [delT]. unfold child. change (fun _ : list Z => @None (trie * list bytes)) with (delT TEmpty). by rewrite map_nth.
Qed.

Lemma delT_branch_Some cs v x k c' ws : delT (child cs x) k = Some (c', ws) ->
  delT (TBranch cs v) (x :: k) = Some (collapseT (<[Z.to_nat x := c']> cs) v, wr sha3 c' ++ ws).
Proof. intros E. by rewrite delT_branch, E. Qed.

Lemma delT_branch_None cs v x k : delT (child cs x) k = None -> delT (TBranch cs v) (x :: k) = None.
Proof. intros E. by rewrite delT_branch, E. Qed.

Lemma used_spec cs y : is_nibble y -> y ∈ usedNibbles cs <-> child cs y <> TEmpty.
Proof.
  intros Hy. unfold usedNibbles. rewrite list_elem_of_filter, elem_of_seqZ. unfold is_nibble in Hy.
  split; [by intros []|]. intros Hc. split; [done|lia].
Qed.

Lemma used_nibble cs y : y ∈ usedNibbles cs -> is_nibble y /\ child cs y <> TEmpty.
Proof. unfold usedNibbles. rewrite list_elem_of_filter, elem_of_seqZ. unfold is_nibble. intros [Hc Hy]. split; [lia|done]. Qed.

Lemma used_NoDup cs : NoDup (usedNibbles cs).
Proof. apply list.NoDup_filter, NoDup_seqZ. Qed.

(** A branch with fewer or more than one child in use that has one for every
    nibble but one is canonical. *)
Lemma used_forks cs y : is_nibble y -> child cs y <> TEmpty -> (forall z, usedNibbles cs <> [z]) -> forks cs [].
Proof.
  intros Hy Hc Hz. apply (used_spec cs y Hy) in Hc as Hin. pose proof (used_NoDup cs) as Hnd.
  split; [by exists y|]. intros x. right. destruct (decide (x = y)) as [->|Hne]; [|by exists y].
  destruct (usedNibbles cs) as [|a [|b l]] eqn:E; [by apply not_elem_of_nil in Hin|by destruct (Hz a)|].
  assert (exists z, z ∈ usedNibbles cs /\ z <> y) as (z & Hzu & Hzy).
  { rewrite E. apply list.NoDup_cons in Hnd as [Hab _]. destruct (decide (a = y)) as [->|].
    - exists b. split; [by apply elem_of_cons; right; apply elem_of_cons; left|]. intros ->. apply Hab. by apply elem_of_cons; left.
    - exists a. split; [by apply elem_of_cons; left|done]. }
  apply used_nibble in Hzu as [Hzn Hzc]. by exists z.
Qed.

Lemma joinT_sound p c : Forall is_nibble p -> p <> [] -> sound c -> c <> TEmpty ->
  (forall n, uniform n c -> Z.of_nat (length p + n) < 2 ^ 30 -> sound (joinT p c)).
Proof.
  intros Hp Hpn [Hw Hc] Hne n Hu Hn. assert (forall q, Forall is_nibble q -> (length q <= n)%nat -> wfPath (p ++ q)) as Hpath.
  { intros q Hq Hl. split; [apply Forall_app; by split|]. unfold sizeZ. rewrite length_app. lia. }
  destruct c as [|q v|q d|cs v]; [done| | |]; cbn [joinT].
  - destruct Hw as [[Hq _] Hv]. cbn in Hu. split; [split; [apply Hpath; [done|lia]|done]|done].
  - destruct Hw as [[[Hq _] Hqn] Hd]. destruct Hc as (_ & Hb & Hcd). destruct Hu as (m & -> & Hu).
    split; [|by split; [destruct p|]]. split; [|done]. split; [apply Hpath; [done|lia]|by destruct p].
  - split; [|by split_and!]. split; [|done]. split; [|done]. rewrite <-(app_nil_r p). apply Hpath; [constructor|cbn; lia].
Qed.

Lemma joinT_uniform p c m : uniform m c -> uniform (length p + m) (joinT p c).
Proof.
  destruct c as [|q v|q d|cs v]; cbn [joinT]; intros Hu.
  - by exists m.
  - cbn. rewrite length_app. cbn in Hu. lia.
  - destruct Hu as (m' & -> & Hu). exists m'. rewrite length_app. split; [lia|done].
  - by exists m.
Qed.

Lemma joinT_get p c k : c <> TEmpty -> get (joinT p c) k = get (TExt p c) k.
Proof.
  intros Hne. destruct c as [|q v|q d|cs v]; cbn [joinT get]; [done| | |done].
  - destruct (stripPrefix p k) as [r|] eqn:E.
    + apply stripPrefix_Some in E as ->. destruct (decide (q = r)) as [->|]; [by rewrite decide_True|].
      rewrite decide_False; [done|]. by intros ?%app_inv_head.
    + rewrite decide_False; [done|]. intros <-. by rewrite stripPrefix_app in E.
  - destruct (stripPrefix p k) as [r|] eqn:E.
    + apply stripPrefix_Some in E as ->. destruct (stripPrefix q r) as [r'|] eqn:E'.
      * apply stripPrefix_Some in E' as ->. by rewrite app_assoc, stripPrefix_app.
      * destruct (stripPrefix (p ++ q) (p ++ r)) as [r''|] eqn:E''; [|done].
        apply stripPrefix_Some in E''. rewrite <-app_assoc in E''. apply app_inv_head in E'' as ->. by rewrite stripPrefix_app in E'.
    + destruct (stripPrefix (p ++ q) k) as [r|] eqn:E'; [|done]. apply stripPrefix_Some in E' as ->.
      by rewrite <-app_assoc, stripPrefix_app in E.
Qed.

(** *** What the removal gives *)

Definition removed (n : nat) (t : trie) (k : list Z) (t' : trie) : Prop :=
  sound t' /\ uniform n t' /\ (isBranch t -> t' <> TEmpty) /\ get t k <> [] /\
  forall k', Forall is_nibble k' -> get t' k' = if decide (k' = k) then [] else get t k'.

Lemma collapse_spec cs m y : length cs = 16%nat -> Forall sound cs -> Forall (uniform m) cs ->
  is_nibble y -> child cs y <> TEmpty -> Z.of_nat (S m) < 2 ^ 30 ->
  sound (collapseT cs []) /\ uniform (S m) (collapseT cs []) /\ collapseT cs [] <> TEmpty /\
  forall k, Forall is_nibble k -> get (collapseT cs []) k = get (TBranch cs []) k.
Proof.
  intros Hl Hs Hu Hy Hc Hm. unfold collapseT.
  assert (sound (TBranch cs []) \/ exists z, usedNibbles cs = [z]) as Hor.
  { destruct (usedNibbles cs) as [|z [|z' l]] eqn:E; [|right; by exists z|]; left.
    all: split; [apply wfTrie_branch; split_and!; [done|by split; [apply Forall_nil_2|]|eapply Forall_impl; [|exact Hs]; by intros c []]|].
    all: apply canonical_branch; split; [|eapply Forall_impl; [|exact Hs]; by intros c []].
    all: apply (used_forks cs y Hy Hc); intros ?; by rewrite E. }
  assert (uniform (S m) (TBranch cs [])) as Hub by (apply uniform_branch; split; [done|]; by exists m).
  destruct (usedNibbles cs) as [|z [|z' l]] eqn:E; [destruct Hor as [?|[? ?]]; by split_and!| |destruct Hor as [?|[? ?]]; by split_and!].
  assert (z ∈ usedNibbles cs) as Hz by (rewrite E; by apply elem_of_cons; left). apply used_nibble in Hz as [Hzn Hzc].
  assert (sound (child cs z)) as Hsz by by apply child_Forall. assert (uniform m (child cs z)) as Huz by by apply child_Forall.
  split_and!.
  - apply (joinT_sound [z] (child cs z) ltac:(by apply Forall_singleton) ltac:(done) Hsz Hzc m Huz). cbn. lia.
  - by apply (joinT_uniform [z] (child cs z) m).
  - by destruct (child cs z).
  - intros k Hk. rewrite joinT_get by done. destruct k as [|x k]; [done|]. rewrite get_branch. cbn [get stripPrefix].
    destruct (Z.eqb_spec z x) as [->|Hne]; [done|]. apply Forall_cons_1 in Hk as [Hx _].
    destruct (decide (child cs x = TEmpty)) as [->|Hcx]; [done|]. apply (used_spec cs x Hx) in Hcx. rewrite E in Hcx.
    by apply list_elem_of_singleton in Hcx.
Qed.

Lemma delT_spec t n k : sound t -> uniform n t -> wfPath k -> length k = n ->
  match delT t k with Some (t', _) => removed n t k t' | None => get t k = [] end.
Proof.
  revert n k. induction t as [|p v|p c IH|cs v IH] using trie_nested_ind; intros n k Hs Hu Hk Hn.
  - done.
  - cbn [delT get]. destruct (decide (p = k)) as [<-|]; [|done]. split_and!; try done; [cbn; by rewrite decide_True; [apply Hs|]|].
    intros k' _. cbn. by repeat case_decide.
  - cbn [delT]. destruct Hs as [[[Hp Hpn] Hw] (_ & Hb & Hc)]. destruct Hu as (m & -> & Hu).
    destruct (stripPrefix p k) as [r|] eqn:Er; [|by cbn [get]; rewrite Er]. apply stripPrefix_Some in Er as ->.
    rewrite length_app in Hn. pose proof (proj2 (wfPath_app _ _ Hk)) as Hr.
    specialize (IH m r (conj Hw Hc) Hu Hr ltac:(lia)). destruct (delT c r) as [[c' ws]|]; [|by cbn; rewrite stripPrefix_app].
    destruct IH as (Hs' & Hu' & Hne & Hg & Hgk). specialize (Hne Hb). cbn [option_bind mbind option_bind]. split_and!; try done.
    + eapply (joinT_sound p c'); [apply Hp|done|done|done|exact Hu'|]. destruct Hk as [_ Hk]. unfold sizeZ in Hk.
      rewrite length_app in Hk. lia.
    + by apply joinT_uniform.
    + by rewrite get_ext.
    + intros k' Hk'. rewrite joinT_get by done. cbn [get]. destruct (stripPrefix p k') as [r'|] eqn:Er'.
      * apply stripPrefix_Some in Er' as ->. apply Forall_app in Hk' as [_ Hr']. rewrite Hgk by done.
        destruct (decide (r' = r)) as [->|]; [by rewrite decide_True|]. rewrite decide_False; [done|]. by intros ?%app_inv_head.
      * rewrite decide_False; [done|]. intros ->. by rewrite stripPrefix_app in Er'.
  - pose proof (proj1 (uniform_branch _ _ _) Hu) as (-> & m & -> & Huc). destruct k as [|x k]; [done|]. injection Hn as Hn.
    rewrite delT_branch. pose proof Hk as [[Hx _]%Forall_cons_1 _]. rewrite get_branch.
    assert (match delT (child cs x) k with Some (t', _) => removed m (child cs x) k t' | None => get (child cs x) k = [] end) as IHx.
    { destruct (nth_in_or_default (Z.to_nat x) cs TEmpty) as [Hin|E]; [|unfold child; by rewrite E].
      refine (proj1 (List.Forall_forall _ _) IH _ Hin m k _ _ _ Hn);
        [by apply (sound_child cs [] x)|by apply (uniform_child m cs [] x)|by apply (wfPath_app [x])]. }
    clear IH. destruct (delT (child cs x) k) as [[c' ws]|]; [|done]. destruct IHx as (Hs' & Hu' & _ & Hg & Hgk).
    cbn [option_bind mbind option_bind]. pose proof (proj1 Hs) as (Hl & _ & _)%wfTrie_branch.
    pose proof (proj2 Hs) as [[_ Hf] _]%canonical_branch. destruct (Hf x) as [|(y & Hy & Hyx & Hyc)]; [done|].
    destruct (collapse_spec (<[Z.to_nat x:=c']> cs) m y) as (Hsc & Huc' & Hne & Hgc); [by rewrite length_insert| | |done| | |].
    + apply Forall_insert; [|done]. apply (Forall_children _ cs Hl). intros z _. by apply (sound_child cs [] z).
    + by apply Forall_insert.
    + by rewrite child_insert, decide_False by done.
    + destruct Hk as [_ Hk]. unfold sizeZ in Hk. cbn [length] in Hk. rewrite Hn in Hk. lia.
    + split_and!; try done; [by rewrite get_branch|]. intros k' Hk'. rewrite Hgc by done.
      destruct k' as [|z k']; [done|]. apply Forall_cons_1 in Hk' as [Hz Hk']. rewrite !get_branch, child_insert by done.
      destruct (decide (z = x)) as [->|]; [|by rewrite decide_False by congruence]. rewrite Hgk by done.
      destruct (decide (k' = k)) as [->|]; [by rewrite decide_True|by rewrite decide_False by congruence].
Qed.

End DelT.

(** ** The code follows it *)

Section Sim.
Context {DB : Type} `{NodeDB DB} (sha3 : bytes -> bytes) `{!NodeDBLaws DB sha3}.
Hypothesis Hsha3 : forall d, wf_bytes (sha3 d) /\ length (sha3 d) = 32%nat.

Abbreviation ref t := (refItem sha3 (nodeItem sha3 t)).
Abbreviation clearFor ws db := (seenClear sha3 (ws ++ nd_seen db)).
Abbreviation present := (present sha3).
Abbreviation stored := (stored sha3).
Abbreviation linked := (linked sha3).
Abbreviation wrote := (wrote sha3).
Abbreviation wr := (wr sha3).

Definition isPairb (t : trie) : bool := match t with TLeaf _ _ | TExt _ _ => true | _ => false end.

Lemma isTwoItem_ok db c : wfTrie c -> c <> TEmpty -> present db c ->
  isTwoItemNode db (encode (ref c)) = Ok (isPairb c).
Proof.
  intros Hw Hne Hp. pose proof (smallItem_good _ (ref_small sha3 Hsha3 c Hw)) as Hg. unfold isTwoItemNode.
  rewrite isData_item, <-isList_item, ref_isList, bool_decide_eq_false_2 by done. cbn [negb andb].
  assert ((match c with TBranch _ _ => 17 | _ => 2 end =? 2) = isPairb c) as Hc by by destruct c.
  destruct (Z.ltb_spec (sizeZ (enc sha3 c)) 32); cbn [negb].
  - rewrite bind_Ok_l, ref_inline, enc_count, bind_Ok_l by done. by rewrite Hc.
  - rewrite ref_hash, bind_Ok_l, (nodeRLP_ok sha3 Hsha3), bind_Ok_l, enc_count, !bind_Ok_l by done. rewrite Hc. by destruct (isPairb c).
Qed.

Lemma joinT_facts p c : isPair c ->
  isPair (joinT p c) /\ leafOf (joinT p c) = leafOf c /\ pathOf (joinT p c) = p ++ pathOf c /\
  item1 sha3 (joinT p c) = item1 sha3 c.
Proof. by destruct c. Qed.

Lemma stored_join db p c : c <> TEmpty -> linked db c -> stored db (joinT p c).
Proof. intros Hne [Hp Hs]. by destruct c. Qed.

Lemma graft_ok db p c : wfTrie (TExt p c) -> isPair c -> present db c -> wfTrie (joinT p c) -> nd_inv db ->
  exists db', graft db (enc sha3 (TExt p c)) = Ok (enc sha3 (joinT p c), db') /\ wrote [] db db'.
Proof.
  intros Hw Hpc Hp Hj Hi. pose proof Hw as [[Hwp _] Hwc]. assert (c <> TEmpty) as Hne by by destruct c.
  unfold graft. rewrite enc_count, bind_Ok_l, enc_isList, bool_decide_eq_false_2 by done.
  change (assert_ (negb false && (2 =? 2))) with (@Ok trie_error unit tt).
  rewrite bind_Ok_l, (enc_nth sha3 Hsha3 _ 1 (ref c)), bind_Ok_l by (done || lia).
  rewrite ref_isList, bool_decide_eq_false_2 by done. cbn [negb andb].
  assert (exists db', (if sizeZ (enc sha3 c) <? 32 then Ok (encode (ref c), db)
      else lh ← toHash256 (encode (ref c)); n ← rlp_ (RLP.construct (node db lh) VeryStrict); Ok (n, forceKillNode db lh))
      = Ok (enc sha3 c, db') /\ wrote [] db db') as (db' & -> & Hwr).
  { destruct (Z.ltb_spec (sizeZ (enc sha3 c)) 32).
    - rewrite ref_inline by done. exists db. split; [done|by apply wrote_refl].
    - rewrite ref_hash, bind_Ok_l by done. pose proof (nodeRLP_ok sha3 Hsha3 db c Hwc Hp ltac:(lia)) as E. unfold nodeRLP in E.
      rewrite E, bind_Ok_l. eexists. split; [done|by apply wrote_forceKill]. }
  exists db'. split; [|done]. rewrite bind_Ok_l, enc_count, bind_Ok_l by done.
  assert (assert_ (match c with TBranch _ _ => 17 | _ => 2 end =? 2) = Ok tt) as -> by by destruct c.
  destruct (enc_keyOf sha3 Hsha3 (TExt p c) Hw I) as (s & -> & Hs). destruct (enc_keyOf sha3 Hsha3 c Hwc Hpc) as (s' & E' & Hs').
  rewrite !bind_Ok_l, E', bind_Ok_l, enc_isLeaf, bind_Ok_l, enc_item1, bind_Ok_l by done.
  destruct (joinT_facts p c Hpc) as (Hpj & Hlj & Hpa & Hij). destruct Hs as (Hok & Es & _), Hs' as (Hok' & Es' & _).
  rewrite hexPrefixEncode_slices_hp, Es, Es' by done. cbn [pathOf].
  pose proof (fun A K => @pair_stream sha3 Hsha3 A _ K Hj Hpj) as E. rewrite Hlj, Hpa, Hij in E. apply E.
Qed.

Lemma hexPrefix_nibble i : is_nibble i -> hexPrefixEncode_data [i] false 1 2 0 = hp false [i].
Proof.
  intros Hi. assert (forallb (fun i => bool_decide (hexPrefixEncode_data [i] false 1 2 0 = hp false [i])) (seqZ 0 16) = true) as E
    by (vm_compute; reflexivity).
  rewrite forallb_forall in E. unfold is_nibble in Hi. specialize (E i). rewrite <-list_elem_of_In, elem_of_seqZ in E.
  apply (bool_decide_eq_true _). apply E. lia.
Qed.

Lemma merge_ok cs v y : wfTrie (TBranch cs v) -> is_nibble y -> child cs y <> TEmpty ->
  merge (enc sha3 (TBranch cs v)) y = Ok (enc sha3 (TExt [y] (child cs y))).
Proof.
  intros Hw Hy Hc. pose proof (branch_child_item sha3 cs v y Hw Hy) as Hx. pose proof (wf_child cs v y Hw) as Hwc.
  assert (wfPath [y]) as Hp by (split; [by apply Forall_singleton|done]).
  unfold merge. rewrite enc_count, bind_Ok_l, enc_isList, bool_decide_eq_false_2 by done.
  change (assert_ (negb false && (17 =? 17))) with (@Ok trie_error unit tt). rewrite bind_Ok_l, stream2_ok, bind_Ok_l.
  rewrite (enc_nth sha3 Hsha3 _ y (ref (child cs y))), bind_Ok_l by (done || unfold is_nibble in Hy; lia).
  destruct (Z.eqb_spec y 16); [unfold is_nibble in Hy; lia|]. cbn [negb].
  rewrite ref_isEmpty, bool_decide_eq_false_2 by done. change (assert_ (negb false)) with (@Ok trie_error unit tt).
  rewrite bind_Ok_l, hexPrefix_nibble by done. pose proof (smallItem_hp false [y] Hp) as Hh.
  rewrite putStr_small, bind_Ok_l; [|done|constructor|done|pose proof (hp_size false [y]); change (sizeZ [y]) with 1 in *; lia].
  rewrite putItem_small, bind_Ok_l; [|done|by apply Forall_singleton|by apply ref_small]. by rewrite finish_ok.
Qed.

(** A branch of which one child is left *)
Lemma collapse_sim db cs y : wfTrie (TBranch cs []) -> stored db (TBranch cs []) -> nd_inv db ->
  is_nibble y -> child cs y <> TEmpty -> wfTrie (joinT [y] (child cs y)) ->
  exists db', collapse db (enc sha3 (TBranch cs [])) y = Ok (enc sha3 (joinT [y] (child cs y)), db') /\ wrote [] db db'.
Proof.
  intros Hw Hst Hi Hy Hc Hj. pose proof (wf_child cs [] y Hw) as Hwc. destruct (linked_child sha3 db cs [] y Hst) as [Hp _].
  assert (wfTrie (TExt [y] (child cs y))) as Hwx.
  { split; [split; [split; [by apply Forall_singleton|done]|done]|done]. }
  unfold collapse. rewrite (enc_nth sha3 Hsha3 _ y (ref (child cs y))), bind_Ok_l;
    [|done|by apply branch_child_item|unfold is_nibble in Hy; lia].
  rewrite isTwoItem_ok, bind_Ok_l, merge_ok, bind_Ok_l by done. destruct (isPairb (child cs y)) eqn:E.
  - rewrite enc_construct by done. cbn [rlp_]. rewrite bind_Ok_l. apply graft_ok; try done. by destruct (child cs y).
  - exists db. split; [|by apply wrote_refl]. by destruct (child cs y).
Qed.

Lemma uniqueInUse_loop_ok orig (P : Z -> Prop) `{!forall i, Decision (P i)} is_ used :
  Forall (fun i => i < 255 /\ exists x, nth_ orig i = Ok x /\ RLP.isEmpty x = negb (bool_decide (P i))) is_ -> 0 <= used <= 255 ->
  (forall i, i ∈ is_ -> 0 <= i) ->
  uniqueInUse_loop orig 255 is_ used
  = Ok (match (if used =? 255 then [] else [used]) ++ filter P is_ with [y] => y | _ => 255 end).
Proof.
  intros Hi. revert used. induction Hi as [|i is_ (Hlt & x & Ex & Ee) Hi IH]; intros used Hu Hp; cbn [uniqueInUse_loop].
  { change (filter P []) with (@nil Z). destruct (Z.eqb_spec used 255); [by subst|done]. }
  destruct (Z.eqb_spec i 255); [lia|]. cbn [negb]. rewrite Ex, bind_Ok_l, Ee, negb_involutive.
  assert (0 <= i) as Hi0 by (apply Hp; by apply elem_of_cons; left).
  assert (forall i, i ∈ is_ -> 0 <= i) as Hp' by (intros j Hj; apply Hp; by apply elem_of_cons; right).
  rewrite filter_cons. destruct (decide (P i)) as [Hpi|Hpi].
  - rewrite bool_decide_eq_true_2 by done. destruct (Z.eqb_spec used 255); [|done].
    rewrite wrap_id by (unfold fits; lia). rewrite IH by (done || lia). destruct (Z.eqb_spec i 255); [lia|]. done.
  - rewrite bool_decide_eq_false_2 by done. by apply IH.
Qed.

Lemma uniqueInUse_ok cs : wfTrie (TBranch cs []) ->
  uniqueInUse (enc sha3 (TBranch cs [])) 255 = Ok (match usedNibbles cs with [y] => y | _ => 255 end).
Proof.
  intros Hw. unfold uniqueInUse. rewrite (uniqueInUse_loop_ok _ (fun y => child cs y <> TEmpty)).
  - change (seqZ 0 17) with (seqZ 0 16 ++ [16]). rewrite list.filter_app. cbn [Z.eqb Pos.eqb app]. unfold usedNibbles.
    rewrite (filter_cons_False _ 16 []); [by rewrite app_nil_r|]. intros Hc. apply Hc. unfold child.
    apply nth_overflow. pose proof (proj1 (wfTrie_branch _ _) Hw) as (-> & _). done.
  - apply List.Forall_forall. intros i Hi%list_elem_of_In%elem_of_seqZ. split; [lia|]. destruct (decide (i = 16)) as [->|].
    + exists (encode (Str [])). split; [apply (enc_nth sha3 Hsha3); [done|by apply branch_value_item|lia]|].
      rewrite bool_decide_eq_false_2; [done|]. intros Hc. apply Hc. unfold child. apply nth_overflow.
      pose proof (proj1 (wfTrie_branch _ _) Hw) as (-> & _). done.
    + assert (is_nibble i) as Hn by (unfold is_nibble; lia). exists (encode (ref (child cs i))). split.
      * apply (enc_nth sha3 Hsha3); [done|by apply branch_child_item|lia].
      * rewrite ref_isEmpty by (done || by apply (wf_child cs [])). by repeat case_bool_decide.
  - lia.
  - intros i Hi%elem_of_seqZ. lia.
Qed.

Definition delSim (f : nat) : Prop := forall db t k p,
  sound t -> uniform (length p) t -> stored db t -> nd_inv db -> keyIs k p -> (length p < f)%nat ->
  match delT sha3 t p with
  | None => deleteAt sha3 f db (enc sha3 t) k = Ok ([], db)
  | Some (t', ws) => clearFor ws db ->
      exists db', deleteAt sha3 f db (enc sha3 t) k = Ok (enc sha3 t', db') /\ wrote ws db db' /\ stored db' t'
  end.

Lemma enc_size_pos t : (sizeZ (enc sha3 t) =? 0) = false.
Proof.
  pose proof (enc_nonempty sha3 t). destruct (enc sha3 t) as [|b l]; [done|]. rewrite sizeZ_cons. pose proof (sizeZ_nonneg l).
  by destruct (Z.eqb_spec (1 + sizeZ l) 0); [lia|].
Qed.

Lemma deleteAtAux_sim f db n l c k p : delSim f ->
  sound c -> uniform (length p) c -> linked db c -> nd_inv db -> keyIs k p -> (length p < f)%nat ->
  sizeZ l < n <= 17 -> Forall smallItem l ->
  match delT sha3 c p with
  | None => deleteAtAux sha3 (deleteAt sha3 f) db (listStream n l) (encode (ref c)) k = Ok (None, db)
  | Some (c', ws) => clearFor (wr c' ++ ws) db ->
      exists db', deleteAtAux sha3 (deleteAt sha3 f) db (listStream n l) (encode (ref c)) k
          = Ok (Some (listStream n (l ++ [ref c'])), db') /\
        wrote (wr c' ++ ws) db db' /\ linked db' c'
  end.
Proof.
  intros IH Hs Hu [Hp Hst] Hi Hk Hf Hn Hl. pose proof (proj1 Hs) as Hw. unfold deleteAtAux. rewrite ref_isEmpty by done.
  destruct (decide (c = TEmpty)) as [->|Hne]; [by rewrite bool_decide_eq_true_2 by done|].
  rewrite bool_decide_eq_false_2, (follow_ref sha3 Hsha3), bind_Ok_l by done.
  pose proof (delT_spec sha3 c (length p) p Hs Hu (proj2 (proj2 Hk)) eq_refl) as Hd. specialize (IH db c k p Hs Hu Hst Hi Hk Hf).
  destruct (delT sha3 c p) as [[c' ws]|]; [|by rewrite IH, bind_Ok_l].
  intros Hc. destruct IH as (db1 & -> & Hwr & Hst'); [by eapply clear_part|]. rewrite bind_Ok_l, enc_size_pos.
  destruct Hd as ([Hw' _] & _).
  destruct (streamNode_ok sha3 Hsha3 db1 n l c') as (db2 & -> & Hwr2 & Hpr); [done|apply Hwr|by eapply clear_after|done|done|].
  rewrite bind_Ok_l. exists db2. split_and!; [done|by eapply wrote_trans|]. split; [done|]. eapply stored_keeps; [apply Hwr2|done].
Qed.

Lemma deleteAt_children_app m db orig k is1 is2 r :
  deleteAt_children sha3 m db orig k (is1 ++ is2) r
  = ('(r1, db1) ← deleteAt_children sha3 m db orig k is1 r;
     match r1 with None => Ok (None, db1) | Some r1 => deleteAt_children sha3 m db1 orig k is2 r1 end).
Proof.
  revert db r. induction is1 as [|i is1 IH]; intros db r; cbn [app deleteAt_children]; [done|].
  destruct (nth_ orig i) as [x|e]; cbn; [|done]. destruct (i =? ns_at k 0).
  - destruct (deleteAtAux sha3 m db r x (ns_mid k 1)) as [[[r1|] db1]|e]; cbn; [apply IH|done|done].
  - destruct (putItem r x) as [r1|e]; cbn; [apply IH|done].
Qed.

Lemma deleteAt_children_other m db orig k is_ r : Forall (fun i => i <> ns_at k 0) is_ ->
  deleteAt_children sha3 m db orig k is_ r = (r1 ← putItems orig is_ r; Ok (Some r1, db)).
Proof.
  intros Hi. revert r. induction Hi as [|i is_ Hi His IH]; intros r; cbn [deleteAt_children putItems]; [done|].
  destruct (nth_ orig i) as [x|e]; cbn; [|done]. destruct (Z.eqb_spec i (ns_at k 0)); [done|].
  destruct (putItem r x) as [r1|e]; cbn; [apply IH|done].
Qed.

Lemma deleteAt_children_sim f db cs w k x p : delSim f ->
  let t := TBranch cs w in
  sound t -> uniform (S (length p)) t -> stored db t -> nd_inv db -> keyIs k (x :: p) -> (length p < f)%nat ->
  match delT sha3 (child cs x) p with
  | None => deleteAt_children sha3 (deleteAt sha3 f) db (enc sha3 t) k (seqZ 0 17) (listStream 17 []) = Ok (None, db)
  | Some (c', ws) => clearFor (wr c' ++ ws) db ->
      let t' := TBranch (<[Z.to_nat x := c']> cs) w in
      exists db', deleteAt_children sha3 (deleteAt sha3 f) db (enc sha3 t) k (seqZ 0 17) (listStream 17 [])
          = Ok (Some (listStream 17 (itemsOf sha3 t')), db') /\
        wrote (wr c' ++ ws) db db' /\ stored db' t'
  end.
Proof.
  intros IH t Hs Hu Hst Hi Hk Hf. pose proof (proj1 Hs) as Hw. pose proof (keyIs_head _ _ _ Hk) as Hh.
  pose proof (keyIs_tail _ _ _ Hk) as Hk1. pose proof Hk as (_ & _ & [[Hx _]%Forall_cons_1 _]).
  pose proof (branch_child_item sha3 cs w x Hw Hx) as Hix. pose proof Hx as Hx'. unfold is_nibble in Hx'.
  pose proof (itemsOf_small sha3 Hsha3 _ Hw) as Hsm. pose proof (node_good sha3 Hsha3 _ Hw) as Hg.
  assert (sizeZ (itemsOf sha3 t) = 17) as Hsz by by apply itemsOf_size.
  assert (length (itemsOf sha3 t) = 17%nat) as Hlen by (unfold sizeZ in Hsz; lia).
  pose proof (deleteAtAux_sim f db 17 (take (Z.to_nat x) (itemsOf sha3 t)) (child cs x) (ns_mid k 1) p IH
    ltac:(by apply (sound_child cs w)) ltac:(by apply (uniform_child _ cs w)) ltac:(by apply (linked_child sha3 db cs w))
    Hi Hk1 Hf ltac:(unfold sizeZ; rewrite length_take; lia) ltac:(by apply Forall_take)) as Haux.
  change (seqZ 0 17) with (seqZ 0 (Z.of_nat 17)).
  rewrite (seqZ_split (Z.to_nat x) 17), deleteAt_children_app, deleteAt_children_other by (lia || rewrite Hh; apply seqZ_avoids; lia).
  rewrite (putItems_ok 17 _ (itemsOf sha3 t)); [|done|done|done|rewrite Hsz; apply seqZ_range; lia|lia|unfold sizeZ; rewrite length_seqZ; cbn; lia|constructor].
  rewrite !bind_Ok_l. change (seqZ 0 (Z.of_nat (Z.to_nat x))) with (seqZ (Z.of_nat 0) (Z.of_nat (Z.to_nat x))).
  rewrite items_range, drop_0 by lia. cbn [app deleteAt_children]. rewrite Hh, Z2Nat.id, Z.eqb_refl by lia.
  rewrite (enc_nth sha3 Hsha3 t x (ref (child cs x))), bind_Ok_l by (done || lia).
  pose proof (delT_spec sha3 (child cs x) (length p) p ltac:(by apply (sound_child cs w)) ltac:(by apply (uniform_child _ cs w))
    (proj2 (proj2 Hk1)) eq_refl) as Hd.
  destruct (delT sha3 (child cs x) p) as [[c' ws]|]; [|by rewrite Haux, bind_Ok_l].
  intros Hc. destruct Hd as ([Hwc _] & _). destruct (Haux Hc) as (db' & -> & Hwr & Hl).
  rewrite bind_Ok_l, deleteAt_children_other by (rewrite Hh; apply seqZ_avoids; lia).
  rewrite (putItems_ok 17 _ (itemsOf sha3 t)); [|done|done|done|rewrite Hsz; apply seqZ_range; lia|lia| |].
  2: { unfold sizeZ. rewrite length_seqZ, length_app, length_take. cbn [length]. lia. }
  2: { apply Forall_app. split; [by apply Forall_take|]. by apply Forall_singleton, (ref_small sha3 Hsha3). }
  rewrite !bind_Ok_l, items_range by lia. rewrite (take_ge (drop _ _)) by (rewrite length_drop; lia).
  rewrite <-app_assoc. cbn [app]. unfold t. rewrite <-items_replace by done.
  exists db'. split_and!; [done|done|].
  apply stored_branch, Forall_insert; [|done]. apply stored_branch in Hst. eapply Forall_impl; [|exact Hst].
  intros d. apply linked_keeps. apply Hwr.
Qed.

(** The part of [deleteAt] for an extension whose path begins the key *)
Lemma deleteExt_sim f db q c s k p r : delSim f ->
  let t := TExt q c in
  sound t -> uniform (length p) t -> stored db t -> nd_inv db -> keyIs s q -> keyIs k p -> stripPrefix q p = Some r ->
  (length r < f)%nat ->
  let code :=
    (s0 ← stream2; x0 ← nth_ (enc sha3 t) 0; s1 ← putItem s0 x0; x1 ← nth_ (enc sha3 t) 1;
     '(s2, db1) ← deleteAtAux sha3 (deleteAt sha3 f) db s1 x1 (ns_mid k (ns_size s));
     match s2 with
     | None => Ok ([], db1)
     | Some s2 =>
         let db2 := killNode db1 (enc sha3 t) (sha3 (enc sha3 t)) in
         o ← finish s2;
         r ← rlp_ (RLP.construct o VeryStrict);
         y ← nth_ r 1;
         two ← isTwoItemNode db2 y;
         if (two : bool) then graft db2 r else Ok (o, db2)
     end) in
  match delT sha3 t p with
  | None => code = Ok ([], db)
  | Some (t', ws) => clearFor ws db ->
      exists db', code = Ok (enc sha3 t', db') /\ wrote ws db db' /\ stored db' t'
  end.
Proof.
  intros IH t Hs Hu Hst Hi Hks Hk Hr Hf code. pose proof Hs as [[[Hq Hqn] Hwc] (_ & Hb & Hcc)]. cbn [delT t]. rewrite Hr.
  pose proof (keyIs_mid k p s q r Hk Hks Hr) as Hkr. pose proof (smallItem_hp false q Hq) as Hh.
  destruct Hu as (m & Hm & Hu). pose proof (proj1 (stripPrefix_Some q p r) Hr) as Hp.
  assert (length r = m) as <- by (apply (f_equal length) in Hp; rewrite length_app in Hp; lia).
  pose proof (deleteAtAux_sim f db 2 [Str (hp false q)] c (ns_mid k (ns_size s)) r IH ltac:(done) Hu Hst Hi Hkr Hf
    ltac:(done) ltac:(by apply Forall_singleton)) as Haux.
  pose proof (delT_spec sha3 c (length r) r ltac:(done) Hu (proj2 (proj2 Hkr)) eq_refl) as Hd.
  unfold code. clear code. pose proof (proj1 Hs) as Hw.
  rewrite stream2_ok, bind_Ok_l, (enc_nth sha3 Hsha3 t 0 (Str (hp false q))), bind_Ok_l by (done || lia).
  rewrite putItem_small, bind_Ok_l by (done || by constructor). rewrite app_nil_l, (enc_nth sha3 Hsha3 t 1 (ref c)), bind_Ok_l by (done || lia).
  destruct (delT sha3 c r) as [[c' ws]|]; [|cbn; by rewrite Haux].
  cbn [option_bind mbind]. intros Hc. destruct (Haux Hc) as (db1 & -> & Hwr & Hl). rewrite bind_Ok_l. cbn [app].
  destruct Hd as (Hs' & Hu' & Hne & _). specialize (Hne Hb). assert (wfTrie (TExt q c')) as Hwx by by split; [|apply Hs'].
  rewrite finish_ok, bind_Ok_l, (enc_Lst sha3 (TExt q c')) by done.
  pose proof (wrote_kill sha3 db1 (enc sha3 t) (sha3 (enc sha3 t)) (wrote_inv _ _ _ _ Hwr)) as Hkl.
  rewrite enc_construct by done. cbn [rlp_]. rewrite bind_Ok_l, (enc_nth sha3 Hsha3 _ 1 (ref c')), bind_Ok_l by (done || lia).
  pose proof (linked_keeps sha3 _ _ _ (wrote_keeps _ _ _ _ Hkl) Hl) as Hl'.
  rewrite isTwoItem_ok, bind_Ok_l; [|apply Hs'|done|apply Hl'].
  pose proof (wrote_trans sha3 _ _ _ _ _ Hwr Hkl) as Hwr2. cbn [app] in Hwr2.
  destruct (isPairb c') eqn:Ep.
  - destruct (graft_ok (killNode db1 (enc sha3 t) (sha3 (enc sha3 t))) q c') as (db2 & -> & Hwr3); try done; [by destruct c'|apply Hl'| |apply Hkl|].
    { eapply (joinT_sound q c'); [apply Hq|done|done|done|exact Hu'|]. destruct Hk as (_ & _ & [_ Hsz]). unfold sizeZ in Hsz.
      rewrite Hp, length_app in Hsz. lia. }
    exists db2. pose proof (wrote_trans sha3 _ _ _ _ _ Hwr2 Hwr3) as Hwr4. split_and!; [done|done|].
    eapply stored_keeps; [apply Hwr3|]. by apply stored_join.
  - eexists. split_and!; [by destruct c'|exact Hwr2|]. by apply stored_join.
Qed.

Lemma deleteAt_sim f : delSim f.
Proof.
  induction f as [|f IH]; intros db t k p Hs Hu Hst Hi Hk Hf; [lia|]. pose proof (proj1 Hs) as Hw. cbn [deleteAt].
  rewrite enc_isEmpty by done. destruct (decide (t = TEmpty)) as [->|Hne]; [by rewrite bool_decide_eq_true_2 by done|].
  rewrite bool_decide_eq_false_2, enc_count, bind_Ok_l, enc_assertNode, bind_Ok_l by done.
  destruct t as [|q w|q c|cs w]; [done| | |]; cbn [Z.eqb Pos.eqb].
  - destruct (enc_keyOf sha3 Hsha3 _ Hw I) as (s & -> & Hq). rewrite bind_Ok_l, enc_isLeaf, bind_Ok_l by done.
    cbn [leafOf pathOf delT] in *. rewrite andb_true_r, (keyIs_eqb s q k p), (keyIs_contains k p s q) by done.
    destruct (decide (q = p)) as [->|Hqp].
    + rewrite bool_decide_eq_true_2 by done. intros _. eexists. split_and!; [done|by apply wrote_kill|done].
    + rewrite bool_decide_eq_false_2 by done. destruct (stripPrefix q p) as [r|] eqn:Er; [|done].
      apply stripPrefix_Some in Er as ->. cbn in Hu. rewrite length_app in Hu. destruct r as [|y r]; [by rewrite app_nil_r in Hqp|].
      cbn in Hu. lia.
  - destruct (enc_keyOf sha3 Hsha3 _ Hw I) as (s & -> & Hq). rewrite bind_Ok_l, enc_isLeaf, bind_Ok_l by done.
    cbn [leafOf pathOf] in *. rewrite andb_false_r, (keyIs_contains k p s q) by done.
    destruct (stripPrefix q p) as [r|] eqn:Er; [|cbn [delT]; by rewrite Er].
    apply (deleteExt_sim f db q c s k p r); try done. pose proof Hw as [[_ Hqn] _].
    apply stripPrefix_Some in Er as ->. rewrite length_app in Hf. destruct q; [done|]. cbn in Hf. lia.
  - destruct p as [|x p]; [by apply uniform_branch in Hu as (_ & m & ? & _)|].
    rewrite (enc_nth sha3 Hsha3 _ 16 (Str w)), bind_Ok_l by (done || by apply branch_value_item).
    rewrite (keyIs_size k _ Hk), sizeZ_cons. pose proof (sizeZ_nonneg p). destruct (Z.eqb_spec (1 + sizeZ p) 0); [lia|].
    cbn [andb length] in *. pose proof (deleteAt_children_sim f db cs w k x p IH Hs Hu Hst Hi Hk ltac:(lia)) as Hch.
    pose proof (delT_spec sha3 (TBranch cs w) (S (length p)) (x :: p) Hs Hu (proj2 (proj2 Hk)) eq_refl) as Hd.
    pose proof (delT_spec sha3 (child cs x) (length p) p ltac:(by apply (sound_child cs w)) ltac:(by apply (uniform_child _ cs w))
      (proj2 (proj2 (keyIs_tail _ _ _ Hk))) eq_refl) as Hdc.
    pose proof Hk as (_ & _ & [[Hx _]%Forall_cons_1 _]).
    rewrite stream17_ok, bind_Ok_l. destruct (delT sha3 (child cs x) p) as [[c' ws]|] eqn:Ed.
    2: { rewrite delT_branch_None by done. by rewrite Hch. }
    rewrite (delT_branch_Some sha3 cs w x p c' ws) in Hd |- * by done. intros Hc. destruct (Hch Hc) as (db1 & -> & Hwr & Hst'). rewrite bind_Ok_l.
    destruct Hdc as ([Hwc' _] & _). destruct Hd as ([Hwt' _] & _).
    apply uniform_branch in Hu as (-> & _). pose proof (wf_replace cs [] x c' Hw Hwc') as Hw'.
    rewrite finish_ok, bind_Ok_l, (enc_Lst sha3 (TBranch (<[Z.to_nat x:=c']> cs) [])) by (done || by apply itemsOf_size).
    rewrite enc_construct by done. cbn [rlp_]. rewrite bind_Ok_l, uniqueInUse_ok, bind_Ok_l by done.
    pose proof (wrote_kill sha3 db1 (enc sha3 (TBranch cs [])) (sha3 (enc sha3 (TBranch cs []))) (wrote_inv _ _ _ _ Hwr)) as Hkl.
    pose proof (stored_keeps sha3 _ _ _ (wrote_keeps _ _ _ _ Hkl) Hst') as Hst2.
    pose proof (wrote_trans sha3 _ _ _ _ _ Hwr Hkl) as Hwr2. cbn [app] in Hwr2. unfold collapseT in *.
    destruct (usedNibbles (<[Z.to_nat x:=c']> cs)) as [|z [|z' l]] eqn:E; [by eexists| |by eexists].
    assert (z ∈ usedNibbles (<[Z.to_nat x:=c']> cs)) as [Hzn Hzc]%used_nibble by (rewrite E; by apply elem_of_cons; left).
    destruct (Z.eqb_spec z 255); [unfold is_nibble in Hzn; lia|].
    destruct (collapse_sim (killNode db1 (enc sha3 (TBranch cs [])) (sha3 (enc sha3 (TBranch cs [])))) (<[Z.to_nat x:=c']> cs) z)
      as (db2 & -> & Hwr3); try done; [apply Hkl|].
    exists db2. pose proof (wrote_trans sha3 _ _ _ _ _ Hwr2 Hwr3) as Hwr4. split_and!; [done|done|].
    eapply stored_keeps; [apply Hwr3|]. apply stored_join; [done|]. by apply (linked_child sha3 _ _ []).
Qed.

End Sim.

(** ** The trie as a map *)

Definition mapErase (key : bytes) (m : list (bytes * bytes)) : list (bytes * bytes) := filter (fun e => e.1 <> key) m.

Lemma mapErase_sorted key m : sortedMap m -> sortedMap (mapErase key m).
Proof.
  unfold mapErase. induction 1 as [|e m Hs IH He]; [constructor|]. rewrite filter_cons.
  destruct (decide (e.1 <> key)); [|done]. constructor; [done|]. apply List.Forall_forall. intros e' Hin%list_elem_of_In.
  apply list_elem_of_filter in Hin as [_ Hin%list_elem_of_In]. exact (proj1 (List.Forall_forall _ _) He _ Hin).
Qed.

Lemma mapErase_Forall (P : bytes * bytes -> Prop) key m : Forall P m -> Forall P (mapErase key m).
Proof.
  intros Hm. apply List.Forall_forall. intros e Hin%list_elem_of_In. apply list_elem_of_filter in Hin as [_ Hin%list_elem_of_In].
  exact (proj1 (List.Forall_forall _ _) Hm _ Hin).
Qed.

Lemma mapErase_value key m k : valueAt (mapErase key m) k = if decide (k = key) then [] else valueAt m k.
Proof.
  unfold mapErase. induction m as [|[k' v'] m IH]; [by case_decide|]. rewrite filter_cons. cbn [fst].
  destruct (decide (k' <> key)) as [Hn|Hn]; cbn [valueAt]; rewrite IH.
  - destruct (decide (k' = k)) as [->|]; [by rewrite decide_False|done].
  - destruct (decide (k = key)) as [->|Hne]; [done|]. rewrite decide_False; [done|]. intros ->. by apply Hn.
Qed.

Lemma mapErase_path key m p : wf_bytes key -> wfMap m ->
  valueAt (byPath (mapErase key m)) p = if decide (p = asNibbles key) then [] else valueAt (byPath m) p.
Proof.
  intros Hk Hm. unfold mapErase. induction Hm as [|[k' v'] m (Hk' & _) Hm IH]; [by case_decide|]. rewrite filter_cons. cbn [fst] in *.
  destruct (decide (k' <> key)) as [Hn|Hn]; cbn [byPath map valueAt fst snd].
  - fold (byPath m). fold (byPath (filter (fun e => e.1 <> key) m)). rewrite IH.
    destruct (decide (asNibbles k' = p)) as [<-|]; [|done]. rewrite decide_False; [done|]. by intros ?%asNibbles_inj.
  - fold (byPath m). rewrite IH. destruct (decide (p = asNibbles key)) as [->|Hne]; [done|]. rewrite decide_False; [done|].
    intros <-. destruct (decide (k' = key)) as [->|]; [done|]. by apply Hn.
Qed.

Lemma asNibbles_length k : length (asNibbles k) = (2 * length k)%nat.
Proof. unfold asNibbles. rewrite (flat_map_constant_length (c := 2)) by done. lia. Qed.

Lemma trieOf_uniform m n : wfMap m -> Forall (fun e => length e.1 = n) m -> uniform (2 * n) (trieOf m).
Proof.
  intros Hm Hn. apply uniform_of_keys; [by apply trieOf_sound|]. intros p Hp Hg. rewrite trieOf_get in Hg by done.
  apply valueAt_elem in Hg. unfold byPath in Hg at 2. apply list_elem_of_In, in_map_iff in Hg as ([k v] & E & Hin).
  injection E as <- _. rewrite asNibbles_length. pose proof (proj1 (List.Forall_forall _ _) Hn _ Hin) as Hl. cbn in Hl. lia.
Qed.

Section Store.
Context {DB : Type} `{NodeDB DB} (sha3 : bytes -> bytes) `{!NodeDBLaws DB sha3}.
Hypothesis Hsha3 : forall d, wf_bytes (sha3 d) /\ length (sha3 d) = 32%nat.

(** The nodes a removal writes, the root's first; none when the key is absent *)
Definition removeWrites (m : BytesMap) (key : bytes) : list bytes :=
  match delT sha3 (trieOf m) (asNibbles key) with Some (t, ws) => enc sha3 t :: ws | None => [] end.

Lemma remove_opens db root m key : opens sha3 db root m -> wf_bytes key -> sizeZ key < 2 ^ 29 ->
  Forall (fun e => length e.1 = length key) m -> seenClear sha3 (removeWrites m key ++ nd_seen db) ->
  exists db' root', trie_remove_ sha3 db root key = Ok (db', root') /\ opens sha3 db' root' (mapErase key m) /\
    wrote sha3 (removeWrites m key) db db' /\ (valueAt m key = [] -> db' = db /\ root' = root).
Proof.
  intros Ho Hk Hs Hu Hcl. pose proof (keyIs_bytes key Hk Hs) as Hki. pose proof (opens_construct sha3 Hsha3 db root m Ho) as Hcon.
  pose proof Ho as [Hi Hso Hw Hr Hn Hst]. pose proof (trieOf_sound m Hw) as Hsd.
  pose proof (trieOf_uniform m _ Hw Hu) as Hun. rewrite <-asNibbles_length in Hun.
  pose proof (delT_spec sha3 (trieOf m) _ (asNibbles key) Hsd Hun (proj2 (proj2 Hki)) eq_refl) as Hd.
  pose proof (deleteAt_sim sha3 Hsha3 (at_fuel (mkSlice key 0)) db (trieOf m) (mkSlice key 0) (asNibbles key) Hsd Hun Hst Hi Hki
    ltac:(unfold at_fuel; rewrite (keyIs_size _ _ Hki); unfold sizeZ; lia)) as Hsim.
  assert (get (trieOf m) (asNibbles key) = valueAt m key) as Hget by by rewrite trieOf_get, byPath_value by (done || apply Hki).
  assert (wfMap (mapErase key m)) as Hwe by by apply mapErase_Forall.
  unfold removeWrites in *. unfold trie_remove_. unfold node in Hcon |- *. rewrite Hcon. cbn [rlp_]. rewrite bind_Ok_l.
  destruct (delT sha3 (trieOf m) (asNibbles key)) as [[t' ws]|].
  - destruct Hd as (Hs' & _ & _ & Hg & Hgk). rewrite Hget in Hg. cbn [app] in Hcl.
    destruct Hsim as (db1 & -> & Hwr & Hst').
    { eapply seenClear_sub; [|exact Hcl]. intros x Hx. by apply elem_of_cons; right. }
    rewrite bind_Ok_l, enc_size_pos. cbn [negb].
    assert (t' = trieOf (mapErase key m)) as Et.
    { apply sound_unique; [done|by apply trieOf_sound|]. intros p Hp. by rewrite Hgk, !trieOf_get, mapErase_path by done. }
    set (db2 := if _ <? 32 then forceKillNode db1 root else db1). cbn [forceInsertNode].
    assert (wrote sha3 [] db1 db2) as Hk2.
    { unfold db2. destruct (_ <? 32); [apply wrote_forceKill, Hwr|apply wrote_refl, Hwr]. }
    pose proof (wrote_trans sha3 _ _ _ _ _ Hwr Hk2) as Hwr2. cbn [app] in Hwr2.
    assert (seenClear sha3 (enc sha3 t' :: nd_seen db2)) as Hcl2 by by rewrite (wrote_seen _ _ _ _ Hwr2).
    assert (wrote sha3 [enc sha3 t'] db2 (nd_insert db2 (sha3 (enc sha3 t')) (enc sha3 t'))) as Hins.
    { split; [by apply nd_insert_inv, Hwr2|apply nd_insert_seen|]. intros h Hh. apply nd_insert_old; [apply Hwr2|done|done]. }
    eexists _, _. split; [done|]. split; [|split; [exact (wrote_trans sha3 _ _ _ _ _ Hwr2 Hins)|done]].
    split; [apply Hins|by apply mapErase_sorted|done|by rewrite <-Et| |].
    + rewrite nd_insert_same; [by rewrite Et|apply Hwr2|apply enc_nonempty].
    + rewrite <-Et. eapply stored_keeps; [apply Hins|]. eapply stored_keeps; [apply Hk2|exact Hst'].
  - rewrite Hsim, bind_Ok_l. cbn [sizeZ length Z.of_nat Z.eqb negb]. exists db, root. split_and!; [done| |by apply wrote_refl|done].
    assert (trieOf (mapErase key m) = trieOf m) as Et.
    { apply sound_unique; [by apply trieOf_sound|done|]. intros p Hp. rewrite !trieOf_get, mapErase_path by done.
      destruct (decide (p = asNibbles key)) as [->|]; [|done]. rewrite byPath_value by done. by rewrite <-Hget. }
    split; try done; [by apply mapErase_sorted|by rewrite Et|by rewrite Et|by rewrite Et].
Qed.
End Store.

(** ** Properties *)

(** C11: removing from a stored trie whose keys have the key's length is erasing from
    the map it stands for: with nodes whose hashes differ, the removal succeeds,
    the new root is that of the map without the key, the same one that [hash256]
    computes, every other key is read back as before, other roots can still be
    opened, and removing an absent key changes neither the database nor the root. *)
Theorem trie_remove_refines {DB : Type} `{NodeDB DB} (sha3 : bytes -> bytes) `{!NodeDBLaws DB sha3}
  (db : DB) (root : bytes) (m : BytesMap) (key : bytes)
  (Hsha3 : forall d, wf_bytes (sha3 d) /\ length (sha3 d) = 32%nat)
  (Ho : opens sha3 db root m) (Hk : wf_bytes key) (Hs : sizeZ key < 2 ^ 29)
  (Hu : Forall (fun e => length e.1 = length key) m)
  (Hc : seenClear sha3 (removeWrites sha3 m key ++ nd_seen db)) :
  exists db' root', trie_remove_ sha3 db root key = Ok (db', root') /\
    opens sha3 db' root' (mapErase key m) /\
    hash256 sha3 (mapErase key m) = Ok root' /\
    (forall k, wf_bytes k -> sizeZ k < 2 ^ 29 ->
       trie_lookup db' root' k = Ok (if decide (k = key) then [] else valueAt m k)) /\
    (forall r m', opens sha3 db r m' -> opens sha3 db' r m') /\
    (valueAt m key = [] -> db' = db /\ root' = root).
Proof.
  destruct (remove_opens sha3 Hsha3 db root m key Ho Hk Hs Hu Hc) as (db' & root' & E & Ho' & Hw & Habs).
  exists db', root'. split_and!; [done|done|by eapply opens_hash| | |done].
  - intros k Hk' Hs'. rewrite (lookup_opens sha3 Hsha3 db' root' _ k Ho') by done. by rewrite mapErase_value.
  - intros r m'. apply opens_keeps; apply Hw.
Qed.

(** A branch of two keys collapses to a leaf. *)
Lemma trie_remove_refines_witness :
  exists db root db' root',
    inserts mixHash (init_ mixHash emptyMemoryDB).1 (init_ mixHash emptyMemoryDB).2
      [([1; 35], replicate 33 9); ([1; 36], [7])] = Ok (db, root) /\
    trie_remove_ mixHash db root [1; 36] = Ok (db', root') /\
    hash256 mixHash [([1; 35], replicate 33 9)] = Ok root' /\
    trie_lookup db' root' [1; 35] = Ok (replicate 33 9) /\ trie_lookup db' root' [1; 36] = Ok [].
Proof.
  destruct (init_opens mixHash (NodeDBLaws0 := MemoryDB_laws mixHash) emptyMemoryDB (memInv_empty _)) as [Ho Hw];
    [apply seenClearb_ok; vm_compute; reflexivity|].
  destruct (inserts_opens mixHash (NodeDBLaws0 := MemoryDB_laws mixHash) mixHash_ok _ _ [] [([1; 35], replicate 33 9); ([1; 36], [7])] Ho)
    as (db & root & E & Ho1 & Hw1); [by repeat constructor|apply seenClearb_ok; vm_compute; reflexivity|].
  destruct (trie_remove_refines mixHash (NodeDBLaws0 := MemoryDB_laws mixHash) db root _ [1; 36] mixHash_ok Ho1)
    as (db' & root' & E' & _ & Eh & Hl & _).
  - by repeat constructor.
  - done.
  - by repeat constructor.
  - rewrite (wrote_seen _ _ _ _ Hw1). apply seenClearb_ok. vm_compute. reflexivity.
  - exists db, root, db', root'. split_and!; [done|done|exact Eh| |].
    + by apply (Hl [1; 35]); [repeat constructor|].
    + by apply (Hl [1; 36]); [repeat constructor|].
Defined.

(** ** Keys that begin one another

    [deleteAt] goes below a leaf whose path begins the key, and reads the value
    that is left in a branch as the hash of a node; both throw. *)

Definition removeAfter (l : BytesMap) (key : bytes) : res (MemoryDB * bytes) :=
  '(db, root) ← inserts mixHash (init_ mixHash emptyMemoryDB).1 (init_ mixHash emptyMemoryDB).2 l;
  trie_remove_ mixHash db root key.

Lemma remove_below_leaf_throws : removeAfter [([1], replicate 33 9)] [1; 2] = Throw (TrieRLP BadCast).
Proof. vm_compute. reflexivity. Qed.

Lemma remove_to_branch_value_throws : removeAfter [([1], replicate 33 9); ([1; 2], [7])] [1; 2] = Throw (TrieRLP BadCast).
Proof. vm_compute. reflexivity. Qed.
