(* ===== verification/Instruction.v ===== *)
(** * libevmcore/Instruction.{h,cpp} and EVMSchedule.h

    The instruction set, the table of stack effects and gas tiers, the mnemonic
    table, the code walker behind the disassembler and the gas schedules.  The
    C++ enumeration is a byte: a byte that names no enumerator is [None] of
    [ofByte] and gets the invalid entry of the table. *)

From Stdlib Require Import ZArith Lia String.
From stdpp Require Import base list option.
From S2P Require Import Prelude.

Inductive Instruction :=
  | STOP | ADD | MUL | SUB | DIV | SDIV | MOD | SMOD | ADDMOD | MULMOD | EXP | SIGNEXTEND
  | LT | GT | SLT | SGT | EQ | ISZERO | AND | OR | XOR | NOT | BYTE | SHA3 | ADDRESS
  | BALANCE | ORIGIN | CALLER | CALLVALUE | CALLDATALOAD | CALLDATASIZE | CALLDATACOPY
  | CODESIZE | CODECOPY | GASPRICE | EXTCODESIZE | EXTCODECOPY | BLOCKHASH | COINBASE
  | TIMESTAMP | NUMBER | DIFFICULTY | GASLIMIT | POP | MLOAD | MSTORE | MSTORE8 | SLOAD
  | SSTORE | JUMP | JUMPI | PC | MSIZE | GAS | JUMPDEST | PUSH1 | PUSH2 | PUSH3 | PUSH4
  | PUSH5 | PUSH6 | PUSH7 | PUSH8 | PUSH9 | PUSH10 | PUSH11 | PUSH12 | PUSH13 | PUSH14
  | PUSH15 | PUSH16 | PUSH17 | PUSH18 | PUSH19 | PUSH20 | PUSH21 | PUSH22 | PUSH23 | PUSH24
  | PUSH25 | PUSH26 | PUSH27 | PUSH28 | PUSH29 | PUSH30 | PUSH31 | PUSH32 | DUP1 | DUP2
  | DUP3 | DUP4 | DUP5 | DUP6 | DUP7 | DUP8 | DUP9 | DUP10 | DUP11 | DUP12 | DUP13 | DUP14
  | DUP15 | DUP16 | SWAP1 | SWAP2 | SWAP3 | SWAP4 | SWAP5 | SWAP6 | SWAP7 | SWAP8 | SWAP9
  | SWAP10 | SWAP11 | SWAP12 | SWAP13 | SWAP14 | SWAP15 | SWAP16 | LOG0 | LOG1 | LOG2
  | LOG3 | LOG4 | CREATE | CALL | CALLCODE | RETURN | DELEGATECALL | SUICIDE.

#[export] Instance Instruction_eq_dec : EqDecision Instruction.
Proof. solve_decision. Defined.

(** The enumerators' values. *)
Definition toByte (i : Instruction) : byte :=
  match i with
  | STOP => 0 | ADD => 1 | MUL => 2 | SUB => 3 | DIV => 4 | SDIV => 5 | MOD => 6
  | SMOD => 7 | ADDMOD => 8 | MULMOD => 9 | EXP => 10 | SIGNEXTEND => 11 | LT => 16
  | GT => 17 | SLT => 18 | SGT => 19 | EQ => 20 | ISZERO => 21 | AND => 22 | OR => 23
  | XOR => 24 | NOT => 25 | BYTE => 26 | SHA3 => 32 | ADDRESS => 48 | BALANCE => 49
  | ORIGIN => 50 | CALLER => 51 | CALLVALUE => 52 | CALLDATALOAD => 53 | CALLDATASIZE => 54
  | CALLDATACOPY => 55 | CODESIZE => 56 | CODECOPY => 57 | GASPRICE => 58
  | EXTCODESIZE => 59 | EXTCODECOPY => 60 | BLOCKHASH => 64 | COINBASE => 65
  | TIMESTAMP => 66 | NUMBER => 67 | DIFFICULTY => 68 | GASLIMIT => 69 | POP => 80
  | MLOAD => 81 | MSTORE => 82 | MSTORE8 => 83 | SLOAD => 84 | SSTORE => 85 | JUMP => 86
  | JUMPI => 87 | PC => 88 | MSIZE => 89 | GAS => 90 | JUMPDEST => 91 | PUSH1 => 96
  | PUSH2 => 97 | PUSH3 => 98 | PUSH4 => 99 | PUSH5 => 100 | PUSH6 => 101 | PUSH7 => 102
  | PUSH8 => 103 | PUSH9 => 104 | PUSH10 => 105 | PUSH11 => 106 | PUSH12 => 107
  | PUSH13 => 108 | PUSH14 => 109 | PUSH15 => 110 | PUSH16 => 111 | PUSH17 => 112
  | PUSH18 => 113 | PUSH19 => 114 | PUSH20 => 115 | PUSH21 => 116 | PUSH22 => 117
  | PUSH23 => 118 | PUSH24 => 119 | PUSH25 => 120 | PUSH26 => 121 | PUSH27 => 122
  | PUSH28 => 123 | PUSH29 => 124 | PUSH30 => 125 | PUSH31 => 126 | PUSH32 => 127
  | DUP1 => 128 | DUP2 => 129 | DUP3 => 130 | DUP4 => 131 | DUP5 => 132 | DUP6 => 133
  | DUP7 => 134 | DUP8 => 135 | DUP9 => 136 | DUP10 => 137 | DUP11 => 138 | DUP12 => 139
  | DUP13 => 140 | DUP14 => 141 | DUP15 => 142 | DUP16 => 143 | SWAP1 => 144 | SWAP2 => 145
  | SWAP3 => 146 | SWAP4 => 147 | SWAP5 => 148 | SWAP6 => 149 | SWAP7 => 150 | SWAP8 => 151
  | SWAP9 => 152 | SWAP10 => 153 | SWAP11 => 154 | SWAP12 => 155 | SWAP13 => 156
  | SWAP14 => 157 | SWAP15 => 158 | SWAP16 => 159 | LOG0 => 160 | LOG1 => 161 | LOG2 => 162
  | LOG3 => 163 | LOG4 => 164 | CREATE => 240 | CALL => 241 | CALLCODE => 242
  | RETURN => 243 | DELEGATECALL => 244 | SUICIDE => 255
  end.

Definition allInstructions : list Instruction :=
  [STOP; ADD; MUL; SUB; DIV; SDIV; MOD; SMOD; ADDMOD; MULMOD; EXP; SIGNEXTEND; LT; GT; SLT;
   SGT; EQ; ISZERO; AND; OR; XOR; NOT; BYTE; SHA3; ADDRESS; BALANCE; ORIGIN; CALLER;
   CALLVALUE; CALLDATALOAD; CALLDATASIZE; CALLDATACOPY; CODESIZE; CODECOPY; GASPRICE;
   EXTCODESIZE; EXTCODECOPY; BLOCKHASH; COINBASE; TIMESTAMP; NUMBER; DIFFICULTY; GASLIMIT;
   POP; MLOAD; MSTORE; MSTORE8; SLOAD; SSTORE; JUMP; JUMPI; PC; MSIZE; GAS; JUMPDEST;
   PUSH1; PUSH2; PUSH3; PUSH4; PUSH5; PUSH6; PUSH7; PUSH8; PUSH9; PUSH10; PUSH11; PUSH12;
   PUSH13; PUSH14; PUSH15; PUSH16; PUSH17; PUSH18; PUSH19; PUSH20; PUSH21; PUSH22; PUSH23;
   PUSH24; PUSH25; PUSH26; PUSH27; PUSH28; PUSH29; PUSH30; PUSH31; PUSH32; DUP1; DUP2;
   DUP3; DUP4; DUP5; DUP6; DUP7; DUP8; DUP9; DUP10; DUP11; DUP12; DUP13; DUP14; DUP15;
   DUP16; SWAP1; SWAP2; SWAP3; SWAP4; SWAP5; SWAP6; SWAP7; SWAP8; SWAP9; SWAP10; SWAP11;
   SWAP12; SWAP13; SWAP14; SWAP15; SWAP16; LOG0; LOG1; LOG2; LOG3; LOG4; CREATE; CALL;
   CALLCODE; RETURN; DELEGATECALL; SUICIDE].

(** [(Instruction)b] *)
Definition ofByte (b : byte) : option Instruction :=
  find (fun i => toByte i =? b) allInstructions.

Inductive Tier := ZeroTier | BaseTier | VeryLowTier | LowTier | MidTier | HighTier | ExtTier
  | SpecialTier | InvalidTier.

#[export] Instance Tier_eq_dec : EqDecision Tier.
Proof. solve_decision. Defined.

Definition tierIndex (t : Tier) : nat :=
  match t with
  | ZeroTier => 0 | BaseTier => 1 | VeryLowTier => 2 | LowTier => 3 | MidTier => 4
  | HighTier => 5 | ExtTier => 6 | SpecialTier => 7 | InvalidTier => 8
  end.

Record InstructionInfo := mkInfo {
  name : string;
  additional : Z;
  args : Z;
  ret : Z;
  sideEffects : bool;
  gasPriceTier : Tier
}.

Local Open Scope string_scope.

(** [c_instructionInfo]. *)
Definition c_instructionInfo (i : Instruction) : InstructionInfo :=
  match i with
  | STOP => mkInfo "STOP" 0 0 0 true ZeroTier
  | ADD => mkInfo "ADD" 0 2 1 false VeryLowTier
  | SUB => mkInfo "SUB" 0 2 1 false VeryLowTier
  | MUL => mkInfo "MUL" 0 2 1 false LowTier
  | DIV => mkInfo "DIV" 0 2 1 false LowTier
  | SDIV => mkInfo "SDIV" 0 2 1 false LowTier
  | MOD => mkInfo "MOD" 0 2 1 false LowTier
  | SMOD => mkInfo "SMOD" 0 2 1 false LowTier
  | EXP => mkInfo "EXP" 0 2 1 false SpecialTier
  | NOT => mkInfo "NOT" 0 1 1 false VeryLowTier
  | LT => mkInfo "LT" 0 2 1 false VeryLowTier
  | GT => mkInfo "GT" 0 2 1 false VeryLowTier
  | SLT => mkInfo "SLT" 0 2 1 false VeryLowTier
  | SGT => mkInfo "SGT" 0 2 1 false VeryLowTier
  | EQ => mkInfo "EQ" 0 2 1 false VeryLowTier
  | ISZERO => mkInfo "ISZERO" 0 1 1 false VeryLowTier
  | AND => mkInfo "AND" 0 2 1 false VeryLowTier
  | OR => mkInfo "OR" 0 2 1 false VeryLowTier
  | XOR => mkInfo "XOR" 0 2 1 false VeryLowTier
  | BYTE => mkInfo "BYTE" 0 2 1 false VeryLowTier
  | ADDMOD => mkInfo "ADDMOD" 0 3 1 false MidTier
  | MULMOD => mkInfo "MULMOD" 0 3 1 false MidTier
  | SIGNEXTEND => mkInfo "SIGNEXTEND" 0 2 1 false LowTier
  | SHA3 => mkInfo "SHA3" 0 2 1 false SpecialTier
  | ADDRESS => mkInfo "ADDRESS" 0 0 1 false BaseTier
  | BALANCE => mkInfo "BALANCE" 0 1 1 false ExtTier
  | ORIGIN => mkInfo "ORIGIN" 0 0 1 false BaseTier
  | CALLER => mkInfo "CALLER" 0 0 1 false BaseTier
  | CALLVALUE => mkInfo "CALLVALUE" 0 0 1 false BaseTier
  | CALLDATALOAD => mkInfo "CALLDATALOAD" 0 1 1 false VeryLowTier
  | CALLDATASIZE => mkInfo "CALLDATASIZE" 0 0 1 false BaseTier
  | CALLDATACOPY => mkInfo "CALLDATACOPY" 0 3 0 true VeryLowTier
  | CODESIZE => mkInfo "CODESIZE" 0 0 1 false BaseTier
  | CODECOPY => mkInfo "CODECOPY" 0 3 0 true VeryLowTier
  | GASPRICE => mkInfo "GASPRICE" 0 0 1 false BaseTier
  | EXTCODESIZE => mkInfo "EXTCODESIZE" 0 1 1 false ExtTier
  | EXTCODECOPY => mkInfo "EXTCODECOPY" 0 4 0 true ExtTier
  | BLOCKHASH => mkInfo "BLOCKHASH" 0 1 1 false ExtTier
  | COINBASE => mkInfo "COINBASE" 0 0 1 false BaseTier
  | TIMESTAMP => mkInfo "TIMESTAMP" 0 0 1 false BaseTier
  | NUMBER => mkInfo "NUMBER" 0 0 1 false BaseTier
  | DIFFICULTY => mkInfo "DIFFICULTY" 0 0 1 false BaseTier
  | GASLIMIT => mkInfo "GASLIMIT" 0 0 1 false BaseTier
  | POP => mkInfo "POP" 0 1 0 false BaseTier
  | MLOAD => mkInfo "MLOAD" 0 1 1 false VeryLowTier
  | MSTORE => mkInfo "MSTORE" 0 2 0 true VeryLowTier
  | MSTORE8 => mkInfo "MSTORE8" 0 2 0 true VeryLowTier
  | SLOAD => mkInfo "SLOAD" 0 1 1 false SpecialTier
  | SSTORE => mkInfo "SSTORE" 0 2 0 true SpecialTier
  | JUMP => mkInfo "JUMP" 0 1 0 true MidTier
  | JUMPI => mkInfo "JUMPI" 0 2 0 true HighTier
  | PC => mkInfo "PC" 0 0 1 false BaseTier
  | MSIZE => mkInfo "MSIZE" 0 0 1 false BaseTier
  | GAS => mkInfo "GAS" 0 0 1 false BaseTier
  | JUMPDEST => mkInfo "JUMPDEST" 0 0 0 true SpecialTier
  | PUSH1 => mkInfo "PUSH1" 1 0 1 false VeryLowTier
  | PUSH2 => mkInfo "PUSH2" 2 0 1 false VeryLowTier
  | PUSH3 => mkInfo "PUSH3" 3 0 1 false VeryLowTier
  | PUSH4 => mkInfo "PUSH4" 4 0 1 false VeryLowTier
  | PUSH5 => mkInfo "PUSH5" 5 0 1 false VeryLowTier
  | PUSH6 => mkInfo "PUSH6" 6 0 1 false VeryLowTier
  | PUSH7 => mkInfo "PUSH7" 7 0 1 false VeryLowTier
  | PUSH8 => mkInfo "PUSH8" 8 0 1 false VeryLowTier
  | PUSH9 => mkInfo "PUSH9" 9 0 1 false VeryLowTier
  | PUSH10 => mkInfo "PUSH10" 10 0 1 false VeryLowTier
  | PUSH11 => mkInfo "PUSH11" 11 0 1 false VeryLowTier
  | PUSH12 => mkInfo "PUSH12" 12 0 1 false VeryLowTier
  | PUSH13 => mkInfo "PUSH13" 13 0 1 false VeryLowTier
  | PUSH14 => mkInfo "PUSH14" 14 0 1 false VeryLowTier
  | PUSH15 => mkInfo "PUSH15" 15 0 1 false VeryLowTier
  | PUSH16 => mkInfo "PUSH16" 16 0 1 false VeryLowTier
  | PUSH17 => mkInfo "PUSH17" 17 0 1 false VeryLowTier
  | PUSH18 => mkInfo "PUSH18" 18 0 1 false VeryLowTier
  | PUSH19 => mkInfo "PUSH19" 19 0 1 false VeryLowTier
  | PUSH20 => mkInfo "PUSH20" 20 0 1 false VeryLowTier
  | PUSH21 => mkInfo "PUSH21" 21 0 1 false VeryLowTier
  | PUSH22 => mkInfo "PUSH22" 22 0 1 false VeryLowTier
  | PUSH23 => mkInfo "PUSH23" 23 0 1 false VeryLowTier
  | PUSH24 => mkInfo "PUSH24" 24 0 1 false VeryLowTier
  | PUSH25 => mkInfo "PUSH25" 25 0 1 false VeryLowTier
  | PUSH26 => mkInfo "PUSH26" 26 0 1 false VeryLowTier
  | PUSH27 => mkInfo "PUSH27" 27 0 1 false VeryLowTier
  | PUSH28 => mkInfo "PUSH28" 28 0 1 false VeryLowTier
  | PUSH29 => mkInfo "PUSH29" 29 0 1 false VeryLowTier
  | PUSH30 => mkInfo "PUSH30" 30 0 1 false VeryLowTier
  | PUSH31 => mkInfo "PUSH31" 31 0 1 false VeryLowTier
  | PUSH32 => mkInfo "PUSH32" 32 0 1 false VeryLowTier
  | DUP1 => mkInfo "DUP1" 0 1 2 false VeryLowTier
  | DUP2 => mkInfo "DUP2" 0 2 3 false VeryLowTier
  | DUP3 => mkInfo "DUP3" 0 3 4 false VeryLowTier
  | DUP4 => mkInfo "DUP4" 0 4 5 false VeryLowTier
  | DUP5 => mkInfo "DUP5" 0 5 6 false VeryLowTier
  | DUP6 => mkInfo "DUP6" 0 6 7 false VeryLowTier
  | DUP7 => mkInfo "DUP7" 0 7 8 false VeryLowTier
  | DUP8 => mkInfo "DUP8" 0 8 9 false VeryLowTier
  | DUP9 => mkInfo "DUP9" 0 9 10 false VeryLowTier
  | DUP10 => mkInfo "DUP10" 0 10 11 false VeryLowTier
  | DUP11 => mkInfo "DUP11" 0 11 12 false VeryLowTier
  | DUP12 => mkInfo "DUP12" 0 12 13 false VeryLowTier
  | DUP13 => mkInfo "DUP13" 0 13 14 false VeryLowTier
  | DUP14 => mkInfo "DUP14" 0 14 15 false VeryLowTier
  | DUP15 => mkInfo "DUP15" 0 15 16 false VeryLowTier
  | DUP16 => mkInfo "DUP16" 0 16 17 false VeryLowTier
  | SWAP1 => mkInfo "SWAP1" 0 2 2 false VeryLowTier
  | SWAP2 => mkInfo "SWAP2" 0 3 3 false VeryLowTier
  | SWAP3 => mkInfo "SWAP3" 0 4 4 false VeryLowTier
  | SWAP4 => mkInfo "SWAP4" 0 5 5 false VeryLowTier
  | SWAP5 => mkInfo "SWAP5" 0 6 6 false VeryLowTier
  | SWAP6 => mkInfo "SWAP6" 0 7 7 false VeryLowTier
  | SWAP7 => mkInfo "SWAP7" 0 8 8 false VeryLowTier
  | SWAP8 => mkInfo "SWAP8" 0 9 9 false VeryLowTier
  | SWAP9 => mkInfo "SWAP9" 0 10 10 false VeryLowTier
  | SWAP10 => mkInfo "SWAP10" 0 11 11 false VeryLowTier
  | SWAP11 => mkInfo "SWAP11" 0 12 12 false VeryLowTier
  | SWAP12 => mkInfo "SWAP12" 0 13 13 false VeryLowTier
  | SWAP13 => mkInfo "SWAP13" 0 14 14 false VeryLowTier
  | SWAP14 => mkInfo "SWAP14" 0 15 15 false VeryLowTier
  | SWAP15 => mkInfo "SWAP15" 0 16 16 false VeryLowTier
  | SWAP16 => mkInfo "SWAP16" 0 17 17 false VeryLowTier
  | LOG0 => mkInfo "LOG0" 0 2 0 true SpecialTier
  | LOG1 => mkInfo "LOG1" 0 3 0 true SpecialTier
  | LOG2 => mkInfo "LOG2" 0 4 0 true SpecialTier
  | LOG3 => mkInfo "LOG3" 0 5 0 true SpecialTier
  | LOG4 => mkInfo "LOG4" 0 6 0 true SpecialTier
  | CREATE => mkInfo "CREATE" 0 3 1 true SpecialTier
  | CALL => mkInfo "CALL" 0 7 1 true SpecialTier
  | CALLCODE => mkInfo "CALLCODE" 0 7 1 true SpecialTier
  | RETURN => mkInfo "RETURN" 0 2 0 true ZeroTier
  | DELEGATECALL => mkInfo "DELEGATECALL" 0 6 1 true SpecialTier
  | SUICIDE => mkInfo "SUICIDE" 0 1 0 true ZeroTier
  end.

(** [c_instructions]: mnemonics as the assembler reads them. *)
Definition c_instructions : list (string * Instruction) :=
  [("STOP", STOP); ("ADD", ADD); ("SUB", SUB); ("MUL", MUL); ("DIV", DIV); ("SDIV", SDIV);
   ("MOD", MOD); ("SMOD", SMOD); ("EXP", EXP); ("BNOT", NOT); ("LT", LT); ("GT", GT);
   ("SLT", SLT); ("SGT", SGT); ("EQ", EQ); ("NOT", ISZERO); ("AND", AND); ("OR", OR);
   ("XOR", XOR); ("BYTE", BYTE); ("ADDMOD", ADDMOD); ("MULMOD", MULMOD);
   ("SIGNEXTEND", SIGNEXTEND); ("SHA3", SHA3); ("ADDRESS", ADDRESS); ("BALANCE", BALANCE);
   ("ORIGIN", ORIGIN); ("CALLER", CALLER); ("CALLVALUE", CALLVALUE);
   ("CALLDATALOAD", CALLDATALOAD); ("CALLDATASIZE", CALLDATASIZE);
   ("CALLDATACOPY", CALLDATACOPY); ("CODESIZE", CODESIZE); ("CODECOPY", CODECOPY);
   ("GASPRICE", GASPRICE); ("EXTCODESIZE", EXTCODESIZE); ("EXTCODECOPY", EXTCODECOPY);
   ("BLOCKHASH", BLOCKHASH); ("COINBASE", COINBASE); ("TIMESTAMP", TIMESTAMP);
   ("NUMBER", NUMBER); ("DIFFICULTY", DIFFICULTY); ("GASLIMIT", GASLIMIT); ("POP", POP);
   ("MLOAD", MLOAD); ("MSTORE", MSTORE); ("MSTORE8", MSTORE8); ("SLOAD", SLOAD);
   ("SSTORE", SSTORE); ("JUMP", JUMP); ("JUMPI", JUMPI); ("PC", PC); ("MSIZE", MSIZE);
   ("GAS", GAS); ("JUMPDEST", JUMPDEST); ("PUSH1", PUSH1); ("PUSH2", PUSH2);
   ("PUSH3", PUSH3); ("PUSH4", PUSH4); ("PUSH5", PUSH5); ("PUSH6", PUSH6);
   ("PUSH7", PUSH7); ("PUSH8", PUSH8); ("PUSH9", PUSH9); ("PUSH10", PUSH10);
   ("PUSH11", PUSH11); ("PUSH12", PUSH12); ("PUSH13", PUSH13); ("PUSH14", PUSH14);
   ("PUSH15", PUSH15); ("PUSH16", PUSH16); ("PUSH17", PUSH17); ("PUSH18", PUSH18);
   ("PUSH19", PUSH19); ("PUSH20", PUSH20); ("PUSH21", PUSH21); ("PUSH22", PUSH22);
   ("PUSH23", PUSH23); ("PUSH24", PUSH24); ("PUSH25", PUSH25); ("PUSH26", PUSH26);
   ("PUSH27", PUSH27); ("PUSH28", PUSH28); ("PUSH29", PUSH29); ("PUSH30", PUSH30);
   ("PUSH31", PUSH31); ("PUSH32", PUSH32); ("DUP1", DUP1); ("DUP2", DUP2); ("DUP3", DUP3);
   ("DUP4", DUP4); ("DUP5", DUP5); ("DUP6", DUP6); ("DUP7", DUP7); ("DUP8", DUP8);
   ("DUP9", DUP9); ("DUP10", DUP10); ("DUP11", DUP11); ("DUP12", DUP12); ("DUP13", DUP13);
   ("DUP14", DUP14); ("DUP15", DUP15); ("DUP16", DUP16); ("SWAP1", SWAP1);
   ("SWAP2", SWAP2); ("SWAP3", SWAP3); ("SWAP4", SWAP4); ("SWAP5", SWAP5);
   ("SWAP6", SWAP6); ("SWAP7", SWAP7); ("SWAP8", SWAP8); ("SWAP9", SWAP9);
   ("SWAP10", SWAP10); ("SWAP11", SWAP11); ("SWAP12", SWAP12); ("SWAP13", SWAP13);
   ("SWAP14", SWAP14); ("SWAP15", SWAP15); ("SWAP16", SWAP16); ("LOG0", LOG0);
   ("LOG1", LOG1); ("LOG2", LOG2); ("LOG3", LOG3); ("LOG4", LOG4); ("CREATE", CREATE);
   ("CALL", CALL); ("CALLCODE", CALLCODE); ("RETURN", RETURN);
   ("DELEGATECALL", DELEGATECALL); ("SUICIDE", SUICIDE)].

Definition invalidInfo : InstructionInfo :=
  mkInfo "<INVALID_INSTRUCTION>" 0 0 0 false InvalidTier.

Local Close Scope string_scope.

(** [instructionInfo((Instruction)b)]; the name of an invalid entry carries the
    byte in the source. *)
Definition instructionInfo (i : option Instruction) : InstructionInfo :=
  match i with Some i => c_instructionInfo i | None => invalidInfo end.

Definition isValidInstruction (i : option Instruction) : bool :=
  match i with Some _ => true | None => false end.

Definition getPushNumber (i : Instruction) : Z := u32 (toByte i - toByte PUSH1 + 1).
Definition getDupNumber (i : Instruction) : Z := u32 (toByte i - toByte DUP1 + 1).
Definition getSwapNumber (i : Instruction) : Z := u32 (toByte i - toByte SWAP1 + 1).

Inductive opcode_error := InvalidOpcode.

Definition pushInstruction (n : Z) : result opcode_error (option Instruction) :=
  if (1 <=? n) && (n <=? 32) then Ok (ofByte (toByte PUSH1 + n - 1)) else Throw InvalidOpcode.
Definition dupInstruction (n : Z) : result opcode_error (option Instruction) :=
  if (1 <=? n) && (n <=? 16) then Ok (ofByte (toByte DUP1 + n - 1)) else Throw InvalidOpcode.
Definition swapInstruction (n : Z) : result opcode_error (option Instruction) :=
  if (1 <=? n) && (n <=? 16) then Ok (ofByte (toByte SWAP1 + n - 1)) else Throw InvalidOpcode.
Definition logInstruction (n : Z) : result opcode_error (option Instruction) :=
  if n <=? 4 then Ok (ofByte (toByte LOG0 + n)) else Throw InvalidOpcode.

(** [eachInstruction]: the callback's arguments in order, the instruction byte
    and its immediate data; missing immediate bytes read as zero. *)
Fixpoint immediate (k : nat) (data : Z) (mem : bytes) : Z * bytes :=
  match k with
  | O => (data, mem)
  | S k' =>
      match mem with
      | b :: mem' => immediate k' (Z.lor (u256 (Z.shiftl data 8)) b) mem'
      | [] => immediate k' (u256 (Z.shiftl data 8)) []
      end
  end.

Fixpoint eachInstruction_loop (fuel : nat) (mem : bytes) : list (byte * Z) :=
  match fuel, mem with
  | S f, b :: mem' =>
      let additional := if isValidInstruction (ofByte b)
                        then additional (instructionInfo (ofByte b)) else 0 in
      let '(data, rest) := immediate (Z.to_nat additional) 0 mem' in
      (b, data) :: eachInstruction_loop f rest
  | _, _ => []
  end.

Definition eachInstruction (mem : bytes) : list (byte * Z) :=
  eachInstruction_loop (length mem) mem.

(** ** EVMSchedule.h *)

Record EVMSchedule := mkSchedule {
  exceptionalFailedCodeDeposit : bool;
  haveDelegateCall : bool;
  stackLimit : Z;
  tierStepGas : list Z;
  expGas : Z;
  expByteGas : Z;
  sha3Gas : Z;
  sha3WordGas : Z;
  sloadGas : Z;
  sstoreSetGas : Z;
  sstoreResetGas : Z;
  sstoreRefundGas : Z;
  jumpdestGas : Z;
  logGas : Z;
  logDataGas : Z;
  logTopicGas : Z;
  createGas : Z;
  callGas : Z;
  callStipend : Z;
  callValueTransferGas : Z;
  callNewAccountGas : Z;
  suicideRefundGas : Z;
  memoryGas : Z;
  quadCoeffDiv : Z;
  createDataGas : Z;
  txGas : Z;
  txCreateGas : Z;
  txDataZeroGas : Z;
  txDataNonZeroGas : Z;
  copyGas : Z
}.

(** [EVMSchedule(bool, bool, u256)] with the in-class initialisers. *)
Definition newSchedule (efcd hdc : bool) (txCreateGas_ : Z) : EVMSchedule :=
  {| exceptionalFailedCodeDeposit := efcd;
     haveDelegateCall := hdc;
     stackLimit := 1024;
     tierStepGas := [0; 2; 3; 5; 8; 10; 20; 0];
     expGas := 10;
     expByteGas := 10;
     sha3Gas := 30;
     sha3WordGas := 6;
     sloadGas := 50;
     sstoreSetGas := 20000;
     sstoreResetGas := 5000;
     sstoreRefundGas := 15000;
     jumpdestGas := 1;
     logGas := 375;
     logDataGas := 8;
     logTopicGas := 375;
     createGas := 32000;
     callGas := 40;
     callStipend := 2300;
     callValueTransferGas := 9000;
     callNewAccountGas := 25000;
     suicideRefundGas := 24000;
     memoryGas := 3;
     quadCoeffDiv := 512;
     createDataGas := 200;
     txGas := 21000;
     txCreateGas := txCreateGas_;
     txDataZeroGas := 4;
     txDataNonZeroGas := 68;
     copyGas := 3 |}.

Definition DefaultSchedule : EVMSchedule := newSchedule true true 53000.
Definition FrontierSchedule : EVMSchedule := newSchedule false false 21000.
Definition HomesteadSchedule : EVMSchedule := newSchedule true true 53000.

(** ** Lemmas *)

Lemma ofByte_toByte i : ofByte (toByte i) = Some i.
Proof. by destruct i. Qed.

Lemma toByte_is_byte i : is_byte (toByte i).
Proof. unfold is_byte. destruct i; simpl; lia. Qed.

Lemma ofByte_Some b i : ofByte b = Some i -> toByte i = b.
Proof. intros H. apply find_some in H as [_ H]. by apply Z.eqb_eq. Qed.

(** The immediate bytes of an instruction byte, as the walker counts them. *)
Definition additionalOf (b : byte) : nat :=
  Z.to_nat (if isValidInstruction (ofByte b) then additional (instructionInfo (ofByte b)) else 0).

Lemma additionalOf_le b : (additionalOf b <= 32)%nat.
Proof.
  unfold additionalOf. destruct (ofByte b) as [i|]; [|simpl; lia].
  destruct i; vm_compute; lia.
Qed.

(** The immediate bytes padded with zeros, as the walker reads them. *)
Definition padded (k : nat) (mem : bytes) : bytes := take k mem ++ replicate (k - length mem) 0.

Lemma padded_length k mem : length (padded k mem) = k.
Proof. unfold padded. rewrite length_app, length_take, length_replicate. lia. Qed.

Lemma padded_wf k mem : wf_bytes mem -> wf_bytes (padded k mem).
Proof.
  intros. apply wf_bytes_app. split; [by apply wf_bytes_take|].
  apply wf_bytes_replicate. unfold is_byte. lia.
Qed.

Lemma be_bytes_padded k mem :
  wf_bytes mem -> be_bytes k (be_value (padded k mem)) = padded k mem.
Proof.
  intros. pose proof (be_bytes_be_value (padded k mem)) as Hb.
  rewrite padded_length in Hb. by apply Hb, padded_wf.
Qed.

Lemma immediate_spec k j data mem :
  wf_bytes mem -> 0 <= j -> 0 <= data < 256 ^ j -> j + Z.of_nat k <= 32 ->
  immediate k data mem = (data * 256 ^ Z.of_nat k + be_value (padded k mem), drop k mem).
Proof.
  revert j data mem. induction k as [|k IH]; intros j data mem Hwf Hj Hd Hjk.
  { unfold padded. simpl. rewrite drop_0. f_equal. lia. }
  assert (data * 256 < 2 ^ 256) as Hb.
  { apply Z.lt_le_trans with (256 ^ (j + 1)).
    - rewrite Z.pow_add_r by lia. lia.
    - rewrite pow256_pow2 by lia. apply Z.pow_le_mono_r; lia. }
  assert (u256 (Z.shiftl data 8) = data * 256) as Hsh.
  { rewrite Z.shiftl_mul_pow2 by lia. apply wrap_id. split; [lia|exact Hb]. }
  rewrite Nat2Z.inj_succ, Z.pow_succ_r by lia.
  destruct mem as [|b mem]; cbn [immediate].
  - rewrite Hsh, (IH (j + 1)); [|done|lia|rewrite Z.pow_add_r by lia; lia|lia].
    rewrite !drop_nil. f_equal. unfold padded. rewrite !take_nil. cbn [app length].
    rewrite !Nat.sub_0_r. cbn [replicate be_value]. lia.
  - apply Forall_cons_1 in Hwf as [Hbb Hwf].
    assert (Z.lor (u256 (Z.shiftl data 8)) b = data * 256 + b) as ->.
    { rewrite Hsh, <-lor_shiftl_byte, Z.shiftl_mul_pow2 by (done || lia). done. }
    unfold is_byte in Hbb.
    rewrite (IH (j + 1)); [|done|lia|rewrite Z.pow_add_r by lia; lia|lia].
    f_equal. change (padded (S k) (b :: mem)) with (b :: padded k mem). cbn [be_value].
    replace (sizeZ (padded k mem)) with (Z.of_nat k) by (unfold sizeZ; by rewrite padded_length).
    lia.
Qed.

(** The bytes that a walked instruction stands for. *)
Definition assembleOne (e : byte * Z) : bytes := e.1 :: be_bytes (additionalOf e.1) e.2.

Lemma eachInstruction_loop_spec fuel mem :
  wf_bytes mem -> (length mem <= fuel)%nat ->
  exists k, flat_map assembleOne (eachInstruction_loop fuel mem) = mem ++ replicate k 0
            /\ (k <= 32)%nat.
Proof.
  revert mem. induction fuel as [|f IH]; intros mem Hwf Hlen.
  { destruct mem; [|simpl in Hlen; lia]. exists 0%nat. simpl. split; [done|lia]. }
  destruct mem as [|b mem]; [exists 0%nat; simpl; split; [done|lia]|].
  apply Forall_cons_1 in Hwf as [Hb Hwf]. cbn [eachInstruction_loop].
  change (Z.to_nat _) with (additionalOf b). pose proof (additionalOf_le b) as Hle.
  rewrite (immediate_spec _ 0) by (done || simpl; lia). rewrite Z.mul_0_l, Z.add_0_l.
  cbn [flat_map]. unfold assembleOne at 1. cbn [fst snd].
  destruct (IH (drop (additionalOf b) mem)) as (k & Hk & Hk32);
    [by apply wf_bytes_drop|rewrite length_drop; simpl in Hlen; lia|].
  rewrite be_bytes_padded, Hk by done.
  destruct (decide (additionalOf b <= length mem)%nat).
  - exists k. split; [|done]. unfold padded.
    replace (additionalOf b - length mem)%nat with 0%nat by lia.
    cbn [replicate app]. rewrite app_nil_r, app_assoc, take_drop. done.
  - exists (additionalOf b - length mem + k)%nat. unfold padded.
    rewrite take_ge, drop_ge in * by lia. destruct k as [|k].
    + split; [|lia]. rewrite Nat.add_0_r. cbn [app replicate]. by rewrite app_nil_r.
    + exfalso. destruct f; simpl in Hk; discriminate.
Qed.

(** ** Properties *)

(** The enumeration and its byte values are in bijection on the named
    opcodes, and the number of immediate bytes in the table is the width of
    the [PUSH] instruction and zero for every other instruction. *)
Theorem instruction_table (i : Instruction) :
  ofByte (toByte i) = Some i /\
  additional (c_instructionInfo i)
  = (if (toByte PUSH1 <=? toByte i) && (toByte i <=? toByte PUSH32) then getPushNumber i else 0) /\
  0 <= args (c_instructionInfo i) <= 17 /\ 0 <= ret (c_instructionInfo i) <= 17 /\
  gasPriceTier (c_instructionInfo i) <> InvalidTier.
Proof. split; [apply ofByte_toByte|]. destruct i; vm_compute; repeat split; congruence. Qed.

(** Walking a code and writing every visited instruction with its immediate
    data gives the code back, followed by at most 32 zero bytes when the last
    [PUSH] is cut off; in particular the walk visits every byte once. *)
Theorem eachInstruction_reassembles (mem : bytes) (Hwf : wf_bytes mem) :
  exists k, flat_map assembleOne (eachInstruction mem) = mem ++ replicate k 0 /\ (k <= 32)%nat.
Proof. by apply eachInstruction_loop_spec. Qed.

Lemma eachInstruction_reassembles_witness :
  exists k, flat_map assembleOne (eachInstruction [96; 1; 12; 1; 98; 7])
            = [96; 1; 12; 1; 98; 7] ++ replicate k 0 /\ (k <= 32)%nat.
Proof. apply (eachInstruction_reassembles [96; 1; 12; 1; 98; 7]). decide_closed. Defined.

(** Looking up the name that the disassembler prints in the mnemonic table
    gives the instruction back for every instruction except [NOT], whose name
    is read as [ISZERO], and [ISZERO], whose name is not a mnemonic. *)
Theorem mnemonic_roundtrip (i : Instruction) :
  snd <$> find (fun e => String.eqb (fst e) (name (c_instructionInfo i))) c_instructions
  = if decide (i = NOT) then Some ISZERO else if decide (i = ISZERO) then None else Some i.
Proof. by destruct i. Qed.
