(* ===== verification/ExtVMFace.v ===== *)
(** * libevm/ExtVMFace.h and VMFace.h

    What the virtual machine sees of the outside: the block environment, the
    accrued sub-state, the parameters of a message call and the interface
    [ExtVMFace] through which the machine reads and changes the world.  An
    address and a 256-bit hash are held as the numbers that the [u160] and
    [u256] conversions of the code give. *)

From Stdlib Require Import ZArith Lia.
From stdpp Require Import base list option gmap.
From S2P Require Import Prelude CommonData RLP FixedHash Instruction.

Abbreviation Address := Z.
Abbreviation h256 := Z.

(** The exceptions of VMFace.h.  [Unexpected] stands for an exception that is
    not a [VMException] and [UB] for an access outside an array, which the C++
    code does not detect. *)
Inductive vm_error :=
| BadInstruction
| BadJumpDestination
| OutOfGas
| OutOfStack
| StackUnderflow
| Unexpected
| UB.

#[export] Instance vm_error_eq_dec : EqDecision vm_error.
Proof. solve_decision. Defined.

(** ** Log entries *)

Record LogEntry := mkLogEntry {
  address : Address;
  topics : list h256;
  data : bytes
}.

(** [LogEntry::streamRLP] *)
Definition LogEntry_streamRLP (e : LogEntry) (s : RLPStream.t) : result rlp_error RLPStream.t :=
  s1 ← RLPStream.appendList s 3;
  s2 ← RLPStream.appendHash s1 (ofArith 20 (address e)) false false;
  s3 ← RLPStream.appendVector (fun s t => RLPStream.appendHash s (ofArith 32 t) false false) s2
         (topics e);
  RLPStream.append s3 (data e) false.

Section Bloom.
(** [sha3] of libdevcore/SHA3.cpp, returning the 32 bytes of the digest. *)
Variable sha3 : bytes -> bytes.

Definition LogEntry_bloom (e : LogEntry) : bytes :=
  foldl (fun ret t => shiftBloom 3 ret (sha3 (ofArith 32 t)))
        (shiftBloom 3 (zeroHash 256) (sha3 (ofArith 20 (address e)))) (topics e).

(** [bloom(LogEntries)] *)
Definition bloom (logs : list LogEntry) : bytes :=
  foldl (fun ret l => or_ ret (LogEntry_bloom l)) (zeroHash 256) logs.
End Bloom.

(** ** Sub-state *)

Record SubState := mkSubState {
  suicides : gset Address;
  logs : list LogEntry;
  refunds : Z
}.

(** [SubState::operator+=] *)
Definition accrue (s t : SubState) : SubState :=
  {| suicides := suicides s ∪ suicides t;
     refunds := u256 (refunds s + refunds t);
     logs := logs s ++ logs t |}.

(** [SubState::clear] *)
Definition emptySubState : SubState := mkSubState ∅ [] 0.

(** ** Message calls *)

(** [CallParameters]; [out] is the current content of the buffer that the
    callee's output is written to. *)
Record CallParameters := mkCallParameters {
  senderAddress : Address;
  codeAddress : Address;
  receiveAddress : Address;
  valueTransfer : Z;
  apparentValue : Z;
  gas : Z;
  cdata : bytes;
  out : bytes
}.

(** [bytesConstRef::copyTo] *)
Definition copyTo (src dst : bytes) : bytes :=
  take (length dst) src ++ drop (length src) dst.

(** ** Environment *)

Record EnvInfo := mkEnvInfo {
  number : Z;
  author : Address;
  timestamp : Z;
  difficulty : Z;
  gasLimit : Z;
  lastHashes : list h256;
  gasUsed : Z
}.

(** The public fields of [ExtVMFace] that stay the same during an execution. *)
Record ExtEnv := mkExtEnv {
  envInfo : EnvInfo;
  myAddress : Address;
  caller : Address;
  origin : Address;
  value : Z;
  gasPrice : Z;
  edata : bytes;
  code : bytes;
  depth : Z
}.

(** [ExtVMFace::blockHash] *)
Definition blockHash (env : EnvInfo) (n : Z) : result vm_error h256 :=
  if (n <? number env) && (Z.max 256 (number env) - 256 <=? n) then
    match lastHashes env !! Z.to_nat (u32 (u256 (number env - 1 - n))) with
    | Some h => Ok h
    | None => Throw UB
    end
  else Ok 0.

(** [ExtVMFace::getCode] *)
Definition getCode (e : ExtEnv) (n : Z) : byte :=
  if n <? sizeZ (code e) then default 0 (code e !! Z.to_nat n) else 0.

(** The virtual methods of [ExtVMFace] over a world of type [W], which includes
    the public member [sub].  Reading may change the world, since the state
    behind it fills its caches, and may throw, when the database is corrupt. *)
Class ExtVMFace (W : Type) := {
  ext_store : Z -> W -> result vm_error (Z * W);
  ext_setStore : Z -> Z -> W -> W;
  ext_balance : Address -> W -> result vm_error (Z * W);
  ext_codeAt : Address -> W -> result vm_error (bytes * W);
  ext_exists : Address -> W -> result vm_error (bool * W);
  ext_suicide : Address -> W -> result vm_error W;
  ext_create : Z -> Z -> bytes -> W -> result vm_error (Address * Z * W);
  ext_call : CallParameters -> W -> result vm_error (bool * Z * bytes * W);
  ext_sub : W -> SubState;
  ext_setSub : SubState -> W -> W
}.

(** [sub.refunds += n] *)
Definition ext_addRefund `{ExtVMFace W} (n : Z) (w : W) : W :=
  let s := ext_sub w in
  ext_setSub (mkSubState (suicides s) (logs s) (u256 (refunds s + n))) w.

(** [ExtVMFace::log] *)
Definition ext_log `{ExtVMFace W} (env : ExtEnv) (ts : list h256) (d : bytes) (w : W) : W :=
  let s := ext_sub w in
  ext_setSub (mkSubState (suicides s) (logs s ++ [mkLogEntry (myAddress env) ts d]) (refunds s)) w.

(** The null implementation that the base class gives: the world is the member
    [sub] alone. *)
Definition nullExtVM (e : ExtEnv) : ExtVMFace SubState := {|
  ext_store _ w := Ok (0, w);
  ext_setStore _ _ w := w;
  ext_balance _ w := Ok (0, w);
  ext_codeAt _ w := Ok ([], w);
  ext_exists _ w := Ok (false, w);
  ext_suicide _ w := Ok (mkSubState ({[myAddress e]} ∪ suicides w) (logs w) (refunds w));
  ext_create _ g _ w := Ok (0, g, w);
  ext_call p w := Ok (false, gas p, out p, w);
  ext_sub w := w;
  ext_setSub s _ := s
|}.

(** The gas below which memory offsets stay within 32 bits: the quadratic fee of
    [2^32] bytes of memory is already [2^45]. *)
Definition gasBound : Z := 2 ^ 45.

(** What the machine that runs in [env] relies on: words that are read are
    256-bit, a call or a creation gives back at most the gas it was given, a
    call writes only within its output buffer, and neither throws when the
    account can pay for it.  [ext_live] says that nested calls are possible. *)
Class ExtVMLaws (W : Type) `{ExtVMFace W} (env : ExtEnv) := {
  ext_wf : W -> Prop;
  ext_live : Prop;
  ext_store_ok : forall n w, ext_wf w ->
    exists v w', ext_store n w = Ok (v, w') /\ fits 256 v /\ ext_wf w';
  ext_setStore_wf : forall n v w, ext_wf w -> fits 256 n -> fits 256 v -> ext_wf (ext_setStore n v w);
  ext_balance_ok : forall a w, ext_wf w ->
    exists v w', ext_balance a w = Ok (v, w') /\ fits 256 v /\ ext_wf w';
  ext_codeAt_ok : forall a w, ext_wf w ->
    exists c w', ext_codeAt a w = Ok (c, w') /\ wf_bytes c /\ sizeZ c < 2 ^ 64 /\ ext_wf w';
  ext_exists_ok : forall a w, ext_wf w -> exists b w', ext_exists a w = Ok (b, w') /\ ext_wf w';
  ext_setSub_wf : forall s w, ext_wf w -> ext_wf (ext_setSub s w);
  ext_suicide_ok : forall a w, ext_wf w -> exists w', ext_suicide a w = Ok w' /\ ext_wf w';
  ext_create_ok : forall v g c w b w1, ext_live -> ext_wf w -> fits 256 v ->
    ext_balance (myAddress env) w = Ok (b, w1) -> v <= b ->
    0 <= g < gasBound -> wf_bytes c -> sizeZ c < 2 ^ 32 ->
    exists a g' w', ext_create v g c w1 = Ok (a, g', w') /\
      0 <= g' <= g /\ fits 160 a /\ ext_wf w';
  ext_call_ok : forall p w b w1, ext_live -> ext_wf w ->
    fits 256 (valueTransfer p) -> fits 256 (apparentValue p) ->
    fits 160 (codeAddress p) -> fits 160 (receiveAddress p) ->
    ext_balance (myAddress env) w = Ok (b, w1) ->
    (senderAddress p = myAddress env /\ valueTransfer p <= b \/
     senderAddress p = caller env /\ valueTransfer p = 0) ->
    0 <= gas p < gasBound -> wf_bytes (cdata p) -> wf_bytes (out p) ->
    sizeZ (cdata p) < 2 ^ 32 ->
    exists ok g' o w', ext_call p w1 = Ok (ok, g', o, w') /\
      0 <= g' <= gas p /\ length o = length (out p) /\ wf_bytes o /\ ext_wf w'
}.

#[export] Instance nullExtVMLaws (e : ExtEnv) : @ExtVMLaws SubState (nullExtVM e) e.
Proof.
  refine {| ext_wf := fun _ : SubState => True; ext_live := True |}; simpl; intros; try done; eauto.
  - by exists 0, w.
  - by exists 0, w.
  - exists [], w. repeat split; apply Forall_nil_2.
  - exists 0, g, w1. repeat split; lia.
  - exists false, (gas p), (out p), w1. repeat split; (done || lia).
Defined.
