(* ===== verification/VM.v ===== *)
(** * libevm/VM.{h,cpp}: the interpreter

    The machine's members are the record [vm]; the operand stack is a list whose
    head is [m_stack.back()], so [m_stack[m_stack.size() - k]] is its element
    [k - 1].  Every access outside the stack or the memory is [Throw UB].  The
    tracing callback [_onOp] observes the machine without changing it and is
    left out. *)

From Stdlib Require Import ZArith Lia Zpow_facts.
From stdpp Require Import base list option gmap.
From S2P Require Import Prelude CommonData FixedHash Instruction ExtVMFace.

Record vm := mkVM {
  m_curPC : Z;
  m_steps : Z;
  m_temp : bytes;
  m_stack : list Z;
  m_jumpDests : list Z
}.

Definition set_stack (s : list Z) (m : vm) : vm :=
  mkVM (m_curPC m) (m_steps m) (m_temp m) s (m_jumpDests m).
Definition set_temp (t : bytes) (m : vm) : vm :=
  mkVM (m_curPC m) (m_steps m) t (m_stack m) (m_jumpDests m).
Definition set_pc (pc steps : Z) (m : vm) : vm :=
  mkVM pc steps (m_temp m) (m_stack m) (m_jumpDests m).

(** [asAddress] and [fromAddress] *)
Definition asAddress (item : Z) : Address := toArith (right160 (ofArith 32 item)).
Definition fromAddress (a : Address) : Z := a.

(** ** Stack and memory accesses *)

(** [m_stack[m_stack.size() - k]] *)
Definition back (k : nat) (s : list Z) : result vm_error Z :=
  match s !! pred k with Some v => Ok v | None => Throw UB end.

(** [k] times [m_stack.pop_back()] *)
Definition pop (k : nat) (s : list Z) : result vm_error (list Z) :=
  if (k <=? length s)%nat then Ok (drop k s) else Throw UB.

(** [m_stack.push_back(v)] *)
Definition push (v : Z) (s : list Z) : list Z := v :: s.

(** The bytes of [bytesConstRef(m_temp.data() + off, n)]. *)
Definition readMem (off n : Z) (m : bytes) : result vm_error bytes :=
  if n =? 0 then Ok []
  else if off + n <=? sizeZ m then Ok (take (Z.to_nat n) (drop (Z.to_nat off) m))
  else Throw UB.

(** [memcpy(m_temp.data() + off, d.data(), d.size())] *)
Definition writeMem (off : Z) (d m : bytes) : result vm_error bytes :=
  if sizeZ d =? 0 then Ok m
  else if off + sizeZ d <=? sizeZ m then
    Ok (take (Z.to_nat off) m ++ d ++ drop (Z.to_nat off + length d) m)
  else Throw UB.

(** [m_temp.resize(n)] for [n] not below the present size *)
Definition growMem (n : Z) (m : bytes) : bytes := m ++ replicate (Z.to_nat n - length m) 0.

(** ** Requirements and fees *)

(** [VM::require] *)
Definition require (sch : EVMSchedule) (n d : Z) (s : list Z) : result vm_error unit :=
  _ ← guard_or (negb (sizeZ s <? n)) StackUnderflow;
  guard_or (negb (stackLimit sch <? sizeZ s - n + d)) OutOfStack.

(** The lambda [memNeed] *)
Definition memNeed (off size : Z) : Z := if size =? 0 then 0 else off + size.

(** The lambda [gasForMem] *)
Definition gasForMem (sch : EVMSchedule) (size : Z) : Z :=
  let s := size / 32 in
  memoryGas sch * s + s * s / quadCoeffDiv sch.

(** [runGas], [newTempSize] and [copySize] *)
Record fees := mkFees { runGas : Z; newTempSize : Z; copySize : Z }.

Section Machine.
Context {W : Type} `{ExtVMFace W}.
(** [sha3] of libdevcore/SHA3.cpp *)
Variable sha3 : bytes -> bytes.
Variable sch : EVMSchedule.
Variable env : ExtEnv.

(** The case [SSTORE] of the fee computation; the refund is booked here. *)
Definition sstoreFee (s : list Z) (w : W) : result vm_error (Z * W) :=
  key ← back 1 s;
  val ← back 2 s;
  '(old, w1) ← ext_store key w;
  if (old =? 0) && negb (val =? 0) then Ok (sstoreSetGas sch, w1)
  else
    '(old2, w2) ← ext_store key w1;
    if negb (old2 =? 0) && (val =? 0)
    then Ok (sstoreResetGas sch, ext_addRefund (sstoreRefundGas sch) w2)
    else Ok (sstoreResetGas sch, w2).

(** The case [CALL], [CALLCODE], [DELEGATECALL] of the fee computation. *)
Definition callFee (inst : Instruction) (s : list Z) (w : W) : result vm_error (fees * W) :=
  g ← back 1 s;
  to ← back 2 s;
  let runGas0 := g + callGas sch in
  '(runGas1, w1) ←
    (if decide (inst = CALL) then
       '(ex, w1) ← ext_exists (asAddress to) w;
       Ok (if ex : bool then runGas0 else runGas0 + callNewAccountGas sch, w1)
     else Ok (runGas0, w));
  runGas2 ← (if decide (inst = DELEGATECALL) then Ok runGas1
             else v ← back 3 s;
                  Ok (if 0 <? v then runGas1 + callValueTransferGas sch else runGas1));
  let sizesOffset := if decide (inst = DELEGATECALL) then 3%nat else 4%nat in
  outOff ← back (sizesOffset + 2) s;
  outSize ← back (sizesOffset + 3) s;
  inOff ← back sizesOffset s;
  inSize ← back (sizesOffset + 1) s;
  Ok (mkFees runGas2 (Z.max (memNeed outOff outSize) (memNeed inOff inSize)) 0, w1).

(** The switch of [VM::checkRequirements], from the tier's gas [tier]. *)
Definition opFees (inst : Instruction) (tier : Z) (m : vm) (w : W) : result vm_error (fees * W) :=
  let s := m_stack m in
  let temp := sizeZ (m_temp m) in
  match inst with
  | SSTORE => '(g, w1) ← sstoreFee s w; Ok (mkFees g temp 0, w1)
  | SLOAD => Ok (mkFees (sloadGas sch) temp 0, w)
  | MSTORE => a ← back 1 s; Ok (mkFees tier (a + 32) 0, w)
  | MSTORE8 => a ← back 1 s; Ok (mkFees tier (a + 1) 0, w)
  | MLOAD => a ← back 1 s; Ok (mkFees tier (a + 32) 0, w)
  | RETURN => a ← back 1 s; n ← back 2 s; Ok (mkFees tier (memNeed a n) 0, w)
  | SHA3 => a ← back 1 s; n ← back 2 s;
      Ok (mkFees (sha3Gas sch + (n + 31) / 32 * sha3WordGas sch) (memNeed a n) 0, w)
  | CALLDATACOPY | CODECOPY =>
      a ← back 1 s; n ← back 3 s; Ok (mkFees tier (memNeed a n) n, w)
  | EXTCODECOPY => a ← back 2 s; n ← back 4 s; Ok (mkFees tier (memNeed a n) n, w)
  | JUMPDEST => Ok (mkFees 1 temp 0, w)
  | LOG0 | LOG1 | LOG2 | LOG3 | LOG4 =>
      let n := u32 (toByte inst - toByte LOG0) in
      a ← back 1 s; size ← back 2 s;
      Ok (mkFees (u256 (logGas sch + u256 (logTopicGas sch * n)) + logDataGas sch * size)
            (memNeed a size) 0, w)
  | CALL | CALLCODE | DELEGATECALL => callFee inst s w
  | CREATE => a ← back 2 s; n ← back 3 s; Ok (mkFees (createGas sch) (memNeed a n) 0, w)
  | EXP =>
      expon ← back 2 s;
      Ok (mkFees (u256 (expGas sch
                        + u256 (expByteGas sch * (32 - firstBitSet (ofArith 32 expon) / 8))))
            temp 0, w)
  | _ => Ok (mkFees tier temp 0, w)
  end.

(** [VM::checkRequirements]: the machine with its memory resized, the gas left
    and the world. *)
Definition checkRequirements (oinst : option Instruction) (m : vm) (io_gas : Z) (w : W)
  : result vm_error (Instruction * vm * Z * W) :=
  let metric := instructionInfo oinst in
  _ ← guard_or (haveDelegateCall sch || negb (bool_decide (oinst = Some DELEGATECALL)))
        BadInstruction;
  _ ← guard_or (negb (bool_decide (gasPriceTier metric = InvalidTier))) BadInstruction;
  match oinst, tierStepGas sch !! tierIndex (gasPriceTier metric) with
  | Some inst, Some tier =>
      _ ← require sch (args metric) (ret metric) (m_stack m);
      '(f, w1) ← opFees inst tier m w;
      let temp := sizeZ (m_temp m) in
      let newTemp := (newTempSize f + 31) / 32 * 32 in
      let gas1 := if temp <? newTemp
                  then runGas f + (gasForMem sch newTemp - gasForMem sch temp) else runGas f in
      let gas2 := gas1 + copyGas sch * ((copySize f + 31) / 32) in
      _ ← guard_or (negb (io_gas <? gas2)) OutOfGas;
      let m1 := if temp <? newTemp then set_temp (growMem (u64 newTemp) (m_temp m)) m else m in
      Ok (inst, m1, u256 (io_gas - u256 gas2), w1)
  | _, _ => Throw UB
  end.

(** [VM::verifyJumpDest]; the vector is sorted, so the binary search is
    membership. *)
Definition verifyJumpDest (dest : Z) (validDests : list Z) : result vm_error Z :=
  let nextPC := u64 dest in
  _ ← guard_or (existsb (Z.eqb nextPC) validDests && negb (2 ^ 64 - 1 <? dest))
        BadJumpDestination;
  Ok nextPC.

(** [VM::copyDataToMemory] *)
Definition copyDataToMemory (d : bytes) (m : vm) : result vm_error vm :=
  a ← back 1 (m_stack m);
  bigIndex ← back 2 (m_stack m);
  c ← back 3 (m_stack m);
  s ← pop 3 (m_stack m);
  let offset := u64 a in
  let index := u64 bigIndex in
  let size := u64 c in
  let sizeToBeCopied :=
    if sizeZ d <? bigIndex + size
    then if sizeZ d <? bigIndex then 0 else u64 (sizeZ d - index)
    else size in
  src ← readMem index sizeToBeCopied d;
  t1 ← writeMem offset src (m_temp m);
  t2 ← writeMem (offset + sizeToBeCopied)
         (replicate (Z.to_nat (size - sizeToBeCopied)) 0) t1;
  Ok (set_stack s (set_temp t2 m)).

(** [divWorkaround] and [modWorkaround] *)
Definition divWorkaround (a b : Z) : Z := Z.quot a b.
Definition modWorkaround (a b : Z) : Z := Z.rem a b.

(** ** [VM::execOrdinaryOpcode] *)

(** The top element is replaced by a function of it. *)
Definition un (f : Z -> Z) (s : list Z) : result vm_error (list Z) :=
  match s with a :: r => Ok (f a :: r) | _ => Throw UB end.
(** The second element is replaced by a function of the two topmost ones, then
    the top is popped. *)
Definition bin (f : Z -> Z -> Z) (s : list Z) : result vm_error (list Z) :=
  match s with a :: b :: r => Ok (f a b :: r) | _ => Throw UB end.
Definition tern (f : Z -> Z -> Z -> Z) (s : list Z) : result vm_error (list Z) :=
  match s with a :: b :: c :: r => Ok (f a b c :: r) | _ => Throw UB end.

(** [boost::multiprecision::powm((bigint)base, (bigint)expon, bigint(1) << 256)] *)
Definition powm (base expon : Z) : Z := Zpow_mod base expon (2 ^ 256).

Definition byteOp (a b : Z) : Z :=
  if a <? 32 then Z.land (Z.shiftr b (u32 (8 * (31 - a)))) 255 else 0.

Definition signextend (a number : Z) : Z :=
  if a <? 31 then
    let testBit := u32 a * 8 + 7 in
    let mask := u256 (Z.shiftl 1 testBit - 1) in
    if Z.testbit number testBit then Z.lor number (u256 (Z.lnot mask))
    else Z.land number mask
  else number.

(** [ADD] to [SIGNEXTEND] *)
Definition arithOp (inst : Instruction) (s : list Z) : result vm_error (list Z) :=
  match inst with
  | ADD => bin (fun a b => u256 (b + a)) s
  | MUL => bin (fun a b => u256 (b * a)) s
  | SUB => bin (fun a b => u256 (a - b)) s
  | DIV => bin (fun a b => if negb (b =? 0) then divWorkaround a b else 0) s
  | SDIV => bin (fun a b => if negb (b =? 0) then s2u (divWorkaround (u2s a) (u2s b)) else 0) s
  | MOD => bin (fun a b => if negb (b =? 0) then modWorkaround a b else 0) s
  | SMOD => bin (fun a b => if negb (b =? 0) then s2u (modWorkaround (u2s a) (u2s b)) else 0) s
  | EXP => bin powm s
  | NOT => un (fun a => u256 (Z.lnot a)) s
  | LT => bin (fun a b => if a <? b then 1 else 0) s
  | GT => bin (fun a b => if b <? a then 1 else 0) s
  | SLT => bin (fun a b => if u2s a <? u2s b then 1 else 0) s
  | SGT => bin (fun a b => if u2s b <? u2s a then 1 else 0) s
  | EQ => bin (fun a b => if a =? b then 1 else 0) s
  | ISZERO => un (fun a => if negb (a =? 0) then 0 else 1) s
  | AND => bin Z.land s
  | OR => bin Z.lor s
  | XOR => bin Z.lxor s
  | BYTE => bin byteOp s
  | ADDMOD => tern (fun a b c => if negb (c =? 0) then u256 (Z.rem (a + b) c) else 0) s
  | MULMOD => tern (fun a b c => if negb (c =? 0) then u256 (Z.rem (a * b) c) else 0) s
  | SIGNEXTEND => bin signextend s
  | _ => Throw UB
  end.

(** [CALLDATALOAD]: the loop of the last branch over [j] from 0 to 31 *)
Definition callDataLoad (a : Z) : result vm_error Z :=
  let d := edata env in
  if a + 31 <? sizeZ d then
    h ← readMem (u64 a) 32 d; Ok (toArith h)
  else if sizeZ d <=? a then Ok 0
  else
    Ok (toArith ((fun j : nat =>
                    let i := u32 a + Z.of_nat j in
                    if i <? sizeZ d then default 0 (d !! Z.to_nat i) else 0) <$> seq 0 32)).

(** [SHA3] to [GASLIMIT]: queries of the memory and of the environment *)
Definition envOp (inst : Instruction) (m : vm) (w : W) : result vm_error (vm * W) :=
  let s := m_stack m in
  let ei := envInfo env in
  let pushed v := Ok (set_stack (push v s) m, w) in
  match inst with
  | SHA3 =>
      inOff ← back 1 s; inSize ← back 2 s; s' ← pop 2 s;
      d ← readMem (u32 inOff) (u32 inSize) (m_temp m);
      Ok (set_stack (push (toArith (sha3 d)) s') m, w)
  | ADDRESS => pushed (fromAddress (myAddress env))
  | ORIGIN => pushed (fromAddress (origin env))
  | BALANCE =>
      a ← back 1 s; s' ← pop 1 s;
      '(b, w1) ← ext_balance (asAddress a) w; Ok (set_stack (push b s') m, w1)
  | CALLER => pushed (fromAddress (caller env))
  | CALLVALUE => pushed (value env)
  | CALLDATALOAD =>
      a ← back 1 s; s' ← pop 1 s; v ← callDataLoad a; Ok (set_stack (push v s') m, w)
  | CALLDATASIZE => pushed (sizeZ (edata env))
  | CODESIZE => pushed (sizeZ (code env))
  | EXTCODESIZE =>
      a ← back 1 s; s' ← pop 1 s;
      '(c, w1) ← ext_codeAt (asAddress a) w; Ok (set_stack (push (sizeZ c) s') m, w1)
  | CALLDATACOPY => m1 ← copyDataToMemory (edata env) m; Ok (m1, w)
  | CODECOPY => m1 ← copyDataToMemory (code env) m; Ok (m1, w)
  | EXTCODECOPY =>
      a ← back 1 s; s' ← pop 1 s;
      '(c, w1) ← ext_codeAt (asAddress a) w; m1 ← copyDataToMemory c (set_stack s' m); Ok (m1, w1)
  | GASPRICE => pushed (gasPrice env)
  | BLOCKHASH =>
      a ← back 1 s; s' ← pop 1 s; h ← blockHash ei a; Ok (set_stack (push h s') m, w)
  | COINBASE => pushed (author ei)
  | TIMESTAMP => pushed (timestamp ei)
  | NUMBER => pushed (number ei)
  | DIFFICULTY => pushed (difficulty ei)
  | GASLIMIT => pushed (gasLimit ei)
  | _ => Throw UB
  end.

(** The loop of the [PUSH] cases: [i] immediate bytes from [nextPC] on. *)
Fixpoint pushLoop (i : nat) (v nextPC : Z) : Z * Z :=
  match i with
  | O => (v, nextPC)
  | S i' => pushLoop i' (Z.lor (u256 (Z.shiftl v 8)) (getCode env nextPC)) (u64 (nextPC + 1))
  end.

(** [PUSHn]; also gives the next program counter *)
Definition pushOp (inst : Instruction) (m : vm) : vm * Z :=
  let '(v, nextPC) := pushLoop (Z.to_nat (toByte inst - toByte PUSH1 + 1)) 0
                        (u64 (m_curPC m + 1)) in
  (set_stack (push v (m_stack m)) m, nextPC).

(** [DUPn] *)
Definition dupOp (inst : Instruction) (s : list Z) : result vm_error (list Z) :=
  let n := Z.to_nat (u32 (1 + toByte inst - toByte DUP1)) in
  v ← back n s; Ok (push v s).

(** [SWAPn] *)
Definition swapOp (inst : Instruction) (s : list Z) : result vm_error (list Z) :=
  let n := Z.to_nat (u32 (toByte inst - toByte SWAP1 + 2)) in
  d ← back 1 s; e ← back n s; Ok (<[pred n := d]> (<[0%nat := e]> s)).

(** [POP], [PUSH], [JUMP], [JUMPI], [DUP] and [SWAP] *)
Definition stackOp (inst : Instruction) (m : vm) : result vm_error (vm * Z) :=
  let s := m_stack m in
  let nextPC := u64 (m_curPC m + 1) in
  match inst with
  | POP => s' ← pop 1 s; Ok (set_stack s' m, nextPC)
  | JUMP =>
      d ← back 1 s; pc ← verifyJumpDest d (m_jumpDests m); s' ← pop 1 s;
      Ok (set_stack s' m, pc)
  | JUMPI =>
      c ← back 2 s; d ← back 1 s;
      pc ← (if negb (c =? 0) then verifyJumpDest d (m_jumpDests m) else Ok nextPC);
      s' ← pop 2 s; Ok (set_stack s' m, pc)
  | DUP1 | DUP2 | DUP3 | DUP4 | DUP5 | DUP6 | DUP7 | DUP8
  | DUP9 | DUP10 | DUP11 | DUP12 | DUP13 | DUP14 | DUP15 | DUP16 =>
      s' ← dupOp inst s; Ok (set_stack s' m, nextPC)
  | SWAP1 | SWAP2 | SWAP3 | SWAP4 | SWAP5 | SWAP6 | SWAP7 | SWAP8
  | SWAP9 | SWAP10 | SWAP11 | SWAP12 | SWAP13 | SWAP14 | SWAP15 | SWAP16 =>
      s' ← swapOp inst s; Ok (set_stack s' m, nextPC)
  | _ => Ok (pushOp inst m)
  end.

(** [LOGn] with [n] topics *)
Definition logOp (n : nat) (m : vm) (w : W) : result vm_error (vm * W) :=
  let s := m_stack m in
  ts ← mapR (fun k => back (3 + k) s) (seq 0 n);
  a ← back 1 s; size ← back 2 s;
  d ← readMem (u32 a) (u32 size) (m_temp m);
  s' ← pop (2 + n) s;
  Ok (set_stack s' m, ext_log env ts d w).

(** [MLOAD] to [LOG4]: memory, storage, machine state and logs *)
Definition memOp (inst : Instruction) (m : vm) (io_gas : Z) (w : W) : result vm_error (vm * W) :=
  let s := m_stack m in
  let pushed v := Ok (set_stack (push v s) m, w) in
  match inst with
  | MLOAD =>
      a ← back 1 s; s' ← pop 1 s; h ← readMem (u32 a) 32 (m_temp m);
      Ok (set_stack (push (toArith h) s') m, w)
  | MSTORE =>
      a ← back 1 s; v ← back 2 s; s' ← pop 2 s;
      t ← writeMem (u32 a) (ofArith 32 v) (m_temp m); Ok (set_stack s' (set_temp t m), w)
  | MSTORE8 =>
      a ← back 1 s; v ← back 2 s; s' ← pop 2 s;
      t ← writeMem (u32 a) [u8 (Z.land v 255)] (m_temp m); Ok (set_stack s' (set_temp t m), w)
  | SLOAD =>
      a ← back 1 s; s' ← pop 1 s;
      '(v, w1) ← ext_store a w; Ok (set_stack (push v s') m, w1)
  | SSTORE =>
      a ← back 1 s; v ← back 2 s; s' ← pop 2 s; Ok (set_stack s' m, ext_setStore a v w)
  | PC => pushed (m_curPC m)
  | MSIZE => pushed (sizeZ (m_temp m))
  | GAS => pushed io_gas
  | JUMPDEST => Ok (m, w)
  | LOG0 => logOp 0 m w
  | LOG1 => logOp 1 m w
  | LOG2 => logOp 2 m w
  | LOG3 => logOp 3 m w
  | LOG4 => logOp 4 m w
  | _ => Throw UB
  end.

(** [VM::execOrdinaryOpcode]: the machine, the next program counter and the
    world. *)
Definition execOrdinaryOpcode (inst : Instruction) (m : vm) (io_gas : Z) (w : W)
  : result vm_error (vm * Z * W) :=
  let nextPC := u64 (m_curPC m + 1) in
  match inst with
  | ADD | MUL | SUB | DIV | SDIV | MOD | SMOD | EXP | NOT | LT | GT | SLT | SGT | EQ | ISZERO
  | AND | OR | XOR | BYTE | ADDMOD | MULMOD | SIGNEXTEND =>
      s ← arithOp inst (m_stack m); Ok (set_stack s m, nextPC, w)
  | SHA3 | ADDRESS | ORIGIN | BALANCE | CALLER | CALLVALUE | CALLDATALOAD | CALLDATASIZE
  | CODESIZE | EXTCODESIZE | CALLDATACOPY | CODECOPY | EXTCODECOPY | GASPRICE | BLOCKHASH
  | COINBASE | TIMESTAMP | NUMBER | DIFFICULTY | GASLIMIT =>
      '(m1, w1) ← envOp inst m w; Ok (m1, nextPC, w1)
  | MLOAD | MSTORE | MSTORE8 | SLOAD | SSTORE | PC | MSIZE | GAS | JUMPDEST
  | LOG0 | LOG1 | LOG2 | LOG3 | LOG4 =>
      '(m1, w1) ← memOp inst m io_gas w; Ok (m1, nextPC, w1)
  | CREATE | CALL | CALLCODE | DELEGATECALL | RETURN | SUICIDE | STOP => Ok (m, nextPC, w)
  | _ => '(m1, pc) ← stackOp inst m; Ok (m1, pc, w)
  end.

(** ** [VM::execImpl] *)

(** The scan for valid jump destinations: [fuel] bounds the iterations, of
    which there are at most [code.size()]. *)
Fixpoint scanJumpDests (fuel : nat) (c : bytes) (i : Z) (dests : list Z) : list Z :=
  match fuel with
  | O => dests
  | S f =>
      match c !! Z.to_nat i with
      | None => dests
      | Some b =>
          if b =? toByte JUMPDEST then scanJumpDests f c (i + 1) (dests ++ [i])
          else if (toByte PUSH1 <=? b) && (b <=? toByte PUSH32)
          then scanJumpDests f c (i + (b - toByte PUSH1 + 1) + 1) dests
          else scanJumpDests f c (i + 1) dests
      end
  end.

(** The case [CREATE] *)
Definition createOp (m : vm) (io_gas : Z) (w : W) : result vm_error (vm * Z * W) :=
  let s := m_stack m in
  endowment ← back 1 s; initOff ← back 2 s; initSize ← back 3 s; s' ← pop 3 s;
  '(b, w1) ← ext_balance (myAddress env) w;
  if (endowment <=? b) && (depth env <? 1024) then
    init ← readMem (u32 initOff) (u32 initSize) (m_temp m);
    '(a, g, w2) ← ext_create endowment io_gas init w1;
    Ok (set_stack (push a s') m, g, w2)
  else Ok (set_stack (push 0 s') m, io_gas, w1).

(** The cases [CALL], [CALLCODE] and [DELEGATECALL]: the operands taken off the
    stack, as parameters without data and output buffer, then [inOff],
    [inSize], [outOff], [outSize] and the stack left *)
Definition callParams (inst : Instruction) (m : vm)
  : result vm_error (CallParameters * (Z * Z * Z * Z) * list Z) :=
  let s := m_stack m in
  let delegate := bool_decide (inst = DELEGATECALL) in
  gas0 ← back 1 s;
  gas1 ← (if delegate then Ok gas0
          else v ← back 3 s;
               Ok (if 0 <? v then u256 (gas0 + callStipend sch) else gas0));
  s1 ← pop 1 s;
  a ← back 1 s1;
  let ca := asAddress a in
  s2 ← pop 1 s1;
  '(apparent, transfer, s3) ←
    (if delegate then Ok (value env, 0, s2)
     else v ← back 1 s2; s3 ← pop 1 s2; Ok (v, v, s3));
  inOff ← back 1 s3; inSize ← back 2 s3; outOff ← back 3 s3; outSize ← back 4 s3;
  s4 ← pop 4 s3;
  Ok ({| senderAddress := if delegate then caller env else myAddress env;
         codeAddress := ca;
         receiveAddress := if bool_decide (inst = CALL) then ca else myAddress env;
         valueTransfer := transfer;
         apparentValue := apparent;
         gas := gas1;
         cdata := [];
         out := [] |}, (u32 inOff, u32 inSize, u32 outOff, u32 outSize), s4).

Definition with_buffers (d o : bytes) (p : CallParameters) : CallParameters :=
  mkCallParameters (senderAddress p) (codeAddress p) (receiveAddress p) (valueTransfer p)
    (apparentValue p) (gas p) d o.

(** The output buffer lies in the caller's memory, where the callee writes. *)
Definition callOp (inst : Instruction) (m : vm) (io_gas : Z) (w : W)
  : result vm_error (vm * Z * W) :=
  '(p, (inOff, inSize, outOff, outSize), s) ← callParams inst m;
  '(b, w1) ← ext_balance (myAddress env) w;
  if (valueTransfer p <=? b) && (depth env <? 1024) then
    d ← readMem inOff inSize (m_temp m);
    o ← readMem outOff outSize (m_temp m);
    '(ok, g, o', w2) ← ext_call (with_buffers d o p) w1;
    t ← writeMem outOff o' (m_temp m);
    Ok (set_stack (push (if ok : bool then 1 else 0) s) (set_temp t m), u256 (io_gas + g), w2)
  else Ok (set_stack (push 0 s) m, u256 (io_gas + gas p), w1).

(** What one iteration of the loop does: continue, or return output bytes *)
Inductive outcome :=
| Continue (m : vm) (io_gas : Z) (w : W)
| Return (output : bytes) (io_gas : Z) (w : W).

(** One iteration of the loop of [execImpl] *)
Definition step (m : vm) (io_gas : Z) (w : W) : result vm_error outcome :=
  '(inst, m1, gas1, w1) ← checkRequirements (ofByte (getCode env (m_curPC m))) m io_gas w;
  let next pc g m2 w2 := Ok (Continue (set_pc pc (u64 (m_steps m + 1)) m2) g w2) in
  match inst with
  | CREATE =>
      '(m2, g, w2) ← createOp m1 gas1 w1; next (u64 (m_curPC m + 1)) g m2 w2
  | CALL | CALLCODE | DELEGATECALL =>
      '(m2, g, w2) ← callOp inst m1 gas1 w1; next (u64 (m_curPC m + 1)) g m2 w2
  | RETURN =>
      b ← back 1 (m_stack m1); s ← back 2 (m_stack m1);
      o ← readMem (u32 b) (u32 s) (m_temp m1);
      Ok (Return o gas1 w1)
  | SUICIDE =>
      a ← back 1 (m_stack m1);
      w2 ← ext_suicide (asAddress a) w1;
      Ok (Return [] gas1 w2)
  | STOP => Ok (Return [] gas1 w1)
  | _ =>
      '(m2, pc, w2) ← execOrdinaryOpcode inst m1 gas1 w1; next pc gas1 m2 w2
  end.

(** The loop; [None] when [fuel] iterations do not finish. *)
Fixpoint run (fuel : nat) (m : vm) (io_gas : Z) (w : W)
  : option (result vm_error (bytes * Z * W)) :=
  match fuel with
  | O => None
  | S f =>
      match step m io_gas w with
      | Throw e => Some (Throw e)
      | Ok (Return o g w') => Some (Ok (o, g, w'))
      | Ok (Continue m' g w') => run f m' g w'
      end
  end.

(** The machine at the start of the loop *)
Definition initVM : vm :=
  mkVM 0 0 [] [] (scanJumpDests (length (code env)) (code env) 0 []).

(** [VM::execImpl] on a fresh machine, with a number of iterations that always
    suffices *)
Definition execImpl (io_gas : Z) (w : W) : option (result vm_error (bytes * Z * W)) :=
  run (S (Z.to_nat io_gas)) initVM io_gas w.
End Machine.
Arguments Continue {W}.
Arguments Return {W}.
