(* ===== verification/VMTheory.v ===== *)
(** * The interpreter: memory safety, termination, control flow

    Theorems on VM.v, proved against the interface [ExtVMFace] and its laws, for
    every gas schedule that the code constructs. *)

From Stdlib Require Import ZArith Lia Zpow_facts Zquot Sorted.
From stdpp Require Import base list option gmap sorting.
From S2P Require Import Prelude CommonData FixedHash Instruction ExtVMFace VM.

(** ** Word-range lemmas *)

Lemma fits_bits w z : 0 <= w -> fits w z <-> 0 <= z /\ forall n, w <= n -> Z.testbit z n = false.
Proof.
  intros Hw. split.
  - intros [H0 H1]. split; [done|]. intros n Hn.
    destruct (Z.eq_dec z 0) as [->|]; [apply Z.bits_0|].
    apply Z.bits_above_log2; [done|]. apply Z.lt_le_trans with w; [|done].
    apply Z.log2_lt_pow2; lia.
  - intros [H0 H1]. split; [done|]. destruct (Z.eq_dec z 0) as [->|].
    { by apply Z.pow_pos_nonneg. }
    apply Z.log2_lt_pow2; [lia|]. destruct (Z.lt_ge_cases (Z.log2 z) w); [done|].
    specialize (H1 (Z.log2 z)). rewrite Z.bit_log2 in H1 by lia. by discriminate H1.
Qed.

Lemma fits_land w a b : 0 <= w -> fits w a -> fits w b -> fits w (Z.land a b).
Proof.
  intros Hw Ha Hb. apply fits_bits in Ha as [Ha0 Ha], Hb as [Hb0 Hb]; [|done..].
  apply fits_bits; [done|]. split; [apply Z.land_nonneg; lia|].
  intros n Hn. by rewrite Z.land_spec, Ha, Hb by done.
Qed.

Lemma fits_lor w a b : 0 <= w -> fits w a -> fits w b -> fits w (Z.lor a b).
Proof.
  intros Hw Ha Hb. apply fits_bits in Ha as [Ha0 Ha], Hb as [Hb0 Hb]; [|done..].
  apply fits_bits; [done|]. split; [apply Z.lor_nonneg; lia|].
  intros n Hn. by rewrite Z.lor_spec, Ha, Hb by done.
Qed.

Lemma fits_lxor w a b : 0 <= w -> fits w a -> fits w b -> fits w (Z.lxor a b).
Proof.
  intros Hw Ha Hb. apply fits_bits in Ha as [Ha0 Ha], Hb as [Hb0 Hb]; [|done..].
  apply fits_bits; [done|]. split; [apply Z.lxor_nonneg; lia|].
  intros n Hn. by rewrite Z.lxor_spec, Ha, Hb by done.
Qed.

Lemma fits_small w z n : 0 <= z < n -> n <= 2 ^ w -> fits w z.
Proof. unfold fits. lia. Qed.

Lemma fits_nonneg w z : fits w z -> 0 <= z.
Proof. by intros [? _]. Qed.

Lemma toArith_spec h : wf_bytes h -> toArith h = be_value h.
Proof.
  intros Hh. unfold toArith. pose proof (be_value_bounds h Hh) as Hb.
  pose proof (sizeZ_nonneg h).
  rewrite fromBigEndian_spec by (done || lia). apply wrap_id. unfold fits.
  by rewrite <-pow256_pow2.
Qed.

Lemma toArith_fits h n : wf_bytes h -> length h = n -> fits (8 * Z.of_nat n) (toArith h).
Proof.
  intros Hh <-. rewrite toArith_spec by done. unfold fits.
  rewrite <-pow256_pow2 by lia. by apply be_value_bounds.
Qed.

Lemma asAddress_spec x : asAddress x = u160 x.
Proof.
  unfold asAddress, right160, ofArith. rewrite toBigEndian_spec.
  change 32%nat with (12 + 20)%nat. rewrite be_bytes_app.
  rewrite drop_app_length' by by rewrite be_bytes_length.
  rewrite take_ge by by rewrite be_bytes_length.
  rewrite toArith_spec by apply be_bytes_wf. rewrite be_value_be_bytes. done.
Qed.

Lemma asAddress_fits x : fits 160 (asAddress x).
Proof. rewrite asAddress_spec. by apply wrap_fits. Qed.

Lemma s2u_fits s : fits 256 (s2u s).
Proof. unfold s2u. destruct (0 <=? s); by apply wrap_fits. Qed.

Lemma u256_fits z : fits 256 (u256 z).
Proof. by apply wrap_fits. Qed.

#[export] Hint Resolve s2u_fits u256_fits asAddress_fits : ele.

(** ** A calculus of safe computations

    [safe r Q]: [r] is [Ok a] with [Q a], or one of the machine's own exceptions;
    it neither leaves an array nor throws anything else. *)

Definition safe {A} (r : result vm_error A) (Q : A -> Prop) : Prop :=
  match r with Ok a => Q a | Throw e => e <> UB /\ e <> Unexpected end.

Lemma safe_bind {A B} (r : result vm_error A) (f : A -> result vm_error B) P Q :
  safe r P -> (forall a, P a -> safe (f a) Q) -> safe (r ≫= f) Q.
Proof. destruct r; simpl; auto. Qed.

Lemma safe_mono {A} (r : result vm_error A) (P Q : A -> Prop) :
  safe r P -> (forall a, P a -> Q a) -> safe r Q.
Proof. destruct r; simpl; auto. Qed.

Lemma safe_guard (c : bool) e (Q : unit -> Prop) :
  e <> UB -> e <> Unexpected -> (c = true -> Q tt) -> safe (guard_or c e) Q.
Proof. destruct c; simpl; auto. Qed.

Lemma safe_guard_bind {A} (c : bool) e (f : unit -> result vm_error A) Q :
  e <> UB -> e <> Unexpected -> (c = true -> safe (f tt) Q) -> safe (guard_or c e ≫= f) Q.
Proof. destruct c; simpl; auto. Qed.

Lemma safe_back k s (Q : Z -> Prop) :
  (1 <= k <= length s)%nat -> (forall v, s !! pred k = Some v -> Q v) -> safe (back k s) Q.
Proof.
  intros Hk HQ. unfold back. destruct (s !! pred k) as [v|] eqn:E; simpl; auto.
  apply lookup_ge_None in E. lia.
Qed.

Lemma safe_pop k s (Q : list Z -> Prop) :
  (k <= length s)%nat -> Q (drop k s) -> safe (pop k s) Q.
Proof. intros Hk HQ. unfold pop. by rewrite (proj2 (Nat.leb_le _ _) Hk). Qed.

Lemma safe_pop_drop k s : (k <= length s)%nat -> safe (pop k s) (fun s' => s' = drop k s).
Proof. intros. by apply safe_pop. Qed.

Lemma safe_readMem off n m :
  wf_bytes m -> 0 <= off -> 0 <= n -> (n = 0 \/ off + n <= sizeZ m) ->
  safe (readMem off n m) (fun d => wf_bytes d /\ sizeZ d = n).
Proof.
  intros Hm Ho Hn Hb. unfold readMem. destruct (Z.eqb_spec n 0) as [->|].
  { split; [constructor|done]. }
  destruct (Z.leb_spec (off + n) (sizeZ m)) as [Hle|]; [|lia]. split; [auto with ele|].
  rewrite sizeZ_take, sizeZ_drop. lia.
Qed.

Lemma safe_writeMem off d m :
  wf_bytes m -> wf_bytes d -> 0 <= off -> (d = [] \/ off + sizeZ d <= sizeZ m) ->
  safe (writeMem off d m) (fun t => wf_bytes t /\ sizeZ t = sizeZ m).
Proof.
  intros Hm Hd Ho Hb. unfold writeMem. destruct (Z.eqb_spec (sizeZ d) 0) as [E|]; [done|].
  destruct Hb as [->|Hb]; [done|].
  destruct (Z.leb_spec (off + sizeZ d) (sizeZ m)) as [Hle|]; [|lia]. split.
  - rewrite !wf_bytes_app. auto with ele.
  - autorewrite with sizeZ. unfold sizeZ in *. lia.
Qed.

(** ** Arithmetic *)

Lemma powm_spec a b : fits 256 b -> powm a b = a ^ b mod 2 ^ 256.
Proof. intros [H0 _]. unfold powm. by rewrite Zpow_mod_correct. Qed.

Lemma byteOp_fits a b : fits 256 (byteOp a b).
Proof.
  unfold byteOp. destruct (a <? 32); [|split; [lia|by apply Z.pow_pos_nonneg]].
  rewrite land_255. apply fits_small with 256; [by apply Z.mod_pos_bound|lia].
Qed.

Lemma signextend_fits a b : fits 256 b -> fits 256 (signextend a b).
Proof.
  intros Hb. unfold signextend. destruct (a <? 31); [|done].
  destruct (Z.testbit _ _); [apply fits_lor|apply fits_land]; auto with ele; lia.
Qed.

Lemma quot_fits a b : fits 256 a -> fits 256 b -> fits 256 (Z.quot a b).
Proof.
  intros Ha Hb. unfold fits in *. destruct (Z.eq_dec b 0) as [->|].
  { rewrite Z.quot_0_r_ext by done. lia. }
  split; [apply Z.quot_pos; lia|]. apply Z.le_lt_trans with a; [|lia].
  rewrite Z.quot_div_nonneg by lia. apply Z.div_le_upper_bound; nia.
Qed.

Lemma rem_fits a b : fits 256 a -> fits 256 b -> fits 256 (Z.rem a b).
Proof.
  intros Ha Hb. unfold fits in *. destruct (Z.eq_dec b 0) as [->|].
  { rewrite Z.rem_0_r_ext by done. lia. }
  pose proof (Z.rem_bound_pos a b). lia.
Qed.

Lemma bool_fits (c : bool) : fits 256 (if c then 1 else 0).
Proof. destruct c; apply fits_small with 2; lia. Qed.
Lemma bool_fits' (c : bool) : fits 256 (if c then 0 else 1).
Proof. destruct c; apply fits_small with 2; lia. Qed.
Lemma if_fits (c : bool) a : fits 256 a -> fits 256 (if c then a else 0).
Proof. destruct c; [done|]. intros. apply fits_small with 2; lia. Qed.

#[export] Hint Resolve byteOp_fits signextend_fits quot_fits rem_fits bool_fits bool_fits' if_fits
  fits_land fits_lor fits_lxor : ele.

(** The instructions that [arithOp] handles. *)
Definition arithInst (inst : Instruction) : bool :=
  match inst with
  | ADD | MUL | SUB | DIV | SDIV | MOD | SMOD | EXP | NOT | LT | GT | SLT | SGT | EQ | ISZERO
  | AND | OR | XOR | BYTE | ADDMOD | MULMOD | SIGNEXTEND => true
  | _ => false
  end.

(** What every instruction promises of the stack: words stay words and the depth
    changes as the table says. *)
Definition stackEffect (inst : Instruction) (s s' : list Z) : Prop :=
  Forall (fits 256) s' /\
  sizeZ s' = sizeZ s - args (c_instructionInfo inst) + ret (c_instructionInfo inst).

Lemma stackEffect_push inst s k v :
  Forall (fits 256) s -> fits 256 v -> (k <= length s)%nat ->
  args (c_instructionInfo inst) = Z.of_nat k -> ret (c_instructionInfo inst) = 1 ->
  stackEffect inst s (push v (drop k s)).
Proof.
  intros Hs Hv Hk Ha Hr. split.
  - apply Forall_cons_2; [done|]. by apply Forall_drop.
  - unfold push. rewrite sizeZ_cons, sizeZ_drop, Ha, Hr. unfold sizeZ. lia.
Qed.

Lemma stackEffect_drop inst s k :
  Forall (fits 256) s -> (k <= length s)%nat ->
  args (c_instructionInfo inst) = Z.of_nat k -> ret (c_instructionInfo inst) = 0 ->
  stackEffect inst s (drop k s).
Proof.
  intros Hs Hk Ha Hr. split.
  - by apply Forall_drop.
  - rewrite sizeZ_drop, Ha, Hr. unfold sizeZ. lia.
Qed.

Section UnBinTern.
Context (inst : Instruction) (s : list Z) (Hs : Forall (fits 256) s).
Hypothesis Hd : args (c_instructionInfo inst) <= sizeZ s.
Hypothesis Hret : ret (c_instructionInfo inst) = 1.

Lemma safe_un f : args (c_instructionInfo inst) = 1 ->
  (forall a, fits 256 a -> fits 256 (f a)) -> safe (un f s) (stackEffect inst s).
Proof.
  intros Ha Hf. destruct s as [|a r]; [unfold sizeZ in *; simpl in *; lia|].
  apply Forall_cons_1 in Hs as [Hfa Hr]. apply (stackEffect_push inst (a :: r) 1); simpl; auto; lia.
Qed.

Lemma safe_bin f : args (c_instructionInfo inst) = 2 ->
  (forall a b, fits 256 a -> fits 256 b -> fits 256 (f a b)) ->
  safe (bin f s) (stackEffect inst s).
Proof.
  intros Ha Hf. destruct s as [|a [|b r]]; try (unfold sizeZ in *; simpl in *; lia).
  pose proof Hs as Hs'. apply Forall_cons_1 in Hs' as [Hfa Hr]. apply Forall_cons_1 in Hr as [Hfb _].
  apply (stackEffect_push inst (a :: b :: r) 2); simpl; auto; lia.
Qed.

Lemma safe_tern f : args (c_instructionInfo inst) = 3 ->
  (forall a b c, fits 256 a -> fits 256 b -> fits 256 c -> fits 256 (f a b c)) ->
  safe (tern f s) (stackEffect inst s).
Proof.
  intros Ha Hf. destruct s as [|a [|b [|c r]]]; try (unfold sizeZ in *; simpl in *; lia).
  pose proof Hs as Hs'. apply Forall_cons_1 in Hs' as [Hfa Hr]. apply Forall_cons_1 in Hr as [Hfb Hr].
  apply Forall_cons_1 in Hr as [Hfc _].
  apply (stackEffect_push inst (a :: b :: c :: r) 3); simpl; auto; lia.
Qed.
End UnBinTern.

Lemma safe_arithOp inst s :
  arithInst inst = true -> Forall (fits 256) s -> args (c_instructionInfo inst) <= sizeZ s ->
  safe (arithOp inst s) (stackEffect inst s).
Proof.
  intros Hi Hs Hd. destruct inst; try discriminate Hi; unfold arithOp;
    (apply safe_un || apply safe_bin || apply safe_tern); try done; intros;
    unfold divWorkaround, modWorkaround; auto with ele.
  rewrite powm_spec by done. apply u256_fits.
Qed.

(** ** Memory fees *)

(** The size that [newTempSize] is rounded up to. *)
Definition words (n : Z) : Z := (n + 31) / 32 * 32.

Lemma words_ge n : n <= words n.
Proof. unfold words. pose proof (Z.div_mod (n + 31) 32). pose proof (Z.mod_pos_bound (n + 31) 32). lia. Qed.

Lemma words_mod n : words n mod 32 = 0.
Proof. unfold words. by apply Z.mod_mul. Qed.

Section Schedule.
Context (efcd hdc : bool) (txc : Z).
Abbreviation sch := (newSchedule efcd hdc txc).

Lemma gasForMem_eq n : gasForMem sch n = 3 * (n / 32) + n / 32 * (n / 32) / 512.
Proof. done. Qed.

Lemma gasForMem_mono n m : 0 <= n <= m -> gasForMem sch n <= gasForMem sch m.
Proof.
  intros Hnm. rewrite !gasForMem_eq.
  assert (0 <= n / 32) by (apply Z.div_pos; lia).
  assert (n / 32 <= m / 32) by (apply Z.div_le_mono; lia).
  assert (n / 32 * (n / 32) / 512 <= m / 32 * (m / 32) / 512) by (apply Z.div_le_mono; nia).
  lia.
Qed.

Lemma gasForMem_nonneg n : 0 <= n -> 0 <= gasForMem sch n.
Proof. intros. change 0 with (gasForMem sch 0). apply gasForMem_mono. lia. Qed.

(** Memory that has been paid for with less than [gasBound] is addressed by 32 bits. *)
Lemma gasForMem_bound n : 0 <= n -> gasForMem sch n < gasBound -> n < 2 ^ 32.
Proof.
  intros Hn Hg. destruct (Z.lt_ge_cases n (2 ^ 32)) as [|Hge]; [done|]. exfalso.
  assert (gasForMem sch (2 ^ 32) <= gasForMem sch n) as Hm by (apply gasForMem_mono; lia).
  assert (gasBound <= gasForMem sch (2 ^ 32)) by (by apply Z.leb_le). lia.
Qed.
End Schedule.

(** [growMem] to a size that is not smaller. *)
Lemma growMem_spec n m :
  wf_bytes m -> sizeZ m <= n -> wf_bytes (growMem n m) /\ sizeZ (growMem n m) = n.
Proof.
  intros Hm Hn. unfold growMem. split.
  - apply wf_bytes_app. split; [done|]. apply wf_bytes_replicate. unfold is_byte. lia.
  - unfold sizeZ in *. rewrite length_app, length_replicate. lia.
Qed.

(** What the fee computation guarantees of the memory before the instruction is
    executed: it holds [n] bytes, enough for every access. *)
Definition covers (inst : Instruction) (s : list Z) (n : Z) : Prop :=
  match inst with
  | MSTORE | MLOAD => forall a, s !! 0%nat = Some a -> a + 32 <= n
  | MSTORE8 => forall a, s !! 0%nat = Some a -> a + 1 <= n
  | RETURN | SHA3 | LOG0 | LOG1 | LOG2 | LOG3 | LOG4 =>
      forall a z, s !! 0%nat = Some a -> s !! 1%nat = Some z -> memNeed a z <= n
  | CALLDATACOPY | CODECOPY =>
      forall a z, s !! 0%nat = Some a -> s !! 2%nat = Some z -> memNeed a z <= n
  | EXTCODECOPY => forall a z, s !! 1%nat = Some a -> s !! 3%nat = Some z -> memNeed a z <= n
  | CREATE => forall a z, s !! 1%nat = Some a -> s !! 2%nat = Some z -> memNeed a z <= n
  | CALL | CALLCODE =>
      (forall a z, s !! 3%nat = Some a -> s !! 4%nat = Some z -> memNeed a z <= n) /\
      (forall a z, s !! 5%nat = Some a -> s !! 6%nat = Some z -> memNeed a z <= n)
  | DELEGATECALL =>
      (forall a z, s !! 2%nat = Some a -> s !! 3%nat = Some z -> memNeed a z <= n) /\
      (forall a z, s !! 4%nat = Some a -> s !! 5%nat = Some z -> memNeed a z <= n)
  | _ => True
  end.

Lemma covers_le inst s n n' : n <= n' -> covers inst s n -> covers inst s n'.
Proof.
  intros Hn Hc. destruct inst; try done; simpl in *;
    try (intros; eapply Z.le_trans; [|exact Hn]; by eauto);
    destruct Hc; split; intros; eapply Z.le_trans; by eauto.
Qed.

(** A lower bound of the gas taken by an instruction. *)
Definition leastGas (sch : EVMSchedule) (inst : Instruction) (s : list Z) : Z :=
  match inst with
  | STOP | RETURN | SUICIDE => 0
  | CALL | CALLCODE =>
      match s with
      | g :: _ :: v :: _ =>
          g + callGas sch + (if 0 <? v then callValueTransferGas sch else 0)
      | _ => 1
      end
  | DELEGATECALL => match s with g :: _ => g + callGas sch | _ => 1 end
  | _ => 1
  end.

Lemma lookup_fits s k v : Forall (fits 256) s -> s !! k = Some v -> fits 256 v.
Proof. intros Hs Hk. by eapply Forall_lookup_1. Qed.

Lemma memNeed_nonneg a z : 0 <= a -> 0 <= z -> 0 <= memNeed a z.
Proof. unfold memNeed. destruct (z =? 0); lia. Qed.

(** ** Jump destinations *)

(** The number of immediate bytes of the instruction byte [b]. *)
Definition pushLen (b : byte) : Z :=
  if (toByte PUSH1 <=? b) && (b <=? toByte PUSH32) then b - toByte PUSH1 + 1 else 0.

(** [boundary c i d]: reading the code [c] instruction by instruction from offset
    [i] leads to offset [d]. *)
Inductive boundary (c : bytes) (i : Z) : Z -> Prop :=
| boundary_here : boundary c i i
| boundary_next b d : c !! Z.to_nat i = Some b -> boundary c (i + 1 + pushLen b) d -> boundary c i d.

Lemma pushLen_bounds b : 0 <= pushLen b <= 32.
Proof.
  unfold pushLen. change (toByte PUSH1) with 96. change (toByte PUSH32) with 127.
  destruct (Z.leb_spec 96 b), (Z.leb_spec b 127); simpl; lia.
Qed.

Lemma pushLen_additional inst : additional (c_instructionInfo inst) = pushLen (toByte inst).
Proof. by destruct inst. Qed.

Lemma boundary_ge c i d : boundary c i d -> i <= d.
Proof. induction 1 as [|i b d Hb Hd IH]; [lia|]. pose proof (pushLen_bounds b). lia. Qed.

Lemma boundary_snoc c i d b :
  boundary c i d -> c !! Z.to_nat d = Some b -> boundary c i (d + 1 + pushLen b).
Proof.
  induction 1 as [i|i b' d Hb' Hd IH]; intros Hb.
  - eapply boundary_next; [done|]. constructor.
  - eapply boundary_next; [exact Hb'|]. by apply IH.
Qed.

Lemma boundary_inv c i d :
  boundary c i d <-> d = i \/ exists b, c !! Z.to_nat i = Some b /\ boundary c (i + 1 + pushLen b) d.
Proof.
  split.
  - destruct 1; eauto.
  - intros [->|(b & Hb & Hd)]; [constructor|by eapply boundary_next].
Qed.

(** The scan collects exactly the [JUMPDEST] bytes at instruction boundaries. *)
Lemma scanJumpDests_spec fuel c i acc d :
  0 <= i -> (length c <= fuel + Z.to_nat i)%nat ->
  d ∈ scanJumpDests fuel c i acc <->
  d ∈ acc \/ boundary c i d /\ c !! Z.to_nat d = Some (toByte JUMPDEST).
Proof.
  revert i acc. induction fuel as [|f IH]; intros i acc Hi Hf; cbn [scanJumpDests].
  - split; [by left|]. intros [?|[Hd Hj]]; [done|]. apply boundary_ge in Hd.
    apply lookup_lt_Some in Hj. lia.
  - destruct (c !! Z.to_nat i) as [b|] eqn:E.
    2:{ split; [by left|]. intros [?|[Hd Hj]]; [done|]. apply boundary_ge in Hd.
        apply lookup_ge_None in E. apply lookup_lt_Some in Hj. lia. }
    assert (Hb := pushLen_bounds b). rewrite (boundary_inv c i d), E.
    transitivity (d ∈ acc \/ (d = i /\ b = toByte JUMPDEST) \/
      boundary c (i + 1 + pushLen b) d /\ c !! Z.to_nat d = Some (toByte JUMPDEST)).
    + unfold pushLen in *. destruct (Z.eqb_spec b (toByte JUMPDEST)) as [->|Hne].
      * rewrite IH by lia. rewrite elem_of_app, list_elem_of_singleton. simpl.
        rewrite Z.add_0_r. tauto.
      * destruct (_ && _).
        -- rewrite IH by lia.
           replace (i + (b - toByte PUSH1 + 1) + 1) with (i + 1 + (b - toByte PUSH1 + 1)) by lia. tauto.
        -- rewrite IH, Z.add_0_r by lia. tauto.
    + split.
      * intros [?|[[-> ->]|[? ?]]]; eauto 7.
      * intros [?|[[->|(b' & [= <-] & ?)] ?]]; [by left| |by auto]. right; left.
        split; [done|]. congruence.
Qed.

Lemma scanJumpDests_sorted fuel c i acc :
  0 <= i -> Forall (fun d => d < i) acc -> StronglySorted Z.lt acc ->
  StronglySorted Z.lt (scanJumpDests fuel c i acc).
Proof.
  revert i acc. induction fuel as [|f IH]; intros i acc Hi Ha Hs; cbn [scanJumpDests]; [done|].
  destruct (c !! Z.to_nat i) as [b|]; [|done].
  assert (forall k, i < k -> Forall (fun d => d < k) acc).
  { intros k Hk. eapply Forall_impl; [exact Ha|]. simpl. lia. }
  destruct (b =? toByte JUMPDEST).
  - apply IH; [lia|apply Forall_app; split; [auto with lia|repeat constructor; lia]|].
    apply StronglySorted_app_2; [|done|repeat constructor]. intros x y Hx Hy.
    apply list_elem_of_singleton in Hy as ->. rewrite Forall_forall in Ha. by apply Ha.
  - destruct (_ && _) eqn:E; apply IH; auto with lia.
    all: apply andb_true_iff in E as [E%Z.leb_le _]; auto with lia.
Qed.

(** ** The machine in a lawful environment *)

(** The environment of an execution: everything within its width, enough recent
    block hashes, code and data shorter than 2^32 bytes. *)
Definition env_wf (e : ExtEnv) : Prop :=
  let ei := envInfo e in
  fits 160 (myAddress e) /\ fits 160 (caller e) /\ fits 160 (origin e) /\
  fits 256 (value e) /\ fits 256 (gasPrice e) /\
  wf_bytes (edata e) /\ sizeZ (edata e) < 2 ^ 32 /\
  wf_bytes (code e) /\ sizeZ (code e) < 2 ^ 32 /\
  fits 256 (number ei) /\ fits 160 (author ei) /\ fits 256 (timestamp ei) /\
  fits 256 (difficulty ei) /\ fits 256 (gasLimit ei) /\
  Forall (fits 256) (lastHashes ei) /\ 256 <= sizeZ (lastHashes ei).

Section Machine.
Context {W : Type} `{Hext : ExtVMFace W}.
Variable env : ExtEnv.
Context `{Hlaws : !ExtVMLaws W env}.
Context (sha3 : bytes -> bytes) (efcd hdc : bool) (txc : Z).
Abbreviation sch := (newSchedule efcd hdc txc).

Hypothesis Henv : env_wf env.
(** Keccak-256 gives a digest of 32 bytes. *)
Hypothesis Hsha3 : forall d, wf_bytes (sha3 d) /\ length (sha3 d) = 32%nat.
(** Nested executions are possible below the depth limit. *)
Hypothesis Hlive : depth env < 1024 -> ext_live (env := env).

Abbreviation ewf := (ext_wf (env := env)).

(** What the fee computation promises for the machine [m]. *)
Definition feesPost (inst : Instruction) (m : vm) (r : fees * W) : Prop :=
  ewf r.2 /\ leastGas sch inst (m_stack m) <= runGas r.1 /\ 0 <= runGas r.1 /\
  0 <= newTempSize r.1 /\ covers inst (m_stack m) (newTempSize r.1) /\ 0 <= copySize r.1.

Lemma safe_sstoreFee s w :
  ewf w -> (2 <= length s)%nat ->
  safe (sstoreFee sch s w) (fun r => ewf r.2 /\ 1 <= r.1).
Proof.
  intros Hw Hs. destruct s as [|k [|v s]]; simpl in Hs; try lia.
  unfold sstoreFee, back. cbn [Init.Nat.pred lookup list_lookup]. rewrite !bind_Ok_l.
  destruct (ext_store_ok k w Hw) as (old & w1 & -> & _ & Hw1). rewrite bind_Ok_l.
  destruct ((old =? 0) && negb (v =? 0)); [split; [done|simpl; lia]|].
  destruct (ext_store_ok k w1 Hw1) as (old2 & w2 & -> & _ & Hw2). rewrite bind_Ok_l.
  destruct (negb (old2 =? 0) && (v =? 0)); (split; [|simpl; lia]); [|done].
  by apply ext_setSub_wf.
Qed.

Lemma stack_prefix n (s : list Z) :
  (n <= length s)%nat -> exists p r, s = p ++ r /\ length p = n.
Proof.
  intros. exists (take n s), (drop n s). rewrite take_drop, length_take. split; [done|lia].
Qed.

Ltac fee_goals :=
  repeat match goal with H : fits 256 _ |- _ => destruct H as [H _] end;
  split_and!; [done|..];
  cbn [fst snd leastGas runGas newTempSize copySize callGas callNewAccountGas callValueTransferGas
       newSchedule covers];
  try split; try (intros ? ?; cbn [lookup list_lookup]; intros [=<-] [=<-]);
  unfold memNeed; repeat case_match; lia.

(** Resolves the tests of the instruction. *)
Ltac call_kind :=
  repeat match goal with
    | |- context [decide (?a = ?b :> Instruction)] => destruct (decide (a = b)); try done
    end.

Lemma safe_callFee inst m w :
  inst = CALL \/ inst = CALLCODE \/ inst = DELEGATECALL ->
  ewf w -> Forall (fits 256) (m_stack m) ->
  args (c_instructionInfo inst) <= sizeZ (m_stack m) ->
  safe (callFee sch inst (m_stack m) w) (feesPost inst m).
Proof.
  intros Hi Hw Hs Hd. unfold feesPost. destruct m as [? ? ? s ?]. cbn [m_stack] in *.
  set (n := Z.to_nat (args (c_instructionInfo inst))).
  destruct (stack_prefix n s) as (p & r & -> & Hp); [unfold sizeZ in Hd; lia|].
  destruct Hi as [-> | [-> | ->]]; subst n; vm_compute in Hp;
    do 6 (destruct p as [|? p]; [discriminate Hp|]);
    try (destruct p as [|? p]; [discriminate Hp|]);
    (destruct p as [|? p]; [|discriminate Hp]);
    repeat (apply Forall_cons_1 in Hs as [? Hs]); cbn [app];
    unfold callFee, back; cbn [pred lookup list_lookup mbind result_bind decide Nat.add].
  - call_kind. cbn [pred lookup list_lookup mbind result_bind Nat.add].
    destruct (ext_exists_ok (asAddress z0) w Hw) as (ex & w1 & -> & Hex).
    cbn [pred lookup list_lookup mbind result_bind Nat.add safe fst snd]. fee_goals.
  - call_kind. cbn [pred lookup list_lookup mbind result_bind Nat.add safe fst snd]. fee_goals.
  - call_kind. cbn [pred lookup list_lookup mbind result_bind Nat.add safe fst snd]. fee_goals.
Qed.

(** The operands that the table announces are on the stack. *)
Lemma args_length inst (s : list Z) k :
  args (c_instructionInfo inst) <= sizeZ s -> Z.of_nat k <= args (c_instructionInfo inst) ->
  (k <= length s)%nat.
Proof. unfold sizeZ. lia. Qed.

Lemma firstBitSet_word v : fits 256 v -> 0 <= 32 - firstBitSet (ofArith 32 v) / 8 <= 32.
Proof.
  intros Hv. unfold ofArith. rewrite toBigEndian_spec, firstBitSet_log2 by apply be_bytes_wf.
  rewrite be_value_be_bytes. unfold sizeZ. rewrite be_bytes_length.
  change (256 ^ Z.of_nat 32) with (2 ^ 256). change (8 * Z.of_nat 32) with 256.
  destruct Hv as [H0 H1]. rewrite Z.mod_small by done.
  destruct (Z.eqb_spec v 0); [by split|].
  assert (Z.log2 v < 256) by (apply Z.log2_lt_pow2; lia). pose proof (Z.log2_nonneg v).
  assert (0 <= (256 - 1 - Z.log2 v) / 8) by (apply Z.div_pos; lia).
  assert ((256 - 1 - Z.log2 v) / 8 <= 255 / 8) by (apply Z.div_le_mono; lia).
  change (255 / 8) with 31 in *. lia.
Qed.

Lemma feesPost_intro inst m g n c w :
  ewf w -> leastGas sch inst (m_stack m) <= g -> 0 <= g -> 0 <= n ->
  covers inst (m_stack m) n -> 0 <= c -> feesPost inst m (mkFees g n c, w).
Proof. by unfold feesPost. Qed.

Lemma back_word k s :
  (1 <= k <= length s)%nat -> Forall (fits 256) s ->
  safe (back k s) (fun v => s !! pred k = Some v /\ 0 <= v).
Proof.
  intros Hk Hs. apply safe_back; [done|]. intros v Hv. split; [done|].
  by apply (lookup_fits s (pred k)).
Qed.

(** Discharges the accesses and the bounds of one case of [opFees]. *)
Ltac fee_case Hs Hd :=
  repeat (eapply safe_bind; [apply back_word; [cbn [args c_instructionInfo] in Hd; unfold sizeZ in Hd; lia|exact Hs]|];
          let Hb := fresh "Hb" in intros ? [Hb ?]; cbn [Init.Nat.pred] in Hb);
  apply feesPost_intro; auto;
  cbn [leastGas covers sha3Gas sha3WordGas createGas newSchedule];
  try apply memNeed_nonneg; try lia;
  try (intros; simplify_eq; lia).

Lemma log_fee n size : n ∈ [0; 1; 2; 3; 4] -> 0 <= size ->
  1 <= u256 (logGas sch + u256 (logTopicGas sch * u32 n)) + logDataGas sch * size.
Proof.
  intros Hn Hsz. apply Z.le_trans with (1 + 0 * size); [lia|].
  apply Z.add_le_mono; [|apply Z.mul_le_mono_nonneg_r; simpl; lia].
  repeat (apply elem_of_cons in Hn as [->|Hn]; [by apply Z.leb_le|]). by apply elem_of_nil in Hn.
Qed.

Ltac log_case n v :=
  (etrans; [|apply (log_fee n v); [decide_closed|lia]]; lia).

Lemma exp_fee v : fits 256 v ->
  1 <= u256 (expGas sch + u256 (expByteGas sch * (32 - firstBitSet (ofArith 32 v) / 8))).
Proof.
  intros Hv. pose proof (firstBitSet_word v Hv). cbn [expGas expByteGas newSchedule].
  assert (1000 < 2 ^ 256) by (by apply Z.ltb_lt).
  rewrite !wrap_id; unfold fits; rewrite ?wrap_id; unfold fits; lia.
Qed.

Lemma safe_opFees inst tier m w :
  tierStepGas sch !! tierIndex (gasPriceTier (c_instructionInfo inst)) = Some tier ->
  ewf w -> Forall (fits 256) (m_stack m) ->
  args (c_instructionInfo inst) <= sizeZ (m_stack m) ->
  safe (opFees sch inst tier m w) (feesPost inst m).
Proof.
  intros Ht Hw Hs Hd. pose proof (sizeZ_nonneg (m_temp m)) as Htemp.
  destruct inst; vm_compute in Ht; injection Ht as <-; unfold opFees;
    try (apply safe_callFee; by auto);
    try (by fee_case Hs Hd).
  - fee_case Hs Hd.
    + apply exp_fee. by eapply lookup_fits.
    + apply Z.le_trans with 1; [lia|]. apply exp_fee. by eapply lookup_fits.
  - fee_case Hs Hd; assert (0 <= (a0 + 31) / 32) by (apply Z.div_pos; lia); lia.
  - eapply safe_bind; [apply safe_sstoreFee; [done|]|].
    { cbn [args c_instructionInfo] in Hd. unfold sizeZ in Hd. lia. }
    intros [g w1] [Hw1 Hg]. apply feesPost_intro; simpl in *; auto; lia.
  - fee_case Hs Hd; log_case 0 a0.
  - fee_case Hs Hd; log_case 1 a0.
  - fee_case Hs Hd; log_case 2 a0.
  - fee_case Hs Hd; log_case 3 a0.
  - fee_case Hs Hd; log_case 4 a0.
Qed.

(** The invariant of the loop: all memory has been paid for out of [G]. *)
Definition inv (G : Z) (m : vm) (g : Z) (w : W) : Prop :=
  0 <= g /\ g + gasForMem sch (sizeZ (m_temp m)) <= G /\ sizeZ (m_temp m) mod 32 = 0 /\
  wf_bytes (m_temp m) /\ Forall (fits 256) (m_stack m) /\ sizeZ (m_stack m) <= 1024 /\
  fits 64 (m_curPC m) /\ ewf w.

(** What [checkRequirements] establishes: the operands are there, the result
    fits on the stack, the memory covers every access of the instruction, and
    the instruction and the memory growth have been paid. *)
Definition checked (m : vm) (g : Z) (r : Instruction * vm * Z * W) : Prop :=
  let '(inst, m1, g1, w1) := r in
  ofByte (getCode env (m_curPC m)) = Some inst /\ m1 = set_temp (m_temp m1) m /\
  args (c_instructionInfo inst) <= sizeZ (m_stack m) /\
  sizeZ (m_stack m) - args (c_instructionInfo inst) + ret (c_instructionInfo inst) <= 1024 /\
  wf_bytes (m_temp m1) /\ sizeZ (m_temp m1) mod 32 = 0 /\
  sizeZ (m_temp m) <= sizeZ (m_temp m1) /\ covers inst (m_stack m) (sizeZ (m_temp m1)) /\
  0 <= g1 /\ 0 <= leastGas sch inst (m_stack m) /\
  g1 + leastGas sch inst (m_stack m) + gasForMem sch (sizeZ (m_temp m1))
    <= g + gasForMem sch (sizeZ (m_temp m)) /\
  ewf w1.

Lemma leastGas_nonneg inst s :
  Forall (fits 256) s -> 0 <= leastGas sch inst s.
Proof.
  intros Hs. destruct inst; try done; unfold leastGas;
    repeat (case_match; try done); simplify_eq;
    apply Forall_cons_1 in Hs as [[? ?] Hs]; cbn [callGas callValueTransferGas newSchedule] in *; lia.
Qed.

Lemma grown m f g :
  wf_bytes (m_temp m) -> sizeZ (m_temp m) mod 32 = 0 -> 0 <= newTempSize f ->
  0 <= g -> g + gasForMem sch (sizeZ (m_temp m)) < gasBound ->
  let temp := sizeZ (m_temp m) in
  let newTemp := words (newTempSize f) in
  (temp < newTemp -> gasForMem sch newTemp - gasForMem sch temp <= g) ->
  let m1 := if temp <? newTemp then set_temp (growMem (u64 newTemp) (m_temp m)) m else m in
  m1 = set_temp (m_temp m1) m /\ wf_bytes (m_temp m1) /\ sizeZ (m_temp m1) mod 32 = 0 /\
  temp <= sizeZ (m_temp m1) /\ newTempSize f <= sizeZ (m_temp m1) /\
  gasForMem sch (sizeZ (m_temp m1))
  = (if temp <? newTemp then gasForMem sch newTemp else gasForMem sch temp).
Proof.
  intros Hm Hmod Hn Hg HG temp newTemp Hpay m1. pose proof (words_ge (newTempSize f)) as Hge.
  fold newTemp in Hge. subst m1. destruct (Z.ltb_spec temp newTemp) as [Hlt|Hle].
  - assert (newTemp < 2 ^ 32) as H32.
    { pose proof (sizeZ_nonneg (m_temp m)). apply (gasForMem_bound efcd hdc txc); subst temp; lia. }
    assert (u64 newTemp = newTemp) as -> by (apply wrap_id; unfold fits; lia).
    destruct (growMem_spec newTemp (m_temp m)) as [Hw Hs]; [done|subst temp; lia|].
    cbn [set_temp m_temp]. rewrite Hs. subst newTemp temp.
    split_and!; auto using words_mod. lia.
  - subst temp. split_and!; try done; [by destruct m|lia].
Qed.

Lemma safe_require n d s :
  safe (require sch n d s) (fun _ => n <= sizeZ s /\ sizeZ s - n + d <= 1024).
Proof.
  unfold require. apply safe_guard_bind; [done..|]. intros Hc.
  apply safe_guard; [done..|]. intros Hc2. by apply negb_true_iff, Z.ltb_ge in Hc, Hc2.
Qed.

(** The gas for an instruction whose fees are [f] on a memory of [temp] bytes *)
Definition totalGas (f : fees) (temp : Z) : Z :=
  (if temp <? words (newTempSize f)
   then runGas f + (gasForMem sch (words (newTempSize f)) - gasForMem sch temp) else runGas f)
  + copyGas sch * ((copySize f + 31) / 32).

Lemma totalGas_spec f temp :
  0 <= temp -> 0 <= runGas f -> 0 <= copySize f ->
  0 <= totalGas f temp /\
  runGas f + (if temp <? words (newTempSize f) then gasForMem sch (words (newTempSize f))
              else gasForMem sch temp) <= totalGas f temp + gasForMem sch temp /\
  (temp < words (newTempSize f) ->
   gasForMem sch (words (newTempSize f)) - gasForMem sch temp <= totalGas f temp).
Proof.
  intros Ht Hr Hc. unfold totalGas.
  assert (0 <= copyGas sch * ((copySize f + 31) / 32)).
  { assert (0 <= (copySize f + 31) / 32) by (apply Z.div_pos; lia). simpl. lia. }
  destruct (Z.ltb_spec temp (words (newTempSize f))); [|lia].
  pose proof (gasForMem_mono efcd hdc txc temp (words (newTempSize f))). lia.
Qed.

Lemma safe_checkRequirements G m g w :
  G < gasBound -> inv G m g w ->
  safe (checkRequirements sch (ofByte (getCode env (m_curPC m))) m g w) (checked m g).
Proof.
  intros HG (Hg & Hpaid & Hmod & Hmem & Hs & Hlen & Hpc & Hw). unfold checkRequirements.
  apply safe_guard_bind; [done..|intros _]. apply safe_guard_bind; [done..|intros Ht].
  destruct (ofByte _) as [inst|] eqn:Ei; [|done]. clear Ht. cbn [instructionInfo].
  destruct (tierStepGas sch !! _) as [tier|] eqn:Et; [|exfalso; by destruct inst].
  eapply safe_bind; [apply safe_require|]. intros _ [Hargs Hroom].
  eapply safe_bind; [by apply safe_opFees|]. intros [f w1] (Hw1 & Hleast & Hrun & Hn & Hcov & Hcopy).
  cbn [fst snd] in *. fold (words (newTempSize f)). fold (totalGas f (sizeZ (m_temp m))).
  apply safe_guard_bind; [done..|]. intros Hgas. apply negb_true_iff, Z.ltb_ge in Hgas.
  pose proof (sizeZ_nonneg (m_temp m)) as Hnn.
  destruct (totalGas_spec f (sizeZ (m_temp m))) as (Ht0 & Ht1 & Ht2); [done..|].
  destruct (grown m f g) as (Hm1 & Hwf1 & Hmod1 & Hszm & Hsz1 & Hgm1); try done; try lia.
  rewrite <-Hgm1 in Ht1.
  assert (gasBound < 2 ^ 256) by (by apply Z.ltb_lt).
  pose proof (gasForMem_nonneg efcd hdc txc _ Hnn).
  rewrite (wrap_id 256 (totalGas _ _)), (wrap_id 256 (g - _)) by (unfold fits; lia).
  cbn [safe checked]. split_and!; try done; try lia.
  - by eapply covers_le.
  - by apply leastGas_nonneg.
Qed.

(** A machine that is ready to execute [inst]. *)
Definition ready (inst : Instruction) (m : vm) (w : W) : Prop :=
  Forall (fits 256) (m_stack m) /\ args (c_instructionInfo inst) <= sizeZ (m_stack m) /\
  wf_bytes (m_temp m) /\ covers inst (m_stack m) (sizeZ (m_temp m)) /\
  sizeZ (m_temp m) < 2 ^ 32 /\ ewf w.

(** What executing [inst] preserves and changes. *)
Definition done_ (inst : Instruction) (m : vm) (r : vm * W) : Prop :=
  stackEffect inst (m_stack m) (m_stack r.1) /\
  sizeZ (m_temp r.1) = sizeZ (m_temp m) /\ wf_bytes (m_temp r.1) /\
  m_jumpDests r.1 = m_jumpDests m /\ ewf r.2.

(** An access that the fees cover is not changed by the truncation of its
    offset and size. *)
Lemma covered b a z n :
  32 <= b -> 0 <= a -> 0 <= z -> memNeed a z <= n -> n < 2 ^ 32 ->
  wrap b z = z /\ 0 <= wrap b a /\ (z = 0 \/ wrap b a = a /\ a + z <= n).
Proof.
  intros Hb Ha Hz Hn Hn32. assert (2 ^ 32 <= 2 ^ b) by (apply Z.pow_le_mono_r; lia).
  unfold memNeed in Hn. destruct (Z.eqb_spec z 0) as [->|].
  - split; [apply wrap_id; unfold fits; lia|]. split; [apply wrap_nonneg; lia|]. by left.
  - rewrite !wrap_id by (unfold fits; lia). split_and!; auto.
Qed.

Lemma done_push inst m w k v :
  ready inst m w -> fits 256 v -> args (c_instructionInfo inst) = Z.of_nat k ->
  ret (c_instructionInfo inst) = 1 ->
  forall w', ewf w' -> done_ inst m (set_stack (push v (drop k (m_stack m))) m, w').
Proof.
  intros (Hs & Hd & Hm & _) Hv Ha Hr w' Hw'. split_and!; try done.
  apply stackEffect_push; try done. unfold sizeZ in Hd. lia.
Qed.

Lemma done_drop inst m w k t :
  ready inst m w -> args (c_instructionInfo inst) = Z.of_nat k ->
  ret (c_instructionInfo inst) = 0 -> wf_bytes t -> sizeZ t = sizeZ (m_temp m) ->
  forall w', ewf w' -> done_ inst m (set_stack (drop k (m_stack m)) (set_temp t m), w').
Proof.
  intros (Hs & Hd & Hm & _) Ha Hr Ht Htz w' Hw'. split_and!; try done.
  apply stackEffect_drop; try done. unfold sizeZ in Hd. lia.
Qed.

Lemma set_temp_id m : set_temp (m_temp m) m = m.
Proof. by destruct m. Qed.

Lemma safe_copyDataToMemory d m :
  wf_bytes d -> sizeZ d < 2 ^ 64 -> wf_bytes (m_temp m) -> Forall (fits 256) (m_stack m) ->
  (3 <= length (m_stack m))%nat -> sizeZ (m_temp m) < 2 ^ 32 ->
  (forall a z, m_stack m !! 0%nat = Some a -> m_stack m !! 2%nat = Some z ->
               memNeed a z <= sizeZ (m_temp m)) ->
  safe (copyDataToMemory d m) (fun m' => exists t,
    m' = set_stack (drop 3 (m_stack m)) (set_temp t m) /\
    wf_bytes t /\ sizeZ t = sizeZ (m_temp m)).
Proof.
  intros Hd Hd64 Hm Hs Hl Hm32 Hcov. unfold copyDataToMemory.
  eapply safe_bind; [apply back_word; [lia|done]|]. intros a [Ha Ha0].
  eapply safe_bind; [apply back_word; [lia|done]|]. intros bi [Hbi Hbi0].
  eapply safe_bind; [apply back_word; [lia|done]|]. intros c [Hc Hc0].
  eapply safe_bind; [by apply safe_pop_drop|].
  intros s ->. specialize (Hcov a c Ha Hc).
  destruct (covered 64 a c (sizeZ (m_temp m))) as (-> & Hoff & Hin); [lia|done..|].
  set (stc := if _ <? _ then _ else c). pose proof (sizeZ_nonneg d) as Hdn.
  assert (0 <= stc <= c /\ (stc = 0 \/ u64 bi + stc <= sizeZ d)) as [Hstc Hread].
  { subst stc. destruct (Z.ltb_spec (sizeZ d) (bi + c)); [destruct (Z.ltb_spec (sizeZ d) bi)|].
    - lia.
    - rewrite !wrap_id by (unfold fits; rewrite ?wrap_id by (unfold fits; lia); lia). lia.
    - rewrite wrap_id by (unfold fits; lia). lia. }
  eapply safe_bind; [apply safe_readMem; [done|by apply wrap_nonneg|lia|lia]|].
  intros src [Hsrc Hsz]. eapply safe_bind; [apply safe_writeMem; [done|done|done|]|].
  { destruct (Z.eq_dec stc 0); [left; apply sizeZ_0; lia|right; lia]. }
  intros t1 [Ht1 Hz1]. eapply safe_bind;
    [apply safe_writeMem; [done|apply wf_bytes_replicate; unfold is_byte; lia|lia|]|].
  { destruct (Z.eq_dec stc c) as [->|]; [left; by rewrite Z.sub_diag|right].
    unfold sizeZ at 1. rewrite length_replicate. lia. }
  intros t2 [Ht2 Hz2]. simpl. rewrite Hz1 in Hz2. eauto.
Qed.

Lemma toArith_word h : wf_bytes h -> length h = 32%nat -> fits 256 (toArith h).
Proof. intros. by apply (toArith_fits h 32). Qed.

Lemma byte_at (d : bytes) i : wf_bytes d -> is_byte (default 0 (d !! i)).
Proof.
  intros Hd. destruct (d !! i) eqn:E; simpl; [|unfold is_byte; lia].
  by apply (Forall_lookup_1 _ _ _ _ Hd E).
Qed.

Lemma safe_callDataLoad a : 0 <= a -> safe (callDataLoad env a) (fits 256).
Proof.
  destruct Henv as (_ & _ & _ & _ & _ & Hd & Hd32 & _). intros Ha. unfold callDataLoad.
  destruct (Z.ltb_spec (a + 31) (sizeZ (edata env))).
  - rewrite wrap_id by (unfold fits; lia).
    eapply safe_bind; [apply safe_readMem; [done|lia..]|].
    intros h [Hh Hz]. apply toArith_word; [done|]. unfold sizeZ in Hz. lia.
  - destruct (sizeZ (edata env) <=? a); [by apply fits_small with 1|].
    apply toArith_word; [|done]. apply Forall_fmap, Forall_true. intros j. simpl.
    destruct (_ <? _); [by apply byte_at|unfold is_byte; lia].
Qed.

Lemma safe_blockHash n : 0 <= n -> safe (blockHash (envInfo env) n) (fits 256).
Proof.
  pose proof Henv as He. unfold env_wf in He. destruct_and! He. intros Hn. unfold blockHash.
  destruct (Z.ltb_spec n (number (envInfo env))); [|by apply fits_small with 1].
  destruct (Z.leb_spec (Z.max 256 (number (envInfo env)) - 256) n); [|by apply fits_small with 1].
  simpl andb. cbn match.
  assert (0 <= number (envInfo env) - 1 - n < 256) by lia.
  rewrite !wrap_id by (unfold fits in *; rewrite ?wrap_id by (unfold fits; lia); lia).
  destruct (lastHashes _ !! _) as [h|] eqn:E.
  - eapply lookup_fits; [|exact E]. done.
  - apply lookup_ge_None in E. unfold sizeZ in *. lia.
Qed.

(** The instructions that [envOp] handles. *)
Definition envInst (inst : Instruction) : bool :=
  match inst with
  | SHA3 | ADDRESS | ORIGIN | BALANCE | CALLER | CALLVALUE | CALLDATALOAD | CALLDATASIZE
  | CODESIZE | EXTCODESIZE | CALLDATACOPY | CODECOPY | EXTCODECOPY | GASPRICE | BLOCKHASH
  | COINBASE | TIMESTAMP | NUMBER | DIFFICULTY | GASLIMIT => true
  | _ => false
  end.

Lemma sizeZ_word {A} (l : list A) n : sizeZ l < 2 ^ n -> n <= 256 -> fits 256 (sizeZ l).
Proof.
  intros Hl Hn. split; [apply sizeZ_nonneg|]. destruct (Z.lt_ge_cases n 0).
  - rewrite Z.pow_neg_r in Hl by done. pose proof (sizeZ_nonneg l). lia.
  - eapply Z.lt_le_trans; [exact Hl|]. apply Z.pow_le_mono_r; lia.
Qed.

Lemma address_word a : fits 160 a -> fits 256 a.
Proof. apply fits_le. lia. Qed.

Lemma ready_depth inst m w k :
  ready inst m w -> Z.of_nat k <= args (c_instructionInfo inst) -> (k <= length (m_stack m))%nat.
Proof. intros (_ & Hd & _). unfold sizeZ in Hd. lia. Qed.

(** Runs through the operand accesses of one case. *)
Ltac operands Hr :=
  repeat (eapply safe_bind;
    [ first
      [ apply back_word; [split; [lia|by eapply ready_depth]|apply Hr]
      | apply safe_pop_drop; by eapply ready_depth ]
    | first [ let Hb := fresh "Hb" in intros ? [Hb ?]; cbn [Init.Nat.pred] in Hb
            | intros ? -> ] ]).

Lemma safe_copyOp inst d m w :
  inst = CALLDATACOPY \/ inst = CODECOPY -> wf_bytes d -> sizeZ d < 2 ^ 32 -> ready inst m w ->
  safe (m1 ← copyDataToMemory d m; Ok (m1, w)) (done_ inst m).
Proof.
  intros Hi Hd Hd32 Hr. pose proof Hr as (Hs & _ & Hm & Hcov & Hm32 & Hw).
  eapply safe_bind; [apply safe_copyDataToMemory; auto; try lia|].
  - eapply ready_depth; [done|]. by destruct Hi as [-> | ->].
  - intros a z. destruct Hi as [-> | ->]; by eauto.
  - intros m' (t & -> & Ht & Hz). by destruct Hi as [-> | ->]; apply (done_drop _ m w 3).
Qed.

Lemma safe_extcodecopy c a m w w1 :
  m_stack m !! 0%nat = Some a -> wf_bytes c -> sizeZ c < 2 ^ 64 ->
  ready EXTCODECOPY m w -> ewf w1 ->
  safe (m1 ← copyDataToMemory c (set_stack (drop 1 (m_stack m)) m); Ok (m1, w1))
    (done_ EXTCODECOPY m).
Proof.
  intros Ha Hc Hc64 Hr Hw1. pose proof Hr as (Hs & _ & Hm & Hcov & Hm32 & Hw).
  pose proof (ready_depth _ m w 4 Hr ltac:(done)) as Hl.
  eapply safe_bind; [apply safe_copyDataToMemory; cbn [m_stack set_stack m_temp]; auto|].
  - by apply Forall_drop.
  - rewrite length_drop. lia.
  - intros x z. rewrite !lookup_drop. apply Hcov.
  - intros m' (t & -> & Ht & Hz). cbn [m_stack set_stack]. rewrite drop_drop.
    by apply (done_drop _ m w 4 t).
Qed.

Lemma safe_envOp inst m w :
  envInst inst = true -> ready inst m w -> safe (envOp sha3 env inst m w) (done_ inst m).
Proof.
  intros Hi Hr. pose proof Henv as He. unfold env_wf in He. destruct_and! He.
  pose proof Hr as (Hs & Hd & Hm & Hcov & Hm32 & Hw).
  destruct inst; try discriminate Hi; unfold envOp;
    try (apply (done_push _ m w 0); unfold fromAddress;
         by eauto using address_word, sizeZ_word with lia);
    try (by apply safe_copyOp; auto); operands Hr.
  - pose proof (Hcov _ _ Hb Hb0) as Hc.
    destruct (covered 32 a a0 (sizeZ (m_temp m))) as (-> & Hoff & Hin); [lia|done..|].
    eapply safe_bind; [apply safe_readMem; auto; lia|].
    intros d _. destruct (Hsha3 d). apply (done_push _ m w 2); auto using toArith_word.
  - destruct (ext_balance_ok (asAddress a) w Hw) as (b & w1 & -> & Hf & Hw1). by apply (done_push _ m w 1).
  - eapply safe_bind; [by apply safe_callDataLoad|]. intros v Hv. by apply (done_push _ m w 1).
  - destruct (ext_codeAt_ok (asAddress a) w Hw) as (c & w1 & -> & _ & Hf & Hw1). apply (done_push _ m w 1); try done.
    by apply sizeZ_word with 64.
  - destruct (ext_codeAt_ok (asAddress a) w Hw) as (c & w1 & -> & Hwf & Hf & Hw1). by eapply safe_extcodecopy.
  - eapply safe_bind; [by apply safe_blockHash|]. intros v Hv. by apply (done_push _ m w 1).
Qed.

(** The instructions that [memOp] handles. *)
Definition memInst (inst : Instruction) : bool :=
  match inst with
  | MLOAD | MSTORE | MSTORE8 | SLOAD | SSTORE | PC | MSIZE | GAS | JUMPDEST
  | LOG0 | LOG1 | LOG2 | LOG3 | LOG4 => true
  | _ => false
  end.

Lemma safe_mapR_back s l :
  Forall (fun k => (2 + k < length s)%nat) l ->
  safe (mapR (fun k => back (3 + k) s) l) (fun _ => True).
Proof.
  induction l as [|k l IH]; intros Hl; [done|]. apply Forall_cons_1 in Hl as [Hk Hl].
  cbn [mapR]. eapply safe_bind; [apply safe_back with (Q := fun _ => True); [lia|done]|].
  intros v _. eapply safe_bind; [by apply IH|]. done.
Qed.

Lemma safe_logOp inst n m w :
  args (c_instructionInfo inst) = 2 + Z.of_nat n -> ret (c_instructionInfo inst) = 0 ->
  (forall a z, m_stack m !! 0%nat = Some a -> m_stack m !! 1%nat = Some z ->
               memNeed a z <= sizeZ (m_temp m)) ->
  ready inst m w -> safe (logOp env n m w) (done_ inst m).
Proof.
  intros Ha Hret Hcov Hr. pose proof Hr as (Hs & Hd & Hm & _ & Hm32 & Hw). unfold logOp.
  assert (2 + n <= length (m_stack m))%nat as Hl by (unfold sizeZ in Hd; lia).
  eapply safe_bind; [apply safe_mapR_back|].
  { apply Forall_forall. intros k Hk. apply elem_of_seq in Hk. lia. }
  intros ts _. eapply safe_bind; [apply back_word; [lia|done]|]. intros a [Ha0 ?].
  eapply safe_bind; [apply back_word; [lia|done]|]. intros z [Hz ?].
  destruct (covered 32 a z (sizeZ (m_temp m))) as (-> & Hoff & Hin); [lia|done|done|by apply Hcov|done|].
  eapply safe_bind; [apply safe_readMem; auto; lia|]. intros d _.
  eapply safe_bind; [by apply safe_pop_drop|].
  intros s ->. rewrite <-(set_temp_id m) at 2. apply (done_drop _ m w (2 + n)); auto.
  - rewrite Ha. lia.
  - by apply ext_setSub_wf.
Qed.

Lemma safe_memOp inst m g w :
  memInst inst = true -> fits 64 (m_curPC m) -> fits 256 g -> ready inst m w ->
  safe (memOp env inst m g w) (done_ inst m).
Proof.
  intros Hi Hpc Hg Hr. pose proof Hr as (Hs & Hd & Hm & Hcov & Hm32 & Hw).
  destruct inst; try discriminate Hi; unfold memOp;
    try (by apply safe_logOp); try (apply (done_push _ m w 0); eauto using sizeZ_word with lia);
    operands Hr.
  - pose proof (Hcov _ Hb) as Hc. rewrite wrap_id by (unfold fits; lia).
    eapply safe_bind; [apply safe_readMem; auto; lia|].
    intros d [Hdw Hz]. apply (done_push _ m w 1); auto. apply toArith_word; [done|].
    unfold sizeZ in Hz. lia.
  - pose proof (Hcov _ Hb) as Hc. rewrite wrap_id by (unfold fits; lia). unfold ofArith.
    rewrite toBigEndian_spec. eapply safe_bind; [apply safe_writeMem; auto using be_bytes_wf|].
    intros t [Ht Hz]. by apply (done_drop _ m w 2 t).
  - pose proof (Hcov _ Hb) as Hc. rewrite wrap_id by (unfold fits; lia).
    eapply safe_bind; [apply safe_writeMem; auto|].
    { apply Forall_cons_2; [apply u8_is_byte|by apply Forall_nil_2]. }
    intros t [Ht Hz]. by apply (done_drop _ m w 2 t).
  - destruct (ext_store_ok a w Hw) as (v & w1 & -> & Hf & Hw1).
    by apply (done_push _ m w 1).
  - rewrite <-(set_temp_id m) at 2. apply (done_drop _ m w 2); auto.
    apply ext_setStore_wf; by eauto using lookup_fits.
  - by apply fits_le with 64.
  - split_and!; try done. split; [done|]. cbn. lia.
Qed.

Lemma getCode_byte n : is_byte (getCode env n).
Proof.
  pose proof Henv as He. unfold env_wf in He. destruct_and! He. unfold getCode.
  destruct (_ <? _); [by apply byte_at|unfold is_byte; lia].
Qed.

Lemma pushLoop_fits i v pc :
  fits 256 v -> fits 64 pc ->
  fits 256 (pushLoop env i v pc).1 /\ fits 64 (pushLoop env i v pc).2.
Proof.
  revert v pc. induction i as [|i IH]; intros v pc Hv Hpc; [done|]. apply IH.
  - apply fits_lor; [lia|apply u256_fits|]. apply fits_small with 256; [|by apply Z.leb_le].
    apply getCode_byte.
  - by apply wrap_fits.
Qed.

Lemma safe_dupOp inst s n :
  Z.to_nat (u32 (1 + toByte inst - toByte DUP1)) = n -> (1 <= n)%nat ->
  args (c_instructionInfo inst) = Z.of_nat n ->
  ret (c_instructionInfo inst) = Z.of_nat n + 1 -> Forall (fits 256) s ->
  args (c_instructionInfo inst) <= sizeZ s -> safe (dupOp inst s) (stackEffect inst s).
Proof.
  intros Hn Hn1 Ha Hr Hs Hd. unfold dupOp. rewrite Hn.
  eapply safe_bind; [apply safe_back; [unfold sizeZ in Hd; lia|]|].
  - intros v Hv. exact (lookup_fits _ _ _ Hs Hv).
  - intros v Hv. split; [by apply Forall_cons_2|]. unfold push. rewrite sizeZ_cons. lia.
Qed.

Lemma safe_swapOp inst s n :
  Z.to_nat (u32 (toByte inst - toByte SWAP1 + 2)) = n -> (1 <= n)%nat ->
  args (c_instructionInfo inst) = Z.of_nat n ->
  ret (c_instructionInfo inst) = Z.of_nat n -> Forall (fits 256) s ->
  args (c_instructionInfo inst) <= sizeZ s -> safe (swapOp inst s) (stackEffect inst s).
Proof.
  intros Hn Hn1 Ha Hr Hs Hd. unfold swapOp. rewrite Hn.
  eapply safe_bind; [apply safe_back; [unfold sizeZ in Hd; lia|]|].
  { intros v Hv. exact (lookup_fits _ _ _ Hs Hv). }
  intros d Hfd. eapply safe_bind; [apply safe_back; [unfold sizeZ in Hd; lia|]|].
  { intros v Hv. exact (lookup_fits _ _ _ Hs Hv). }
  intros e Hfe. split.
  - by apply Forall_insert; [apply Forall_insert|].
  - unfold sizeZ. rewrite !length_insert. lia.
Qed.

Lemma safe_verifyJumpDest d l :
  safe (verifyJumpDest d l) (fun pc => fits 64 pc /\ pc ∈ l /\ (0 <= d -> pc = d)).
Proof.
  unfold verifyJumpDest. apply safe_guard_bind; [done..|]. intros Hc.
  apply andb_true_iff in Hc as [Hin Hle]. apply existsb_exists in Hin as (x & Hx & Heq).
  apply Z.eqb_eq in Heq. subst x. split; [by apply wrap_fits|]. split; [by apply list_elem_of_In|].
  intros Hd. apply wrap_id. apply negb_true_iff, Z.ltb_ge in Hle. unfold fits. lia.
Qed.

(** The instructions that [stackOp] handles. *)
Definition stackInst (inst : Instruction) : bool :=
  negb (arithInst inst || envInst inst || memInst inst ||
    match inst with
    | CREATE | CALL | CALLCODE | DELEGATECALL | RETURN | SUICIDE | STOP => true
    | _ => false
    end).

(** Where an instruction of this group can continue. *)
Definition nextPC_ok (inst : Instruction) (m : vm) (pc : Z) : Prop :=
  match inst with
  | JUMP => pc ∈ m_jumpDests m
  | JUMPI => pc ∈ m_jumpDests m \/ pc = u64 (m_curPC m + 1)
  | _ => pc = u64 (m_curPC m + 1 + additional (c_instructionInfo inst))
  end.

Lemma pushLoop_pc i v pc : (pushLoop env i v (u64 pc)).2 = u64 (pc + Z.of_nat i).
Proof.
  revert v pc. induction i as [|i IH]; intros v pc; cbn [pushLoop].
  - by rewrite Z.add_0_r.
  - assert (u64 (u64 pc + 1) = u64 (pc + 1)) as ->.
    { unfold wrap. by rewrite Zplus_mod_idemp_l. }
    rewrite IH. f_equal. lia.
Qed.

Definition stackDone (inst : Instruction) (m : vm) (w : W) (r : vm * Z) : Prop :=
  done_ inst m (r.1, w) /\ fits 64 r.2 /\ nextPC_ok inst m r.2.

Lemma safe_pushOp inst m w :
  ready inst m w -> args (c_instructionInfo inst) = 0 -> ret (c_instructionInfo inst) = 1 ->
  additional (c_instructionInfo inst) = Z.of_nat (Z.to_nat (toByte inst - toByte PUSH1 + 1)) ->
  (forall pc, nextPC_ok inst m pc <-> pc = u64 (m_curPC m + 1 + additional (c_instructionInfo inst))) ->
  stackDone inst m w (pushOp env inst m).
Proof.
  intros Hr Ha Hret Hadd Hok. unfold pushOp.
  set (n := Z.to_nat _) in *. pose proof (pushLoop_pc n 0 (m_curPC m + 1)) as Hpc.
  destruct (pushLoop_fits n 0 (u64 (m_curPC m + 1))) as [Hv Hpc64].
  { by apply fits_small with 1. } { by apply wrap_fits. }
  destruct (pushLoop env n 0 (u64 (m_curPC m + 1))) as [v pc]. simpl in *. split_and!.
  - apply (done_push inst m w 0); by try apply Hr.
  - done.
  - apply Hok. by rewrite Hpc, Hadd.
Qed.

Lemma stackDone_effect inst m w s' :
  ready inst m w -> stackEffect inst (m_stack m) s' ->
  additional (c_instructionInfo inst) = 0 ->
  (forall pc, nextPC_ok inst m pc <-> pc = u64 (m_curPC m + 1 + additional (c_instructionInfo inst))) ->
  stackDone inst m w (set_stack s' m, u64 (m_curPC m + 1)).
Proof.
  intros (_ & _ & Hm & _ & _ & Hw) He Ha Hok. split_and!; try done.
  - by apply wrap_fits.
  - apply Hok. by rewrite Ha, Z.add_0_r.
Qed.

Lemma safe_stackOp inst m w :
  stackInst inst = true -> ready inst m w -> safe (stackOp env inst m) (stackDone inst m w).
Proof.
  intros Hi Hr. pose proof Hr as (Hs & Hd & Hm & Hcov & Hm32 & Hw).
  assert (Hpc : fits 64 (u64 (m_curPC m + 1))) by by apply wrap_fits.
  destruct inst; try discriminate Hi; unfold stackOp;
    try (by apply safe_pushOp);
    try (eapply safe_bind; [eapply safe_dupOp; [reflexivity|decide_closed|reflexivity|reflexivity|done|done]|intros s' He; by apply stackDone_effect]);
    try (eapply safe_bind; [eapply safe_swapOp; [reflexivity|decide_closed|reflexivity|reflexivity|done|done]|intros s' He; by apply stackDone_effect]);
    operands Hr.
  - apply stackDone_effect; try done. apply stackEffect_drop; try done. by eapply ready_depth.
  - eapply safe_bind; [apply safe_verifyJumpDest|]. intros pc (H64 & Hin & _). operands Hr.
    split_and!; try done. rewrite <-(set_temp_id m) at 2. by apply (done_drop JUMP m w 1).
  - eapply safe_bind with (P := fun pc => fits 64 pc /\ nextPC_ok JUMPI m pc).
    { destruct (negb _); [|split; [done|by right]].
      eapply safe_mono; [apply safe_verifyJumpDest|]. intros pc (H64 & Hin & _).
      split; [done|by left]. }
    intros pc [H64 Hok]. operands Hr. split_and!; try done.
    rewrite <-(set_temp_id m) at 2. by apply (done_drop JUMPI m w 2).
Qed.

Lemma safe_execOrdinaryOpcode inst m g w :
  match inst with
  | CREATE | CALL | CALLCODE | DELEGATECALL | RETURN | SUICIDE | STOP => False
  | _ => True
  end ->
  fits 64 (m_curPC m) -> fits 256 g -> ready inst m w ->
  safe (execOrdinaryOpcode sha3 env inst m g w)
    (fun '(m', pc, w') => done_ inst m (m', w') /\ fits 64 pc /\ nextPC_ok inst m pc).
Proof.
  intros Hi Hpc Hg Hr. pose proof Hr as (Hs & Hd & Hm & Hcov & Hm32 & Hw).
  assert (Hpc' : fits 64 (u64 (m_curPC m + 1))) by by apply wrap_fits.
  unfold execOrdinaryOpcode. destruct inst; try done;
    try (eapply safe_bind; [by apply safe_arithOp|]; intros s Hse);
    try (eapply safe_bind; [by apply safe_envOp|]; intros [m1 w1] Hdn);
    try (eapply safe_bind; [by apply safe_memOp|]; intros [m1 w1] Hdn);
    try (eapply safe_bind; [by apply (safe_stackOp _ m w)|]; intros [m1 pc] (Hdn & Hpc1 & Hok));
    cbn [safe nextPC_ok additional c_instructionInfo]; rewrite ?Z.add_0_r; split_and!; try done;
    cbn [nextPC_ok additional c_instructionInfo snd] in Hok; by rewrite Z.add_0_r in Hok.
Qed.

(** The operands of a call, for a machine that has paid for it. *)
Definition callOperands (inst : Instruction) (m : vm)
    (r : CallParameters * (Z * Z * Z * Z) * list Z) : Prop :=
  let '(p, (io, sz, oo, os), s) := r in
  s = drop (Z.to_nat (args (c_instructionInfo inst))) (m_stack m) /\
  0 <= gas p /\ gas p + callGas sch <= leastGas sch inst (m_stack m) /\
  fits 256 (valueTransfer p) /\ fits 256 (apparentValue p) /\
  fits 160 (codeAddress p) /\ fits 160 (receiveAddress p) /\
  (senderAddress p = myAddress env \/ senderAddress p = caller env /\ valueTransfer p = 0) /\
  0 <= io /\ 0 <= sz < 2 ^ 32 /\ 0 <= oo /\ 0 <= os /\
  (sz = 0 \/ io + sz <= sizeZ (m_temp m)) /\ (os = 0 \/ oo + os <= sizeZ (m_temp m)).

Lemma memory_operand a z n :
  0 <= a -> 0 <= z -> memNeed a z <= n -> n < 2 ^ 32 ->
  0 <= u32 a /\ 0 <= u32 z /\ (u32 z = 0 \/ u32 a + u32 z <= n).
Proof.
  intros Ha Hz Hn Hn32. destruct (covered 32 a z n) as (-> & ? & ?); try done; lia.
Qed.

Lemma stipend inst g a v s :
  inst = CALL \/ inst = CALLCODE -> fits 256 g ->
  leastGas sch inst (g :: a :: v :: s) < 2 ^ 256 ->
  0 <= (if 0 <? v then u256 (g + callStipend sch) else g) /\
  (if 0 <? v then u256 (g + callStipend sch) else g) + callGas sch
    <= leastGas sch inst (g :: a :: v :: s).
Proof.
  intros Hi [Hg _] Hl. assert (leastGas sch inst (g :: a :: v :: s)
    = g + 40 + (if 0 <? v then 9000 else 0)) as E by by destruct Hi as [-> | ->].
  rewrite E in *. cbn [callStipend callGas newSchedule].
  destruct (0 <? v); [rewrite wrap_id by (unfold fits; lia)|]; lia.
Qed.

Lemma safe_callParams inst m w :
  inst = CALL \/ inst = CALLCODE \/ inst = DELEGATECALL -> ready inst m w ->
  leastGas sch inst (m_stack m) < 2 ^ 256 ->
  safe (callParams sch env inst m) (callOperands inst m).
Proof.
  intros Hi (Hs & Hd & Hm & Hcov & Hm32 & Hw) Hgas.
  pose proof Henv as He. unfold env_wf in He. destruct_and! He.
  unfold callOperands. destruct m as [? ? t s ?]. cbn [m_stack m_temp] in *.
  set (n := Z.to_nat (args (c_instructionInfo inst))).
  destruct (stack_prefix n s) as (p & r & -> & Hp); [unfold sizeZ in Hd; lia|].
  destruct Hi as [-> | [-> | ->]]; subst n; vm_compute in Hp;
    do 6 (destruct p as [|? p]; [discriminate Hp|]);
    try (destruct p as [|? p]; [discriminate Hp|]);
    (destruct p as [|? p]; [|discriminate Hp]);
    repeat (apply Forall_cons_1 in Hs as [? Hs]); cbn [app] in *;
    destruct Hcov as [Hc1 Hc2]; specialize (Hc1 _ _ eq_refl eq_refl);
    specialize (Hc2 _ _ eq_refl eq_refl);
    unfold callParams, back, pop;
    cbn [m_stack Init.Nat.pred lookup list_lookup mbind result_bind length Nat.leb drop];
    rewrite ?bool_decide_false by done; rewrite ?bool_decide_true by done;
    cbn [m_stack Init.Nat.pred lookup list_lookup mbind result_bind length Nat.leb drop safe];
    cbn [gas valueTransfer apparentValue codeAddress receiveAddress senderAddress];
    repeat match goal with
      | H : memNeed ?a ?z <= _ |- _ =>
          apply memory_operand in H as (? & ? & ?); [|by apply fits_nonneg with 256..|done]
      end;
    split_and!; try done; try (by left); try (by right); auto with ele; try (by apply wrap_fits);
    try (by apply fits_nonneg with 256);
    (refine (proj1 (stipend _ _ _ _ _ _ _ Hgas)) || refine (proj2 (stipend _ _ _ _ _ _ _ Hgas)));
    by auto.
Qed.

(** What a call or a creation promises: the stack effect of the table, and no
    more gas than what was left and what had been set aside for the callee. *)
Definition callDone (inst : Instruction) (m : vm) (g : Z) (r : vm * Z * W) : Prop :=
  let '(m', g', w') := r in
  done_ inst m (m', w') /\ 0 <= g' /\ g' + 1 <= g + leastGas sch inst (m_stack m).

Lemma args_nat inst :
  args (c_instructionInfo inst) = Z.of_nat (Z.to_nat (args (c_instructionInfo inst))).
Proof. by destruct inst. Qed.

Lemma safe_ok {A} (r : result vm_error A) a (Q : A -> Prop) : r = Ok a -> Q a -> safe r Q.
Proof. by intros ->. Qed.

Lemma zero_word : fits 256 0.
Proof. by apply fits_small with 1. Qed.

Lemma safe_callOp inst m g w :
  inst = CALL \/ inst = CALLCODE \/ inst = DELEGATECALL -> ready inst m w ->
  0 <= g -> g + leastGas sch inst (m_stack m) < gasBound ->
  safe (callOp sch env inst m g w) (callDone inst m g).
Proof.
  intros Hi Hr Hg HG. pose proof Hr as (Hs & Hd & Hm & Hcov & Hm32 & Hw).
  assert (gasBound < 2 ^ 256) by (by apply Z.ltb_lt).
  assert (ret (c_instructionInfo inst) = 1) as Hret by by destruct Hi as [-> | [-> | ->]].
  unfold callOp. eapply safe_bind; [apply (safe_callParams inst m w); try done; lia|].
  intros [[p [[[io sz] oo] os]] s]
    (-> & Hg0 & Hgl & Hvt & Hav & Hca & Hra & Hsnd & Hio & Hsz & Hoo & Hos & Hin & Hout).
  cbn [callGas newSchedule] in Hgl.
  destruct (ext_balance_ok (myAddress env) w Hw) as (b & w1 & Hb & _ & Hw1).
  pose proof (fun d o => ext_call_ok (with_buffers d o p) w b w1) as Hcall.
  rewrite Hb, bind_Ok_l.
  destruct ((valueTransfer p <=? b) && (depth env <? 1024)) eqn:E.
  - apply andb_true_iff in E as [Hbal%Z.leb_le Hdep%Z.ltb_lt].
    eapply safe_bind; [apply safe_readMem; try done; lia|]. intros d [Hdw Hdz].
    eapply safe_bind; [apply safe_readMem; try done; lia|]. intros o [How Hoz].
    destruct (Hcall d o) as (ok & g' & o' & w2 & Heq & Hg' & Hlo & Hwo & Hw2);
      cbn [with_buffers valueTransfer gas cdata out apparentValue codeAddress receiveAddress
           senderAddress] in *; auto; try lia.
    eapply safe_bind; [by eapply (safe_ok _ _ (fun r => r = (ok, g', o', w2)))|]. intros ? ->.
    eapply safe_bind; [apply safe_writeMem; try done|].
    { destruct (Z.eq_dec os 0); [left|right]; [apply length_zero_iff_nil|]; unfold sizeZ in *; lia. }
    intros t [Ht Htz]. rewrite wrap_id by (unfold fits; lia). split; [|lia].
    split_and!; try done. apply stackEffect_push; try done; [apply bool_fits|..|apply args_nat].
    unfold sizeZ in Hd. lia.
  - rewrite wrap_id by (unfold fits; lia). split; [|lia].
    apply (done_push inst m w); auto using zero_word, args_nat.
Qed.

Lemma safe_createOp m g w :
  ready CREATE m w -> 0 <= g < gasBound -> safe (createOp env m g w) (callDone CREATE m g).
Proof.
  intros Hr Hg. pose proof Hr as (Hs & Hd & Hm & Hcov & Hm32 & Hw). unfold createOp. operands Hr.
  destruct (memory_operand a0 a1 (sizeZ (m_temp m))) as (Ho & Hz & Hin); [done|done|by apply Hcov|done|].
  destruct (ext_balance_ok (myAddress env) w Hw) as (b & w1 & Hbal1 & _ & Hw1).
  pose proof (fun c => ext_create_ok a g c w b w1) as Hcreate. rewrite Hbal1, bind_Ok_l.
  destruct ((a <=? b) && (depth env <? 1024)) eqn:E.
  - apply andb_true_iff in E as [Hbal%Z.leb_le Hdep%Z.ltb_lt].
    eapply safe_bind; [by apply safe_readMem|]. intros c [Hcw Hcz].
    pose proof (wrap_fits 32 a1) as [? ?]; [done|].
    destruct (Hcreate c) as (x & g' & w2 & Heq & Hg' & Hx & Hw2); auto; try lia.
    { by eapply lookup_fits. }
    eapply safe_bind; [by eapply (safe_ok _ _ (fun r => r = (x, g', w2)))|]. intros ? ->.
    split; [|simpl; lia]. apply (done_push CREATE m w 3); auto using address_word.
  - split; [|simpl; lia]. apply (done_push CREATE m w 3); auto using zero_word.
Qed.

(** What one iteration of the loop promises. *)
Definition stepDone (G : Z) (m : vm) (g : Z) (o : outcome (W := W)) : Prop :=
  match o with
  | Continue m' g' w' =>
      inv G m' g' w' /\ g' < g /\ m_jumpDests m' = m_jumpDests m /\
      exists inst, ofByte (getCode env (m_curPC m)) = Some inst /\ inst <> STOP /\
        stackEffect inst (m_stack m) (m_stack m') /\ nextPC_ok inst m (m_curPC m')
  | Return out g' w' => 0 <= g' <= g /\ wf_bytes out /\ sizeZ out < 2 ^ 32 /\ ewf w'
  end.

(** The instruction has been executed on the checked machine: the loop goes on. *)
Lemma continue_done G m g inst m1 g1 w1 m2 g2 w2 pc steps :
  inv G m g w1 -> checked m g (inst, m1, g1, w1) -> done_ inst m1 (m2, w2) ->
  0 <= g2 -> g2 + 1 <= g1 + leastGas sch inst (m_stack m) -> fits 64 pc ->
  nextPC_ok inst m pc -> inst <> STOP ->
  stepDone G m g (Continue (set_pc pc steps m2) g2 w2).
Proof.
  intros (Hg & Hpaid & Hmod & Hmem & Hs & Hlen & _ & _)
    (Hi & -> & Hd & Hroom & Hwf1 & Hmod1 & Hle & Hcov & Hg1 & Hlg & Hacc & Hw1)
    ([Hs2 Hl2] & Hz2 & Hwf2 & Hj2 & Hw2) Hg2 Hgas Hpc Hok Hns.
  cbn [fst snd set_temp m_stack m_temp m_jumpDests] in *.
  pose proof (gasForMem_mono efcd hdc txc (sizeZ (m_temp m)) (sizeZ (m_temp m1))) as Hmono.
  pose proof (sizeZ_nonneg (m_temp m)).
  unfold stepDone, inv. cbn [set_pc m_curPC m_stack m_temp m_jumpDests]. rewrite Hz2.
  split; [split_and!; auto; lia|]. split; [lia|]. split; [done|]. exists inst.
  split; [done|]. split; [done|]. split; [by split|done].
Qed.

Lemma checked_ready G m g inst m1 g1 w1 :
  G < gasBound -> inv G m g w1 -> checked m g (inst, m1, g1, w1) ->
  ready inst m1 w1 /\ m_curPC m1 = m_curPC m /\ m_stack m1 = m_stack m /\
  m_jumpDests m1 = m_jumpDests m /\ 0 <= g1 <= g /\
  g1 + leastGas sch inst (m_stack m) < gasBound /\ sizeZ (m_temp m1) < 2 ^ 32.
Proof.
  intros HG (Hg & Hpaid & Hmod & Hmem & Hs & Hlen & _ & _)
    (Hi & -> & Hd & Hroom & Hwf1 & Hmod1 & Hle & Hcov & Hg1 & Hlg & Hacc & Hw1).
  cbn [set_temp m_stack m_temp m_jumpDests m_curPC] in *.
  pose proof (sizeZ_nonneg (m_temp m)) as Hn.
  pose proof (gasForMem_mono efcd hdc txc (sizeZ (m_temp m)) (sizeZ (m_temp m1))) as Hmono.
  pose proof (gasForMem_nonneg efcd hdc txc _ Hn) as Hnn.
  assert (sizeZ (m_temp m1) < 2 ^ 32).
  { apply (gasForMem_bound efcd hdc txc); lia. }
  split_and!; auto; try lia. split_and!; auto.
Qed.

Lemma nextPC_ok_same inst m m1 pc :
  m_curPC m1 = m_curPC m -> m_jumpDests m1 = m_jumpDests m ->
  nextPC_ok inst m1 pc -> nextPC_ok inst m pc.
Proof. unfold nextPC_ok. by intros -> ->. Qed.

Lemma inv_world G m g w inst m1 g1 w1 :
  inv G m g w -> checked m g (inst, m1, g1, w1) -> inv G m g w1.
Proof. unfold inv, checked. intuition. Qed.

(** The one-instruction cases of the loop, by what they leave to do. *)
Definition ordinary (inst : Instruction) : bool :=
  match inst with
  | CREATE | CALL | CALLCODE | DELEGATECALL | RETURN | SUICIDE | STOP => false
  | _ => true
  end.

Lemma ordinary_least inst s : ordinary inst = true -> leastGas sch inst s = 1.
Proof. by destruct inst. Qed.

Lemma safe_call_step (body : vm -> Z -> W -> result vm_error (vm * Z * W)) G m g inst m1 g1 w1 w :
  inst = CREATE \/ inst = CALL \/ inst = CALLCODE \/ inst = DELEGATECALL ->
  inv G m g w -> checked m g (inst, m1, g1, w1) -> m_stack m1 = m_stack m ->
  safe (body m1 g1 w1) (callDone inst m1 g1) ->
  safe ('(m2, g2, w2) ← body m1 g1 w1;
        Ok (Continue (set_pc (u64 (m_curPC m + 1)) (u64 (m_steps m + 1)) m2) g2 w2))
    (stepDone G m g).
Proof.
  intros Hi Hinv Hc Hst Hb. eapply safe_bind; [exact Hb|]. intros [[m2 g2] w2] (Hd & Hg2 & Hgl).
  rewrite Hst in Hgl.
  refine (continue_done _ _ _ _ _ _ _ _ _ _ _ _ (inv_world _ _ _ _ _ _ _ _ Hinv Hc) Hc Hd Hg2 Hgl _ _ _).
  - by apply wrap_fits.
  - by destruct Hi as [-> | [-> | [-> | ->]]]; cbn [nextPC_ok additional c_instructionInfo];
      rewrite Z.add_0_r.
  - by destruct Hi as [-> | [-> | [-> | ->]]].
Qed.

Lemma safe_other_step G m g inst m1 g1 w1 w :
  ordinary inst = false -> inv G m g w -> checked m g (inst, m1, g1, w1) -> ready inst m1 w1 ->
  m_stack m1 = m_stack m -> 0 <= g1 <= g -> g1 + leastGas sch inst (m_stack m) < gasBound ->
  safe (match inst with
        | CREATE => '(m2, g, w2) ← createOp env m1 g1 w1;
            Ok (Continue (set_pc (u64 (m_curPC m + 1)) (u64 (m_steps m + 1)) m2) g w2)
        | CALL | CALLCODE | DELEGATECALL => '(m2, g, w2) ← callOp sch env inst m1 g1 w1;
            Ok (Continue (set_pc (u64 (m_curPC m + 1)) (u64 (m_steps m + 1)) m2) g w2)
        | RETURN => b ← back 1 (m_stack m1); s ← back 2 (m_stack m1);
            o ← readMem (u32 b) (u32 s) (m_temp m1); Ok (Return o g1 w1)
        | SUICIDE => a ← back 1 (m_stack m1); w2 ← ext_suicide (asAddress a) w1;
            Ok (Return [] g1 w2)
        | STOP => Ok (Return [] g1 w1)
        | _ => Throw UB
        end) (stepDone G m g).
Proof.
  intros Ho Hinv Hc Hr Hst Hg1 Hgl. pose proof Hr as (Hs1 & _ & Hm1 & Hcov & Hm32 & Hw1).
  rewrite <-Hst in Hgl.
  destruct inst; try discriminate Ho.
  - split_and!; try done; try lia; by apply Forall_nil_2.
  - eapply (safe_call_step (createOp env) _ _ _ CREATE); eauto.
    apply safe_createOp; [done|]. simpl in Hgl. lia.
  - eapply (safe_call_step (callOp sch env CALL) _ _ _ CALL); eauto.
    apply safe_callOp; auto; lia.
  - eapply (safe_call_step (callOp sch env CALLCODE) _ _ _ CALLCODE); eauto.
    apply safe_callOp; auto; lia.
  - operands Hr. destruct (memory_operand a a0 (sizeZ (m_temp m1))) as (Hf & Hz & Hin); auto.
    eapply safe_bind; [by apply safe_readMem|]. intros d [Hd Hdz].
    pose proof (wrap_fits 32 a0) as [_ ?]; [done|]. split_and!; try done; lia.
  - eapply (safe_call_step (callOp sch env DELEGATECALL) _ _ _ DELEGATECALL); eauto.
    apply safe_callOp; auto; lia.
  - operands Hr. destruct (ext_suicide_ok (asAddress a) w1 Hw1) as (w2 & -> & Hw2).
    split_and!; try done; try lia; by apply Forall_nil_2.
Qed.

Lemma safe_step G m g w :
  G < gasBound -> inv G m g w -> safe (step sha3 sch env m g w) (stepDone G m g).
Proof.
  intros HG Hinv. unfold step. eapply safe_bind; [by apply safe_checkRequirements with G|].
  intros [[[inst m1] g1] w1] Hc. pose proof (inv_world _ _ _ _ _ _ _ _ Hinv Hc) as Hinv1.
  destruct (checked_ready _ _ _ _ _ _ _ HG Hinv1 Hc) as (Hr & Hpc & Hst & Hj & Hg1 & Hgl & Hm32).
  assert (gasBound < 2 ^ 256) by (by apply Z.ltb_lt).
  assert (fits 256 g1).
  { destruct Hinv as (? & ? & _). pose proof (sizeZ_nonneg (m_temp m)) as Hn.
    pose proof (gasForMem_nonneg efcd hdc txc _ Hn). unfold fits. lia. }
  destruct (ordinary inst) eqn:Ho.
  - assert (safe ('(m2, pc, w2) ← execOrdinaryOpcode sha3 env inst m1 g1 w1;
        Ok (Continue (set_pc pc (u64 (m_steps m + 1)) m2) g1 w2)) (stepDone G m g)).
    { eapply safe_bind; [apply safe_execOrdinaryOpcode; auto|].
      - by destruct inst.
      - rewrite Hpc. apply Hinv.
      - intros [[m2 pc] w2] (Hd & Hpc2 & Hok). apply (nextPC_ok_same _ m) in Hok; auto.
        refine (continue_done _ _ _ _ _ _ _ _ _ _ _ _ Hinv1 Hc Hd _ _ Hpc2 Hok _);
          [lia|rewrite ordinary_least by done; lia|by intros ->]. }
    destruct inst; try discriminate Ho; done.
  - pose proof (safe_other_step G m g inst m1 g1 w1 w Ho Hinv Hc Hr Hst Hg1 Hgl) as Hso.
    destruct inst; try discriminate Ho; exact Hso.
Qed.

(** ** The loop *)

Lemma run_safe G fuel m g w :
  G < gasBound -> inv G m g w -> g < Z.of_nat fuel ->
  exists r, run sha3 sch env fuel m g w = Some r /\
    safe r (fun '(o, g', w') => 0 <= g' <= g /\ wf_bytes o /\ sizeZ o < 2 ^ 32 /\ ewf w').
Proof.
  intros HG. revert m g w. induction fuel as [|f IH]; intros m g w Hinv Hf.
  { destruct Hinv. lia. }
  cbn [run]. pose proof (safe_step G m g w HG Hinv) as Hstep.
  destruct (step sha3 sch env m g w) as [[m' g' w'|o g' w']|e]; [| |by eauto].
  - destruct Hstep as (Hinv' & Hlt & _). destruct (IH m' g' w' Hinv') as (r & Hrun & Hr); [lia|].
    exists r. split; [done|]. eapply safe_mono; [exact Hr|]. intros [[o g2] w2] (? & ?). split; [lia|done].
  - eauto.
Qed.

Lemma inv_init g w : 0 <= g -> ewf w -> inv g (initVM env) g w.
Proof.
  intros Hg Hw. unfold inv, initVM. cbn [m_temp m_stack m_curPC].
  change (sizeZ []) with 0. rewrite gasForMem_eq. change (3 * (0 / 32) + 0 / 32 * (0 / 32) / 512) with 0.
  split_and!; try done; try lia; by apply Forall_nil_2.
Qed.

Lemma execImpl_safe g w :
  0 <= g < gasBound -> ewf w ->
  exists r, execImpl sha3 sch env g w = Some r /\
    safe r (fun '(o, g', w') => 0 <= g' <= g /\ wf_bytes o /\ sizeZ o < 2 ^ 32 /\ ewf w').
Proof.
  intros [Hg HG] Hw. apply (run_safe g); [done|by apply inv_init|lia].
Qed.

(** ** Control flow *)

(** [m], [g], [w] are reached by the loop from the start of an execution. *)
Inductive reachable (g0 : Z) (w0 : W) : vm -> Z -> W -> Prop :=
| reach_init : reachable g0 w0 (initVM env) g0 w0
| reach_step m g w m' g' w' :
    reachable g0 w0 m g w -> step sha3 sch env m g w = Ok (Continue m' g' w') ->
    reachable g0 w0 m' g' w'.

Lemma reachable_inv g0 w0 m g w :
  0 <= g0 < gasBound -> ewf w0 -> reachable g0 w0 m g w ->
  inv g0 m g w /\ m_jumpDests m = m_jumpDests (initVM env).
Proof.
  intros Hg0 Hw0. induction 1 as [|m g w m' g' w' Hreach [Hinv Hj] Hstep].
  { split; [apply inv_init; [lia|done]|done]. }
  pose proof (safe_step g0 m g w (proj2 Hg0) Hinv) as Hsafe. rewrite Hstep in Hsafe.
  destruct Hsafe as (Hinv' & _ & Hj' & _). split; [done|]. by rewrite Hj'.
Qed.

Lemma jumpDests_spec d :
  d ∈ m_jumpDests (initVM env) <->
  boundary (code env) 0 d /\ code env !! Z.to_nat d = Some (toByte JUMPDEST).
Proof.
  unfold initVM. cbn [m_jumpDests]. rewrite scanJumpDests_spec, elem_of_nil by lia. tauto.
Qed.

(** The next instruction is at a boundary of the code. *)
Lemma reachable_boundary g0 w0 m g w :
  0 <= g0 < gasBound -> ewf w0 -> reachable g0 w0 m g w -> boundary (code env) 0 (m_curPC m).
Proof.
  intros Hg0 Hw0. induction 1 as [|m g w m' g' w' Hreach Hbd Hstep]; [constructor|].
  destruct (reachable_inv g0 w0 m g w Hg0 Hw0 Hreach) as [Hinv Hj].
  pose proof (safe_step g0 m g w (proj2 Hg0) Hinv) as Hsafe. rewrite Hstep in Hsafe.
  destruct Hsafe as (_ & _ & _ & inst & Hinst & Hns & _ & Hok).
  pose proof Henv as He. unfold env_wf in He. destruct_and! He.
  pose proof (boundary_ge _ _ _ Hbd) as Hge. unfold getCode in Hinst.
  destruct (Z.ltb_spec (m_curPC m) (sizeZ (code env))) as [Hlt|]; [|by injection Hinst as <-].
  destruct (code env !! Z.to_nat (m_curPC m)) as [b|] eqn:Eb.
  2:{ apply lookup_ge_None in Eb. unfold sizeZ in Hlt. lia. }
  cbn [default] in Hinst. apply ofByte_Some in Hinst as Hb. unfold id in Hb.
  pose proof (pushLen_bounds b) as Hpl. pose proof (boundary_snoc _ _ _ _ Hbd Eb) as Hnext.
  rewrite <-Hb, <-pushLen_additional in Hnext, Hpl.
  assert (u64 (m_curPC m + 1 + additional (c_instructionInfo inst))
          = m_curPC m + 1 + additional (c_instructionInfo inst)) as E.
  { apply wrap_id. unfold fits. lia. }
  assert (forall pc, pc ∈ m_jumpDests m -> boundary (code env) 0 pc) as Hdest.
  { intros pc. rewrite Hj. by intros [? _]%jumpDests_spec. }
  destruct inst; cbn [nextPC_ok] in Hok; try (by rewrite Hok, E); auto.
  destruct Hok as [?|Hok]; [auto|]. cbn in E, Hnext. rewrite Z.add_0_r in E, Hnext.
  by rewrite Hok, E.
Qed.

(** ** Properties of the interpreter *)

(** C2: started with less than [2^45] gas, the interpreter finishes, within as
    many iterations as it has gas, and never reads or writes outside its stack,
    its memory, the code or the call data, whatever the code: it ends in normal
    completion with no more gas than it was given, or in one of the exceptions
    of VMFace.h. *)
Theorem vm_safe_and_terminates g w (Hg : 0 <= g < gasBound) (Hw : ewf w) :
  exists r, execImpl sha3 sch env g w = Some r /\
    match r with
    | Ok (o, g', w') => 0 <= g' <= g /\ wf_bytes o /\ sizeZ o < 2 ^ 32 /\ ewf w'
    | Throw e => e <> UB /\ e <> Unexpected
    end.
Proof.
  destruct (execImpl_safe g w Hg Hw) as (r & Hr & Hs). exists r. split; [done|].
  by destruct r as [[[o g'] w']|e].
Qed.

(** C5: every iteration that continues executes a valid instruction, changes the
    stack depth as the instruction table says, keeps the stack below its limit
    and its elements 256 bits wide, keeps the memory size a multiple of 32 and
    paid for out of the initial gas, and consumes gas. *)
Theorem vm_step_discipline g0 w0 m g w m' g' w'
    (Hg0 : 0 <= g0 < gasBound) (Hw0 : ewf w0) (Hreach : reachable g0 w0 m g w)
    (Hstep : step sha3 sch env m g w = Ok (Continue m' g' w')) :
  exists inst, ofByte (getCode env (m_curPC m)) = Some inst /\
    sizeZ (m_stack m') = sizeZ (m_stack m) - args (c_instructionInfo inst)
                         + ret (c_instructionInfo inst) /\
    sizeZ (m_stack m') <= 1024 /\ Forall (fits 256) (m_stack m') /\
    0 <= g' < g /\ sizeZ (m_temp m') mod 32 = 0 /\
    g' + gasForMem sch (sizeZ (m_temp m')) <= g0.
Proof.
  destruct (reachable_inv g0 w0 m g w Hg0 Hw0 Hreach) as [Hinv _].
  pose proof (safe_step g0 m g w (proj2 Hg0) Hinv) as Hsafe. rewrite Hstep in Hsafe.
  destruct Hsafe as ((? & ? & ? & ? & ? & ? & _) & Hlt & _ & inst & Hi & _ & [Hw Hl] & _).
  exists inst. by split_and!.
Qed.

End Machine.

(** A small execution for the witnesses: [PUSH1 3; JUMP; JUMPDEST; STOP]. *)
Definition sampleEnv : ExtEnv :=
  mkExtEnv (mkEnvInfo 1 0 0 0 1000000 (replicate 256 0) 0) 5 6 6 0 1 [1; 2; 3]
    [96; 3; 86; 91; 0] 0.
Definition sampleSha3 (d : bytes) : bytes := replicate 32 0.

Lemma sampleEnv_wf : env_wf sampleEnv.
Proof. decide_closed. Defined.

Lemma sampleSha3_wf d : wf_bytes (sampleSha3 d) /\ length (sampleSha3 d) = 32%nat.
Proof. split; [|done]. decide_closed. Defined.

Lemma vm_safe_and_terminates_witness :
  exists r, execImpl (H := nullExtVM sampleEnv) sampleSha3 HomesteadSchedule sampleEnv 100 emptySubState
            = Some r /\
    match r with
    | Ok (o, g', w') => 0 <= g' <= 100 /\ wf_bytes o /\ sizeZ o < 2 ^ 32 /\
        ext_wf (env := sampleEnv) (ExtVMLaws := nullExtVMLaws sampleEnv) w'
    | Throw e => e <> UB /\ e <> Unexpected
    end.
Proof.
  apply (vm_safe_and_terminates (Hext := nullExtVM sampleEnv) sampleEnv
    (Hlaws := nullExtVMLaws sampleEnv) sampleSha3 true true 53000 sampleEnv_wf sampleSha3_wf
    (fun _ => I) 100 emptySubState); [done|exact I].
Defined.

(** The state after [PUSH1 3] and the one after [JUMP]. *)
Definition sampleAt2 : vm := mkVM 2 1 [] [3] [3].
Definition sampleAt3 : vm := mkVM 3 2 [] [] [3].

Lemma sample_reach2 :
  reachable (Hext := nullExtVM sampleEnv) sampleEnv sampleSha3 true true 53000 100 emptySubState
    sampleAt2 97 emptySubState.
Proof. eapply reach_step; [apply reach_init|]. vm_compute. reflexivity. Defined.

Lemma vm_step_discipline_witness :
  exists inst, ofByte (getCode sampleEnv (m_curPC sampleAt2)) = Some inst /\
      sizeZ (m_stack sampleAt3) = sizeZ (m_stack sampleAt2) - args (c_instructionInfo inst)
                           + ret (c_instructionInfo inst) /\
      sizeZ (m_stack sampleAt3) <= 1024 /\ Forall (fits 256) (m_stack sampleAt3) /\
      0 <= 89 < 97 /\ sizeZ (m_temp sampleAt3) mod 32 = 0 /\
      89 + gasForMem HomesteadSchedule (sizeZ (m_temp sampleAt3)) <= 100.
Proof.
  apply (vm_step_discipline (Hext := nullExtVM sampleEnv) sampleEnv
    (Hlaws := nullExtVMLaws sampleEnv) sampleSha3 true true 53000 sampleEnv_wf sampleSha3_wf
    (fun _ => I) 100 emptySubState sampleAt2 97 emptySubState sampleAt3 89 emptySubState).
  - done.
  - exact I.
  - apply sample_reach2.
  - vm_compute. reflexivity.
Defined.


(** C38: the scan finds exactly the [JUMPDEST] bytes that stand at an instruction
    boundary, not those inside the immediate data of a [PUSH], in strictly
    increasing order, as the binary search of [verifyJumpDest] needs. *)
Theorem jumpdest_analysis (e : ExtEnv) :
  (forall d, d ∈ m_jumpDests (initVM e) <->
     boundary (code e) 0 d /\ code e !! Z.to_nat d = Some (toByte JUMPDEST)) /\
  StronglySorted Z.lt (m_jumpDests (initVM e)).
Proof.
  split; [intros d; apply jumpDests_spec|]. unfold initVM. cbn [m_jumpDests].
  apply scanJumpDests_sorted; [done|by apply Forall_nil_2|constructor].
Qed.

(** ** Word arithmetic *)

(** [x] with its low [k] bits read as a two's complement number. *)
Definition signedLow (k x : Z) : Z :=
  let l := x mod 2 ^ k in if l <? 2 ^ (k - 1) then l else l - 2 ^ k.

Lemma mod_split x n : 0 <= n ->
  0 <= x mod 2 ^ n < 2 ^ n /\
  x mod 2 ^ (n + 1) = x mod 2 ^ n + (if Z.testbit x n then 2 ^ n else 0).
Proof.
  intros Hn. assert (0 < 2 ^ n) by (by apply Z.pow_pos_nonneg).
  split; [by apply Z.mod_pos_bound|]. rewrite Z.pow_add_r by lia. change (2 ^ 1) with 2.
  rewrite Z.rem_mul_r by lia. rewrite Z.testbit_odd, Z.shiftr_div_pow2 by lia.
  rewrite Zmod_odd. destruct (Z.odd _); lia.
Qed.

Lemma lor_lnot_ones x n : 0 <= n -> Z.lor x (Z.lnot (Z.ones n)) = x mod 2 ^ n - 2 ^ n.
Proof.
  intros Hn. assert (0 < 2 ^ n) by (by apply Z.pow_pos_nonneg).
  rewrite <-(Z.lnot_involutive x) at 1. rewrite <-Z.lnot_land, Z.land_ones by done.
  unfold Z.lnot. pose proof (Z.div_mod x (2 ^ n)). pose proof (Z.mod_pos_bound x (2 ^ n)).
  assert ((Z.pred (- x)) mod 2 ^ n = 2 ^ n - 1 - x mod 2 ^ n) as ->; [|lia].
  symmetry. apply Z.mod_unique with (- (x / 2 ^ n) - 1); lia.
Qed.

Lemma lor_u256 x y : fits 256 x -> Z.lor x (u256 y) = u256 (Z.lor x y).
Proof.
  intros Hx. apply fits_bits in Hx as [_ Hx]; [|done]. apply Z.bits_inj'. intros n Hn.
  rewrite Z.lor_spec. unfold wrap. destruct (Z.lt_ge_cases n 256).
  - by rewrite !Z.mod_pow2_bits_low, Z.lor_spec by lia.
  - rewrite !Z.mod_pow2_bits_high, Hx by lia. done.
Qed.

Lemma signextend_spec a x :
  0 <= a < 31 -> fits 256 x -> signextend a x = u256 (signedLow (8 * (a + 1)) x).
Proof.
  intros Ha Hx. unfold signextend. rewrite (proj2 (Z.ltb_lt _ _)) by lia.
  rewrite (wrap_id 32) by (unfold fits; lia). set (tb := a * 8 + 7).
  replace (8 * (a + 1)) with (tb + 1) by lia.
  assert (0 < 2 ^ tb) by (apply Z.pow_pos_nonneg; lia).
  assert (2 ^ (tb + 1) = 2 * 2 ^ tb) as E by (rewrite Z.pow_add_r by lia; lia).
  assert (2 ^ (tb + 1) <= 2 ^ 256) by (apply Z.pow_le_mono_r; lia).
  assert (u256 (Z.shiftl 1 tb - 1) = Z.ones tb) as ->.
  { rewrite Z.shiftl_mul_pow2, Z.mul_1_l by lia. rewrite Z.ones_equiv.
    rewrite wrap_id by (unfold fits; lia). lia. }
  unfold signedLow. replace (tb + 1 - 1) with tb by lia.
  destruct (mod_split x tb) as [Hb ->]; [lia|]. destruct (Z.testbit x tb).
  - rewrite (proj2 (Z.ltb_ge _ _)) by lia. rewrite lor_u256, lor_lnot_ones by (done || lia).
    f_equal. lia.
  - rewrite Z.add_0_r, (proj2 (Z.ltb_lt _ _)) by lia. rewrite Z.land_ones by lia.
    symmetry. apply wrap_id. unfold fits. lia.
Qed.

Lemma byteOp_spec a x :
  0 <= a < 32 -> fits 256 x -> be_bytes 32 x !! Z.to_nat a = Some (byteOp a x).
Proof.
  intros Ha Hx. unfold byteOp. rewrite (proj2 (Z.ltb_lt _ _)) by lia.
  rewrite wrap_id by (unfold fits; lia). rewrite Z.shiftr_div_pow2, land_255 by lia.
  replace 32%nat with (Z.to_nat a + (1 + Z.to_nat (31 - a)))%nat by lia.
  rewrite be_bytes_app, lookup_app_r by (rewrite be_bytes_length; lia).
  rewrite be_bytes_length, Nat.sub_diag, be_bytes_app. cbn [be_bytes app lookup list_lookup].
  rewrite pow256_pow2, Z2Nat.id by lia. done.
Qed.

Lemma u2s_nonzero b : fits 256 b -> b <> 0 -> u2s b <> 0.
Proof. intros Hb Hn. rewrite u2s_eq by done. destruct Hb. destruct (_ <? _); lia. Qed.

Lemma s2u_quot a b : fits 256 a -> fits 256 b -> b <> 0 ->
  s2u (Z.quot (u2s a) (u2s b)) = Z.quot (u2s a) (u2s b) mod 2 ^ 256.
Proof.
  intros Ha Hb Hn. apply s2u_eq. pose proof (u2s_range a Ha) as Hsa.
  pose proof (u2s_nonzero b Hb Hn) as Hnb. pose proof (Z.quot_abs (u2s a) (u2s b) Hnb) as Habs.
  rewrite Z.quot_div_nonneg in Habs by lia.
  assert (Z.abs (u2s a) / Z.abs (u2s b) <= Z.abs (u2s a)) by (apply Z.div_le_upper_bound; nia).
  lia.
Qed.

Lemma s2u_rem a b : fits 256 a -> fits 256 b -> b <> 0 ->
  s2u (Z.rem (u2s a) (u2s b)) = Z.rem (u2s a) (u2s b) mod 2 ^ 256.
Proof.
  intros Ha Hb Hn. apply s2u_eq. pose proof (u2s_range b Hb) as Hsb.
  pose proof (Z.rem_bound_abs (u2s a) (u2s b) (u2s_nonzero b Hb Hn)). lia.
Qed.

Lemma u256_rem x c : 0 <= x -> 0 < c < 2 ^ 256 -> u256 (Z.rem x c) = x mod c.
Proof.
  intros Hx Hc. rewrite Z.rem_mod_nonneg by lia. pose proof (Z.mod_pos_bound x c).
  apply wrap_id. unfold fits. lia.
Qed.



(** ** Copies and memory words *)

Lemma writeMem_eq off x m :
  0 <= off -> (x = [] \/ off + sizeZ x <= sizeZ m) ->
  writeMem off x m = Ok (take (Z.to_nat off) m ++ x ++ drop (Z.to_nat off + length x) m).
Proof.
  intros Ho Hx. unfold writeMem. destruct x as [|b x].
  { cbn [sizeZ length app Z.of_nat Z.eqb]. by rewrite Nat.add_0_r, take_drop. }
  destruct Hx as [?|Hx]; [done|]. destruct (Z.eqb_spec (sizeZ (b :: x)) 0) as [E|].
  { rewrite sizeZ_cons in E. pose proof (sizeZ_nonneg x). lia. }
  by rewrite (proj2 (Z.leb_le _ _)).
Qed.

Lemma writeMem_adjacent off x y m :
  0 <= off -> off + sizeZ x + sizeZ y <= sizeZ m ->
  (t ← writeMem off x m; writeMem (off + sizeZ x) y t)
  = Ok (take (Z.to_nat off) m ++ (x ++ y) ++ drop (Z.to_nat off + length (x ++ y)) m).
Proof.
  intros Ho Hm. pose proof (sizeZ_nonneg x). pose proof (sizeZ_nonneg y).
  rewrite (writeMem_eq off x m) by lia. rewrite bind_Ok_l.
  assert (Z.to_nat (off + sizeZ x) = length (take (Z.to_nat off) m ++ x)) as E.
  { rewrite length_app, length_take. unfold sizeZ in *. lia. }
  rewrite writeMem_eq; [|lia|right]. 2:{ autorewrite with sizeZ. unfold sizeZ in *. lia. }
  rewrite E, (app_assoc (take _ m) x). rewrite take_app_length, <-!app_assoc. do 4 f_equal.
  rewrite (app_assoc (take _ m) x), drop_app_ge, drop_drop by lia. f_equal.
  rewrite !length_app, length_take. unfold sizeZ in *. lia.
Qed.

Lemma padded_split n k (l : bytes) :
  (k = n `min` length l)%nat -> padded n l = take k l ++ replicate (n - k) 0.
Proof.
  intros ->. unfold padded. destruct (Nat.le_ge_cases n (length l)).
  - rewrite Nat.min_l by lia. by replace (n - length l)%nat with (n - n)%nat by lia.
  - rewrite Nat.min_r by lia. by rewrite !take_ge by lia.
Qed.

Lemma copyDataToMemory_eq d m a i c r :
  m_stack m = a :: i :: c :: r -> fits 256 a -> fits 256 i -> fits 256 c ->
  memNeed a c <= sizeZ (m_temp m) -> sizeZ (m_temp m) < 2 ^ 32 -> sizeZ d < 2 ^ 32 ->
  0 < c ->
  copyDataToMemory d m =
  Ok (set_stack r (set_temp (take (Z.to_nat a) (m_temp m) ++ padded (Z.to_nat c) (drop (Z.to_nat i) d)
                             ++ drop (Z.to_nat (a + c)) (m_temp m)) m)).
Proof.
  intros Hst [Ha _] [Hi _] [Hc _] Hn Hm32 Hd32 Hc0. unfold copyDataToMemory, back, pop. rewrite Hst.
  cbn [Init.Nat.pred lookup list_lookup length Nat.leb drop]. rewrite !bind_Ok_l.
  unfold memNeed in Hn. rewrite (proj2 (Z.eqb_neq c 0)) in Hn by lia.
  rewrite (wrap_id 64 c), (wrap_id 64 a) by (unfold fits; lia). pose proof (sizeZ_nonneg d) as Hd0.
  set (stc := if _ <? _ then _ else c).
  assert (stc = Z.min c (Z.max 0 (sizeZ d - i)) /\ (0 < stc -> u64 i = i)) as [Hstc Hui].
  { subst stc. destruct (Z.ltb_spec (sizeZ d) (i + c)); [destruct (Z.ltb_spec (sizeZ d) i)|].
    - lia.
    - rewrite !wrap_id by (unfold fits; rewrite ?wrap_id by (unfold fits; lia); lia). lia.
    - rewrite wrap_id by (unfold fits; lia). lia. }
  set (src := take (Z.to_nat stc) (drop (Z.to_nat i) d)).
  assert (readMem (u64 i) stc d = Ok src /\ sizeZ src = stc) as [-> Hsrc].
  { subst src. unfold readMem. destruct (Z.eqb_spec stc 0) as [->|]; [done|].
    rewrite Hui by lia. rewrite (proj2 (Z.leb_le (i + stc) (sizeZ d))) by lia.
    split; [done|]. rewrite sizeZ_take, sizeZ_drop. lia. }
  rewrite bind_Ok_l. set (z := replicate _ 0). rewrite <-Hsrc.
  assert (sizeZ z = c - stc) as Hz.
  { subst z. unfold sizeZ at 1. rewrite length_replicate. lia. }
  pose proof (writeMem_adjacent a src z (m_temp m) Ha ltac:(lia)) as Hw.
  destruct (writeMem a src (m_temp m)) as [t1|]; [|done]. simpl in Hw |- *.
  rewrite Hw. simpl. change (drop 0 r) with r.
  rewrite (padded_split (Z.to_nat c) (Z.to_nat stc)) by (rewrite length_drop; unfold sizeZ in *; lia).
  fold src. assert (replicate (Z.to_nat c - Z.to_nat stc) 0 = z) as -> by (subst z; f_equal; lia).
  do 4 f_equal. f_equal. f_equal. rewrite length_app. unfold sizeZ in *. lia.
Qed.

(** [CALLDATACOPY], [CODECOPY] and [EXTCODECOPY] write, at the memory offset
    on the stack, [c] bytes of the source from index [i] on, with zeros for the
    bytes past the end of the source (also when the index itself is past the end,
    up to [2^256 - 1]), and leave the rest of the memory as it was. *)
Theorem copyDataToMemory_pads d m a i c r
    (Hst : m_stack m = a :: i :: c :: r) (Ha : fits 256 a) (Hi : fits 256 i) (Hc : fits 256 c)
    (Hn : memNeed a c <= sizeZ (m_temp m)) (Hm : sizeZ (m_temp m) < 2 ^ 32)
    (Hd : sizeZ d < 2 ^ 32) :
  copyDataToMemory d m =
  Ok (set_stack r (set_temp (take (Z.to_nat a) (m_temp m) ++ padded (Z.to_nat c) (drop (Z.to_nat i) d)
                             ++ drop (Z.to_nat (a + c)) (m_temp m)) m)).
Proof.
  destruct (Z.eq_dec c 0) as [->|Hc0].
  2:{ apply copyDataToMemory_eq; try done. destruct Hc. lia. }
  rewrite Z.add_0_r. change (padded (Z.to_nat 0) ?l) with (@nil Z). cbn [app].
  rewrite take_drop, set_temp_id. unfold copyDataToMemory, back, pop. rewrite Hst.
  cbn [Init.Nat.pred lookup list_lookup length Nat.leb drop]. rewrite !bind_Ok_l.
  rewrite (wrap_id 64 0) by done. set (stc := if _ <? _ then _ else _).
  assert (stc = 0) as ->; [|done]. subst stc. rewrite Z.add_0_r. by destruct (_ <? _).
Qed.

Lemma copyDataToMemory_pads_witness :
  copyDataToMemory [7; 8; 9] (mkVM 0 0 (replicate 32 1) [30; 2; 2; 5] []) =
  Ok (mkVM 0 0 (replicate 30 1 ++ [9; 0]) [5] []).
Proof.
  rewrite (copyDataToMemory_pads [7; 8; 9] (mkVM 0 0 (replicate 32 1) [30; 2; 2; 5] []) 30 2 2 [5]);
    [reflexivity|reflexivity|decide_closed..].
Defined.

Lemma readMem_writeMem off v m :
  0 <= off -> off + 32 <= sizeZ m -> fits 256 v ->
  exists t, writeMem off (ofArith 32 v) m = Ok t /\ sizeZ t = sizeZ m /\
    readMem off 32 t = Ok (be_bytes 32 v).
Proof.
  intros Ho Hm Hv. unfold ofArith. rewrite toBigEndian_spec.
  assert (sizeZ (be_bytes 32 v) = 32) as Hz by (unfold sizeZ; by rewrite be_bytes_length).
  rewrite writeMem_eq by (auto; right; lia). eexists. split; [done|].
  assert (Z.to_nat off = length (take (Z.to_nat off) m)) as El.
  { rewrite length_take. unfold sizeZ in Hm. lia. }
  assert (sizeZ (take (Z.to_nat off) m ++ be_bytes 32 v
                 ++ drop (Z.to_nat off + length (be_bytes 32 v)) m) = sizeZ m) as Es.
  { autorewrite with sizeZ. rewrite be_bytes_length. unfold sizeZ in *. lia. }
  split; [done|]. unfold readMem. rewrite Es, (proj2 (Z.leb_le _ _)) by lia. cbn [Z.eqb].
  f_equal. rewrite El at 1. rewrite drop_app_length, take_app_length'; [done|].
  by rewrite be_bytes_length.
Qed.

(** A word stored with [MSTORE] is read back by [MLOAD] at the same offset,
    when the fee computation has extended the memory over it, and the memory
    keeps its size. *)
Theorem mstore_mload W (H : ExtVMFace W) env m a v r g w
    (Hst : m_stack m = a :: v :: r) (Hv : fits 256 v) (Ha : 0 <= a)
    (Hn : a + 32 <= sizeZ (m_temp m)) (Hm : sizeZ (m_temp m) < 2 ^ 32) :
  exists m', memOp env MSTORE m g w = Ok (m', w) /\ m_stack m' = r /\
    sizeZ (m_temp m') = sizeZ (m_temp m) /\
    memOp env MLOAD (set_stack (a :: r) m') g w = Ok (set_stack (v :: r) m', w).
Proof.
  unfold memOp, back, pop. rewrite Hst. cbn [Init.Nat.pred lookup list_lookup length Nat.leb drop].
  rewrite !bind_Ok_l. rewrite (wrap_id 32) by (unfold fits; lia).
  destruct (readMem_writeMem a v (m_temp m) Ha Hn Hv) as (t & -> & Ht & Hr).
  rewrite !bind_Ok_l. eexists. split_and!; [done|done|done|].
  cbn [set_stack set_temp m_stack m_temp Init.Nat.pred lookup list_lookup length Nat.leb drop].
  rewrite !bind_Ok_l. rewrite (wrap_id 32) by (unfold fits; lia). rewrite Hr, bind_Ok_l.
  rewrite toArith_spec, be_value_be_bytes, Z.mod_small; [done|exact Hv|apply be_bytes_wf].
Qed.

Lemma mstore_mload_witness :
  exists m', memOp (H := nullExtVM sampleEnv) sampleEnv MSTORE
      (mkVM 0 0 (replicate 64 0) [5; 77; 1] []) 0 emptySubState = Ok (m', emptySubState) /\
    m_stack m' = [1] /\ sizeZ (m_temp m') = 64 /\
    memOp (H := nullExtVM sampleEnv) sampleEnv MLOAD (set_stack [5; 1] m') 0 emptySubState
      = Ok (set_stack [77; 1] m', emptySubState).
Proof.
  apply (mstore_mload SubState (nullExtVM sampleEnv) sampleEnv
    (mkVM 0 0 (replicate 64 0) [5; 77; 1] []) 5 77 [1] 0 emptySubState);
    [reflexivity|decide_closed..].
Defined.
