(* ===== verification/Account.v ===== *)
(** * libelementrem/Account.h: one account of the state

    The members of the class as a record; [m_storageRoot] and [m_codeHash] are
    the numbers that the 256-bit hashes denote. *)

From Stdlib Require Import ZArith Lia.
From stdpp Require Import base list option gmap.
From S2P Require Import Prelude CommonData FixedHash ExtVMFace.

Record Account := mkAccount {
  m_isAlive : bool;
  m_isUnchanged : bool;
  m_nonce : Z;
  m_balance : Z;
  m_storageRoot : h256;
  m_codeHash : h256;
  m_storageOverlay : gmap Z Z;
  m_codeCache : bytes
}.

Inductive NewAccountType := NormalCreation | ContractConception.
Inductive Changedness := Changed | Unchanged.

#[export] Instance NewAccountType_eq_dec : EqDecision NewAccountType.
Proof. solve_decision. Defined.
#[export] Instance Changedness_eq_dec : EqDecision Changedness.
Proof. solve_decision. Defined.

(** [c_contractConceptionCodeHash], the all-zero hash *)
Definition c_contractConceptionCodeHash : h256 := 0.

Section Account.
(** [sha3] of libdevcore/SHA3.cpp *)
Variable sha3 : bytes -> bytes.

(** [EmptySHA3] and [EmptyTrie], the hashes of the empty string and of its RLP *)
Definition EmptySHA3 : h256 := toArith (sha3 []).
Definition EmptyTrie : h256 := toArith (sha3 [128]).

(** [Account()]: a dead account *)
Definition deadAccount : Account :=
  mkAccount false false 0 0 EmptyTrie EmptySHA3 ∅ [].

(** [Account(nonce, balance, NewAccountType, Changedness)] *)
Definition newAccount (nonce balance : Z) (t : NewAccountType) (c : Changedness) : Account :=
  mkAccount true (bool_decide (c = Unchanged)) nonce balance EmptyTrie
    (if decide (t = NormalCreation) then EmptySHA3 else c_contractConceptionCodeHash) ∅ [].

(** [Account(nonce, balance, Changedness)] *)
Definition plainAccount (nonce balance : Z) (c : Changedness) : Account :=
  mkAccount true (bool_decide (c = Unchanged)) nonce balance EmptyTrie EmptySHA3 ∅ [].

(** [Account(nonce, balance, contractRoot, codeHash, Changedness)] *)
Definition storedAccount (nonce balance : Z) (contractRoot codeHash : h256) (c : Changedness)
  : Account :=
  mkAccount true (bool_decide (c = Unchanged)) nonce balance contractRoot codeHash ∅ [].

(** [kill]; the code cache stays *)
Definition kill (a : Account) : Account :=
  mkAccount false false 0 0 EmptyTrie EmptySHA3 ∅ (m_codeCache a).

Definition isDirty (a : Account) : bool := negb (m_isUnchanged a).

(** [addBalance]: a [bigint] increment, possibly negative *)
Definition addBalance (i : Z) (a : Account) : Account :=
  if i =? 0 then a
  else mkAccount (m_isAlive a) false (m_nonce a) (u256 (m_balance a + i)) (m_storageRoot a)
         (m_codeHash a) (m_storageOverlay a) (m_codeCache a).

Definition incNonce (a : Account) : Account :=
  mkAccount (m_isAlive a) false (u256 (m_nonce a + 1)) (m_balance a) (m_storageRoot a)
    (m_codeHash a) (m_storageOverlay a) (m_codeCache a).

Definition setStorage (p v : Z) (a : Account) : Account :=
  mkAccount (m_isAlive a) false (m_nonce a) (m_balance a) (m_storageRoot a)
    (m_codeHash a) (<[p := v]> (m_storageOverlay a)) (m_codeCache a).

Definition isFreshCode (a : Account) : bool := m_codeHash a =? c_contractConceptionCodeHash.
Definition codeBearing (a : Account) : bool := negb (m_codeHash a =? EmptySHA3).

(** [setCode]; the code hash is computed when the account is committed *)
Definition setCode (c : bytes) (a : Account) : Account :=
  mkAccount (m_isAlive a) false (m_nonce a) (m_balance a) (m_storageRoot a)
    (m_codeHash a) (m_storageOverlay a) c.

Definition codeCacheValid (a : Account) : bool :=
  (m_codeHash a =? EmptySHA3) || (m_codeHash a =? c_contractConceptionCodeHash)
  || negb (sizeZ (m_codeCache a) =? 0).

(** [noteCode] does not mark the account as changed. *)
Definition noteCode (c : bytes) (a : Account) : Account :=
  mkAccount (m_isAlive a) (m_isUnchanged a) (m_nonce a) (m_balance a) (m_storageRoot a)
    (m_codeHash a) (m_storageOverlay a) c.
End Account.
