(* ===== verification/State.v ===== *)
(** * libelementrem/State.{h,cpp}: the account state

    A [State] is a trie of committed accounts, given by its root in a node
    database, with a cache of accounts in front of it.  Reading fills the cache.
    The trie and the database (libdevcore/TrieDB.h, OverlayDB) are used through
    the interface [TrieStore]. *)

From Stdlib Require Import ZArith Lia.
From stdpp Require Import base list option gmap.
From S2P Require Import Prelude CommonData RLP FixedHash ExtVMFace Account.

(** ** The database under the state

    [trie_at db root key] is [SecureTrieDB(&db, root).at(key)], the empty string
    for an absent key; [trie_insert] and [trie_remove] give the database and the
    root after the change; [db_lookup] and [db_insert] are the raw node access
    that also holds contract code. *)
Class TrieStore (DB : Type) := {
  trie_at : DB -> h256 -> bytes -> bytes;
  trie_insert : DB -> h256 -> bytes -> bytes -> DB * h256;
  trie_remove : DB -> h256 -> bytes -> DB * h256;
  db_lookup : DB -> h256 -> bytes;
  db_insert : DB -> h256 -> bytes -> DB
}.

Inductive state_error :=
| StateRLP (e : rlp_error)
| NotEnoughCash
| InvalidAccountStartNonceInState
| IncorrectAccountStartNonceInState.

#[export] Instance state_error_eq_dec : EqDecision state_error.
Proof. solve_decision. Defined.

(** An exception of the RLP reader, seen from the state *)
Definition liftRLP {A} (r : result rlp_error A) : result state_error A :=
  match r with Ok a => Ok a | Throw e => Throw (StateRLP e) end.

Record State (DB : Type) := mkState {
  m_db : DB;
  m_state : h256;
  m_cache : gmap Address Account;
  m_touched : gset Address;
  m_accountStartNonce : Z
}.
Arguments mkState {DB}.
Arguments m_db {DB}.
Arguments m_state {DB}.
Arguments m_cache {DB}.
Arguments m_touched {DB}.
Arguments m_accountStartNonce {DB}.

Definition set_cache {DB} (c : gmap Address Account) (s : State DB) : State DB :=
  mkState (m_db s) (m_state s) c (m_touched s) (m_accountStartNonce s).

(** [m_cache[a] = acc] *)
Definition put {DB} (a : Address) (acc : Account) (s : State DB) : State DB :=
  set_cache (<[a := acc]> (m_cache s)) s.

(** [BaseState] and [Permanence] *)
Inductive Permanence := Reverted | Committed.

(** ** Account encoding *)

(** The account that [ensureCached] reads from [RLP state(stateBack)]: the four
    items, indexed through the object's cache. *)
Definition decodeAccount (d : bytes) : result rlp_error Account :=
  v ← RLP.construct d VeryStrict;
  '(x0, o0) ← RLP.field 0 (RLP.mk v); nonce ← RLP.toInt (Some 256) x0 Strict;
  '(x1, o1) ← RLP.field 1 o0; balance ← RLP.toInt (Some 256) x1 Strict;
  '(x2, o2) ← RLP.field 2 o1; root ← RLP.toHash 32 x2 Strict;
  '(x3, _) ← RLP.field 3 o2; codeHash ← RLP.toHash 32 x3 Strict;
  Ok (storedAccount nonce balance (toArith root) (toArith codeHash) Unchanged).

(** The stream that [commit] writes for an account *)
Definition encodeAccount (nonce balance : Z) (root codeHash : h256) : result rlp_error bytes :=
  s0 ← RLPStream.appendList RLPStream.empty 4;
  s1 ← RLPStream.appendInt s0 nonce;
  s2 ← RLPStream.appendInt s1 balance;
  s3 ← RLPStream.appendHash s2 (ofArith 32 root) false false;
  s4 ← RLPStream.appendHash s3 (ofArith 32 codeHash) false false;
  RLPStream.out s4.

(** [rlp(v)] for a storage value *)
Definition encodeValue (v : Z) : result rlp_error bytes :=
  s ← RLPStream.appendInt RLPStream.empty v; RLPStream.out s.

Section State.
Context {DB : Type} `{TrieStore DB}.
(** [sha3] of libdevcore/SHA3.cpp *)
Variable sha3 : bytes -> bytes.

(** An address and a storage key as trie keys *)
Definition addressKey (a : Address) : bytes := ofArith 20 a.
Definition storageKey (k : Z) : bytes := ofArith 32 k.

Definition requireAccountStartNonce (s : State DB) : result state_error Z :=
  if m_accountStartNonce s =? Invalid256 then Throw InvalidAccountStartNonceInState
  else Ok (m_accountStartNonce s).

Definition noteAccountStartNonce (actual : Z) (s : State DB) : result state_error (State DB) :=
  if m_accountStartNonce s =? Invalid256
  then Ok (mkState (m_db s) (m_state s) (m_cache s) (m_touched s) actual)
  else if negb (m_accountStartNonce s =? actual) then Throw IncorrectAccountStartNonceInState
  else Ok s.

(** The first half of [State::ensureCached]: the basic data of [a] *)
Definition ensureBasic (a : Address) (forceCreate : bool) (s : State DB)
  : result state_error (State DB) :=
  match m_cache s !! a with
  | Some _ => Ok s
  | None =>
      let stateBack := trie_at (m_db s) (m_state s) (addressKey a) in
      if (sizeZ stateBack =? 0) && negb forceCreate then Ok s
      else if sizeZ stateBack =? 0 then
        n ← requireAccountStartNonce s;
        Ok (put a (newAccount sha3 n 0 NormalCreation Changed) s)
      else acc ← liftRLP (decodeAccount stateBack); Ok (put a acc s)
  end.

(** [State::ensureCached] *)
Definition ensureCached (a : Address) (requireCode forceCreate : bool) (s : State DB)
  : result state_error (State DB) :=
  s1 ← ensureBasic a forceCreate s;
  match m_cache s1 !! a with
  | Some acc =>
      if requireCode && negb (isFreshCode acc) && negb (codeCacheValid sha3 acc)
      then Ok (put a (noteCode (if m_codeHash acc =? EmptySHA3 sha3 then []
                                else db_lookup (m_db s1) (m_codeHash acc)) acc) s1)
      else Ok s1
  | None => Ok s1
  end.

(** *** Queries *)

Definition addressInUse (a : Address) (s : State DB) : result state_error (bool * State DB) :=
  s1 ← ensureCached a false false s;
  Ok (match m_cache s1 !! a with Some _ => true | None => false end, s1).

Definition addressHasCode (a : Address) (s : State DB) : result state_error (bool * State DB) :=
  s1 ← ensureCached a false false s;
  Ok (match m_cache s1 !! a with
      | Some acc => isFreshCode acc || negb (m_codeHash acc =? EmptySHA3 sha3)
      | None => false
      end, s1).

Definition balance (a : Address) (s : State DB) : result state_error (Z * State DB) :=
  s1 ← ensureCached a false false s;
  Ok (match m_cache s1 !! a with Some acc => m_balance acc | None => 0 end, s1).

Definition transactionsFrom (a : Address) (s : State DB) : result state_error (Z * State DB) :=
  s1 ← ensureCached a false false s;
  Ok (match m_cache s1 !! a with
      | Some acc => m_nonce acc
      | None => m_accountStartNonce s1
      end, s1).

(** [State::storage(id, memory)] *)
Definition storage (a : Address) (memory : Z) (s : State DB) : result state_error (Z * State DB) :=
  s1 ← ensureCached a false false s;
  match m_cache s1 !! a with
  | None => Ok (0, s1)
  | Some acc =>
      match m_storageOverlay acc !! memory with
      | Some v => Ok (v, s1)
      | None =>
          let payload := trie_at (m_db s1) (m_storageRoot acc) (storageKey memory) in
          ret ← (if negb (sizeZ payload =? 0) then
                   liftRLP (v ← RLP.construct payload VeryStrict; RLP.toInt (Some 256) v Strict)
                 else Ok 0);
          Ok (ret, put a (setStorage memory ret acc) s1)
      end
  end.

(** [State::code]; [m_cache[a]] creates a dead account when [a] is missing,
    which cannot happen here *)
Definition code (a : Address) (s : State DB) : result state_error (bytes * State DB) :=
  '(has, s1) ← addressHasCode a s;
  if negb has then Ok ([], s1)
  else
    s2 ← ensureCached a true false s1;
    Ok (m_codeCache (default (deadAccount sha3) (m_cache s2 !! a)), s2).

(** [State::codeHash] *)
Definition codeHash (a : Address) (s : State DB) : result state_error (h256 * State DB) :=
  '(has, s1) ← addressHasCode a s;
  if negb has then Ok (EmptySHA3 sha3, s1)
  else
    let acc := default (deadAccount sha3) (m_cache s1 !! a) in
    if isFreshCode acc then
      '(c, s2) ← code a s1; Ok (toArith (sha3 c), s2)
    else Ok (m_codeHash acc, s1).

(** *** Changes *)

Definition noteSending (a : Address) (s : State DB) : result state_error (State DB) :=
  s1 ← ensureCached a false false s;
  match m_cache s1 !! a with
  | None => n ← requireAccountStartNonce s1;
            Ok (put a (plainAccount sha3 (u256 (n + 1)) 0 Changed) s1)
  | Some acc => Ok (put a (incNonce acc) s1)
  end.

Definition State_addBalance (a : Address) (amount : Z) (s : State DB)
  : result state_error (State DB) :=
  s1 ← ensureCached a false false s;
  match m_cache s1 !! a with
  | None => n ← requireAccountStartNonce s1;
            Ok (put a (newAccount sha3 n amount NormalCreation Changed) s1)
  | Some acc => Ok (put a (addBalance amount acc) s1)
  end.

Definition subBalance (a : Address) (amount : Z) (s : State DB)
  : result state_error (State DB) :=
  s1 ← ensureCached a false false s;
  match m_cache s1 !! a with
  | None => Throw NotEnoughCash
  | Some acc =>
      if m_balance acc <? amount then Throw NotEnoughCash
      else Ok (put a (addBalance (- amount) acc) s1)
  end.

Definition transferBalance (from to : Address) (value : Z) (s : State DB)
  : result state_error (State DB) :=
  s1 ← subBalance from value s; State_addBalance to value s1.

(** [State::setStorage]: [m_cache[a].setStorage(location, value)] *)
Definition State_setStorage (a : Address) (location value : Z) (s : State DB) : State DB :=
  put a (setStorage location value (default (deadAccount sha3) (m_cache s !! a))) s.

(** [State::newContract]: [candidates] are the successive random addresses, of
    which the first unused one is taken; [None] when there is none. *)
Fixpoint newContract_loop (balance_ : Z) (h : h256) (candidates : list Address) (s : State DB)
  : result state_error (option Address * State DB) :=
  match candidates with
  | [] => Ok (None, s)
  | ret :: rest =>
      s1 ← ensureCached ret false false s;
      match m_cache s1 !! ret with
      | None =>
          n ← requireAccountStartNonce s1;
          Ok (Some ret, put ret (storedAccount n balance_ (EmptyTrie sha3) h Changed) s1)
      | Some _ => newContract_loop balance_ h rest s1
      end
  end.

Definition newContract (balance_ : Z) (c : bytes) (candidates : list Address) (s : State DB)
  : result state_error (option Address * State DB) :=
  let h := toArith (sha3 c) in
  newContract_loop balance_ h candidates
    (mkState (db_insert (m_db s) h c) (m_state s) (m_cache s) (m_touched s)
       (m_accountStartNonce s)).

(** [State::setRoot] *)
Definition setRoot (r : h256) (s : State DB) : State DB :=
  mkState (m_db s) r ∅ (m_touched s) (m_accountStartNonce s).

(** [State::storageRoot] *)
Definition storageRoot (a : Address) (s : State DB) : result state_error h256 :=
  let d := trie_at (m_db s) (m_state s) (addressKey a) in
  if negb (sizeZ d =? 0) then
    liftRLP (v ← RLP.construct d VeryStrict;
             '(x, _) ← RLP.field 2 (RLP.mk v);
             h ← RLP.toHash 32 x Strict; Ok (toArith h))
  else Ok (EmptyTrie sha3).

(** *** [commit]

    The overlay of one account into its storage trie *)
Fixpoint commitStorage (l : list (Z * Z)) (db : DB) (root : h256)
  : result state_error (DB * h256) :=
  match l with
  | [] => Ok (db, root)
  | (k, v) :: l' =>
      '(db1, root1) ←
        (if negb (v =? 0)
         then d ← liftRLP (encodeValue v); Ok (trie_insert db root (storageKey k) d)
         else Ok (trie_remove db root (storageKey k)));
      commitStorage l' db1 root1
  end.

(** One dirty account *)
Definition commitAccount (a : Address) (acc : Account) (db : DB) (root : h256)
  : result state_error (DB * h256) :=
  if negb (m_isAlive acc) then Ok (trie_remove db root (addressKey a))
  else
    '(db1, sroot) ← commitStorage (map_to_list (m_storageOverlay acc)) db (m_storageRoot acc);
    let '(db2, ch) :=
      if isFreshCode acc
      then let ch := toArith (sha3 (m_codeCache acc)) in
           (db_insert db1 ch (m_codeCache acc), ch)
      else (db1, m_codeHash acc) in
    d ← liftRLP (encodeAccount (m_nonce acc) (m_balance acc) sroot ch);
    Ok (trie_insert db2 root (addressKey a) d).

Fixpoint commit_loop (l : list (Address * Account)) (db : DB) (root : h256) (ret : gset Address)
  : result state_error (DB * h256 * gset Address) :=
  match l with
  | [] => Ok (db, root, ret)
  | (a, acc) :: l' =>
      if isDirty acc then
        '(db1, root1) ← commitAccount a acc db root;
        commit_loop l' db1 root1 ({[a]} ∪ ret)
      else commit_loop l' db root ret
  end.

(** [State::commit]: the iteration order of the [unordered_map] is the one of
    [map_to_list] *)
Definition commit (s : State DB) : result state_error (State DB) :=
  '(db, root, touched) ← commit_loop (map_to_list (m_cache s)) (m_db s) (m_state s) ∅;
  Ok (mkState db root ∅ (m_touched s ∪ touched) (m_accountStartNonce s)).
End State.
