(* ===== verification/Transaction.v ===== *)
(** * libelecore/Transaction.{h,cpp} and libelementrem/Transaction.{h,cpp}

    Transactions: their fields, the RLP form with and without signature, the
    parser with its checks, the intrinsic gas, and the exceptions and results of
    an execution.  Public-key recovery (libdevcrypto, over secp256k1) is a
    parameter. *)

From Stdlib Require Import ZArith Lia.
From stdpp Require Import base list option.
From S2P Require Import Prelude CommonData RLP RLPTheory FixedHash Instruction ExtVMFace.

Inductive TxType := NullTransaction | ContractCreation | MessageCall.
#[export] Instance TxType_eq_dec : EqDecision TxType.
Proof. solve_decision. Defined.

Inductive IncludeSignature := WithoutSignature | WithSignature.
Inductive CheckTransaction := CheckNone | CheckCheap | CheckEverything.
#[export] Instance CheckTransaction_eq_dec : EqDecision CheckTransaction.
Proof. solve_decision. Defined.

(** [SignatureStruct] *)
Record SignatureStruct := mkSignature { sig_r : h256; sig_s : h256; sig_v : byte }.

(** The order of the group of secp256k1 *)
Definition c_secp256k1n : Z :=
  115792089237316195423570985008687907852837564279074904382605163141518161494337.

(** [SignatureStruct::isValid] *)
Definition sig_isValid (g : SignatureStruct) : bool :=
  negb ((1 <? sig_v g) || (c_secp256k1n <=? sig_r g) || (c_secp256k1n <=? sig_s g)
        || (sig_s g <? 1) || (sig_r g <? 1)).

Record Transaction := mkTransaction {
  m_type : TxType;
  tx_nonce : Z;
  tx_value : Z;
  tx_receiveAddress : Address;
  tx_gasPrice : Z;
  tx_gas : Z;
  tx_data : bytes;
  m_vrs : SignatureStruct;
  m_sender : Address
}.

Definition nullTransaction : Transaction :=
  mkTransaction NullTransaction 0 0 0 0 0 [] (mkSignature 0 0 0) 0.

Definition isCreation (t : Transaction) : bool := bool_decide (m_type t = ContractCreation).

Inductive tx_error := TxRLP (e : rlp_error) | InvalidTransactionFormat | TxInvalidSignature.
#[export] Instance tx_error_eq_dec : EqDecision tx_error.
Proof. solve_decision. Defined.

Definition liftTx {A} (r : result rlp_error A) : result tx_error A :=
  match r with Ok a => Ok a | Throw e => Throw (TxRLP e) end.

(** [TransactionBase::streamRLP] *)
Definition streamRLP (t : Transaction) (g : IncludeSignature) (s : RLPStream.t)
  : result rlp_error RLPStream.t :=
  if decide (m_type t = NullTransaction) then Ok s
  else
    s0 ← RLPStream.appendList s ((match g with WithSignature => 3 | WithoutSignature => 0 end) + 6);
    s1 ← RLPStream.appendInt s0 (tx_nonce t);
    s2 ← RLPStream.appendInt s1 (tx_gasPrice t);
    s3 ← RLPStream.appendInt s2 (tx_gas t);
    s4 ← (if decide (m_type t = MessageCall)
          then RLPStream.appendHash s3 (ofArith 20 (tx_receiveAddress t)) false false
          else RLPStream.append s3 [] false);
    s5 ← RLPStream.appendInt s4 (tx_value t);
    s6 ← RLPStream.append s5 (tx_data t) false;
    match g with
    | WithoutSignature => Ok s6
    | WithSignature =>
        s7 ← RLPStream.appendInt s6 (sig_v (m_vrs t) + 27);
        s8 ← RLPStream.appendInt s7 (sig_r (m_vrs t));
        RLPStream.appendInt s8 (sig_s (m_vrs t))
    end.

(** [TransactionBase::rlp] *)
Definition tx_rlp (t : Transaction) (g : IncludeSignature) : result rlp_error bytes :=
  s ← streamRLP t g RLPStream.empty; RLPStream.out s.

(** The fields that the parser reads, in the order of the code: nonce, gas price,
    gas, receiver, value, data and signature *)
Definition parseFields (v : bytes) : result tx_error Transaction :=
  '(x0, o0) ← liftTx (RLP.field 0 (RLP.mk v)); nonce ← liftTx (RLP.toInt (Some 256) x0 Strict);
  '(x1, o1) ← liftTx (RLP.field 1 o0); gasPrice ← liftTx (RLP.toInt (Some 256) x1 Strict);
  '(x2, o2) ← liftTx (RLP.field 2 o1); gas_ ← liftTx (RLP.toInt (Some 256) x2 Strict);
  '(x3, o3) ← liftTx (RLP.field 3 o2);
  let type_ := if RLP.isEmpty x3 then ContractCreation else MessageCall in
  '(x3', o4) ← liftTx (RLP.field 3 o3);
  '(to, o5) ← (if RLP.isEmpty x3' then Ok (0, o4)
               else '(x3'', o5) ← liftTx (RLP.field 3 o4);
                    h ← liftTx (RLP.toHash 20 x3'' VeryStrict); Ok (toArith h, o5));
  '(x4, o6) ← liftTx (RLP.field 4 o5); value_ ← liftTx (RLP.toInt (Some 256) x4 Strict);
  '(x5, o7) ← liftTx (RLP.field 5 o6);
  _ ← guard_or (RLP.isData x5) InvalidTransactionFormat;
  '(x5', o8) ← liftTx (RLP.field 5 o7); data_ ← liftTx (RLP.toBytes x5' LaissezFaire);
  '(x6, o9) ← liftTx (RLP.field 6 o8); v0 ← liftTx (RLP.toInt (Some 8) x6 Strict);
  '(x7, o10) ← liftTx (RLP.field 7 o9); r ← liftTx (RLP.toInt (Some 256) x7 Strict);
  '(x8, _) ← liftTx (RLP.field 8 o10); s ← liftTx (RLP.toInt (Some 256) x8 Strict);
  Ok (mkTransaction type_ nonce value_ to gasPrice gas_ data_ (mkSignature r s (u8 (v0 - 27))) 0).

Section Transaction.
(** [sha3] of libdevcore/SHA3.cpp *)
Variable sha3 : bytes -> bytes.
(** [recover] of libdevcrypto: the public key that signed a hash, if the
    signature has one *)
Variable recover : SignatureStruct -> bytes -> option bytes.

(** [TransactionBase::sender], which caches its result *)
Definition sender (t : Transaction) : result tx_error Address :=
  if m_sender t =? 0 then
    d ← liftTx (tx_rlp t WithoutSignature);
    match recover (m_vrs t) (sha3 d) with
    | Some p => Ok (toArith (right160 (sha3 p)))
    | None => Throw TxInvalidSignature
    end
  else Ok (m_sender t).

(** [TransactionBase::safeSender] *)
Definition safeSender (t : Transaction) : Address :=
  match sender t with Ok a => a | Throw _ => 0 end.

(** [TransactionBase(bytesConstRef, CheckTransaction)] *)
Definition fromRLP (d : bytes) (check : CheckTransaction) : result tx_error Transaction :=
  v ← liftTx (RLP.construct d VeryStrict);
  _ ← guard_or (RLP.isList v) InvalidTransactionFormat;
  t ← parseFields v;
  n ← match RLP.itemCount v with Some r => liftTx r | None => Throw (TxRLP UndefinedBehaviour) end;
  _ ← guard_or (negb (9 <? n)) InvalidTransactionFormat;
  _ ← guard_or (bool_decide (check = CheckNone) || sig_isValid (m_vrs t)) TxInvalidSignature;
  if decide (check = CheckEverything) then
    a ← sender t;
    Ok (mkTransaction (m_type t) (tx_nonce t) (tx_value t) (tx_receiveAddress t) (tx_gasPrice t)
          (tx_gas t) (tx_data t) (m_vrs t) a)
  else Ok t.
End Transaction.

(** [TransactionBase::checkLowS] *)
Definition checkLowS (t : Transaction) : result tx_error unit :=
  guard_or (negb (c_secp256k1n / 2 <? sig_s (m_vrs t))) TxInvalidSignature.

(** [TransactionBase::gasRequired] *)
Definition gasRequired (contractCreation : bool) (d : bytes) (es : EVMSchedule) (gas_ : Z) : Z :=
  foldl (fun ret i => ret + (if negb (i =? 0) then txDataNonZeroGas es else txDataZeroGas es))
    (u256 ((if contractCreation then txCreateGas es else txGas es) + gas_)) d.

(** ** Results of an execution *)

(** [TransactionException] *)
Inductive TransactionException :=
| TE_None | TE_Unknown | TE_BadRLP | TE_InvalidFormat | TE_OutOfGasIntrinsic | TE_InvalidSignature
| TE_InvalidNonce | TE_NotEnoughCash | TE_OutOfGasBase | TE_BlockGasLimitReached
| TE_BadInstruction | TE_BadJumpDestination | TE_OutOfGas | TE_OutOfStack | TE_StackUnderflow.
#[export] Instance TransactionException_eq_dec : EqDecision TransactionException.
Proof. solve_decision. Defined.

(** [toTransactionException] on the exceptions of the machine *)
Definition toTransactionException (e : vm_error) : TransactionException :=
  match e with
  | BadInstruction => TE_BadInstruction
  | BadJumpDestination => TE_BadJumpDestination
  | OutOfGas => TE_OutOfGas
  | OutOfStack => TE_OutOfStack
  | StackUnderflow => TE_StackUnderflow
  | Unexpected | UB => TE_Unknown
  end.

Inductive CodeDeposit := CD_None | CD_Failed | CD_Success.

(** [ExecutionResult] *)
Record ExecutionResult := mkExecutionResult {
  er_gasUsed : Z;
  er_excepted : TransactionException;
  er_newAddress : Address;
  er_output : bytes;
  er_codeDeposit : CodeDeposit;
  er_gasRefunded : Z;
  er_depositSize : Z;
  er_gasForDeposit : Z
}.

(** [TransactionReceipt] *)
Record TransactionReceipt := mkReceipt {
  rc_stateRoot : h256;
  rc_gasUsed : Z;
  rc_bloom : bytes;
  rc_log : list LogEntry
}.

(** [TransactionReceipt(root, gasUsed, log)] *)
Definition newReceipt (sha3 : bytes -> bytes) (root : h256) (used : Z) (log : list LogEntry)
  : TransactionReceipt :=
  mkReceipt root used (bloom sha3 log) log.

(** [TransactionReceipt::streamRLP] *)
Definition receipt_streamRLP (r : TransactionReceipt) (s : RLPStream.t)
  : result rlp_error RLPStream.t :=
  s0 ← RLPStream.appendList s 4;
  s1 ← RLPStream.appendHash s0 (ofArith 32 (rc_stateRoot r)) false false;
  s2 ← RLPStream.appendInt s1 (rc_gasUsed r);
  s3 ← RLPStream.appendHash s2 (rc_bloom r) false false;
  s4 ← RLPStream.appendList s3 (sizeZ (rc_log r));
  RLPStream.appendEach (fun s l => LogEntry_streamRLP l s) s4 (rc_log r).

(** ** Lemmas *)

(** The items of the serialised transaction *)
Definition tx_items (t : Transaction) : list item :=
  [int_item (tx_nonce t); int_item (tx_gasPrice t); int_item (tx_gas t);
   (if decide (m_type t = MessageCall) then Str (ofArith 20 (tx_receiveAddress t)) else Str []);
   int_item (tx_value t); Str (tx_data t);
   int_item (sig_v (m_vrs t) + 27); int_item (sig_r (m_vrs t)); int_item (sig_s (m_vrs t))].

(** A transaction as the constructors make it: not null, every field within its
    width, no receiver for a creation, no cached sender. *)
Definition wf_tx (t : Transaction) : Prop :=
  m_type t <> NullTransaction /\ fits 256 (tx_nonce t) /\ fits 256 (tx_gasPrice t) /\
  fits 256 (tx_gas t) /\ fits 256 (tx_value t) /\ wf_bytes (tx_data t) /\
  sizeZ (tx_data t) < 2 ^ 32 /\ 0 <= sig_v (m_vrs t) < 229 /\ fits 256 (sig_r (m_vrs t)) /\
  fits 256 (sig_s (m_vrs t)) /\ m_sender t = 0 /\
  (if decide (m_type t = MessageCall) then fits 160 (tx_receiveAddress t)
   else tx_receiveAddress t = 0).

#[export] Instance wf_tx_dec t : Decision (wf_tx t).
Proof. unfold wf_tx. destruct (decide (m_type t = MessageCall)); apply _. Defined.

Lemma small_int_item v : fits 256 v -> wf_item (int_item v) /\ sizeZ (encode (int_item v)) < 2 ^ 40.
Proof. apply small_int. Qed.

Lemma ofArith_hash n v : wf_bytes (ofArith n v) /\ sizeZ (ofArith n v) = Z.of_nat n.
Proof.
  unfold ofArith. rewrite toBigEndian_spec. split; [apply be_bytes_wf|]. apply sizeZ_be.
Qed.

Lemma toArith_ofArith n v : fits (8 * Z.of_nat n) v -> toArith (ofArith n v) = v.
Proof.
  intros Hv. unfold toArith. destruct (ofArith_hash n v) as [Hw Hs]. rewrite Hs.
  rewrite fromBigEndian_spec by (done || lia). unfold ofArith. rewrite toBigEndian_spec, be_value_be_bytes.
  rewrite pow256_pow2 by lia. unfold wrap. rewrite Z.mod_mod by (apply Z.pow_nonzero; lia).
  by apply Z.mod_small.
Qed.

Lemma tx_items_ok t : wf_tx t -> wf_item (Lst (tx_items t)) /\ fitsItem (Lst (tx_items t)).
Proof.
  intros (Ht & Hn & Hp & Hg & Hv & Hd & Hdl & Hsv & Hr & Hs & _ & Hto).
  apply small_items; [|by vm_compute]. unfold tx_items.
  assert (fits 256 (sig_v (m_vrs t) + 27)) by (unfold fits; lia).
  repeat (apply Forall_cons_2; [first [by apply small_int|by apply small_Str|idtac]|]);
    [|by apply Forall_nil_2].
  destruct (ofArith_hash 20 (tx_receiveAddress t)) as [Hw Hz].
  destruct (decide _); apply small_Str; [done|rewrite Hz; lia|by apply Forall_nil_2|done].
Qed.

Lemma tx_rlp_items t : wf_tx t -> tx_rlp t WithSignature = Ok (encode (Lst (tx_items t))).
Proof.
  intros Hwf. destruct (tx_items_ok t Hwf) as [_ Hf].
  destruct Hwf as (Ht & Hn & Hp & Hg & Hv & Hd & Hdl & Hsv & Hr & Hs & _ & Hto).
  assert (fits 256 (sig_v (m_vrs t) + 27)) by (unfold fits; lia).
  rewrite <-(stream_items (tx_items t)) by done. unfold tx_rlp, streamRLP.
  rewrite decide_False by done. rewrite bind_assoc. apply bind_ext; [done|]. intros s0.
  rewrite !bind_assoc. unfold tx_items. cbn [appendItems]. rewrite !bind_assoc.
  repeat (apply bind_ext; [first [by apply (appendInt_item _ _ 32)|destruct (decide _); done]|];
          intros; rewrite ?bind_assoc).
  by rewrite bind_Ok_l.
Qed.

(** Reads field [i] of a record whose cache is described by [H], and renames the
    cache that is left. *)
Ltac next_field H Hw Hf :=
  match goal with
  | |- context [RLP.field ?i ?o] =>
      let o' := fresh "o" in let E := fresh "E" in let H' := fresh "Hc" in
      destruct (field_ok _ o i _ Hw Hf H eq_refl ltac:(lia)) as (o' & E & H');
      rewrite E; clear E; cbn [liftTx]; rewrite ?bind_Ok_l
  end.

Lemma toInt_word v : fits 256 v -> RLP.toInt (Some 256) (encode (int_item v)) Strict = Ok v.
Proof. intros Hv. by apply (toInt_encode v 32). Qed.

Lemma isEmpty_receiver t :
  RLP.isEmpty (encode (if decide (m_type t = MessageCall)
                       then Str (ofArith 20 (tx_receiveAddress t)) else Str []))
  = negb (bool_decide (m_type t = MessageCall)).
Proof.
  destruct (decide (m_type t = MessageCall)) as [Hm|Hm]; [|by rewrite bool_decide_false].
  rewrite bool_decide_true by done. unfold ofArith. rewrite toBigEndian_spec.
  cbn [encode]. rewrite sizeZ_be. cbn [Z.of_nat Z.eqb andb]. done.
Qed.

Lemma parse_receiver t o :
  wf_tx t -> cache_ok (tx_items t) o ->
  exists o', (if negb (bool_decide (m_type t = MessageCall)) then Ok (0, o)
              else '(x, o5) ← liftTx (RLP.field 3 o);
                   h ← liftTx (RLP.toHash 20 x VeryStrict); Ok (toArith h, o5))
             = Ok (tx_receiveAddress t, o') /\ cache_ok (tx_items t) o'.
Proof.
  intros Hwf Hc. destruct (tx_items_ok t Hwf) as [Hw Hf].
  destruct Hwf as (_ & _ & _ & _ & _ & _ & _ & _ & _ & _ & _ & Hto).
  destruct (decide (m_type t = MessageCall)) as [Hm|Hm].
  - rewrite bool_decide_true by done. cbn [negb]. next_field Hc Hw Hf. exists o0. split; [|done].
    rewrite decide_True by done. destruct (ofArith_hash 20 (tx_receiveAddress t)) as [Ha Hz].
    rewrite toHash_encode by done. cbn [liftTx]. by rewrite bind_Ok_l, toArith_ofArith.
  - rewrite bool_decide_false by done. exists o. by rewrite Hto.
Qed.

Lemma parseFields_items t : wf_tx t -> parseFields (encode (Lst (tx_items t))) = Ok t.
Proof.
  intros Hwf. destruct (tx_items_ok t Hwf) as [Hw Hf].
  pose proof Hwf as (Ht & Hn & Hp & Hg & Hv & Hd & Hdl & Hsv & Hr & Hs & Hsd & Hto).
  pose proof (cache_fresh (tx_items t)) as Hc. unfold parseFields.
  next_field Hc Hw Hf. rewrite toInt_word by done. cbn [liftTx]. rewrite bind_Ok_l.
  next_field Hc0 Hw Hf. rewrite toInt_word by done. cbn [liftTx]. rewrite bind_Ok_l.
  next_field Hc1 Hw Hf. rewrite toInt_word by done. cbn [liftTx]. rewrite bind_Ok_l.
  next_field Hc2 Hw Hf. next_field Hc3 Hw Hf. rewrite !isEmpty_receiver.
  destruct (parse_receiver t o3 Hwf Hc4) as (o4 & -> & Hc5). rewrite bind_Ok_l.
  next_field Hc5 Hw Hf. rewrite toInt_word by done. cbn [liftTx]. rewrite bind_Ok_l.
  destruct (toBytes_encode (tx_data t) LaissezFaire Hd Hdl) as [Hb1 Hb2].
  next_field Hc6 Hw Hf. rewrite Hb2. cbn [guard_or]. rewrite bind_Ok_l.
  next_field Hc7 Hw Hf. rewrite Hb1. cbn [liftTx]. rewrite bind_Ok_l.
  next_field Hc8 Hw Hf. rewrite (toInt_encode (sig_v (m_vrs t) + 27) 1) by lia.
  cbn [liftTx]. rewrite bind_Ok_l.
  next_field Hc9 Hw Hf. rewrite toInt_word by done. cbn [liftTx]. rewrite bind_Ok_l.
  next_field Hc10 Hw Hf. rewrite toInt_word by done. cbn [liftTx]. rewrite bind_Ok_l.
  f_equal. rewrite wrap_id by (unfold fits; lia).
  destruct t as [ty ? ? ? ? ? ? [r s v] sd]. cbn in *. subst sd.
  replace (v + 27 - 27) with v by lia. f_equal. by destruct ty.
Qed.

(** ** Properties *)

(** C40: a transaction whose fields are within their widths survives serialisation
    and parsing, for a message call and for a contract creation, without checks
    and, when the signature components are in range, with the cheap check. *)
Theorem transaction_roundtrip sha3 recover (t : Transaction) (Hwf : wf_tx t)
    (Hsig : sig_isValid (m_vrs t) = true) :
  exists d, tx_rlp t WithSignature = Ok d /\
    fromRLP sha3 recover d CheckNone = Ok t /\ fromRLP sha3 recover d CheckCheap = Ok t.
Proof.
  exists (encode (Lst (tx_items t))). split; [by apply tx_rlp_items|].
  cut (forall check, check <> CheckEverything ->
         fromRLP sha3 recover (encode (Lst (tx_items t))) check = Ok t); [by intros H; split; apply H|].
  intros check Hcheck. destruct (tx_items_ok t Hwf) as [Hw Hf]. unfold fromRLP.
  rewrite construct_exact by done. cbn [liftTx]. rewrite bind_Ok_l.
  destruct (reads_exact _ Hw Hf) as [_ _ HL _ _ _ _]. rewrite HL. cbn [guard_or is_Lst].
  rewrite bind_Ok_l, parseFields_items, bind_Ok_l by done.
  unfold RLP.itemCount. rewrite HL. cbn [is_Lst]. rewrite items_encode by done. cbn [liftTx].
  rewrite !bind_Ok_l. change (9 <? sizeZ (tx_items t)) with false. cbn [negb guard_or].
  rewrite !bind_Ok_l, Hsig, orb_true_r. cbn [guard_or]. rewrite bind_Ok_l. by rewrite decide_False.
Qed.

Definition sampleTx : Transaction :=
  mkTransaction MessageCall 7 1000 (2 ^ 159 + 5) 50 21000 [1; 0; 255] (mkSignature (2 ^ 200) 9 1) 0.

Lemma transaction_roundtrip_witness :
  exists d, tx_rlp sampleTx WithSignature = Ok d /\
    fromRLP id (fun _ _ => None) d CheckNone = Ok sampleTx /\
    fromRLP id (fun _ _ => None) d CheckCheap = Ok sampleTx.
Proof.
  apply (transaction_roundtrip id (fun _ _ => None) sampleTx); [decide_closed|reflexivity].
Defined.
