(* ===== verification/StateTheory.v ===== *)
(** * The account state: caching is transparent

    Theorems on State.v: the encoding of accounts, the contents of a state as
    seen through the cache ([peek], [bal], [slot]), what every query and every
    change does to them, and the preservation of well-formedness. *)

From Stdlib Require Import ZArith Lia.
From stdpp Require Import base list option gmap.
From S2P Require Import Prelude CommonData RLP RLPTheory FixedHash Instruction ExtVMFace Account.
From S2P Require Import Transaction State.

(** ** Account encoding *)

Definition account_items (nonce balance : Z) (root ch : h256) : list item :=
  [int_item nonce; int_item balance; Str (ofArith 32 root); Str (ofArith 32 ch)].

Lemma account_items_ok nonce balance root ch :
  fits 256 nonce -> fits 256 balance ->
  wf_item (Lst (account_items nonce balance root ch)) /\
  fitsItem (Lst (account_items nonce balance root ch)).
Proof.
  intros Hn Hb. destruct (ofArith_hash 32 root), (ofArith_hash 32 ch).
  apply small_items; [|by vm_compute].
  repeat (apply Forall_cons_2; [first [by apply small_int|apply small_Str; [done|lia]]|]).
  by apply Forall_nil_2.
Qed.

Lemma encodeAccount_items nonce balance root ch :
  fits 256 nonce -> fits 256 balance ->
  encodeAccount nonce balance root ch = Ok (encode (Lst (account_items nonce balance root ch))).
Proof.
  intros Hn Hb. destruct (account_items_ok nonce balance root ch Hn Hb) as [_ Hf].
  rewrite <-(stream_items (account_items nonce balance root ch)) by done. unfold encodeAccount.
  apply bind_ext; [done|]. intros s0. unfold account_items. cbn [appendItems]. rewrite !bind_assoc.
  repeat (apply bind_ext; [first [by apply (appendInt_item _ _ 32)|done]|]; intros; rewrite ?bind_assoc).
  by rewrite bind_Ok_l.
Qed.

Lemma decodeAccount_items nonce balance root ch :
  fits 256 nonce -> fits 256 balance -> fits 256 root -> fits 256 ch ->
  decodeAccount (encode (Lst (account_items nonce balance root ch)))
  = Ok (storedAccount nonce balance root ch Unchanged).
Proof.
  intros Hn Hb Hr Hh. destruct (account_items_ok nonce balance root ch Hn Hb) as [Hw Hf].
  destruct (ofArith_hash 32 root) as [Hwr Hzr], (ofArith_hash 32 ch) as [Hwc Hzc].
  unfold decodeAccount. rewrite construct_exact, bind_Ok_l by done.
  pose proof (cache_fresh (account_items nonce balance root ch)) as Hc.
  next_field Hc Hw Hf. rewrite toInt_word, bind_Ok_l by done.
  next_field Hc0 Hw Hf. rewrite toInt_word, bind_Ok_l by done.
  next_field Hc1 Hw Hf. rewrite toHash_encode, bind_Ok_l by done.
  next_field Hc2 Hw Hf. rewrite toHash_encode, bind_Ok_l by done.
  by rewrite !toArith_ofArith.
Qed.

(** The record that [commit] writes into the state trie for an account is the
    one that [ensureCached] reads back: nonce, balance, storage root and code
    hash come back as they were, with an empty overlay and marked unchanged. *)
Theorem account_roundtrip (nonce balance : Z) (root ch : h256)
    (Hn : fits 256 nonce) (Hb : fits 256 balance) (Hr : fits 256 root) (Hh : fits 256 ch) :
  exists d, encodeAccount nonce balance root ch = Ok d /\
    decodeAccount d = Ok (storedAccount nonce balance root ch Unchanged).
Proof.
  eexists. split; [by apply encodeAccount_items|by apply decodeAccount_items].
Qed.

Lemma account_roundtrip_witness :
  exists d, encodeAccount 5 (2 ^ 100) 77 (2 ^ 255 + 1) = Ok d /\
    decodeAccount d = Ok (storedAccount 5 (2 ^ 100) 77 (2 ^ 255 + 1) Unchanged).
Proof. apply (account_roundtrip 5 (2 ^ 100) 77 (2 ^ 255 + 1)); decide_closed. Defined.

(** ** Contents of a state *)

Section Contents.
Context {DB : Type} `{TrieStore DB}.
Variable sha3 : bytes -> bytes.

(** The account that the trie holds for [a] *)
Definition committed (s : State DB) (a : Address) : option Account :=
  let d := trie_at (m_db s) (m_state s) (addressKey a) in
  if sizeZ d =? 0 then None
  else match decodeAccount d with Ok acc => Some acc | Throw _ => None end.

(** The account as the state shows it: the cache in front of the trie *)
Definition peek (s : State DB) (a : Address) : option Account :=
  match m_cache s !! a with Some acc => Some acc | None => committed s a end.

(** The value of a storage slot in the trie at [root] *)
Definition storedSlot (db : DB) (root : h256) (k : Z) : result rlp_error Z :=
  let payload := trie_at db root (storageKey k) in
  if negb (sizeZ payload =? 0)
  then v ← RLP.construct payload VeryStrict; RLP.toInt (Some 256) v Strict
  else Ok 0.

Definition accSlot (db : DB) (acc : Account) (k : Z) : Z :=
  match m_storageOverlay acc !! k with
  | Some v => v
  | None => match storedSlot db (m_storageRoot acc) k with Ok v => v | Throw _ => 0 end
  end.

(** Balance, nonce and storage slots of an address *)
Definition bal (s : State DB) (a : Address) : Z :=
  match peek s a with Some acc => m_balance acc | None => 0 end.
Definition nonceOf (s : State DB) (a : Address) : Z :=
  match peek s a with Some acc => m_nonce acc | None => m_accountStartNonce s end.
Definition slot (s : State DB) (a : Address) (k : Z) : Z :=
  match peek s a with Some acc => accSlot (m_db s) acc k | None => 0 end.

(** A storage trie whose values can be read *)
Definition storage_ok (db : DB) (root : h256) : Prop :=
  forall k, exists v, storedSlot db root k = Ok v /\ fits 256 v.

Definition acc_ok (db : DB) (acc : Account) : Prop :=
  fits 256 (m_nonce acc) /\ fits 256 (m_balance acc) /\ storage_ok db (m_storageRoot acc) /\
  map_Forall (fun _ v => fits 256 v) (m_storageOverlay acc) /\
  wf_bytes (m_codeCache acc) /\ sizeZ (m_codeCache acc) < 2 ^ 32.

(** A state whose trie and database can be read: every account decodes, and so
    does its storage; contract code is shorter than [2^32] bytes. *)
Record state_ok (s : State DB) : Prop := {
  ok_trie : forall a, let d := trie_at (m_db s) (m_state s) (addressKey a) in
    sizeZ d = 0 \/ exists acc, decodeAccount d = Ok acc /\ acc_ok (m_db s) acc;
  ok_empty : forall k, trie_at (m_db s) (EmptyTrie sha3) k = [];
  ok_code : forall h, wf_bytes (db_lookup (m_db s) h) /\ sizeZ (db_lookup (m_db s) h) < 2 ^ 32;
  ok_nonce : fits 256 (m_accountStartNonce s) /\ m_accountStartNonce s <> Invalid256;
  ok_cache : map_Forall (fun _ acc => acc_ok (m_db s) acc) (m_cache s)
}.

(** Same database, trie and start nonce: only the cache differs, and it has
    only gained entries. *)
Definition same_base (s s' : State DB) : Prop :=
  m_db s' = m_db s /\ m_state s' = m_state s /\ m_touched s' = m_touched s /\
  m_accountStartNonce s' = m_accountStartNonce s /\ dom (m_cache s) ⊆ dom (m_cache s').

(** The contents that no query changes. *)
Definition same_acc (db : DB) (x y : Account) : Prop :=
  m_isAlive y = m_isAlive x /\ m_nonce y = m_nonce x /\ m_balance y = m_balance x /\
  m_codeHash y = m_codeHash x /\ forall k, accSlot db y k = accSlot db x k.

Definition same_contents (s s' : State DB) : Prop :=
  same_base s s' /\
  forall a, option_Forall2 (same_acc (m_db s)) (peek s a) (peek s' a).

#[export] Instance same_base_preorder : PreOrder same_base.
Proof.
  split; [by intros s|]. intros x y z (?&?&?&?&?) (?&?&?&?&?). split_and!; [congruence..|]. by etrans.
Qed.

#[export] Instance same_acc_preorder db : PreOrder (same_acc db).
Proof.
  split; [by intros x|]. intros x y z (?&?&?&?&Hxy) (?&?&?&?&Hyz).
  repeat split; congruence.
Qed.

#[export] Instance same_contents_preorder : PreOrder same_contents.
Proof.
  split.
  - intros s. split; [done|]. intros a. destruct (peek s a) as [x|]; constructor. reflexivity.
  - intros x y z [Hxy Hxy'] [Hyz Hyz']. split; [by etrans|]. intros a.
    specialize (Hxy' a). specialize (Hyz' a). destruct Hxy as [Hdb _]. rewrite Hdb in Hyz'.
    inversion Hxy' as [u v Huv Hu Hv|Hu Hv]; rewrite <-Hv in Hyz'; inversion Hyz' as [? w Hvw|];
      subst; constructor. by etrans.
Qed.

Lemma same_contents_bal s s' a : same_contents s s' -> bal s' a = bal s a.
Proof.
  intros [_ Hc]. specialize (Hc a). unfold bal.
  inversion Hc as [x y (_ & _ & Hb & _) Hx Hy|Hx Hy]; [done|done].
Qed.

Lemma same_contents_slot s s' a k : same_contents s s' -> slot s' a k = slot s a k.
Proof.
  intros [[Hdb _] Hc]. specialize (Hc a). unfold slot. rewrite Hdb.
  inversion Hc as [x y (_ & _ & _ & _ & Hs) Hx Hy|Hx Hy]; [apply Hs|done].
Qed.

Lemma same_contents_nonce s s' a : same_contents s s' -> nonceOf s' a = nonceOf s a.
Proof.
  intros [(_ & _ & _ & Hn & _) Hc]. specialize (Hc a). unfold nonceOf. rewrite Hn.
  inversion Hc as [x y (_ & Hnn & _) Hx Hy|Hx Hy]; [done|done].
Qed.

(** *** Changing one entry of the cache *)

Lemma peek_put s a acc b : peek (put a acc s) b = if decide (b = a) then Some acc else peek s b.
Proof.
  unfold peek, put, set_cache. cbn [m_cache]. destruct (decide (b = a)) as [->|].
  - by rewrite lookup_insert_eq.
  - by rewrite lookup_insert_ne.
Qed.

Lemma put_base s a acc : same_base s (put a acc s).
Proof.
  repeat split. cbn [put set_cache m_cache]. rewrite dom_insert_L. apply union_subseteq_r.
Qed.

Lemma put_ok s a acc : state_ok s -> acc_ok (m_db s) acc -> state_ok (put a acc s).
Proof.
  intros [] Hacc. constructor; try done. cbn [put set_cache m_cache m_db].
  by apply map_Forall_insert_2.
Qed.

Lemma put_same s a acc acc' :
  peek s a = Some acc -> same_acc (m_db s) acc acc' -> same_contents s (put a acc' s).
Proof.
  intros Hp Hs. split; [apply put_base|]. intros b. rewrite peek_put.
  destruct (decide (b = a)) as [->|].
  - rewrite Hp. by constructor.
  - destruct (peek s b); by constructor.
Qed.

Lemma set_cache_ok s c :
  state_ok s -> map_Forall (fun _ acc => acc_ok (m_db s) acc) c -> state_ok (set_cache c s).
Proof. intros [] Hc. by constructor. Qed.

Lemma committed_ok s a acc : state_ok s -> committed s a = Some acc -> acc_ok (m_db s) acc.
Proof.
  intros Hs. unfold committed. destruct (ok_trie _ Hs a) as [->|(x & -> & Hx)]; [done|].
  destruct (_ =? 0); [done|]. by intros [= <-].
Qed.

Lemma peek_ok s a acc : state_ok s -> peek s a = Some acc -> acc_ok (m_db s) acc.
Proof.
  intros Hs. unfold peek. destruct (m_cache s !! a) as [x|] eqn:E.
  - intros [= <-]. by apply (ok_cache _ Hs a).
  - by apply committed_ok.
Qed.

Lemma empty_slot s k : state_ok s -> storedSlot (m_db s) (EmptyTrie sha3) k = Ok 0.
Proof. intros Hs. unfold storedSlot. by rewrite (ok_empty _ Hs). Qed.

Lemma empty_storage_ok s : state_ok s -> storage_ok (m_db s) (EmptyTrie sha3).
Proof. intros Hs k. exists 0. split; [by apply empty_slot|done]. Qed.

Lemma newAccount_ok s n b t c :
  state_ok s -> fits 256 n -> fits 256 b -> acc_ok (m_db s) (newAccount sha3 n b t c).
Proof.
  intros Hs Hn Hb. split_and!; try done.
  - by apply empty_storage_ok.
  - by apply Forall_nil_2.
Qed.

Lemma noteCode_same db acc c : same_acc db acc (noteCode c acc).
Proof. done. Qed.

(** *** [ensureCached] *)

Lemma ensureBasic_ok a s : state_ok s ->
  exists s', ensureBasic sha3 a false s = Ok s' /\ state_ok s' /\ same_contents s s' /\
    peek s' a = m_cache s' !! a.
Proof.
  intros Hs. unfold ensureBasic, peek. destruct (m_cache s !! a) as [x|] eqn:E.
  { exists s. by rewrite E. }
  unfold committed. destruct (ok_trie _ Hs a) as [Hd|(acc & Hd & Hok)].
  - rewrite Hd. cbn [Z.eqb negb andb]. exists s. rewrite E, Hd. done.
  - destruct (Z.eqb_spec (sizeZ (trie_at (m_db s) (m_state s) (addressKey a))) 0) as [Hz|Hz];
      cbn [negb andb].
    + exists s. rewrite E, Hz. done.
    + rewrite Hd. cbn [liftRLP]. rewrite bind_Ok_l. eexists. split; [done|].
      split; [by apply put_ok|].
      assert (peek s a = Some acc) as Hp.
      { unfold peek, committed. rewrite E, (proj2 (Z.eqb_neq _ 0)) by done. by rewrite Hd. }
      split; [by apply (put_same s a acc acc)|].
      cbn [put set_cache m_cache]. by rewrite lookup_insert_eq.
Qed.

(** Reading an account changes nothing that can be observed, and leaves it in
    the cache if it exists. *)
Lemma ensureCached_ok a rc s : state_ok s ->
  exists s', ensureCached sha3 a rc false s = Ok s' /\ state_ok s' /\ same_contents s s' /\
    peek s' a = m_cache s' !! a.
Proof.
  intros Hs. destruct (ensureBasic_ok a s Hs) as (s1 & Hb & Hs1 & Hc1 & Hp1).
  unfold ensureCached. rewrite Hb, bind_Ok_l. destruct (m_cache s1 !! a) as [acc|] eqn:E.
  2:{ exists s1. rewrite E. split_and!; try done. }
  destruct (rc && negb (isFreshCode acc) && negb (codeCacheValid sha3 acc)) eqn:Ec.
  - set (c := if _ =? _ then _ else _). exists (put a (noteCode c acc) s1).
    assert (wf_bytes c /\ sizeZ c < 2 ^ 32) as [Hcw Hcz].
    { subst c. destruct (_ =? _); [by split; [apply Forall_nil_2|]|]. by apply (ok_code _ Hs1). }
    destruct (peek_ok s1 a acc Hs1 Hp1) as (? & ? & ? & ? & _ & _).
    split; [done|]. split; [apply put_ok; [done|by split_and!]|].
    split; [etrans; [exact Hc1|]; by apply (put_same s1 a acc)|].
    rewrite peek_put, decide_True by done. cbn [put set_cache m_cache].
    by rewrite lookup_insert_eq.
  - exists s1. by rewrite E.
Qed.

Lemma peek_None s a : state_ok s -> peek s a = None ->
  m_cache s !! a = None /\ sizeZ (trie_at (m_db s) (m_state s) (addressKey a)) = 0.
Proof.
  intros Hs. unfold peek, committed. destruct (m_cache s !! a); [done|].
  destruct (ok_trie _ Hs a) as [Hd|(acc & Hd & _)]; [done|]. rewrite Hd.
  by destruct (Z.eqb_spec (sizeZ (trie_at (m_db s) (m_state s) (addressKey a))) 0).
Qed.

Lemma fits_small_0 : fits 256 0.
Proof. done. Qed.

(** With [forceCreate] the account is in the cache afterwards; a fresh one has
    no balance and empty storage. *)
Lemma ensureCached_create a s : state_ok s ->
  exists s' acc, ensureCached sha3 a true true s = Ok s' /\ state_ok s' /\ same_base s s' /\
    m_cache s' !! a = Some acc /\ (forall b, bal s' b = bal s b) /\
    (forall b k, slot s' b k = slot s b k) /\ (forall b, nonceOf s' b = nonceOf s b) /\
    (forall b, is_Some (peek s b) -> is_Some (peek s' b)).
Proof.
  intros Hs. destruct (peek s a) as [x|] eqn:E.
  - destruct (ensureCached_ok a true s Hs) as (s' & He & Hs' & Hc & Hp).
    assert (is_Some (peek s' a)) as [acc Hacc].
    { destruct Hc as [_ Hc]. specialize (Hc a). rewrite E in Hc. inversion Hc. eauto. }
    exists s', acc. split.
    { rewrite <-He. unfold ensureCached, ensureBasic. unfold peek, committed in E.
      destruct (m_cache s !! a); [done|]. destruct (sizeZ _ =? 0); done. }
    split_and!; try done; try (by apply Hc).
    + by rewrite <-Hp.
    + intros b. by apply same_contents_bal.
    + intros b k. by apply same_contents_slot.
    + intros b. by apply same_contents_nonce.
    + intros b [y Hy]. destruct Hc as [_ Hc]. specialize (Hc b). rewrite Hy in Hc. inversion Hc. eauto.
  - destruct (peek_None s a Hs E) as [Hc Hd]. destruct (ok_nonce _ Hs) as [Hn Hi].
    set (acc := newAccount sha3 (m_accountStartNonce s) 0 NormalCreation Changed).
    exists (put a acc s), acc. split.
    { unfold ensureCached, ensureBasic, requireAccountStartNonce. rewrite Hc, Hd.
      cbn [Z.eqb negb andb]. rewrite (proj2 (Z.eqb_neq _ _) Hi), !bind_Ok_l.
      cbn [put set_cache m_cache]. rewrite lookup_insert_eq. fold acc.
      assert (codeCacheValid sha3 acc = true) as ->.
      { unfold codeCacheValid, acc, newAccount. cbn [m_codeHash]. by rewrite decide_True, Z.eqb_refl. }
      by rewrite andb_false_r. }
    assert (acc_ok (m_db s) acc) by (apply newAccount_ok; [done|done|by apply fits_small_0]).
    split_and!; try done.
    + by apply put_ok.
    + apply put_base.
    + by apply lookup_insert_eq.
    + intros b. unfold bal. rewrite peek_put. destruct (decide (b = a)) as [->|]; [by rewrite E|done].
    + intros b k. unfold slot. rewrite peek_put. destruct (decide (b = a)) as [->|]; [|done].
      rewrite E. unfold accSlot. cbn [acc newAccount m_storageOverlay m_storageRoot].
      rewrite lookup_empty. cbn [put set_cache m_db]. by rewrite empty_slot.
    + intros b. unfold nonceOf. rewrite peek_put. destruct (decide (b = a)) as [->|]; [by rewrite E|done].
    + intros b Hb. rewrite peek_put. destruct (decide (b = a)); [by eexists|done].
Qed.

(** *** Queries *)

(** A query [r] gives [v] and changes nothing that can be observed. *)
Definition reads_as {A} (s : State DB) (r : result state_error (A * State DB)) (v : A) : Prop :=
  exists s', r = Ok (v, s') /\ state_ok s' /\ same_contents s s'.

Lemma same_contents_peek s s' a :
  same_contents s s' -> (is_Some (peek s' a) <-> is_Some (peek s a)).
Proof. intros [_ Hc]. specialize (Hc a). by inversion Hc. Qed.

Lemma balance_reads a s : state_ok s -> reads_as s (balance sha3 a s) (bal s a).
Proof.
  intros Hs. destruct (ensureCached_ok a false s Hs) as (s' & He & Hs' & Hc & Hp).
  exists s'. unfold balance. rewrite He, bind_Ok_l. split; [|done].
  by rewrite <-(same_contents_bal s s'), <-Hp by done.
Qed.

Lemma transactionsFrom_reads a s : state_ok s -> reads_as s (transactionsFrom sha3 a s) (nonceOf s a).
Proof.
  intros Hs. destruct (ensureCached_ok a false s Hs) as (s' & He & Hs' & Hc & Hp).
  exists s'. unfold transactionsFrom. rewrite He, bind_Ok_l. split; [|done].
  by rewrite <-(same_contents_nonce s s'), <-Hp by done.
Qed.

Lemma addressInUse_reads a s :
  state_ok s -> reads_as s (addressInUse sha3 a s) (bool_decide (is_Some (peek s a))).
Proof.
  intros Hs. destruct (ensureCached_ok a false s Hs) as (s' & He & Hs' & Hc & Hp).
  exists s'. unfold addressInUse. rewrite He, bind_Ok_l. split; [|done].
  rewrite (bool_decide_ext _ (is_Some (peek s' a))) by (symmetry; by apply same_contents_peek).
  rewrite <-Hp. destruct (peek s' a).
  - by rewrite bool_decide_true by (by eexists).
  - rewrite bool_decide_false; [done|]. by intros [? ?].
Qed.

(** Whether the account has code or is being created *)
Definition hasCode (s : State DB) (a : Address) : bool :=
  match peek s a with
  | Some acc => isFreshCode acc || negb (m_codeHash acc =? EmptySHA3 sha3)
  | None => false
  end.

Lemma addressHasCode_reads a s : state_ok s -> reads_as s (addressHasCode sha3 a s) (hasCode s a).
Proof.
  intros Hs. destruct (ensureCached_ok a false s Hs) as (s' & He & Hs' & Hc & Hp).
  exists s'. unfold addressHasCode. rewrite He, bind_Ok_l. split; [|done].
  rewrite <-Hp. unfold hasCode. destruct Hc as [_ Hc]. specialize (Hc a).
  inversion Hc as [x y (_ & _ & _ & Hh & _) Hx Hy|Hx Hy]; [|done].
  unfold isFreshCode. by rewrite Hh.
Qed.

Lemma setStorage_fill db acc k v :
  m_storageOverlay acc !! k = None -> storedSlot db (m_storageRoot acc) k = Ok v ->
  same_acc db acc (setStorage k v acc).
Proof.
  intros Ho Hv. split_and!; try done. intros k'. unfold accSlot.
  cbn [setStorage m_storageOverlay m_storageRoot]. destruct (decide (k' = k)) as [->|].
  - by rewrite lookup_insert_eq, Ho, Hv.
  - by rewrite lookup_insert_ne.
Qed.

Lemma setStorage_acc_ok db acc k v :
  acc_ok db acc -> fits 256 v -> acc_ok db (setStorage k v acc).
Proof.
  intros (? & ? & ? & ? & ? & ?) Hv. split_and!; try done. by apply map_Forall_insert_2.
Qed.

Lemma slot_fits s a k : state_ok s -> fits 256 (slot s a k).
Proof.
  intros Hs. unfold slot. destruct (peek s a) as [acc|] eqn:E; [|done].
  destruct (peek_ok s a acc Hs E) as (_ & _ & Hst & Ho & _). unfold accSlot.
  destruct (m_storageOverlay acc !! k) eqn:Ek; [by apply (Ho k)|].
  by destruct (Hst k) as (v & -> & Hv).
Qed.

Lemma bal_fits s a : state_ok s -> fits 256 (bal s a).
Proof.
  intros Hs. unfold bal. destruct (peek s a) as [acc|] eqn:E; [|done].
  by destruct (peek_ok s a acc Hs E) as (_ & ? & _).
Qed.

Lemma storage_reads a k s : state_ok s -> reads_as s (storage sha3 a k s) (slot s a k).
Proof.
  intros Hs. destruct (ensureCached_ok a false s Hs) as (s1 & He & Hs1 & Hc & Hp).
  unfold reads_as, storage. rewrite He, bind_Ok_l.
  rewrite <-(same_contents_slot s s1) by done. unfold slot. rewrite Hp.
  destruct (m_cache s1 !! a) as [acc|] eqn:E; [|by exists s1].
  pose proof (peek_ok s1 a acc Hs1 Hp) as Hacc. unfold accSlot.
  destruct (m_storageOverlay acc !! k) as [v|] eqn:Ek; [by exists s1|].
  destruct Hacc as (? & ? & Hst & Hacc). destruct (Hst k) as (v & Hv & Hf).
  assert ((if negb (sizeZ (trie_at (m_db s1) (m_storageRoot acc) (storageKey k)) =? 0)
           then liftRLP (v ← RLP.construct (trie_at (m_db s1) (m_storageRoot acc) (storageKey k)) VeryStrict;
                         RLP.toInt (Some 256) v Strict)
           else Ok 0) = Ok v) as ->.
  { unfold storedSlot in Hv. destruct (negb _); [by rewrite Hv|by injection Hv as <-]. }
  rewrite bind_Ok_l, Hv. eexists. split; [done|]. split.
  - apply put_ok; [done|]. apply setStorage_acc_ok; [by split_and!; try apply Hacc|done].
  - etrans; [exact Hc|]. apply (put_same s1 a acc); [done|]. by apply setStorage_fill.
Qed.

Lemma code_reads a s : state_ok s ->
  exists c, reads_as s (code sha3 a s) c /\ wf_bytes c /\ sizeZ c < 2 ^ 32.
Proof.
  intros Hs. destruct (addressHasCode_reads a s Hs) as (s1 & He & Hs1 & Hc1).
  unfold reads_as, code. rewrite He, bind_Ok_l. destruct (hasCode s a); cbn [negb].
  2:{ exists []. split; [by exists s1|]. by split; [apply Forall_nil_2|]. }
  destruct (ensureCached_ok a true s1 Hs1) as (s2 & He2 & Hs2 & Hc2 & Hp2).
  rewrite He2, bind_Ok_l. eexists. split; [exists s2; split; [done|]; split; [done|by etrans]|].
  destruct (m_cache s2 !! a) as [acc|] eqn:E; cbn [default from_option id].
  - by destruct (peek_ok s2 a acc Hs2 Hp2) as (_ & _ & _ & _ & ? & ?).
  - by split; [apply Forall_nil_2|].
Qed.

Lemma nonce_fits s a : state_ok s -> fits 256 (nonceOf s a).
Proof.
  intros Hs. unfold nonceOf. destruct (peek s a) as [acc|] eqn:E; [|apply (ok_nonce _ Hs)].
  by destruct (peek_ok s a acc Hs E) as (? & _).
Qed.

Lemma codeHash_reads a s : state_ok s -> exists h, reads_as s (codeHash sha3 a s) h.
Proof.
  intros Hs. destruct (addressHasCode_reads a s Hs) as (s1 & He & Hs1 & Hc1).
  unfold reads_as, codeHash. rewrite He, bind_Ok_l. destruct (hasCode s a); cbn [negb].
  2:{ eexists. by exists s1. }
  destruct (isFreshCode _).
  - destruct (code_reads a s1 Hs1) as (c & (s2 & Hcode & Hs2 & Hc2) & _).
    rewrite Hcode, bind_Ok_l. eexists. exists s2. split; [done|]. split; [done|by etrans].
  - eexists. by exists s1.
Qed.

(** *** Changes *)

(** [s'] is [s] with the balance of [a] set to [v]; [a] exists. *)
Record balance_set (s s' : State DB) (a : Address) (v : Z) : Prop := {
  bs_ok : state_ok s';
  bs_base : same_base s s';
  bs_bal : forall b, bal s' b = if decide (b = a) then v else bal s b;
  bs_slot : forall b k, slot s' b k = slot s b k;
  bs_nonce : forall b, nonceOf s' b = nonceOf s b;
  bs_peek : forall b, is_Some (peek s' b) <-> is_Some (peek s b) \/ b = a
}.

(** The change of one account, after the contents have been read into the cache *)
Lemma balance_set_put s s1 a acc acc' v :
  state_ok s1 -> same_contents s s1 -> peek s1 a = Some acc -> acc_ok (m_db s1) acc' ->
  m_balance acc' = v -> m_nonce acc' = m_nonce acc ->
  m_storageOverlay acc' = m_storageOverlay acc -> m_storageRoot acc' = m_storageRoot acc ->
  balance_set s (put a acc' s1) a v.
Proof.
  intros Hs1 Hc Hp Hok Hb Hn Ho Hr. constructor.
  - by apply put_ok.
  - etrans; [apply Hc|apply put_base].
  - intros b. rewrite <-(same_contents_bal s s1) by done. unfold bal. rewrite peek_put.
    by destruct (decide (b = a)).
  - intros b k. rewrite <-(same_contents_slot s s1) by done. unfold slot. rewrite peek_put.
    destruct (decide (b = a)) as [->|]; [|done]. rewrite Hp. unfold accSlot.
    cbn [put set_cache m_db]. by rewrite Ho, Hr.
  - intros b. rewrite <-(same_contents_nonce s s1) by done. unfold nonceOf. rewrite peek_put.
    destruct (decide (b = a)) as [->|]; [|done]. by rewrite Hp, Hn.
  - intros b. rewrite peek_put, <-(same_contents_peek s s1) by done.
    destruct (decide (b = a)) as [->|]; [split; [by right|by eexists]|]. tauto.
Qed.

Lemma addBalance_acc db i acc :
  acc_ok db acc -> acc_ok db (addBalance i acc) /\
  m_balance (addBalance i acc) = u256 (m_balance acc + i) /\
  m_nonce (addBalance i acc) = m_nonce acc /\
  m_storageOverlay (addBalance i acc) = m_storageOverlay acc /\
  m_storageRoot (addBalance i acc) = m_storageRoot acc.
Proof.
  intros (Hn & Hb & Hrest). unfold addBalance. destruct (Z.eqb_spec i 0) as [->|].
  - split; [by split|]. split; [|done]. by rewrite Z.add_0_r, wrap_id.
  - split; [|done]. split; [done|]. split; [by apply wrap_fits|exact Hrest].
Qed.

Lemma addBalance_ok a v s : state_ok s -> fits 256 v ->
  exists s', State_addBalance sha3 a v s = Ok s' /\ balance_set s s' a (u256 (bal s a + v)).
Proof.
  intros Hs Hv. destruct (ensureCached_ok a false s Hs) as (s1 & He & Hs1 & Hc & Hp).
  unfold State_addBalance. rewrite He, bind_Ok_l. rewrite <-(same_contents_bal s s1) by done.
  unfold bal at 1. rewrite Hp. destruct (m_cache s1 !! a) as [acc|] eqn:E.
  - eexists. split; [done|]. destruct (addBalance_acc (m_db s1) v acc) as (Hok & Hb & Hn & Ho & Hr).
    { by apply (peek_ok s1 a). }
    eapply balance_set_put; eauto.
  - destruct (ok_nonce _ Hs1) as [Hn Hi]. unfold requireAccountStartNonce.
    rewrite (proj2 (Z.eqb_neq _ _) Hi), bind_Ok_l. eexists. split; [done|].
    assert (acc_ok (m_db s1) (newAccount sha3 (m_accountStartNonce s1) v NormalCreation Changed))
      as Hok by by apply newAccount_ok.
    constructor.
    + by apply put_ok.
    + etrans; [apply Hc|apply put_base].
    + intros b. rewrite <-(same_contents_bal s s1) by done. unfold bal. rewrite peek_put.
      destruct (decide (b = a)) as [->|]; [|done]. symmetry. by apply wrap_id.
    + intros b k. rewrite <-(same_contents_slot s s1) by done. unfold slot. rewrite peek_put.
      destruct (decide (b = a)) as [->|]; [|done]. rewrite Hp. unfold accSlot.
      cbn [put set_cache m_db newAccount m_storageOverlay m_storageRoot].
      by rewrite lookup_empty, empty_slot.
    + intros b. rewrite <-(same_contents_nonce s s1) by done. unfold nonceOf. rewrite peek_put.
      destruct (decide (b = a)) as [->|]; [|done]. by rewrite Hp.
    + intros b. rewrite peek_put, <-(same_contents_peek s s1) by done.
      destruct (decide (b = a)) as [->|]; [split; [by right|by eexists]|]. tauto.
Qed.

Lemma subBalance_ok a v s : state_ok s -> is_Some (peek s a) -> 0 <= v <= bal s a ->
  exists s', subBalance sha3 a v s = Ok s' /\ balance_set s s' a (bal s a - v).
Proof.
  intros Hs Hex Hv. destruct (ensureCached_ok a false s Hs) as (s1 & He & Hs1 & Hc & Hp).
  unfold subBalance. rewrite He, bind_Ok_l. rewrite <-(same_contents_bal s s1) in Hv |- * by done.
  pose proof (bal_fits s1 a Hs1) as [_ Hlt]. unfold bal in Hv, Hlt |- * at 1. rewrite Hp in *.
  destruct (proj2 (same_contents_peek s s1 a Hc) Hex) as [acc Hacc]. rewrite Hp in Hacc. rewrite Hacc in *.
  rewrite (proj2 (Z.ltb_ge _ _)) by lia. eexists. split; [done|].
  destruct (addBalance_acc (m_db s1) (- v) acc) as (Hok & Hb & Hn & Ho & Hr).
  { by apply (peek_ok s1 a). }
  eapply balance_set_put; eauto. rewrite Hb. apply wrap_id. unfold fits. lia.
Qed.

Lemma subBalance_fail a v s : state_ok s ->
  peek s a = None \/ bal s a < v -> subBalance sha3 a v s = Throw NotEnoughCash.
Proof.
  intros Hs Hf. destruct (ensureCached_ok a false s Hs) as (s1 & He & Hs1 & Hc & Hp).
  unfold subBalance. rewrite He, bind_Ok_l. destruct (m_cache s1 !! a) as [acc|] eqn:E; [|done].
  destruct Hf as [Hf|Hf].
  - assert (is_Some (peek s a)) as [x Hx]; [|congruence].
    apply (same_contents_peek s s1 a Hc). rewrite Hp. by eexists.
  - rewrite <-(same_contents_bal s s1) in Hf by done. unfold bal in Hf. rewrite Hp in Hf.
    by rewrite (proj2 (Z.ltb_lt _ _) Hf).
Qed.

Lemma noteSending_ok a s : state_ok s -> is_Some (peek s a) ->
  exists s', noteSending sha3 a s = Ok s' /\ state_ok s' /\ same_base s s' /\
    (forall b, bal s' b = bal s b) /\ (forall b k, slot s' b k = slot s b k) /\
    (forall b, nonceOf s' b = if decide (b = a) then u256 (nonceOf s a + 1) else nonceOf s b) /\
    (forall b, is_Some (peek s' b) <-> is_Some (peek s b)).
Proof.
  intros Hs Hex. destruct (ensureCached_ok a false s Hs) as (s1 & He & Hs1 & Hc & Hp).
  unfold noteSending. rewrite He, bind_Ok_l.
  destruct (proj2 (same_contents_peek s s1 a Hc) Hex) as [acc Hacc]. pose proof Hacc as Hcache.
  rewrite Hp in Hcache. rewrite Hcache. eexists. split; [done|].
  destruct (peek_ok s1 a acc Hs1 Hacc) as (Hn & Hrest).
  split; [apply put_ok; [done|]; split; [by apply wrap_fits|done]|].
  split; [etrans; [apply Hc|apply put_base]|]. split_and!.
  - intros b. rewrite <-(same_contents_bal s s1) by done. unfold bal. rewrite peek_put.
    destruct (decide (b = a)) as [->|]; [by rewrite Hacc|done].
  - intros b k. rewrite <-(same_contents_slot s s1) by done. unfold slot. rewrite peek_put.
    destruct (decide (b = a)) as [->|]; [by rewrite Hacc|done].
  - intros b. rewrite <-!(same_contents_nonce s s1) by done. unfold nonceOf at 1 2. rewrite peek_put.
    destruct (decide (b = a)) as [->|]; [by rewrite Hacc|done].
  - intros b. rewrite peek_put, <-(same_contents_peek s s1) by done.
    destruct (decide (b = a)) as [->|]; [|done]. rewrite Hacc. split; by eexists.
Qed.

(** Also for an account that does not exist yet, which is created. *)
Lemma noteSending_any a s : state_ok s ->
  exists s', noteSending sha3 a s = Ok s' /\ state_ok s' /\ same_base s s' /\
    (forall b, bal s' b = bal s b) /\ is_Some (m_cache s' !! a) /\
    nonceOf s' a = u256 (nonceOf s a + 1).
Proof.
  intros Hs. destruct (ensureCached_ok a false s Hs) as (s1 & He & Hs1 & Hc & Hp).
  unfold noteSending. rewrite He, bind_Ok_l. rewrite <-(same_contents_nonce s s1) by done.
  assert (forall acc, acc_ok (m_db s1) acc -> m_balance acc = bal s1 a ->
            m_nonce acc = u256 (nonceOf s1 a + 1) ->
            state_ok (put a acc s1) /\ same_base s (put a acc s1) /\
            (forall b, bal (put a acc s1) b = bal s b) /\ is_Some (m_cache (put a acc s1) !! a) /\
            nonceOf (put a acc s1) a = u256 (nonceOf s1 a + 1)) as Hput.
  { intros acc Hacc Hb Hn. split_and!.
    - by apply put_ok.
    - etrans; [apply Hc|apply put_base].
    - intros b. rewrite <-(same_contents_bal s s1) by done. unfold bal at 1. rewrite peek_put.
      by destruct (decide (b = a)) as [->|].
    - cbn [put set_cache m_cache]. rewrite lookup_insert_eq. by eexists.
    - unfold nonceOf at 1. by rewrite peek_put, decide_True. }
  destruct (m_cache s1 !! a) as [acc|] eqn:E.
  - eexists. split; [done|]. destruct (peek_ok s1 a acc Hs1 Hp) as (Hn & Hrest). apply Hput.
    + split; [by apply wrap_fits|exact Hrest].
    + unfold bal. by rewrite Hp.
    + unfold nonceOf. by rewrite Hp.
  - destruct (ok_nonce _ Hs1) as [Hn Hi]. unfold requireAccountStartNonce.
    rewrite (proj2 (Z.eqb_neq _ _) Hi), bind_Ok_l. eexists. split; [done|]. apply Hput.
    + split_and!; try done; [by apply wrap_fits|by apply empty_storage_ok|by apply Forall_nil_2].
    + unfold bal. by rewrite Hp.
    + unfold nonceOf. by rewrite Hp.
Qed.

Lemma deadAccount_ok s : state_ok s -> acc_ok (m_db s) (deadAccount sha3).
Proof.
  intros Hs. split_and!; try done; [by apply empty_storage_ok|by apply Forall_nil_2].
Qed.

Lemma setStorage_ok a k v s : state_ok s -> is_Some (m_cache s !! a) -> fits 256 v ->
  let s' := State_setStorage sha3 a k v s in
  state_ok s' /\ same_base s s' /\ (forall b, bal s' b = bal s b) /\
  (forall b, nonceOf s' b = nonceOf s b) /\
  (forall b j, slot s' b j = if decide (b = a /\ j = k) then v else slot s b j) /\
  (forall b, is_Some (peek s' b) <-> is_Some (peek s b)).
Proof.
  intros Hs [acc Hacc] Hv. unfold State_setStorage. rewrite Hacc. cbn [default from_option id].
  assert (peek s a = Some acc) as Hp by (unfold peek; by rewrite Hacc).
  pose proof (peek_ok s a acc Hs Hp) as Hok. split_and!.
  - apply put_ok; [done|]. by apply setStorage_acc_ok.
  - apply put_base.
  - intros b. unfold bal. rewrite peek_put. destruct (decide (b = a)) as [->|]; [by rewrite Hp|done].
  - intros b. unfold nonceOf. rewrite peek_put. destruct (decide (b = a)) as [->|]; [by rewrite Hp|done].
  - intros b j. unfold slot. rewrite peek_put. destruct (decide (b = a)) as [->|Hne].
    + rewrite Hp. unfold accSlot. cbn [setStorage m_storageOverlay m_storageRoot put set_cache m_db].
      destruct (decide (j = k)) as [->|].
      * by rewrite lookup_insert_eq, decide_True.
      * rewrite lookup_insert_ne, decide_False by (done || tauto). done.
    + rewrite decide_False by tauto. done.
  - intros b. rewrite peek_put. destruct (decide (b = a)) as [->|]; [|done].
    rewrite Hp. split; by eexists.
Qed.

(** *** Transfers *)

Lemma transferBalance_ok from to v s : state_ok s -> is_Some (peek s from) -> 0 <= v <= bal s from ->
  exists s', transferBalance sha3 from to v s = Ok s' /\ state_ok s' /\ same_base s s' /\
    (forall b, bal s' b = if decide (b = to)
                          then u256 (bal s to - (if decide (to = from) then v else 0) + v)
                          else if decide (b = from) then bal s from - v else bal s b) /\
    (forall b k, slot s' b k = slot s b k) /\ (forall b, nonceOf s' b = nonceOf s b) /\
    (forall b, is_Some (peek s' b) <-> is_Some (peek s b) \/ b = to).
Proof.
  intros Hs Hex Hv. destruct (subBalance_ok from v s Hs Hex Hv) as (s1 & E1 & [Hs1 Hb1 Hbal1 Hsl1 Hn1 Hp1]).
  pose proof (bal_fits s from Hs) as Hfit.
  destruct (addBalance_ok to v s1 Hs1) as (s2 & E2 & [Hs2 Hb2 Hbal2 Hsl2 Hn2 Hp2]).
  { unfold fits in *. lia. }
  exists s2. unfold transferBalance. rewrite E1, bind_Ok_l. split; [done|]. split; [done|].
  split; [by etrans|]. split_and!.
  - intros b. rewrite Hbal2, !Hbal1. destruct (decide (b = to)) as [->|]; [|done].
    destruct (decide (to = from)) as [->|]; [done|]. by rewrite Z.sub_0_r.
  - intros b k. by rewrite Hsl2.
  - intros b. by rewrite Hn2.
  - intros b. rewrite Hp2, Hp1. split; [intros [[?| ->]| ->]|]; auto. intros [?| ->]; auto.
Qed.

(** ** Properties of the state *)


(** C33: a transfer fails with [NotEnoughCash] exactly when the sender does not
    exist or holds less than the amount; otherwise it moves the amount and
    changes no other balance, no nonce and no storage, creating the receiver if
    need be.  A transfer to oneself changes nothing. *)
Theorem transfer_correct s from to v (Hs : state_ok s) (Hv : 0 <= v) :
  (peek s from = None \/ bal s from < v -> transferBalance sha3 from to v s = Throw NotEnoughCash) /\
  (is_Some (peek s from) -> v <= bal s from ->
   exists s', transferBalance sha3 from to v s = Ok s' /\ state_ok s' /\ same_base s s' /\
     (from = to -> forall b, bal s' b = bal s b) /\
     (from <> to -> bal s' from = bal s from - v /\ bal s' to = u256 (bal s to + v) /\
                    forall b, b <> from -> b <> to -> bal s' b = bal s b) /\
     (forall b k, slot s' b k = slot s b k) /\ (forall b, nonceOf s' b = nonceOf s b) /\
     (forall b, is_Some (peek s' b) <-> is_Some (peek s b) \/ b = to)).
Proof.
  split.
  - intros Hf. unfold transferBalance. by rewrite subBalance_fail.
  - intros Hex Hle. destruct (transferBalance_ok from to v s) as (s' & E & Hs' & Hb & Hbal & Hrest); auto.
    exists s'. split; [done|]. split; [done|]. split; [done|]. split_and!; try apply Hrest.
    + intros -> b. rewrite Hbal. destruct (decide (b = to)) as [->|]; [|done].
      rewrite decide_True by done. rewrite Z.sub_add. by apply wrap_id, bal_fits.
    + intros Hne. rewrite !Hbal, (decide_False (P := from = to)), decide_True, (decide_True (P := to = to)) by done.
      rewrite decide_False, Z.sub_0_r by done. split_and!; [done..|].
      intros b ? ?. by rewrite Hbal, !decide_False.
Qed.

(** Storing into a cached account and counting a sent transaction change
    exactly the addressed slot and the addressed nonce. *)
Theorem state_updates s a k v (Hs : state_ok s) (Hv : fits 256 v) (Ha : is_Some (m_cache s !! a)) :
  (let s' := State_setStorage sha3 a k v s in
   state_ok s' /\
   (forall b j, slot s' b j = if decide (b = a /\ j = k) then v else slot s b j) /\
   (forall b, bal s' b = bal s b /\ nonceOf s' b = nonceOf s b)) /\
  exists s', noteSending sha3 a s = Ok s' /\ state_ok s' /\
    (forall b, nonceOf s' b = if decide (b = a) then u256 (nonceOf s a + 1) else nonceOf s b) /\
    (forall b, bal s' b = bal s b) /\ (forall b j, slot s' b j = slot s b j).
Proof.
  split.
  - destruct (setStorage_ok a k v s Hs Ha Hv) as (? & _ & ? & ? & ? & _). split_and!; auto.
  - destruct (noteSending_ok a s Hs) as (s' & E & ? & _ & ? & ? & ? & _).
    { destruct Ha as [acc Hacc]. exists acc. unfold peek. by rewrite Hacc. }
    by exists s'.
Qed.
End Contents.

(** ** A sample state

    A store whose tries are kept as maps, numbered by their roots; used where a
    concrete database is needed. *)
Record mapStore := mkMapStore {
  ms_tries : gmap Z (gmap bytes bytes);
  ms_next : Z;
  ms_raw : gmap Z bytes
}.

#[export] Instance mapStore_TrieStore : TrieStore mapStore := {|
  trie_at db r k := default [] (default ∅ (ms_tries db !! r) !! k);
  trie_insert db r k v :=
    (mkMapStore (<[ms_next db := <[k := v]> (default ∅ (ms_tries db !! r))]> (ms_tries db))
       (ms_next db + 1) (ms_raw db), ms_next db);
  trie_remove db r k :=
    (mkMapStore (<[ms_next db := delete k (default ∅ (ms_tries db !! r))]> (ms_tries db))
       (ms_next db + 1) (ms_raw db), ms_next db);
  db_lookup db h := default [] (ms_raw db !! h);
  db_insert db h v := mkMapStore (ms_tries db) (ms_next db) (<[h := v]> (ms_raw db))
|}.

Definition sampleHash (d : bytes) : bytes := replicate 32 7.

Lemma sampleHash_wf d : wf_bytes (sampleHash d) /\ length (sampleHash d) = 32%nat.
Proof. split; [|done]. decide_closed. Defined.

(** Accounts in the cache, above an empty trie *)
Definition cacheState (c : gmap Address Account) : State mapStore :=
  mkState (mkMapStore ∅ 1 ∅) 0 c ∅ 0.

(** The account 5 holds 1000, the account 6 runs a small contract. *)
Definition sampleCache : gmap Address Account :=
  <[5 := newAccount sampleHash 3 1000 NormalCreation Changed]>
  (<[6 := setCode [96; 1; 96; 2; 85; 0] (newAccount sampleHash 0 20 ContractConception Changed)]> ∅).

Lemma cacheState_trie c r k : trie_at (m_db (cacheState c)) r k = [].
Proof. cbn. rewrite lookup_empty. cbn. by rewrite lookup_empty. Qed.

Lemma cacheState_ok c :
  map_Forall (fun _ acc => fits 256 (m_nonce acc) /\ fits 256 (m_balance acc) /\
    map_Forall (fun _ v => fits 256 v) (m_storageOverlay acc) /\
    wf_bytes (m_codeCache acc) /\ sizeZ (m_codeCache acc) < 2 ^ 32) c ->
  state_ok sampleHash (cacheState c).
Proof.
  intros Hc. constructor.
  - intros a. left. by rewrite cacheState_trie.
  - intros k. by rewrite cacheState_trie.
  - intros h. cbn. rewrite lookup_empty. by split; [apply Forall_nil_2|].
  - done.
  - intros a acc Ha. destruct (Hc a acc Ha) as (? & ? & ? & ? & ?). split_and!; try done.
    intros k. exists 0. unfold storedSlot. by rewrite cacheState_trie.
Qed.

Lemma sampleState_ok : state_ok sampleHash (cacheState sampleCache).
Proof.
  apply cacheState_ok. unfold sampleCache.
  apply map_Forall_insert_2; [|apply map_Forall_insert_2; [|apply map_Forall_empty]];
    (split_and!; try done; try apply map_Forall_empty; decide_closed).
Qed.


Lemma transfer_correct_witness :
  exists s', transferBalance sampleHash 5 9 400 (cacheState sampleCache) = Ok s' /\
    bal s' 5 = 600 /\ bal s' 9 = 400.
Proof.
  destruct (transfer_correct sampleHash (cacheState sampleCache) 5 9 400 sampleState_ok ltac:(lia))
    as [_ Ht].
  destruct (Ht ltac:(by eexists) ltac:(by vm_compute)) as (s' & E & _ & _ & _ & Hm & _).
  destruct (Hm ltac:(done)) as (H5 & H9 & _). exists s'. split; [exact E|].
  split; [rewrite H5|rewrite H9]; reflexivity.
Defined.

Lemma state_updates_witness :
  slot (State_setStorage sampleHash 5 1 77 (cacheState sampleCache)) 5 1 = 77 /\
  exists s', noteSending sampleHash 5 (cacheState sampleCache) = Ok s' /\ nonceOf s' 5 = 4.
Proof.
  destruct (state_updates sampleHash (cacheState sampleCache) 5 1 77 sampleState_ok
              ltac:(decide_closed) ltac:(by eexists)) as [(_ & Hs & _) (s' & E & _ & Hn & _)].
  split; [rewrite Hs; reflexivity|]. exists s'. split; [exact E|]. rewrite Hn. reflexivity.
Defined.
