(* ===== verification/CommitTheory.v ===== *)
(** * Committing a state

    [State::commit] writes the dirty accounts of the cache, with their storage,
    into the trie, and clears the cache.  It is proved against an interface of the
    trie store that says what the trie is relied on for; the contents of the state
    are the same before and after. *)

From Stdlib Require Import ZArith Lia.
From stdpp Require Import base list option gmap.
From S2P Require Import Prelude CommonData RLP RLPTheory FixedHash ExtVMFace VM VMTheory.
From S2P Require Import Account State Transaction StateTheory.

(** The tries of [db] are still there in [db']. *)
Definition db_extends {DB} `{TrieStore DB} (tok : DB -> h256 -> Prop) (db db' : DB) : Prop :=
  forall r, tok db r -> tok db' r /\ forall k, trie_at db' r k = trie_at db r k.

(** What is relied on for the trie store.  [trie_ok db r]: the trie with root [r] is complete in
    [db].  [db_ok n db]: the database is in order, and the next [n] changes meet
    no collision of the hash function, so that a change leaves the other tries
    alone; without such a bound no implementation with 256-bit roots could keep
    the laws. *)
Class TrieLaws (DB : Type) `{TrieStore DB} (sha3 : bytes -> bytes) := {
  db_ok : nat -> DB -> Prop;
  trie_ok : DB -> h256 -> Prop;
  law_le : forall n m db, (n <= m)%nat -> db_ok m db -> db_ok n db;
  law_lookup : forall n db h, db_ok n db ->
    wf_bytes (db_lookup db h) /\ sizeZ (db_lookup db h) < 2 ^ 32;
  law_empty : forall n db, db_ok n db ->
    trie_ok db (EmptyTrie sha3) /\ forall k, trie_at db (EmptyTrie sha3) k = [];
  law_insert : forall n db r k v db' r', db_ok (S n) db -> trie_ok db r -> wf_bytes v -> v <> [] ->
    trie_insert db r k v = (db', r') ->
    db_ok n db' /\ db_extends trie_ok db db' /\ trie_ok db' r' /\ fits 256 r' /\
    forall k', trie_at db' r' k' = if decide (k' = k) then v else trie_at db r k';
  law_remove : forall n db r k db' r', db_ok (S n) db -> trie_ok db r ->
    trie_remove db r k = (db', r') ->
    db_ok n db' /\ db_extends trie_ok db db' /\ trie_ok db' r' /\ fits 256 r' /\
    forall k', trie_at db' r' k' = if decide (k' = k) then [] else trie_at db r k';
  law_code : forall n db c, db_ok (S n) db -> wf_bytes c -> sizeZ c < 2 ^ 32 ->
    db_ok n (db_insert db (toArith (sha3 c)) c) /\
    db_extends trie_ok db (db_insert db (toArith (sha3 c)) c)
}.

(** ** Keys and values *)

Lemma ofArith_inj n a b :
  fits (8 * Z.of_nat n) a -> fits (8 * Z.of_nat n) b -> ofArith n a = ofArith n b -> a = b.
Proof. intros Ha Hb E. by rewrite <-(toArith_ofArith n a), <-(toArith_ofArith n b), E. Qed.

Lemma ofArith_wrap n a : ofArith n (wrap (8 * Z.of_nat n) a) = ofArith n a.
Proof.
  unfold ofArith. rewrite !toBigEndian_spec. unfold wrap. rewrite <-pow256_pow2 by lia.
  apply be_bytes_mod.
Qed.

Lemma encodeValue_ok v : fits 256 v -> encodeValue v = Ok (encode (int_item v)).
Proof.
  intros Hv. destruct (int_item_ok 32 v ltac:(lia) Hv) as (Hwf & Hfit & Hbr). unfold encodeValue.
  rewrite appendInt_spec by (destruct Hv; lia). done.
Qed.

Lemma decodeValue_ok v : fits 256 v ->
  (x ← RLP.construct (encode (int_item v)) VeryStrict; RLP.toInt (Some 256) x Strict) = Ok v.
Proof.
  intros Hv. destruct (int_item_ok 32 v ltac:(lia) Hv) as (Hwf & Hfit & Hbr).
  rewrite construct_exact, bind_Ok_l by done. by apply toInt_word.
Qed.

Section Commit.
Context {DB : Type} `{TrieStore DB} (sha3 : bytes -> bytes) `{!TrieLaws DB sha3}.
Hypothesis Hsha3 : forall d, wf_bytes (sha3 d) /\ length (sha3 d) = 32%nat.

Abbreviation extends := (db_extends (trie_ok (sha3 := sha3))).
Abbreviation tok := (trie_ok (sha3 := sha3)).
Abbreviation dok := (db_ok (sha3 := sha3)).

#[export] Instance extends_preorder : PreOrder extends.
Proof.
  split.
  - by intros db r Hr.
  - intros x y z Hxy Hyz r Hr. destruct (Hxy r Hr) as [Hy Ey]. destruct (Hyz r Hy) as [Hz Ez].
    split; [done|]. intros k. by rewrite Ez, Ey.
Qed.

Lemma extends_slot db db' r k : extends db db' -> tok db r -> storedSlot db' r k = storedSlot db r k.
Proof. intros He Hr. unfold storedSlot. destruct (He r Hr) as [_ E]. by rewrite E. Qed.

(** What a trie holds for a storage value *)
Definition slotBytes (v : Z) : bytes := if v =? 0 then [] else encode (int_item v).

Lemma commitStorage_step n k v db root :
  dok (S n) db -> tok db root -> fits 256 v ->
  exists db' root',
    (if negb (v =? 0)
     then d ← liftRLP (encodeValue v); Ok (trie_insert db root (storageKey k) d)
     else Ok (trie_remove db root (storageKey k))) = Ok (db', root') /\
    dok n db' /\ extends db db' /\ tok db' root' /\ fits 256 root' /\
    forall key, trie_at db' root' key = if decide (key = storageKey k) then slotBytes v
                                        else trie_at db root key.
Proof.
  intros Hdb Hr Hv. unfold slotBytes. destruct (Z.eqb_spec v 0) as [->|Hnz]; cbn [negb].
  - destruct (trie_remove db root (storageKey k)) as [db' root'] eqn:E.
    exists db', root'. split; [done|]. by apply (law_remove n db root _ db' root').
  - rewrite encodeValue_ok by done. cbn [liftRLP]. rewrite bind_Ok_l.
    destruct (trie_insert db root (storageKey k) (encode (int_item v))) as [db' root'] eqn:E.
    exists db', root'. split; [done|].
    apply (law_insert n db root _ _ db' root'); [done|done| |apply encode_not_nil|done].
    destruct (int_item_ok 32 v ltac:(lia) Hv) as (Hwf & Hfit & _). by apply encode_wf.
Qed.

Lemma commitStorage_ok n (l : list (Z * Z)) db root :
  dok (length l + n) db -> tok db root -> fits 256 root -> NoDup l.*1 ->
  Forall (fun kv => fits 256 kv.1 /\ fits 256 kv.2) l ->
  exists db' root', commitStorage l db root = Ok (db', root') /\
    dok n db' /\ extends db db' /\ tok db' root' /\ fits 256 root' /\
    forall k, fits 256 k ->
      trie_at db' root' (storageKey k)
      = match (list_to_map l : gmap Z Z) !! k with
        | Some v => slotBytes v
        | None => trie_at db root (storageKey k)
        end.
Proof.
  revert db root. induction l as [|[k0 v0] l IH]; intros db root Hdb Hr Hfr Hnd Hl.
  { by exists db, root. }
  apply NoDup_cons in Hnd as [Hk0 Hnd]. apply Forall_cons in Hl as [[Hfk Hfv] Hl]. cbn [fst snd] in *.
  destruct (commitStorage_step (length l + n) k0 v0 db root) as (db1 & root1 & E1 & Hd1 & He1 & Hr1 & Hf1 & Ha1);
    [done|done|done|].
  destruct (IH db1 root1) as (db2 & root2 & E2 & Hd2 & He2 & Hr2 & Hf2 & Ha2); try done.
  exists db2, root2. cbn [commitStorage]. rewrite E1, bind_Ok_l. split_and!; try done; [by etrans|].
  intros k Hk. rewrite Ha2 by done. cbn [list_to_map foldr]. destruct (decide (k = k0)) as [->|Hne].
  - rewrite lookup_insert_eq. rewrite not_elem_of_list_to_map_1 by done. by rewrite Ha1, decide_True.
  - rewrite lookup_insert_ne by done. destruct (list_to_map l !! k); [done|].
    rewrite Ha1, decide_False; [done|]. intros E. apply Hne. by apply (ofArith_inj 32).
Qed.

(** ** One account *)

(** An account of the cache that can be committed to [db] *)
Record committable (db : DB) (acc : Account) : Prop := {
  cm_acc : acc_ok db acc;
  cm_hash : fits 256 (m_codeHash acc);
  cm_root : fits 256 (m_storageRoot acc) /\ tok db (m_storageRoot acc);
  cm_keys : map_Forall (fun k _ => fits 256 k) (m_storageOverlay acc)
}.

(** The code hash that is written *)
Definition committedHash (acc : Account) : h256 :=
  if isFreshCode acc then toArith (sha3 (m_codeCache acc)) else m_codeHash acc.

(** The record [d] in the state trie shows the account [acc] of a state over [db0]. *)
Definition recorded (db0 db : DB) (d : bytes) (acc : Account) : Prop :=
  if m_isAlive acc then
    exists sroot, d <> [] /\
      decodeAccount d = Ok (storedAccount (m_nonce acc) (m_balance acc) sroot (committedHash acc) Unchanged) /\
      tok db sroot /\ forall k, fits 256 k -> storedSlot db sroot k = Ok (accSlot db0 acc k)
  else d = [].

Lemma recorded_extends db0 db db' d acc :
  extends db db' -> recorded db0 db d acc -> recorded db0 db' d acc.
Proof.
  intros He. unfold recorded. destruct (m_isAlive acc); [|done].
  intros (r & Hd & Hdec & Hr & Hs). exists r. split_and!; try done; [by apply He|].
  intros k Hk. rewrite (extends_slot db db') by done. by apply Hs.
Qed.

Lemma slotBytes_stored db r k v : fits 256 v -> trie_at db r (storageKey k) = slotBytes v ->
  storedSlot db r k = Ok v.
Proof.
  intros Hv E. unfold storedSlot. rewrite E. unfold slotBytes.
  destruct (Z.eqb_spec v 0) as [->|Hnz]; [done|]. pose proof (encode_nonempty (int_item v)) as Hne.
  rewrite (proj2 (Z.eqb_neq _ 0)) by lia. by apply decodeValue_ok.
Qed.

Lemma committedHash_fits db acc : committable db acc -> fits 256 (committedHash acc).
Proof.
  intros [_ Hh _ _]. unfold committedHash. destruct (isFreshCode acc); [|done].
  destruct (Hsha3 (m_codeCache acc)). by apply (toArith_fits _ 32).
Qed.

(** The storage of an account, written over the one it is based on *)
Lemma commitOverlay_ok n acc db0 db :
  dok (size (m_storageOverlay acc) + n) db -> extends db0 db -> committable db0 acc ->
  exists db' root', commitStorage (map_to_list (m_storageOverlay acc)) db (m_storageRoot acc)
                    = Ok (db', root') /\
    dok n db' /\ extends db db' /\ tok db' root' /\ fits 256 root' /\
    forall k, fits 256 k -> storedSlot db' root' k = Ok (accSlot db0 acc k).
Proof.
  intros Hdb He [(_ & _ & Hst & Hov & _) _ [Hfr Hr] Hkeys]. destruct (He _ Hr) as [Hr1 Hsame].
  destruct (commitStorage_ok n (map_to_list (m_storageOverlay acc)) db (m_storageRoot acc))
    as (db' & root' & E & Hd & Hex & Hr' & Hf' & Hat); try done.
  - by rewrite length_map_to_list.
  - apply NoDup_fst_map_to_list.
  - apply Forall_forall. intros [k v] Hkv%elem_of_map_to_list. split; [by apply (Hkeys k v)|by apply (Hov k)].
  - exists db', root'. split_and!; try done; try apply Hf'. intros k Hk. specialize (Hat k Hk).
    rewrite list_to_map_to_list in Hat. unfold accSlot.
    destruct (m_storageOverlay acc !! k) as [v|] eqn:Ek.
    + apply slotBytes_stored; [by apply (Hov k)|done].
    + destruct (Hst k) as (v & Hv & _). rewrite Hv, <-Hv. unfold storedSlot. by rewrite Hat, Hsame.
Qed.

Lemma commitAccount_ok n a acc db0 db root :
  dok (size (m_storageOverlay acc) + S (S n)) db -> tok db root -> extends db0 db -> committable db0 acc ->
  exists db' root', commitAccount sha3 a acc db root = Ok (db', root') /\
    dok n db' /\ extends db db' /\ tok db' root' /\ fits 256 root' /\
    recorded db0 db' (trie_at db' root' (addressKey a)) acc /\
    forall key, key <> addressKey a -> trie_at db' root' key = trie_at db root key.
Proof.
  intros Hdb Hr He Hcm. unfold commitAccount, recorded. destruct (m_isAlive acc) eqn:Ealive; cbn [negb].
  2:{ destruct (trie_remove db root (addressKey a)) as [db' root'] eqn:E.
      destruct (law_remove (S n) db root (addressKey a) db' root') as (Hd & Hex & Hr' & Hf & Hat); try done.
      { eapply law_le; [|done]. lia. }
      exists db', root'. split_and!; try done; try apply Hf.
      - eapply law_le; [|done]. lia.
      - by rewrite Hat, decide_True.
      - intros key Hk. by rewrite Hat, decide_False. }
  destruct (commitOverlay_ok (S (S n)) acc db0 db Hdb He Hcm) as (db1 & sroot & -> & Hd1 & He1 & Hs1 & Hf1 & Hslots).
  rewrite bind_Ok_l. pose proof Hcm as [(Hn & Hb & _ & _ & Hcw & Hcz) _ _ _].
  pose proof (committedHash_fits db0 acc Hcm) as Hch.
  assert (exists db2, (if isFreshCode acc
            then (db_insert db1 (toArith (sha3 (m_codeCache acc))) (m_codeCache acc), toArith (sha3 (m_codeCache acc)))
            else (db1, m_codeHash acc)) = (db2, committedHash acc) /\ dok (S n) db2 /\ extends db1 db2)
    as (db2 & E2 & Hd2 & He2).
  { unfold committedHash. destruct (isFreshCode acc).
    - eexists. split; [done|]. by apply law_code.
    - exists db1. split_and!; [done| |done]. eapply law_le; [|done]. lia. }
  rewrite E2. rewrite encodeAccount_items by done. cbn [liftRLP]. rewrite bind_Ok_l.
  set (rec := encode _). destruct (trie_insert db2 root (addressKey a) rec) as [db' root'] eqn:E.
  destruct (He1 root Hr) as [Hr1 Hsame1]. destruct (He2 root Hr1) as [Hr2 Hsame2].
  destruct (account_items_ok (m_nonce acc) (m_balance acc) sroot (committedHash acc) Hn Hb) as [Hwf Hfit].
  destruct (law_insert n db2 root (addressKey a) rec db' root') as (Hd & Hex & Hr' & Hf & Hat); try done.
  { by apply encode_wf. }
  { apply encode_not_nil. }
  exists db', root'. split_and!; try done; try apply Hf.
  - etrans; [exact He1|]. by etrans.
  - exists sroot. destruct (He2 sroot Hs1) as [Hs2 _]. destruct (Hex sroot Hs2) as [Hs3 _].
    rewrite Hat, decide_True by done. split_and!; try done.
    + apply encode_not_nil.
    + by apply decodeAccount_items.
    + intros k Hk. by rewrite (extends_slot db2 db'), (extends_slot db1 db2), Hslots.
  - intros key Hk. by rewrite Hat, decide_False, Hsame2, Hsame1.
Qed.

(** ** The whole cache *)

(** The changes of the database that committing these accounts takes at most *)
Definition changes (l : list (Address * Account)) : nat :=
  foldr (fun p t => size (m_storageOverlay p.2) + S (S t))%nat 0%nat l.

Lemma commit_loop_ok (l : list (Address * Account)) n db0 db root ret :
  dok (changes l + n) db -> tok db root -> fits 256 root -> extends db0 db -> NoDup l.*1 ->
  Forall (fun p => fits 160 p.1 /\ committable db0 p.2) l ->
  exists db' root' ret', commit_loop sha3 l db root ret = Ok (db', root', ret') /\
    dok n db' /\ extends db db' /\ tok db' root' /\ fits 256 root' /\
    forall a, fits 160 a ->
      match (list_to_map l : gmap Address Account) !! a with
      | Some acc => if isDirty acc then recorded db0 db' (trie_at db' root' (addressKey a)) acc
                    else trie_at db' root' (addressKey a) = trie_at db root (addressKey a)
      | None => trie_at db' root' (addressKey a) = trie_at db root (addressKey a)
      end.
Proof.
  revert db root ret. induction l as [|[a0 acc0] l IH]; intros db root ret Hdb Hr Hfr He Hnd Hl.
  { exists db, root, ret. by split_and!. }
  apply NoDup_cons in Hnd as [Ha0 Hnd]. apply Forall_cons in Hl as [[Hfa Hcm] Hl]. cbn [fst snd] in *.
  assert ((list_to_map l : gmap Address Account) !! a0 = None) as Hnone
    by by apply not_elem_of_list_to_map_1.
  change (changes ((a0, acc0) :: l)) with (size (m_storageOverlay acc0) + S (S (changes l)))%nat in Hdb.
  cbn [commit_loop]. destruct (isDirty acc0) eqn:Ed.
  - destruct (commitAccount_ok (changes l + n) a0 acc0 db0 db root)
      as (db1 & root1 & -> & Hd1 & He1 & Hr1 & Hf1 & Hrec & Hother); try done.
    { eapply law_le; [|exact Hdb]. lia. }
    rewrite bind_Ok_l.
    destruct (IH db1 root1 ({[a0]} ∪ ret)) as (db2 & root2 & t & E & Hd2 & He2 & Hr2 & Hf2 & Hat);
      try done; [by etrans|].
    exists db2, root2, t. split_and!; try done; [by etrans|]. intros a Ha. specialize (Hat a Ha).
    cbn [list_to_map foldr]. destruct (decide (a = a0)) as [->|Hne].
    + rewrite lookup_insert_eq. cbn [snd]. rewrite Ed. rewrite Hnone in Hat. rewrite Hat. by eapply recorded_extends.
    + rewrite lookup_insert_ne by done.
      assert (trie_at db1 root1 (addressKey a) = trie_at db root (addressKey a)) as <-; [|done].
      apply Hother. intros Hk. apply Hne. by apply (ofArith_inj 20).
  - destruct (IH db root ret) as (db2 & root2 & t & E & Hd2 & He2 & Hr2 & Hf2 & Hat); try done.
    { eapply law_le; [|exact Hdb]. lia. }
    exists db2, root2, t. split_and!; try done. intros a Ha. specialize (Hat a Ha).
    cbn [list_to_map foldr]. destruct (decide (a = a0)) as [->|Hne].
    + rewrite lookup_insert_eq. cbn [snd]. rewrite Ed. by rewrite Hnone in Hat.
    + by rewrite lookup_insert_ne.
Qed.

(** A state that can be committed: the store has room for the changes, every
    cached account can be written, a cached account that is not dirty is as in
    the trie, and the accounts of the trie have their storage and a code hash. *)
Record commit_ready (s : State DB) : Prop := {
  cr_db : dok (changes (map_to_list (m_cache s))) (m_db s);
  cr_root : tok (m_db s) (m_state s) /\ fits 256 (m_state s);
  cr_cache : map_Forall (fun a acc => fits 160 a /\ committable (m_db s) acc /\
    (isDirty acc = false -> exists acc0, committed s a = Some acc0 /\ same_acc (m_db s) acc0 acc)) (m_cache s);
  cr_stored : forall a acc, committed s a = Some acc ->
    tok (m_db s) (m_storageRoot acc) /\ isFreshCode acc = false
}.

(** The account [x] of [s] and the account [y] of the committed state [s']: what
    is alive is kept, what is dead is gone. *)
Definition survives (s s' : State DB) (x y : option Account) : Prop :=
  match x with
  | Some acc =>
      if m_isAlive acc then
        exists acc', y = Some acc' /\ m_isAlive acc' = true /\ m_nonce acc' = m_nonce acc /\
          m_balance acc' = m_balance acc /\ m_codeHash acc' = committedHash acc /\
          forall k, fits 256 k -> accSlot (m_db s') acc' k = accSlot (m_db s) acc k
      else y = None
  | None => y = None
  end.

Lemma committed_alive s a acc : committed s a = Some acc ->
  m_isAlive acc = true /\ m_storageOverlay acc = ∅.
Proof.
  unfold committed. destruct (_ =? 0); [done|]. destruct (decodeAccount _) as [x|] eqn:E; [|done].
  intros [= <-]. revert E. unfold decodeAccount.
  repeat (match goal with |- (?r ≫= _) = _ -> _ => destruct r as [?|]; [|done] end;
          rewrite ?bind_Ok_l; try match goal with p : (_ * _)%type |- _ => destruct p end).
  by intros [= <-].
Qed.

(** An account that is still in the trie as it was *)
Lemma survives_stored s s' a acc :
  commit_ready s -> extends (m_db s) (m_db s') -> committed s a = Some acc ->
  survives s s' (Some acc) (Some acc).
Proof.
  intros Hcr He Hc. destruct (cr_stored s Hcr a acc Hc) as [Hr Hf].
  destruct (committed_alive s a acc Hc) as [Ha Ho]. unfold survives, committedHash. rewrite Ha, Hf.
  exists acc. split_and!; try done. intros k Hk. unfold accSlot.
  rewrite Ho, lookup_empty. by rewrite (extends_slot (m_db s) (m_db s')).
Qed.

Lemma survives_same_acc s s' x acc y :
  same_acc (m_db s) x acc -> isFreshCode x = false -> survives s s' (Some x) y -> survives s s' (Some acc) y.
Proof.
  intros (Ha & Hn & Hb & Hh & Hs) Hf. unfold survives. rewrite Ha. destruct (m_isAlive x); [|done].
  intros (acc' & -> & ? & ? & ? & Hch & Hsl). exists acc'.
  assert (committedHash acc = committedHash x) as Heq.
  { unfold committedHash, isFreshCode in *. by rewrite Hh, Hf. }
  split_and!; try congruence. intros k Hk. by rewrite Hs, Hsl.
Qed.

Lemma committed_recorded s s' a acc :
  m_cache s' = ∅ -> recorded (m_db s) (m_db s') (trie_at (m_db s') (m_state s') (addressKey a)) acc ->
  survives s s' (Some acc) (peek s' a).
Proof.
  intros Hc. unfold recorded, survives, peek, committed. rewrite Hc, lookup_empty.
  set (d := trie_at _ _ _). destruct (m_isAlive acc).
  - intros (r & Hd & Hdec & Hr & Hs). rewrite Hdec.
    assert (sizeZ d <> 0) as Hz by (intros Hz%sizeZ_0; done).
    rewrite (proj2 (Z.eqb_neq _ 0)) by done. eexists. split; [done|]. split_and!; try done.
    intros k Hk. unfold accSlot at 1. cbn [storedAccount m_storageOverlay m_storageRoot].
    by rewrite lookup_empty, Hs.
  - by intros ->.
Qed.

End Commit.

(** ** The sample store keeps the laws

    Roots are numbers given out in order, below the root of the empty trie. *)
Definition mapStore_ok (n : nat) (db : mapStore) : Prop :=
  0 < ms_next db /\ ms_next db + Z.of_nat n <= 2 ^ 200 /\
  map_Forall (fun r _ => r < ms_next db) (ms_tries db) /\
  map_Forall (fun _ c => wf_bytes c /\ sizeZ c < 2 ^ 32) (ms_raw db).

Definition mapStore_trie (db : mapStore) (r : h256) : Prop :=
  r = EmptyTrie sampleHash \/ 0 <= r < ms_next db.

Lemma mapStore_empty : 2 ^ 200 < EmptyTrie sampleHash.
Proof. by apply Z.ltb_lt. Qed.

Lemma mapStore_fresh (n : nat) (db : mapStore) (t : gmap bytes bytes) (raw : gmap Z bytes) :
  mapStore_ok (S n) db -> map_Forall (fun _ c => wf_bytes c /\ sizeZ c < 2 ^ 32) raw ->
  let db' := mkMapStore (<[ms_next db := t]> (ms_tries db)) (ms_next db + 1) raw in
  mapStore_ok n db' /\ db_extends mapStore_trie db db' /\ mapStore_trie db' (ms_next db) /\
  fits 256 (ms_next db) /\ forall k, trie_at db' (ms_next db) k = default [] (t !! k).
Proof.
  intros (H0 & H1 & H2 & H3) Hraw. pose proof mapStore_empty. cbn. split_and!; try lia.
  - unfold mapStore_ok. cbn. split_and!; try lia; [|done].
    apply map_Forall_insert_2; [lia|]. intros r x Hr. specialize (H2 r x Hr). cbn in H2. lia.
  - intros r Hr. split.
    + destruct Hr as [->|Hr]; [by left|right; cbn; lia].
    + intros k. cbn. rewrite lookup_insert_ne; [done|]. destruct Hr as [->|Hr]; lia.
  - right. cbn. lia.
  - unfold fits. lia.
  - intros k. by rewrite lookup_insert_eq.
Qed.

#[export] Instance mapStore_laws : TrieLaws mapStore sampleHash.
Proof.
  refine {| db_ok := mapStore_ok; trie_ok := mapStore_trie |}.
  - intros n m db Hle (? & ? & ? & ?). unfold mapStore_ok. split_and!; try done. lia.
  - intros n db h (_ & _ & _ & Hr). cbn. destruct (ms_raw db !! h) eqn:E; cbn; [by apply (Hr h)|].
    by split; [apply Forall_nil_2|].
  - intros n db (H0 & H1 & H2 & _). split; [by left|]. intros k.
    change (default [] (default ∅ (ms_tries db !! EmptyTrie sampleHash) !! k) = []).
    destruct (ms_tries db !! EmptyTrie sampleHash) as [t|] eqn:E; [|cbn [default from_option]; unfold id; by rewrite lookup_empty].
    specialize (H2 _ _ E). cbv beta in H2. pose proof mapStore_empty. lia.
  - intros n db r k v db' r' Hok Hr Hv Hn [= <- <-].
    destruct (mapStore_fresh n db (<[k := v]> (default ∅ (ms_tries db !! r))) (ms_raw db) Hok)
      as (? & ? & ? & ? & Hat); [apply Hok|]. split_and!; try done; try apply H2.
    intros k'. rewrite Hat. cbn. destruct (decide (k' = k)) as [->|].
    + by rewrite lookup_insert_eq.
    + by rewrite lookup_insert_ne.
  - intros n db r k db' r' Hok Hr [= <- <-].
    destruct (mapStore_fresh n db (delete k (default ∅ (ms_tries db !! r))) (ms_raw db) Hok)
      as (? & ? & ? & ? & Hat); [apply Hok|]. split_and!; try done; try apply H2.
    intros k'. rewrite Hat. cbn. destruct (decide (k' = k)) as [->|].
    + by rewrite lookup_delete_eq.
    + by rewrite lookup_delete_ne.
  - intros n db c (H0 & H1 & H2 & H3) Hc Hz. split; [|done].
    unfold mapStore_ok. cbn. split_and!; try done; [lia|]. by apply map_Forall_insert_2.
Defined.

(** The sample state, with a storage slot set, after a commit *)
Definition sampleDirty : State mapStore := State_setStorage sampleHash 5 1 77 (cacheState sampleCache).

Lemma sampleDirty_ok : state_ok sampleHash sampleDirty.
Proof. by apply (setStorage_ok sampleHash 5 1 77 (cacheState sampleCache) sampleState_ok). Qed.

Lemma sampleDirty_ready : commit_ready sampleHash sampleDirty.
Proof.
  assert (map_Forall (fun a acc => fits 160 a /\ fits 256 (m_codeHash acc) /\ fits 256 (m_storageRoot acc) /\
    m_storageRoot acc = EmptyTrie sampleHash /\ map_Forall (fun k _ => fits 256 k) (m_storageOverlay acc) /\
    isDirty acc = true) (m_cache sampleDirty)) as Hall by decide_closed.
  constructor.
  - split; [done|]. split; [apply Z.leb_le; vm_compute; reflexivity|]. split; apply map_Forall_empty.
  - split; [by right|done].
  - intros a acc Ha. destruct (Hall a acc Ha) as (? & ? & ? & ? & ? & Hd).
    split; [assumption|]. split; [|intros Hn; congruence]. constructor.
    + exact (ok_cache _ _ sampleDirty_ok a acc Ha).
    + assumption.
    + split; [assumption|left; assumption].
    + assumption.
  - intros a acc. unfold committed, sampleDirty. cbn [State_setStorage put set_cache m_db m_state].
    by rewrite cacheState_trie.
Qed.

