(* ===== verification/Executive.v ===== *)
(** * libelementrem/Executive.{h,cpp} and ExtVM.{h,cpp}

    The executive runs transactions, message calls and contract creations on a
    state; [ExtVM] is the implementation of [ExtVMFace] over that state, and calls
    the executive again for nested calls.  The recursion goes through the call
    depth, which the machine limits to 1024: [extVM n] serves an execution that
    has [n] levels of nesting left. *)

From Stdlib Require Import ZArith Lia.
From stdpp Require Import base list option gmap.
From S2P Require Import Prelude CommonData RLP FixedHash Instruction ExtVMFace VM Account State.
From S2P Require Import Transaction.

(** ** Precompiled contracts (libelecore/ChainOperationParams.{h,cpp})

    [pc_execute input output] is the output buffer after the execution. *)
Record PrecompiledContract := mkPrecompiled {
  pc_cost : Z -> Z;
  pc_execute : bytes -> bytes -> bytes
}.

(** [PrecompiledContract(base, word, exec)] *)
Definition wordPrecompiled (base word : Z) (exec : bytes -> bytes -> bytes) : PrecompiledContract :=
  mkPrecompiled (fun size => base + (size + 31) / 32 * word) exec.

(** [PrecompiledContract::cost]: the size is an [unsigned] *)
Definition precompiled_cost (c : PrecompiledContract) (input : bytes) : Z :=
  pc_cost c (u32 (sizeZ input)).

(** ** [ExtVM] objects *)

(** The environment, the member [sub] and the cache saved for [revert]. *)
Record ExtVM := mkExtVM {
  ev_env : ExtEnv;
  ev_sub : SubState;
  ev_origCache : gmap Address Account
}.

Definition set_sub (sub : SubState) (x : ExtVM) : ExtVM := mkExtVM (ev_env x) sub (ev_origCache x).

(** ** [Executive] objects

    The members, without the state and the transaction, which are arguments of
    the operations; [e_out] is the content of the buffer behind [m_outRef]. *)
Record Executive := mkExecutive {
  m_ext : option ExtVM;
  e_out : bytes;
  m_res : option ExecutionResult;
  m_newAddress : Address;
  m_isCreation : bool;
  m_excepted : TransactionException;
  m_gas : Z;
  m_refunded : Z;
  m_logs : list LogEntry
}.

(** [Executive(state, envInfo, sealEngine, level)] *)
Definition newExecutive (res : option ExecutionResult) : Executive :=
  mkExecutive None [] res 0 false TE_None 0 0 [].

(** [ExecutionResult()] *)
Definition newResult : ExecutionResult :=
  mkExecutionResult 0 TE_Unknown 0 [] CD_None 0 0 0.

(** [excepted()] *)
Definition excepted (e : Executive) : bool := bool_decide (m_excepted e <> TE_None).

(** Exceptions that leave [initialize] *)
Inductive exec_error :=
| EE_BlockGasLimitReached
| EE_OutOfGasBase
| EE_InvalidSignature
| EE_InvalidNonce
| EE_NotEnoughCash
| EE_State (e : state_error)
| EE_VM (e : vm_error).

#[export] Instance exec_error_eq_dec : EqDecision exec_error.
Proof. solve_decision. Defined.

(** An exception of the state, which is no [VMException], seen from the machine *)
Definition liftVM {A} (r : result state_error A) : result vm_error A :=
  match r with Ok a => Ok a | Throw _ => Throw Unexpected end.

Definition liftState {A} (r : result state_error A) : result exec_error A :=
  match r with Ok a => Ok a | Throw e => Throw (EE_State e) end.

Definition liftExec {A} (r : result vm_error A) : result exec_error A :=
  match r with Ok a => Ok a | Throw e => Throw (EE_VM e) end.

(** [rlpList(sender, nonce)] for an address and a number *)
Definition creationRLP (a : Address) (nonce : Z) : result rlp_error bytes :=
  s0 ← RLPStream.appendList RLPStream.empty 2;
  s1 ← RLPStream.appendHash s0 (ofArith 20 a) false false;
  s2 ← RLPStream.appendInt s1 nonce;
  RLPStream.out s2.

Section Executive.
Context {DB : Type} `{TrieStore DB}.
(** [sha3] of libdevcore/SHA3.cpp *)
Variable sha3 : bytes -> bytes.
(** The chain parameters of the seal engine and the block environment *)
Variable precompiled : gmap Address PrecompiledContract.
Variable sch : EVMSchedule.
Variable ei : EnvInfo.
(** In [m_cache[a] = Account(..., balance(a), ...)] the order in which the two
    sides are evaluated is left to the compiler: whether the left one is first. *)
Variable lhsFirst : bool.

(** The world of a machine: the state and the sub-state of its [ExtVM] *)
Abbreviation World := (State DB * SubState)%type.

(** The constructor of [ExtVM] *)
Definition makeExtVM (env : ExtEnv) (s : State DB) : result state_error (ExtVM * State DB) :=
  s1 ← ensureCached sha3 (myAddress env) true true s;
  Ok (mkExtVM env emptySubState (m_cache s), s1).

(** [Executive::call(CallParameters, gasPrice, origin)] at depth [d], on a fresh
    executive with results [res].  The operation is finished unless [m_ext] is
    set. *)
Definition Executive_call (res : option ExecutionResult) (d : Z) (p : CallParameters)
    (gasPrice_ : Z) (origin_ : Address) (s : State DB) : result state_error (Executive * State DB) :=
  match precompiled !! codeAddress p with
  | Some c =>
      let g := precompiled_cost c (cdata p) in
      if gas p <? g
      then Ok (mkExecutive None (out p) res 0 false TE_OutOfGasBase 0 0 [], s)
      else
        let o := pc_execute c (cdata p) (out p) in
        s1 ← transferBalance sha3 (senderAddress p) (receiveAddress p) (valueTransfer p) s;
        Ok (mkExecutive None o res 0 false TE_None (u256 (gas p - g)) 0 [], s1)
  | None =>
      '(has, s1) ← addressHasCode sha3 (codeAddress p) s;
      '(ext, s2) ←
        (if has : bool then
           '(c, s2) ← State.code sha3 (codeAddress p) s1;
           '(_, s3) ← codeHash sha3 (codeAddress p) s2;
           '(x, s4) ← makeExtVM (mkExtEnv ei (receiveAddress p) (senderAddress p) origin_
                                   (apparentValue p) gasPrice_ (cdata p) c d) s3;
           Ok (Some x, s4)
         else Ok (None, s1));
      s3 ← transferBalance sha3 (senderAddress p) (receiveAddress p) (valueTransfer p) s2;
      Ok (mkExecutive ext (out p) res 0 false TE_None (gas p) 0 [], s3)
  end.

(** [m_s.m_cache[m_newAddress] = Account(requireAccountStartNonce(),
    balance(m_newAddress), ContractConception)] *)
Definition conceive (a : Address) (s : State DB) : result state_error (State DB) :=
  let s1 := if lhsFirst then put a (default (deadAccount sha3) (m_cache s !! a)) s else s in
  n ← requireAccountStartNonce s1;
  '(b, s2) ← balance sha3 a s1;
  Ok (put a (newAccount sha3 n b ContractConception Changed) s2).

(** [m_cache[a].setCode(c)] *)
Definition installCode (a : Address) (c : bytes) (s : State DB) : State DB :=
  put a (setCode c (default (deadAccount sha3) (m_cache s !! a))) s.

(** [Executive::create] *)
Definition Executive_create (res : option ExecutionResult) (d : Z) (sender_ : Address)
    (endowment gasPrice_ gas_ : Z) (init : bytes) (origin_ : Address) (s : State DB)
  : result state_error (Executive * State DB) :=
  '(n, s1) ← transactionsFrom sha3 sender_ s;
  r ← liftRLP (creationRLP sender_ (u256 (n - 1)));
  let newAddress := toArith (right160 (sha3 r)) in
  '(ext, s2) ←
    (if negb (sizeZ init =? 0) then
       '(x, s2) ← makeExtVM (mkExtEnv ei newAddress sender_ origin_ endowment gasPrice_ [] init d) s1;
       Ok (Some x, s2)
     else Ok (None, s1));
  s3 ← conceive newAddress s2;
  s4 ← transferBalance sha3 sender_ newAddress endowment s3;
  let s5 := if sizeZ init =? 0 then installCode newAddress [] s4 else s4 in
  Ok (mkExecutive ext [] res newAddress true TE_None gas_ 0 [], s5).

(** *** [Executive::go] *)

(** [m_ext->revert()] and the other effects of a [VMException] *)
Definition go_failed (x : ExtVM) (err : vm_error) (res : option ExecutionResult) (e : Executive)
    (s : State DB) : Executive * State DB :=
  (mkExecutive (Some (set_sub emptySubState x)) (e_out e) res
     (if m_isCreation e then 0 else m_newAddress e) (m_isCreation e) (toTransactionException err)
     0 (m_refunded e) (m_logs e),
   set_cache (ev_origCache x) s).

(** The code deposit after the initialisation code of a creation has returned
    [o] with [g] gas left *)
Definition go_created (x : ExtVM) (o : bytes) (g : Z) (e : Executive) (s0 s : State DB)
  : Executive * State DB :=
  let fee := u256 (sizeZ o * createDataGas sch) in
  let note f := option_map f (m_res e) in
  let finish cd g' o' :=
    (mkExecutive (Some x) (e_out e)
       (note (fun r => mkExecutionResult (er_gasUsed r) (er_excepted r) (er_newAddress r) o' cd
                         (er_gasRefunded r) (u32 (sizeZ o)) g))
       (m_newAddress e) (m_isCreation e) (m_excepted e) g' (m_refunded e) (m_logs e),
     installCode (m_newAddress e) o' s) in
  if fee <=? g then finish CD_Success (u256 (g - fee)) o
  else if exceptionalFailedCodeDeposit sch
  then go_failed x OutOfGas
         (note (fun r => mkExecutionResult (er_gasUsed r) (er_excepted r) (er_newAddress r)
                           (er_output r) (er_codeDeposit r) (er_gasRefunded r) (u32 (sizeZ o)) g))
         e s0
  else finish CD_Failed g [].

(** [Executive::go], with the machine [exec].  The exceptions of the machine
    undo all changes of the state: the cache is the saved one, and the rest of
    the state is not changed by any operation of the machine.  An exception of
    another kind is passed on. *)
Definition Executive_go (exec : ExtEnv -> Z -> World -> option (result vm_error (bytes * Z * World)))
    (e : Executive) (s : State DB) : result vm_error (Executive * State DB) :=
  match m_ext e with
  | None => Ok (e, s)
  | Some x =>
      match exec (ev_env x) (m_gas e) (s, ev_sub x) with
      | None => Throw UB
      | Some (Throw UB) => Throw UB
      | Some (Throw Unexpected) => Throw Unexpected
      | Some (Throw err) => Ok (go_failed x err (m_res e) e s)
      | Some (Ok (o, g, (s1, sub))) =>
          let x1 := set_sub sub x in
          if m_isCreation e then Ok (go_created x1 o g e s s1)
          else
            Ok (mkExecutive (Some x1) (copyTo o (e_out e))
                  (option_map (fun r => mkExecutionResult (er_gasUsed r) (er_excepted r)
                     (er_newAddress r) o (er_codeDeposit r) (er_gasRefunded r)
                     (er_depositSize r) (er_gasForDeposit r)) (m_res e))
                  (m_newAddress e) (m_isCreation e) (m_excepted e) g (m_refunded e) (m_logs e), s1)
      end
  end.

(** [Executive::accrueSubState] *)
Definition accrueSubState (e : Executive) (parent : SubState) : SubState :=
  match m_ext e with Some x => accrue parent (ev_sub x) | None => parent end.

(** *** [ExtVM]: the externalities over the state *)

(** [ExtVM::suicide] *)
Definition ExtVM_suicide (env : ExtEnv) (a : Address) (w : World) : result vm_error World :=
  let '(s, sub) := w in
  '(b, s1) ← liftVM (balance sha3 (myAddress env) s);
  s2 ← liftVM (State_addBalance sha3 a b s1);
  '(b', s3) ← liftVM (balance sha3 (myAddress env) s2);
  s4 ← liftVM (subBalance sha3 (myAddress env) b' s3);
  Ok (s4, mkSubState ({[myAddress env]} ∪ suicides sub) (logs sub) (refunds sub)).

(** [ExtVM::call], nested executions being run by [exec] *)
Definition ExtVM_call (exec : ExtEnv -> Z -> World -> option (result vm_error (bytes * Z * World)))
    (env : ExtEnv) (p : CallParameters) (w : World) : result vm_error (bool * Z * bytes * World) :=
  let '(s, sub) := w in
  '(e, s1) ← liftVM (Executive_call None (depth env + 1) p (gasPrice env) (origin env) s);
  '(e', s2, sub') ←
    (match m_ext e with
     | Some _ => '(e', s2) ← Executive_go exec e s1; Ok (e', s2, accrueSubState e' sub)
     | None => Ok (e, s1, sub)
     end);
  Ok (negb (excepted e'), m_gas e', e_out e', (s2, sub')).

(** [ExtVM::create] *)
Definition ExtVM_create (exec : ExtEnv -> Z -> World -> option (result vm_error (bytes * Z * World)))
    (env : ExtEnv) (endowment io_gas : Z) (init : bytes) (w : World)
  : result vm_error (Address * Z * World) :=
  let '(s, sub) := w in
  s0 ← liftVM (noteSending sha3 (myAddress env) s);
  '(e, s1) ← liftVM (Executive_create None (depth env + 1) (myAddress env) endowment (gasPrice env)
                       io_gas init (origin env) s0);
  '(e', s2, sub') ←
    (match m_ext e with
     | Some _ => '(e', s2) ← Executive_go exec e s1; Ok (e', s2, accrueSubState e' sub)
     | None => Ok (e, s1, sub)
     end);
  Ok (m_newAddress e', m_gas e', (s2, sub')).

(** The machine at every depth: [n] levels of nesting are left *)
Fixpoint extVM (n : nat) (env : ExtEnv) : ExtVMFace World :=
  let exec env' g w :=
    match n with
    | O => None
    | S n' => execImpl (H := extVM n' env') sha3 sch env' g w
    end in {|
  ext_store k w := '(v, s) ← liftVM (storage sha3 (myAddress env) k w.1); Ok (v, (s, w.2));
  ext_setStore k v w := (State_setStorage sha3 (myAddress env) k v w.1, w.2);
  ext_balance a w := '(v, s) ← liftVM (balance sha3 a w.1); Ok (v, (s, w.2));
  ext_codeAt a w := '(c, s) ← liftVM (State.code sha3 a w.1); Ok (c, (s, w.2));
  ext_exists a w := '(b, s) ← liftVM (addressInUse sha3 a w.1); Ok (b, (s, w.2));
  ext_suicide a w := ExtVM_suicide env a w;
  ext_create v g c w := ExtVM_create exec env v g c w;
  ext_call p w := ExtVM_call exec env p w;
  ext_sub w := w.2;
  ext_setSub sub w := (w.1, sub)
|}.

(** The machine that runs an execution with [n] levels of nesting left *)
Definition execAt (n : nat) (env : ExtEnv) (g : Z) (w : World)
  : option (result vm_error (bytes * Z * World)) :=
  execImpl (H := extVM n env) sha3 sch env g w.

(** *** Transactions *)

(** [recover] of libdevcrypto *)
Variable recover : SignatureStruct -> bytes -> option bytes.

(** [Executive::initialize]; the base gas and the gas cost are the members that
    it sets *)
Definition initialize (t : Transaction) (s : State DB)
  : result exec_error (Address * Z * Z * State DB) :=
  if gasLimit ei <? gasUsed ei + tx_gas t then Throw EE_BlockGasLimitReached
  else
    let baseGasRequired := gasRequired (isCreation t) (tx_data t) sch 0 in
    if tx_gas t <? baseGasRequired then Throw EE_OutOfGasBase
    else
      match sender sha3 recover t with
      | Throw _ => Throw EE_InvalidSignature
      | Ok a =>
          '(nonceReq, s1) ← liftState (transactionsFrom sha3 a s);
          if negb (tx_nonce t =? nonceReq) then Throw EE_InvalidNonce
          else
            let gasCost := tx_gas t * tx_gasPrice t in
            let totalCost := tx_value t + gasCost in
            '(b, s2) ← liftState (balance sha3 a s1);
            if b <? totalCost then Throw EE_NotEnoughCash
            else Ok (a, baseGasRequired, gasCost, s2)
      end.

(** [Executive::execute] *)
Definition Executive_execute (res : option ExecutionResult) (t : Transaction) (a : Address)
    (baseGasRequired gasCost : Z) (s : State DB) : result state_error (Executive * State DB) :=
  s1 ← noteSending sha3 a s;
  s2 ← subBalance sha3 a gasCost s1;
  let g := u256 (tx_gas t - u256 baseGasRequired) in
  if isCreation t
  then Executive_create res 0 a (tx_value t) (tx_gasPrice t) g (tx_data t) a s2
  else Executive_call res 0
         {| senderAddress := a; codeAddress := tx_receiveAddress t;
            receiveAddress := tx_receiveAddress t; valueTransfer := tx_value t;
            apparentValue := tx_value t; gas := g; cdata := tx_data t; out := [] |}
         (tx_gasPrice t) a s2.

(** The loop over the suicides of [finalize] *)
Definition killAll (l : list Address) (s : State DB) : State DB :=
  foldl (fun s a => put a (kill sha3 (default (deadAccount sha3) (m_cache s !! a))) s) s l.

(** The refunds booked for suicides *)
Definition withSuicideRefunds (e : Executive) : Executive :=
  mkExecutive
    (option_map (fun x =>
       let sub := ev_sub x in
       set_sub (mkSubState (suicides sub) (logs sub)
                  (u256 (refunds sub +
                         u256 (suicideRefundGas sch * Z.of_nat (size (suicides sub)))))) x) (m_ext e))
    (e_out e) (m_res e) (m_newAddress e) (m_isCreation e) (m_excepted e) (m_gas e) (m_refunded e)
    (m_logs e).

(** [Executive::finalize] for the transaction [t] of the sender [a] *)
Definition finalize (t : Transaction) (a : Address) (e0 : Executive) (s : State DB)
  : result state_error (Executive * State DB) :=
  let e := withSuicideRefunds e0 in
  let refunded :=
    match m_ext e with
    | Some x => Z.min (u256 (tx_gas t - m_gas e) / 2) (refunds (ev_sub x))
    | None => 0
    end in
  let g := u256 (m_gas e + refunded) in
  s2 ← (if decide (m_type t <> NullTransaction) then
          s1 ← State_addBalance sha3 a (u256 (g * tx_gasPrice t)) s;
          State_addBalance sha3 (author ei) (u256 (u256 (tx_gas t - g) * tx_gasPrice t)) s1
        else Ok s);
  let s3 := match m_ext e with
            | Some x => killAll (elements (suicides (ev_sub x))) s2
            | None => s2
            end in
  let logs_ := match m_ext e with Some x => logs (ev_sub x) | None => m_logs e end in
  Ok (mkExecutive (m_ext e) (e_out e)
        (option_map (fun r => mkExecutionResult (u256 (tx_gas t - g)) (m_excepted e)
           (m_newAddress e) (er_output r) (er_codeDeposit r)
           (match m_ext e with Some x => refunds (ev_sub x) | None => 0 end)
           (er_depositSize r) (er_gasForDeposit r)) (m_res e))
        (m_newAddress e) (m_isCreation e) (m_excepted e) g refunded logs_, s3).

(** [Executive::gasUsed] *)
Definition executive_gasUsed (t : Transaction) (e : Executive) : Z := u256 (tx_gas t - m_gas e).

(** [initialize], [execute], [go] and [finalize], as [State::execute] calls them *)
Definition runTransaction (t : Transaction) (s : State DB)
  : result exec_error (Executive * State DB) :=
  '(a, base, cost, s1) ← initialize t s;
  '(e, s2) ← liftState (Executive_execute (Some newResult) t a base cost s1);
  '(e', s3) ← liftExec (Executive_go (execAt 1024) e s2);
  liftState (finalize t a e' s3).

(** [State::execute] *)
Definition State_execute (t : Transaction) (p : Permanence) (s : State DB)
  : result exec_error (ExecutionResult * TransactionReceipt * State DB) :=
  '(e, s1) ← runTransaction t s;
  s2 ← match p with
       | Reverted => Ok (set_cache ∅ s1)
       | Committed => liftState (commit sha3 s1)
       end;
  Ok (default newResult (m_res e),
      newReceipt sha3 (m_state s2) (u256 (gasUsed ei + executive_gasUsed t e)) (m_logs e), s2).
End Executive.
