(* ===== verification/ExecutiveTheory.v ===== *)
(** * The executive: nested executions are safe and create no money

    The class [ExtVMLaws], against which the machine is proved safe, is discharged
    for the implementation of the externalities over the account state, by
    induction on the levels of nesting that are left.  With it come the theorems
    on message calls, contract creations and whole transactions. *)

From Stdlib Require Import ZArith Lia.
From stdpp Require Import base list list_numbers option gmap.
From S2P Require Import Prelude CommonData RLP RLPTheory FixedHash Instruction ExtVMFace VM.
From S2P Require Import VMTheory Account State Transaction StateTheory Executive.

(** ** Sums of balances *)

Definition sumOf (f : Z -> Z) (l : list Z) : Z := foldr (fun a t => f a + t) 0 l.

Lemma sumOf_ext f g l : (forall a, a ∈ l -> f a = g a) -> sumOf f l = sumOf g l.
Proof.
  induction l as [|x l IH]; intros Hfg; [done|]. cbn [sumOf foldr].
  rewrite (Hfg x) by left. f_equal. apply IH. intros a Ha. apply Hfg. by right.
Qed.

Lemma sumOf_le f g l : (forall a, a ∈ l -> f a <= g a) -> sumOf f l <= sumOf g l.
Proof.
  induction l as [|x l IH]; intros Hfg; [done|]. cbn [sumOf foldr].
  assert (f x <= g x) by (apply Hfg; left).
  assert (sumOf f l <= sumOf g l) by (apply IH; intros a Ha; apply Hfg; by right).
  unfold sumOf in *. lia.
Qed.

Lemma sumOf_update f g l a :
  NoDup l -> a ∈ l -> (forall b, b ∈ l -> b <> a -> g b = f b) ->
  sumOf g l = sumOf f l - f a + g a.
Proof.
  induction l as [|x l IH]; intros Hnd Ha Hfg; [by apply elem_of_nil in Ha|].
  apply NoDup_cons in Hnd as [Hx Hnd]. cbn [sumOf foldr]. apply elem_of_cons in Ha as [->|Ha].
  - assert (sumOf g l = sumOf f l) as E.
    { apply sumOf_ext. intros b Hb. apply Hfg; [by right|]. by intros ->. }
    unfold sumOf in *. lia.
  - assert (g x = f x) by (apply Hfg; [left|]; by intros ->).
    assert (sumOf g l = sumOf f l - f a + g a).
    { apply IH; [done|done|]. intros b Hb. apply Hfg. by right. }
    unfold sumOf in *. lia.
Qed.

(** All addresses of 160 bits; the list is sealed, since it must not be computed. *)
Lemma addresses_sealed : { l : list Address | l = seqZ 0 (2 ^ 160) }.
Proof. by eexists. Qed.

Definition addresses : list Address := proj1_sig addresses_sealed.

Lemma addresses_eq : addresses = seqZ 0 (2 ^ 160).
Proof. exact (proj2_sig addresses_sealed). Qed.

Lemma addresses_spec a : a ∈ addresses <-> fits 160 a.
Proof. rewrite addresses_eq, elem_of_seqZ. unfold fits. lia. Qed.

Lemma addresses_NoDup : NoDup addresses.
Proof. rewrite addresses_eq. apply NoDup_seqZ. Qed.

Section Supply.
Context {DB : Type} `{TrieStore DB}.
Variable sha3 : bytes -> bytes.

(** The sum of all balances *)
Definition supply (s : State DB) : Z := sumOf (bal s) addresses.

Lemma supply_le s s' : (forall a, fits 160 a -> bal s' a <= bal s a) -> supply s' <= supply s.
Proof. intros Hle. unfold supply. apply sumOf_le. intros a Ha. by apply Hle, addresses_spec. Qed.

Lemma supply_same s s' : (forall a, bal s' a = bal s a) -> supply s' = supply s.
Proof. intros He. unfold supply. apply sumOf_ext. auto. Qed.

Lemma supply_set s s' a v : fits 160 a -> balance_set sha3 s s' a v ->
  supply s' = supply s - bal s a + v.
Proof.
  intros Ha [_ _ Hb _ _ _]. unfold supply.
  rewrite (sumOf_update (bal s) (bal s') addresses a addresses_NoDup).
  - by rewrite (Hb a), decide_True.
  - by apply addresses_spec.
  - intros b _ Hne. by rewrite Hb, decide_False.
Qed.

(** [s'] comes from [s] without a change of the trie, with at least the same
    accounts in the cache, and without any money created. *)
Record evolves (s s' : State DB) : Prop := {
  ev_ok : state_ok sha3 s';
  ev_base : same_base s s';
  ev_supply : supply s' <= supply s
}.

Lemma evolves_refl s : state_ok sha3 s -> evolves s s.
Proof. by intros; constructor. Qed.

Lemma evolves_trans s1 s2 s3 : evolves s1 s2 -> evolves s2 s3 -> evolves s1 s3.
Proof. intros [] []. constructor; [done|by etrans|lia]. Qed.

Lemma evolves_same s s' : state_ok sha3 s' -> same_contents s s' -> evolves s s'.
Proof.
  intros Hs Hc. constructor; [done|apply Hc|]. rewrite (supply_same s s'); [lia|].
  intros a. by apply same_contents_bal.
Qed.

Lemma evolves_cached s s' a :
  evolves s s' -> is_Some (m_cache s !! a) -> is_Some (m_cache s' !! a).
Proof.
  intros [_ (_ & _ & _ & _ & Hd) _] Ha. apply elem_of_dom, Hd. by apply elem_of_dom.
Qed.

Lemma cached_peek (s : State DB) a : is_Some (m_cache s !! a) -> is_Some (peek s a).
Proof. intros [x Hx]. exists x. unfold peek. by rewrite Hx. Qed.

Lemma reads_evolves {A} s (r : result state_error (A * State DB)) v :
  reads_as sha3 s r v -> exists s', r = Ok (v, s') /\ evolves s s' /\ same_contents s s'.
Proof. intros (s' & Hr & Hs' & Hc). exists s'. split_and!; [done|by apply evolves_same|done]. Qed.

Lemma u256_le x : 0 <= x -> u256 x <= x.
Proof. intros Hx. apply Z.mod_le; [done|]. by apply Z.ltb_lt. Qed.

(** A transfer creates no money, whatever the receiver. *)
Lemma transfer_evolves s from to v :
  state_ok sha3 s -> fits 160 from -> fits 160 to -> is_Some (peek s from) -> 0 <= v <= bal s from ->
  exists s', transferBalance sha3 from to v s = Ok s' /\ evolves s s'.
Proof.
  intros Hs Hf Ht Hp Hv. pose proof (bal_fits sha3 s from Hs) as [_ Hlt].
  destruct (subBalance_ok sha3 from v s Hs Hp Hv) as (s1 & E1 & H1).
  pose proof H1 as [Hs1 Hb1 Hbal1 _ _ _].
  destruct (addBalance_ok sha3 to v s1 Hs1) as (s2 & E2 & H2); [unfold fits; lia|].
  pose proof H2 as [Hs2 Hb2 _ _ _ _].
  exists s2. unfold transferBalance. rewrite E1, bind_Ok_l. split; [done|].
  constructor; [done|by etrans|].
  rewrite (supply_set s1 s2 to _ Ht H2), (supply_set s s1 from _ Hf H1).
  pose proof (bal_fits sha3 s1 to Hs1) as [Hge _]. pose proof (u256_le (bal s1 to + v)). lia.
Qed.

Lemma add_evolves s a v :
  state_ok sha3 s -> fits 160 a -> fits 256 v ->
  exists s', State_addBalance sha3 a v s = Ok s' /\ state_ok sha3 s' /\ same_base s s' /\
    supply s' <= supply s + v /\ balance_set sha3 s s' a (u256 (bal s a + v)).
Proof.
  intros Hs Ha Hv. destruct (addBalance_ok sha3 a v s Hs Hv) as (s' & E & Hb).
  exists s'. pose proof Hb as [Hs' Hbase _ _ _ _]. split_and!; try done.
  rewrite (supply_set s s' a _ Ha Hb). pose proof (bal_fits sha3 s a Hs) as [Hge _].
  destruct Hv as [Hv _]. pose proof (u256_le (bal s a + v)). lia.
Qed.
End Supply.

(** ** The pieces of a nested execution *)

(** What the code relies on for a precompiled contract: a cost that is not
    negative, and an execution that writes within its output buffer. *)
Definition precompiled_ok (c : PrecompiledContract) : Prop :=
  (forall n, 0 <= n -> 0 <= pc_cost c n) /\
  forall i o, wf_bytes i -> wf_bytes o ->
    length (pc_execute c i o) = length o /\ wf_bytes (pc_execute c i o).

(** A block environment with all fields within their widths *)
Definition info_wf (ei : EnvInfo) : Prop :=
  fits 256 (number ei) /\ fits 160 (author ei) /\ fits 256 (timestamp ei) /\
  fits 256 (difficulty ei) /\ fits 256 (gasLimit ei) /\
  Forall (fits 256) (lastHashes ei) /\ 256 <= sizeZ (lastHashes ei).

Section Frames.
Context {DB : Type} `{TrieStore DB}.
Variables (sha3 : bytes -> bytes) (precompiled : gmap Address PrecompiledContract).
Variables (efcd hdc : bool) (txc : Z) (ei : EnvInfo) (lhsFirst : bool).
Abbreviation sch := (newSchedule efcd hdc txc).
(** Keccak-256 gives a digest of 32 bytes. *)
Hypothesis Hsha3 : forall d, wf_bytes (sha3 d) /\ length (sha3 d) = 32%nat.
Hypothesis Hpre : map_Forall (fun _ c => precompiled_ok c) precompiled.
Hypothesis Hei : info_wf ei.

Abbreviation World := (State DB * SubState)%type.
Abbreviation evolves := (evolves sha3).
Abbreviation state_ok := (state_ok sha3).

(** Restoring the saved cache gives back the state that it was saved from. *)
Lemma revert_eq (s s1 : State DB) : same_base s s1 -> set_cache (m_cache s) s1 = s.
Proof. destruct s, s1. intros (? & ? & ? & ? & _). cbn in *. by subst. Qed.

(** An [ExtVM] that is ready to run, for an operation that started in [s] and
    has reached [s1]: reverting gives a state with the contents of [s]. *)
Record ready (d : Z) (s s1 : State DB) (x : ExtVM) : Prop := {
  rd_env : env_wf (ev_env x);
  rd_depth : depth (ev_env x) = d;
  rd_my : is_Some (m_cache s1 !! myAddress (ev_env x));
  rd_caller : is_Some (m_cache s1 !! caller (ev_env x));
  rd_sub : ev_sub x = emptySubState;
  rd_ok : state_ok (set_cache (ev_origCache x) s1);
  rd_revert : same_contents s (set_cache (ev_origCache x) s1)
}.

Lemma makeExtVM_ok env s : state_ok s -> env_wf env -> is_Some (m_cache s !! caller env) ->
  exists x s1, makeExtVM sha3 env s = Ok (x, s1) /\ evolves s s1 /\ (forall b, bal s1 b = bal s b) /\
    x = mkExtVM env emptySubState (m_cache s) /\ is_Some (m_cache s1 !! myAddress env) /\
    is_Some (m_cache s1 !! caller env).
Proof.
  intros Hs He Hc.
  destruct (ensureCached_create sha3 (myAddress env) s Hs)
    as (s1 & acc & E & Hs1 & Hb & Hacc & Hbal & _).
  exists (mkExtVM env emptySubState (m_cache s)), s1. unfold makeExtVM. rewrite E, bind_Ok_l.
  assert (evolves s s1) as Hev.
  { constructor; [done|done|]. by rewrite (supply_same s s1). }
  split_and!; try done. by apply (evolves_cached sha3 s).
Qed.

Lemma ready_later d s s0 s1 env :
  state_ok s0 -> same_contents s s0 -> env_wf env -> depth env = d ->
  same_base s0 s1 -> is_Some (m_cache s1 !! myAddress env) -> is_Some (m_cache s1 !! caller env) ->
  ready d s s1 (mkExtVM env emptySubState (m_cache s0)).
Proof.
  intros Hs0 Hc He Hd Hb Hmy Hca. constructor; try done; cbn [ev_origCache]; by rewrite revert_eq.
Qed.

(** *** Message calls *)

Lemma cost_nonneg a c d : precompiled !! a = Some c -> 0 <= precompiled_cost c d.
Proof. intros Hc. apply (Hpre a c Hc). by apply wrap_fits. Qed.

Lemma not_excepted e : m_excepted e = TE_None -> excepted e = false.
Proof. intros He. unfold excepted. apply bool_decide_false. intros Hn. by apply Hn. Qed.

(** What [Executive_call] and [Executive_create] give *)
Record started (d : Z) (s : State DB) (g : Z) (e : Executive) (s1 : State DB) : Prop := {
  st_evolves : evolves s s1;
  st_gas : 0 <= m_gas e <= g;
  st_out : wf_bytes (e_out e);
  st_ready : forall x, m_ext e = Some x -> ready d s s1 x;
  st_create : forall x, m_ext e = Some x -> m_isCreation e = true ->
    myAddress (ev_env x) = m_newAddress e;
  st_excepted : forall x, m_ext e = Some x -> m_excepted e = TE_None;
  st_failed : excepted e = true -> m_gas e = 0 /\ same_contents s s1;
  st_address : fits 160 (m_newAddress e)
}.

Lemma call_env_wf p c gp o d :
  fits 160 (senderAddress p) -> fits 160 (receiveAddress p) -> fits 160 o ->
  fits 256 (apparentValue p) -> fits 256 gp -> wf_bytes (cdata p) -> sizeZ (cdata p) < 2 ^ 32 ->
  wf_bytes c -> sizeZ c < 2 ^ 32 ->
  env_wf (mkExtEnv ei (receiveAddress p) (senderAddress p) o (apparentValue p) gp (cdata p) c d).
Proof. intros. destruct Hei as (? & ? & ? & ? & ? & ? & ?). by split_and!. Qed.

Lemma Executive_call_ok res d p gp o s :
  state_ok s -> fits 160 (senderAddress p) -> fits 160 (receiveAddress p) -> fits 160 o ->
  fits 256 (apparentValue p) -> fits 256 gp -> wf_bytes (cdata p) -> sizeZ (cdata p) < 2 ^ 32 ->
  wf_bytes (out p) -> is_Some (m_cache s !! senderAddress p) ->
  0 <= valueTransfer p <= bal s (senderAddress p) -> 0 <= gas p < gasBound ->
  exists e s1, Executive_call sha3 precompiled ei res d p gp o s = Ok (e, s1) /\
    started d s (gas p) e s1 /\ length (e_out e) = length (out p) /\ m_isCreation e = false.
Proof.
  intros Hs Hsa Hra Ho Hav Hgp Hcd Hcz Hout Hcached Hv Hg. unfold Executive_call.
  destruct (precompiled !! codeAddress p) as [c|] eqn:Epc.
  - pose proof (cost_nonneg _ _ (cdata p) Epc) as Hcost. destruct (Hpre _ _ Epc) as [_ Hex].
    destruct (Hex (cdata p) (out p) Hcd Hout) as [Hl Hw].
    destruct (Z.ltb_spec (gas p) (precompiled_cost c (cdata p))) as [Hlt|Hge].
    + eexists _, _. split; [done|]. split; [|done]. constructor; try done; cbn [m_gas]; lia.
    + destruct (transfer_evolves sha3 s (senderAddress p) (receiveAddress p) (valueTransfer p))
        as (s1 & -> & Hev); [done..|by apply cached_peek|done|].
      rewrite bind_Ok_l. eexists _, _. split; [done|]. split; [|done].
      assert (gasBound < 2 ^ 256) by (by apply Z.ltb_lt).
      constructor; try done. cbn [m_gas]. rewrite wrap_id by (unfold fits; lia). lia.
  - destruct (reads_evolves sha3 s _ _ (addressHasCode_reads sha3 (codeAddress p) s Hs))
      as (s1 & -> & Hev1 & Hc1). rewrite bind_Ok_l. destruct (hasCode sha3 s (codeAddress p)).
    2:{ rewrite bind_Ok_l. pose proof (evolves_cached _ _ _ _ Hev1 Hcached) as Hcached1.
        destruct (transfer_evolves sha3 s1 (senderAddress p) (receiveAddress p) (valueTransfer p))
          as (s2 & -> & Hev2); [apply Hev1|done|done|by apply cached_peek|
            by rewrite (same_contents_bal s s1)|].
        rewrite bind_Ok_l. eexists _, _. split; [done|]. split; [|done].
        constructor; try done; cbn [m_gas]; [by eapply evolves_trans|lia]. }
    destruct (code_reads sha3 (codeAddress p) s1 (ev_ok _ _ _ Hev1)) as (c & Hr & Hcw & Hcs).
    destruct (reads_evolves sha3 s1 _ _ Hr) as (s2 & -> & Hev2 & Hc2). rewrite bind_Ok_l.
    destruct (codeHash_reads sha3 (codeAddress p) s2 (ev_ok _ _ _ Hev2)) as (h & Hh).
    destruct (reads_evolves sha3 s2 _ _ Hh) as (s3 & -> & Hev3 & Hc3). rewrite bind_Ok_l.
    set (env := mkExtEnv _ _ _ _ _ _ _ _ _).
    pose proof (evolves_trans _ _ _ _ Hev1 (evolves_trans _ _ _ _ Hev2 Hev3)) as Hev.
    assert (same_contents s s3) as Hc by (etrans; [exact Hc1|]; by etrans).
    pose proof (evolves_cached _ _ _ _ Hev Hcached) as Hca.
    destruct (makeExtVM_ok env s3 (ev_ok _ _ _ Hev)) as (x & s4 & -> & Hev4 & Hb4 & -> & Hmy & Hcl);
      [by apply call_env_wf|done|].
    rewrite !bind_Ok_l.
    destruct (transfer_evolves sha3 s4 (senderAddress p) (receiveAddress p) (valueTransfer p))
      as (s5 & -> & Hev5);
      [apply Hev4|done|done|by apply cached_peek|by rewrite Hb4, (same_contents_bal s s3)|].
    rewrite bind_Ok_l. eexists _, _. split; [done|]. split; [|done].
    constructor; try done; cbn [m_gas m_ext]; [by do 2 (eapply evolves_trans; [eassumption|])|lia|].
    intros x [= <-]. apply ready_later; try done.
    + apply Hev.
    + etrans; [apply Hev4|apply Hev5].
    + by apply (evolves_cached sha3 s4).
    + by apply (evolves_cached sha3 s4).
Qed.

(** *** Contract creations *)

Lemma creationRLP_ok a n : fits 256 n -> exists r, creationRLP a n = Ok r.
Proof.
  intros Hn. destruct (ofArith_hash 20 a) as [Hw Hz].
  destruct (small_items [Str (ofArith 20 a); int_item n]) as [_ Hf].
  { apply Forall_cons_2; [apply small_Str; [done|lia]|].
    apply Forall_cons_2; [by apply small_int|by apply Forall_nil_2]. }
  { by vm_compute. }
  exists (encode (Lst [Str (ofArith 20 a); int_item n])). rewrite <-stream_items by done.
  unfold creationRLP. apply bind_ext; [done|]. intros s0. cbn [appendItems]. rewrite !bind_assoc.
  apply bind_ext; [done|]. intros s1. rewrite !bind_assoc.
  apply bind_ext; [by apply (appendInt_item _ _ 32)|]. intros s2. by rewrite bind_Ok_l.
Qed.

Lemma newAddress_fits r : fits 160 (toArith (right160 (sha3 r))).
Proof.
  destruct (Hsha3 r) as [Hw Hl]. apply (toArith_fits _ 20).
  - by apply Forall_take, Forall_drop.
  - unfold right160. rewrite length_take, length_drop, Hl. done.
Qed.

(** The left-hand side evaluated early: an entry for [a] in the cache, whose
    balance is lost if [a] was only in the trie. *)
Lemma touch_ok a s : state_ok s ->
  let s1 := if lhsFirst then put a (default (deadAccount sha3) (m_cache s !! a)) s else s in
  evolves s s1 /\ (forall b, b <> a \/ is_Some (m_cache s !! a) -> bal s1 b = bal s b).
Proof.
  intros Hs. destruct lhsFirst; cbn zeta.
  2:{ split; [by apply evolves_refl|done]. }
  set (acc := default _ _).
  assert (acc_ok (m_db s) acc) as Hok.
  { subst acc. destruct (m_cache s !! a) as [x|] eqn:E; cbn; [by apply (ok_cache _ _ Hs a)|].
    by apply deadAccount_ok. }
  assert (forall b, b <> a \/ is_Some (m_cache s !! a) -> bal (put a acc s) b = bal s b) as Hb.
  { intros b Hb. unfold bal. rewrite peek_put. destruct (decide (b = a)) as [->|]; [|done].
    destruct Hb as [?|[x Hx]]; [done|]. unfold peek. subst acc. by rewrite Hx. }
  split; [|done]. constructor; [by apply put_ok|apply put_base|]. apply supply_le. intros b _.
  destruct (decide (b = a)) as [->|]; [|rewrite Hb by auto; lia].
  destruct (m_cache s !! a) as [x|] eqn:E; [rewrite Hb by eauto; lia|].
  unfold bal at 1. rewrite peek_put, decide_True by done. subst acc. cbn.
  apply (bal_fits sha3 s a Hs).
Qed.

Lemma conceive_ok a s : state_ok s ->
  exists s', conceive sha3 lhsFirst a s = Ok s' /\ evolves s s' /\ is_Some (m_cache s' !! a) /\
    (forall b, is_Some (m_cache s !! b) -> bal s' b = bal s b).
Proof.
  intros Hs. unfold conceive. destruct (touch_ok a s Hs) as [Hev Hb]. cbn zeta in Hev, Hb.
  set (s1 := if lhsFirst then _ else _) in *. destruct (ok_nonce _ _ (ev_ok _ _ _ Hev)) as [Hn Hi].
  unfold requireAccountStartNonce. rewrite (proj2 (Z.eqb_neq _ _) Hi), bind_Ok_l.
  destruct (reads_evolves sha3 s1 _ _ (balance_reads sha3 a s1 (ev_ok _ _ _ Hev)))
    as (s2 & -> & Hev2 & Hc2). rewrite bind_Ok_l. eexists. split; [done|].
  set (acc := newAccount _ _ _ _ _).
  assert (forall b, bal (put a acc s2) b = bal s1 b) as Hb2.
  { intros b. rewrite <-(same_contents_bal s1 s2) by done. unfold bal at 1. rewrite peek_put.
    destruct (decide (b = a)) as [->|]; [|done]. by rewrite (same_contents_bal s1 s2). }
  split_and!.
  - eapply evolves_trans; [exact Hev|]. eapply evolves_trans; [exact Hev2|].
    constructor; [apply put_ok; [apply Hev2|]|apply put_base|].
    + apply newAccount_ok; [apply Hev2|done|]. by apply (bal_fits sha3), Hev.
    + rewrite (supply_same s2); [done|]. intros b. by rewrite Hb2, (same_contents_bal s1 s2).
  - cbn [put set_cache m_cache]. rewrite lookup_insert_eq. by eexists.
  - intros b Hcb. rewrite Hb2. apply Hb. destruct (decide (b = a)) as [->|]; auto.
Qed.

Lemma installCode_ok a c s : state_ok s -> is_Some (m_cache s !! a) -> wf_bytes c ->
  sizeZ c < 2 ^ 32 -> evolves s (installCode sha3 a c s).
Proof.
  intros Hs [acc Hacc] Hc Hz. unfold installCode. rewrite Hacc. cbn [default from_option id].
  destruct (ok_cache _ _ Hs a acc Hacc) as (? & ? & ? & ? & _ & _).
  constructor; [apply put_ok; [done|by split_and!]|apply put_base|].
  rewrite (supply_same s); [done|]. intros b. unfold bal. rewrite peek_put.
  destruct (decide (b = a)) as [->|]; [|done]. unfold peek. by rewrite Hacc.
Qed.

Lemma create_env_wf a sender_ o v gp init d :
  fits 160 a -> fits 160 sender_ -> fits 160 o -> fits 256 v -> fits 256 gp ->
  wf_bytes init -> sizeZ init < 2 ^ 32 -> env_wf (mkExtEnv ei a sender_ o v gp [] init d).
Proof.
  intros. destruct Hei as (? & ? & ? & ? & ? & ? & ?). split_and!; try done. by apply Forall_nil_2.
Qed.

(** The optional [ExtVM] of a creation *)
Lemma create_ext_ok env (init : bytes) s : state_ok s -> env_wf env -> is_Some (m_cache s !! caller env) ->
  exists ext s1,
    (if negb (sizeZ init =? 0)
     then '(x, s2) ← makeExtVM sha3 env s; Ok (Some x, s2) else Ok (None, s))
    = (Ok (ext, s1) : result state_error (option ExtVM * State DB)) /\
    evolves s s1 /\ (forall b, bal s1 b = bal s b) /\
    forall x, ext = Some x -> x = mkExtVM env emptySubState (m_cache s) /\
      is_Some (m_cache s1 !! myAddress env) /\ is_Some (m_cache s1 !! caller env).
Proof.
  intros Hs He Hc. destruct (negb _).
  - destruct (makeExtVM_ok env s Hs He Hc) as (x & s1 & -> & Hev & Hb & -> & Hmy & Hca).
    rewrite bind_Ok_l. eexists _, s1. split; [done|]. split_and!; try done. by intros x [= <-].
  - exists None, s. split; [done|]. split_and!; try done.
Qed.

Lemma Executive_create_ok res d sender_ v gp g init o s :
  state_ok s -> fits 160 sender_ -> fits 160 o -> fits 256 v -> fits 256 gp ->
  wf_bytes init -> sizeZ init < 2 ^ 32 -> is_Some (m_cache s !! sender_) ->
  v <= bal s sender_ -> 0 <= g < gasBound ->
  exists e s1, Executive_create sha3 ei lhsFirst res d sender_ v gp g init o s = Ok (e, s1) /\
    started d s g e s1 /\ m_isCreation e = true.
Proof.
  intros Hs Hsa Ho Hv Hgp Hi Hiz Hcached Hle Hg. unfold Executive_create.
  destruct (reads_evolves sha3 s _ _ (transactionsFrom_reads sha3 sender_ s Hs))
    as (s1 & -> & Hev1 & Hc1). rewrite bind_Ok_l.
  destruct (creationRLP_ok sender_ (u256 (nonceOf s sender_ - 1))) as [r ->]; [by apply wrap_fits|].
  cbn [liftRLP]. rewrite bind_Ok_l. pose proof (newAddress_fits r) as Ha.
  set (a := toArith _) in *. set (env := mkExtEnv _ _ _ _ _ _ _ _ _).
  assert (env_wf env) as He by by apply create_env_wf.
  pose proof (evolves_cached _ _ _ _ Hev1 Hcached) as Hca1.
  destruct (create_ext_ok env init s1 (ev_ok _ _ _ Hev1) He Hca1) as (ext & s2 & -> & Hev2 & Hb2 & Hx).
  rewrite bind_Ok_l. pose proof (evolves_cached _ _ _ _ Hev2 Hca1) as Hca2.
  destruct (conceive_ok a s2 (ev_ok _ _ _ Hev2)) as (s3 & -> & Hev3 & Hcn & Hb3). rewrite bind_Ok_l.
  destruct (transfer_evolves sha3 s3 sender_ a v) as (s4 & -> & Hev4);
    [apply Hev3|done|done|by apply cached_peek, (evolves_cached sha3 s2)| |].
  { rewrite Hb3, Hb2, (same_contents_bal s s1) by done. split; [apply Hv|done]. }
  rewrite bind_Ok_l. set (s5 := if sizeZ init =? 0 then _ else _).
  assert (evolves s4 s5) as Hev5.
  { subst s5. destruct (_ =? 0); [|apply evolves_refl, Hev4].
    apply installCode_ok; [apply Hev4|by apply (evolves_cached sha3 s3)|by apply Forall_nil_2|done]. }
  pose proof (evolves_trans _ _ _ _ Hev3 (evolves_trans _ _ _ _ Hev4 Hev5)) as Hev35.
  pose proof (evolves_trans _ _ _ _ Hev2 Hev35) as Hev25.
  eexists _, _. split; [done|]. split; [|done].
  constructor; try done; cbn [m_gas m_ext m_newAddress e_out].
  - by eapply evolves_trans.
  - lia.
  - by apply Forall_nil_2.
  - intros x Hex. destruct (Hx x Hex) as (-> & Hmy & Hca). apply ready_later; try done.
    + apply Hev1.
    + apply Hev25.
    + by apply (evolves_cached sha3 s2).
    + by apply (evolves_cached sha3 s2).
  - intros x Hex _. by destruct (Hx x Hex) as (-> & _).
Qed.

(** *** Running the machine *)

(** A machine that is safe at depth [d] *)
Definition exec_good (d : Z) (exec : ExtEnv -> Z -> World -> option (result vm_error (bytes * Z * World)))
  : Prop :=
  forall env g s sub, env_wf env -> depth env = d -> is_Some (m_cache s !! myAddress env) ->
    is_Some (m_cache s !! caller env) -> state_ok s -> 0 <= g < gasBound ->
    exists r, exec env g (s, sub) = Some r /\
      safe r (fun '(o, g', w') => 0 <= g' <= g /\ wf_bytes o /\ sizeZ o < 2 ^ 32 /\ evolves s w'.1).

(** What [Executive_go] gives for an operation that started in [s] *)
Record finished (s : State DB) (e e' : Executive) (s2 : State DB) : Prop := {
  fi_evolves : evolves s s2;
  fi_gas : 0 <= m_gas e' <= m_gas e;
  fi_out : wf_bytes (e_out e') /\ length (e_out e') = length (e_out e);
  fi_address : fits 160 (m_newAddress e');
  fi_failed : excepted e' = true ->
    m_gas e' = 0 /\ same_contents s s2 /\ forall x, m_ext e' = Some x -> ev_sub x = emptySubState
}.

Lemma go_failed_ok d s g e s1 x err res :
  started d s g e s1 -> m_ext e = Some x ->
  finished s e (go_failed x err res e s1).1
               (go_failed x err res e s1).2.
Proof.
  intros [Hev Hg Ho Hr _ _ _ Ha] Hx. destruct (Hr x Hx) as [_ _ _ _ _ Hok Hrev].
  constructor; cbn; try done.
  - by apply evolves_same.
  - lia.
  - by destruct (m_isCreation e).
  - intros _. split_and!; try done. by intros ? [= <-].
Qed.

Lemma go_created_ok d s g e s1 s2 x sub o g' :
  started d s g e s1 -> m_ext e = Some x -> m_isCreation e = true -> evolves s1 s2 ->
  0 <= g' <= m_gas e -> g < gasBound -> wf_bytes o -> sizeZ o < 2 ^ 32 ->
  finished s e (go_created sha3 sch (set_sub sub x) o g' e s1 s2).1
               (go_created sha3 sch (set_sub sub x) o g' e s1 s2).2.
Proof.
  intros Hst Hx Hcr Hev2 Hg' Hgb Ho Hoz. pose proof Hst as [Hev Hg Hout Hr Hmy Hexc Hfl Ha].
  assert (is_Some (m_cache s2 !! m_newAddress e)) as Hcn.
  { rewrite <-(Hmy x Hx Hcr). apply (evolves_cached sha3 s1); [done|]. apply (Hr x Hx). }
  assert (gasBound < 2 ^ 256) by (by apply Z.ltb_lt).
  assert (forall c, wf_bytes c -> sizeZ c < 2 ^ 32 -> evolves s (installCode sha3 (m_newAddress e) c s2)).
  { intros c Hc Hz. eapply evolves_trans; [exact Hev|]. eapply evolves_trans; [exact Hev2|].
    apply installCode_ok; try done. apply Hev2. }
  pose proof (wrap_fits 256 (sizeZ o * createDataGas sch) ltac:(done)) as [Hfee _].
  assert (forall e', m_excepted e' = m_excepted e -> excepted e' = true -> False) as Hno.
  { intros e' He'. rewrite not_excepted; [done|]. by rewrite He', (Hexc x Hx). }
  unfold go_created. destruct (Z.leb_spec (u256 (sizeZ o * createDataGas sch)) g') as [Hle|Hlt].
  - constructor; cbn [fst snd m_gas e_out m_newAddress m_ext]; auto.
    + rewrite wrap_id by (unfold fits; lia). lia.
    + intros He'. exfalso. by eapply Hno, He'.
  - destruct (exceptionalFailedCodeDeposit sch).
    + by apply (go_failed_ok d s g e s1 x).
    + constructor; cbn [fst snd m_gas e_out m_newAddress m_ext]; auto; try lia.
      * apply H1; [by apply Forall_nil_2|done].
      * intros He'. exfalso. by eapply Hno, He'.
Qed.

Lemma go_ok exec d s g e s1 :
  exec_good d exec -> started d s g e s1 -> g < gasBound ->
  exists e' s2, Executive_go sha3 sch exec e s1 = Ok (e', s2) /\ finished s e e' s2.
Proof.
  intros Hexec Hst Hgb. pose proof Hst as [Hev Hg Hout Hr Hmy Hexc Hfl Ha]. unfold Executive_go.
  destruct (m_ext e) as [x|] eqn:Ex.
  2:{ eexists _, _. split; [done|]. constructor; try done; [lia|].
      intros He. destruct (Hfl He). split_and!; try done. by rewrite Ex. }
  destruct (Hr x eq_refl) as [He Hd Hm Hc Hsub _ _].
  destruct (Hexec (ev_env x) (m_gas e) s1 (ev_sub x)) as (r & -> & Hsafe); try done; [apply Hev|lia|].
  destruct r as [[[o g'] [s2 sub]]|err]; cbn [safe] in Hsafe.
  - destruct Hsafe as (Hg' & Ho & Hoz & Hev2). cbn [fst] in Hev2.
    destruct (m_isCreation e) eqn:Ecr.
    + eexists _, _. split; [f_equal; apply surjective_pairing|]. by eapply (go_created_ok d).
    + eexists _, _. split; [done|]. constructor; cbn [m_gas e_out m_newAddress m_ext]; try done.
      * by eapply evolves_trans.
      * unfold copyTo. split.
        -- apply Forall_app; split; [by apply Forall_take|by apply Forall_drop].
        -- rewrite length_app, length_take, length_drop. lia.
      * rewrite not_excepted; [done|]. by apply (Hexc x).
  - assert (finished s e (go_failed x err (m_res e) e s1).1 (go_failed x err (m_res e) e s1).2) as Hf.
    { by apply (go_failed_ok d s g e s1 x). }
    destruct Hsafe as [Hub Hun]. destruct err; try done; (eexists _, _; split; [done|exact Hf]).
Qed.

(** ** The externalities over the state *)

Lemma supply_set_any s s' a v : balance_set sha3 s s' a v ->
  supply s' = supply s + (if decide (fits 160 a) then v - bal s a else 0).
Proof.
  intros Hb. destruct (decide (fits 160 a)) as [Ha|Ha].
  - rewrite (supply_set sha3 s s' a v) by done. lia.
  - rewrite Z.add_0_r. unfold supply. apply sumOf_ext. intros b Hin%addresses_spec.
    rewrite (bs_bal _ _ _ _ _ Hb), decide_False; [done|]. by intros ->.
Qed.

Lemma ExtVM_suicide_ok env a s sub :
  state_ok s -> fits 160 (myAddress env) -> is_Some (m_cache s !! myAddress env) ->
  exists w', ExtVM_suicide sha3 env a (s, sub) = Ok w' /\ evolves s w'.1.
Proof.
  intros Hs Hmy Hc. unfold ExtVM_suicide.
  destruct (reads_evolves sha3 s _ _ (balance_reads sha3 (myAddress env) s Hs)) as (s1 & -> & Hev1 & Hc1).
  cbn [liftVM]. rewrite bind_Ok_l. pose proof (bal_fits sha3 s (myAddress env) Hs) as Hb.
  destruct (addBalance_ok sha3 a (bal s (myAddress env)) s1) as (s2 & -> & Hb2); [apply Hev1|done|].
  cbn [liftVM]. rewrite bind_Ok_l. pose proof Hb2 as [Hs2 Hbase2 Hbal2 _ _ Hp2].
  destruct (reads_evolves sha3 s2 _ _ (balance_reads sha3 (myAddress env) s2 Hs2)) as (s3 & -> & Hev3 & Hc3).
  cbn [liftVM]. rewrite bind_Ok_l.
  destruct (subBalance_ok sha3 (myAddress env) (bal s2 (myAddress env)) s3) as (s4 & -> & Hb4).
  { apply Hev3. }
  { apply (same_contents_peek s2 s3), Hp2; [done|]. left. apply cached_peek.
    by apply (evolves_cached sha3 s). }
  { rewrite (same_contents_bal s2 s3) by done. pose proof (bal_fits sha3 s2 (myAddress env) Hs2) as [? _]. lia. }
  cbn [liftVM]. rewrite bind_Ok_l. eexists. split; [done|]. cbn [fst].
  constructor; [apply Hb4| |].
  - etrans; [apply Hev1|]. etrans; [exact Hbase2|]. etrans; [apply Hev3|apply Hb4].
  - rewrite (supply_set sha3 s3 s4 (myAddress env) _ Hmy Hb4), (same_contents_bal s2 s3) by done.
    rewrite (supply_same s2 s3) by (intros; by apply same_contents_bal).
    rewrite (supply_set_any s1 s2 a _ Hb2), (supply_same s s1) by (intros; by apply same_contents_bal).
    rewrite (Hbal2 (myAddress env)), !(same_contents_bal s s1) by done.
    pose proof (bal_fits sha3 s a Hs) as [Ha0 _]. destruct Hb as [Hb0 _].
    pose proof (u256_le (bal s a + bal s (myAddress env))) as Hle.
    destruct (decide (myAddress env = a)) as [<-|], (decide (fits 160 _)); try done; lia.
Qed.

Lemma ExtVM_call_ok exec env p s sub :
  exec_good (depth env + 1) exec -> env_wf env -> state_ok s ->
  fits 160 (senderAddress p) -> fits 160 (receiveAddress p) -> fits 256 (apparentValue p) ->
  wf_bytes (cdata p) -> sizeZ (cdata p) < 2 ^ 32 -> wf_bytes (out p) ->
  is_Some (m_cache s !! senderAddress p) -> 0 <= valueTransfer p <= bal s (senderAddress p) ->
  0 <= gas p < gasBound ->
  exists ok g' o w', ExtVM_call sha3 precompiled sch ei exec env p (s, sub) = Ok (ok, g', o, w') /\
    0 <= g' <= gas p /\ length o = length (out p) /\ wf_bytes o /\ evolves s w'.1.
Proof.
  intros Hex He Hs Hsa Hra Hav Hcd Hcz Hout Hc Hv Hg. unfold ExtVM_call. unfold env_wf in He.
  destruct_and! He.
  destruct (Executive_call_ok None (depth env + 1) p (gasPrice env) (origin env) s)
    as (e & s1 & -> & Hst & Hlen & _); try done.
  cbn [liftVM]. rewrite bind_Ok_l.
  destruct (go_ok exec _ s (gas p) e s1 Hex Hst) as (e' & s2 & Hgo & Hfin); [lia|].
  destruct (m_ext e) as [x|] eqn:Ex.
  - rewrite Hgo, !bind_Ok_l. destruct Hfin as [Hev Hg' [Ho Hl] _ _]. destruct Hst as [_ Hge _ _ _ _ _ _].
    eexists _, _, _, _. split; [done|]. split_and!; [lia|lia|congruence|done|done].
  - rewrite bind_Ok_l. destruct Hst as [Hev Hge Ho _ _ _ _ _].
    eexists _, _, _, _. split; [done|]. by split_and!; try apply Hge.
Qed.

Lemma ExtVM_create_ok exec env v g init s sub :
  exec_good (depth env + 1) exec -> env_wf env -> state_ok s -> fits 256 v ->
  wf_bytes init -> sizeZ init < 2 ^ 32 -> is_Some (m_cache s !! myAddress env) ->
  v <= bal s (myAddress env) -> 0 <= g < gasBound ->
  exists a g' w', ExtVM_create sha3 sch ei lhsFirst exec env v g init (s, sub) = Ok (a, g', w') /\
    0 <= g' <= g /\ fits 160 a /\ evolves s w'.1.
Proof.
  intros Hex He Hs Hv Hi Hiz Hc Hle Hg. unfold ExtVM_create. unfold env_wf in He. destruct_and! He.
  destruct (noteSending_ok sha3 (myAddress env) s Hs) as (s0 & -> & Hs0 & Hb0 & Hbal0 & _);
    [by apply cached_peek|].
  assert (evolves s s0) as Hev0.
  { constructor; [done|done|]. by rewrite (supply_same s s0). }
  cbn [liftVM]. rewrite bind_Ok_l.
  destruct (Executive_create_ok None (depth env + 1) (myAddress env) v (gasPrice env) g init (origin env) s0)
    as (e & s1 & -> & Hst & _); try done.
  { by apply (evolves_cached sha3 s). }
  { by rewrite Hbal0. }
  cbn [liftVM]. rewrite bind_Ok_l.
  destruct (go_ok exec _ s0 g e s1 Hex Hst) as (e' & s2 & Hgo & Hfin); [lia|].
  destruct (m_ext e) as [x|] eqn:Ex.
  - rewrite Hgo, !bind_Ok_l. destruct Hfin as [Hev Hg' _ Ha _]. destruct Hst as [_ Hge _ _ _ _ _ _].
    eexists _, _, _. split; [done|]. split_and!; [lia|lia|done|by eapply evolves_trans].
  - rewrite bind_Ok_l. destruct Hst as [Hev Hge _ _ _ _ _ Ha].
    eexists _, _, _. split; [done|]. split_and!; [lia|lia|done|by eapply evolves_trans].
Qed.

Abbreviation extVM := (extVM sha3 precompiled sch ei lhsFirst).
Abbreviation execAt := (execAt sha3 precompiled sch ei lhsFirst).

(** A reading operation of the interface *)
Lemma lift_reads {A} s sub (r : result state_error (A * State DB)) v :
  reads_as sha3 s r v ->
  exists s', ('(x, s') ← liftVM r; Ok (x, (s', sub)) : result vm_error (A * World)) = Ok (v, (s', sub)) /\
    evolves s s' /\ same_contents s s'.
Proof.
  intros (s' & -> & Hev & Hc)%(reads_evolves sha3 s). exists s'. cbn [liftVM]. by rewrite bind_Ok_l.
Qed.

(** The interface of the machine is implemented: started in [s0] with its own
    account and its caller's in the cache, whatever the machine does leaves the
    trie alone and creates no money, nested executions included. *)
Definition extVMLaws (n : nat) (env : ExtEnv) (s0 : State DB) (Henv : env_wf env)
  (Hmy : is_Some (m_cache s0 !! myAddress env)) (Hca : is_Some (m_cache s0 !! caller env))
  (Hnested : forall n', n = S n' -> exec_good (depth env + 1) (execAt n')) :
  @ExtVMLaws World (extVM n env) env.
Proof.
  unshelve refine {| ext_wf := fun w => evolves s0 w.1; ext_live := n <> O |};
    pose proof Henv as He; unfold env_wf in He; destruct_and! He.
  - intros k [s sub] Hw. cbn [fst] in Hw.
    destruct (lift_reads s sub _ _ (storage_reads sha3 (myAddress env) k s (ev_ok _ _ _ Hw)))
      as (s' & E & Hev & _).
    exists (slot s (myAddress env) k), (s', sub). split; [by destruct n|].
    split; [by apply (slot_fits sha3), Hw|by eapply evolves_trans].
  - intros k v [s sub] Hw Hk Hv. cbn [fst] in Hw. pose proof (evolves_cached _ _ _ _ Hw Hmy) as Hc.
    assert (evolves s0 (State_setStorage sha3 (myAddress env) k v s)); [|by destruct n].
    destruct (setStorage_ok sha3 (myAddress env) k v s (ev_ok _ _ _ Hw) Hc Hv) as (Hs & Hb & Hbal & _).
    eapply evolves_trans; [exact Hw|]. constructor; [done|done|]. by rewrite (supply_same s).
  - intros a [s sub] Hw. cbn [fst] in Hw.
    destruct (lift_reads s sub _ _ (balance_reads sha3 a s (ev_ok _ _ _ Hw))) as (s' & E & Hev & _).
    exists (bal s a), (s', sub). split; [by destruct n|].
    split; [by apply (bal_fits sha3), Hw|by eapply evolves_trans].
  - intros a [s sub] Hw. cbn [fst] in Hw.
    destruct (code_reads sha3 a s (ev_ok _ _ _ Hw)) as (c & Hr & Hcw & Hcs).
    destruct (lift_reads s sub _ _ Hr) as (s' & E & Hev & _).
    exists c, (s', sub). split; [by destruct n|]. split_and!; [done|lia|by eapply evolves_trans].
  - intros a [s sub] Hw. cbn [fst] in Hw.
    destruct (lift_reads s sub _ _ (addressInUse_reads sha3 a s (ev_ok _ _ _ Hw))) as (s' & E & Hev & _).
    eexists _, (s', sub). split; [by destruct n|by eapply evolves_trans].
  - intros sub' [s sub] Hw. by destruct n.
  - intros a [s sub] Hw. cbn [fst] in Hw.
    destruct (ExtVM_suicide_ok env a s sub) as (w' & E & Hev); [apply Hw|done|by eapply evolves_cached|].
    exists w'. split; [by destruct n|by eapply evolves_trans].
  - intros v g c [s sub] b w1 Hn Hw Hv Hb Hle Hg Hc Hcz. cbn [fst] in Hw.
    destruct n as [|n]; [done|]. specialize (Hnested n eq_refl).
    destruct (lift_reads s sub _ _ (balance_reads sha3 (myAddress env) s (ev_ok _ _ _ Hw)))
      as (s' & E & Hev & Hsc). cbn [ext_balance Executive.extVM fst snd] in Hb. rewrite E in Hb.
    injection Hb as <- <-. pose proof (evolves_trans _ _ _ _ Hw Hev) as Hw'.
    destruct (ExtVM_create_ok (execAt n) env v g c s' sub) as (a & g' & w' & Ec & Hg' & Ha & Hev');
      try done; [apply Hev|by eapply evolves_cached|by rewrite (same_contents_bal s s')|].
    exists a, g', w'. split; [exact Ec|]. split_and!; try apply Hg'; [done|by eapply evolves_trans].
  - intros p [s sub] b w1 Hn Hw Hv Hav Hcp Hrp Hb Hs Hg Hc Ho Hcz. cbn [fst] in Hw.
    destruct n as [|n]; [done|]. specialize (Hnested n eq_refl).
    destruct (lift_reads s sub _ _ (balance_reads sha3 (myAddress env) s (ev_ok _ _ _ Hw)))
      as (s' & E & Hev & Hsc). cbn [ext_balance Executive.extVM fst snd] in Hb. rewrite E in Hb.
    injection Hb as <- <-. pose proof (evolves_trans _ _ _ _ Hw Hev) as Hw'.
    assert (is_Some (m_cache s' !! senderAddress p) /\ fits 160 (senderAddress p) /\
            0 <= valueTransfer p <= bal s' (senderAddress p)) as (Hsc1 & Hsf & Hsv).
    { pose proof (evolves_cached _ _ _ _ Hw' Hmy). pose proof (evolves_cached _ _ _ _ Hw' Hca).
      destruct Hv as [Hv0 _]. destruct Hs as [[-> Hle]|[-> ->]].
      - rewrite (same_contents_bal s s') by done. by split_and!.
      - pose proof (bal_fits sha3 s' (caller env) (ev_ok _ _ _ Hev)) as [? _]. split_and!; try done. }
    destruct (ExtVM_call_ok (execAt n) env p s' sub) as (ok & g' & o & w' & Ec & Hg' & Hl & Hwo & Hev');
      try done; [apply Hev|].
    exists ok, g', o, w'. split; [exact Ec|]. split_and!; try apply Hg'; try done. by eapply evolves_trans.
Defined.

(** Every machine up to the depth limit is safe. *)
Lemma execAt_good n : exec_good (1024 - Z.of_nat n) (execAt n).
Proof.
  induction n as [|n IH]; intros env g s sub Henv Hd Hmy Hca Hs Hg.
  - refine (execImpl_safe (Hext := extVM 0 env) env
              (Hlaws := extVMLaws 0 env s Henv Hmy Hca (fun _ H => match O_S _ H with end))
              sha3 efcd hdc txc Henv Hsha3 _ g (s, sub) Hg (evolves_refl _ _ Hs)). lia.
  - assert (forall n', S n = S n' -> exec_good (depth env + 1) (execAt n')) as Hn.
    { intros n' [= <-]. replace (depth env + 1) with (1024 - Z.of_nat n) by lia. exact IH. }
    refine (execImpl_safe (Hext := extVM (S n) env) env
              (Hlaws := extVMLaws (S n) env s Henv Hmy Hca Hn)
              sha3 efcd hdc txc Henv Hsha3 _ g (s, sub) Hg (evolves_refl _ _ Hs)). done.
Qed.

(** ** Message calls and creations *)

(** C3: a message call at any depth never fails in an undefined way: it takes at
    most the gas it was given, changes no committed account, and creates no
    money.  If it ends in an exception, of the machine or of a precompiled
    contract, it has used all the gas, has left no trace in the sub-state, and
    the contents of the state are those from before the call: the transfer of
    the value is undone as well. *)
Theorem message_call_correct n res p gp o s (Hs : state_ok s)
    (Hsa : fits 160 (senderAddress p)) (Hra : fits 160 (receiveAddress p)) (Ho : fits 160 o)
    (Hav : fits 256 (apparentValue p)) (Hgp : fits 256 gp)
    (Hcd : wf_bytes (cdata p)) (Hcz : sizeZ (cdata p) < 2 ^ 32) (Hout : wf_bytes (out p))
    (Hc : is_Some (m_cache s !! senderAddress p))
    (Hv : 0 <= valueTransfer p <= bal s (senderAddress p)) (Hg : 0 <= gas p < gasBound) :
  exists e s1 e' s2,
    Executive_call sha3 precompiled ei res (1024 - Z.of_nat n) p gp o s = Ok (e, s1) /\
    Executive_go sha3 sch (execAt n) e s1 = Ok (e', s2) /\
    state_ok s2 /\ same_base s s2 /\ supply s2 <= supply s /\
    0 <= m_gas e' <= gas p /\ length (e_out e') = length (out p) /\
    (excepted e' = true -> m_gas e' = 0 /\ same_contents s s2 /\
       forall x, m_ext e' = Some x -> ev_sub x = emptySubState).
Proof.
  destruct (Executive_call_ok res (1024 - Z.of_nat n) p gp o s) as (e & s1 & E1 & Hst & Hl & _); try done.
  destruct (go_ok (execAt n) _ s (gas p) e s1 (execAt_good n) Hst) as (e' & s2 & E2 & Hfin); [lia|].
  destruct Hfin as [[Hs2 Hb2 Hsup] Hg' [_ Hl'] _ Hf]. destruct Hst as [_ Hge _ _ _ _ _ _].
  exists e, s1, e', s2. split_and!; try done; [lia|lia|congruence].
Qed.

(** C4: likewise for a contract creation: the new account receives the endowment,
    and an exception of the initialisation code, or of the code deposit when
    the schedule makes its failure exceptional, undoes the whole creation. *)
Theorem creation_correct n res sender_ v gp g init o s (Hs : state_ok s)
    (Hsa : fits 160 sender_) (Ho : fits 160 o) (Hv : fits 256 v) (Hgp : fits 256 gp)
    (Hi : wf_bytes init) (Hiz : sizeZ init < 2 ^ 32) (Hc : is_Some (m_cache s !! sender_))
    (Hle : v <= bal s sender_) (Hg : 0 <= g < gasBound) :
  exists e s1 e' s2,
    Executive_create sha3 ei lhsFirst res (1024 - Z.of_nat n) sender_ v gp g init o s = Ok (e, s1) /\
    Executive_go sha3 sch (execAt n) e s1 = Ok (e', s2) /\
    state_ok s2 /\ same_base s s2 /\ supply s2 <= supply s /\
    0 <= m_gas e' <= g /\ fits 160 (m_newAddress e') /\
    (excepted e' = true -> m_gas e' = 0 /\ same_contents s s2 /\
       forall x, m_ext e' = Some x -> ev_sub x = emptySubState).
Proof.
  destruct (Executive_create_ok res (1024 - Z.of_nat n) sender_ v gp g init o s)
    as (e & s1 & E1 & Hst & _); try done.
  destruct (go_ok (execAt n) _ s g e s1 (execAt_good n) Hst) as (e' & s2 & E2 & Hfin); [lia|].
  destruct Hfin as [[Hs2 Hb2 Hsup] Hg' _ Ha Hf]. destruct Hst as [_ Hge _ _ _ _ _ _].
  exists e, s1, e', s2. split_and!; try done; lia.
Qed.

(** ** Transactions *)

Variable recover : SignatureStruct -> bytes -> option bytes.

Lemma gasRequired_nonneg c d g0 : 0 <= gasRequired c d sch g0.
Proof.
  unfold gasRequired. assert (0 <= u256 ((if c then txCreateGas sch else txGas sch) + g0)) as H0.
  { apply wrap_fits. done. }
  revert H0. generalize (u256 ((if c then txCreateGas sch else txGas sch) + g0)).
  induction d as [|b d IH]; intros z Hz; [done|]. cbn [foldl]. apply IH.
  destruct (negb _); cbn; lia.
Qed.

Lemma initialize_table t s a : state_ok s -> sender sha3 recover t = Ok a ->
  let base := gasRequired (isCreation t) (tx_data t) sch 0 in
  if gasLimit ei <? gasUsed ei + tx_gas t
  then initialize sha3 sch ei recover t s = Throw EE_BlockGasLimitReached
  else if tx_gas t <? base then initialize sha3 sch ei recover t s = Throw EE_OutOfGasBase
  else if negb (tx_nonce t =? nonceOf s a) then initialize sha3 sch ei recover t s = Throw EE_InvalidNonce
  else if bal s a <? tx_value t + tx_gas t * tx_gasPrice t
  then initialize sha3 sch ei recover t s = Throw EE_NotEnoughCash
  else exists s', initialize sha3 sch ei recover t s = Ok (a, base, tx_gas t * tx_gasPrice t, s') /\
         state_ok s' /\ same_contents s s'.
Proof.
  intros Hs Ha base. unfold initialize. fold base. rewrite Ha.
  destruct (gasLimit ei <? _); [done|]. destruct (tx_gas t <? base); [done|].
  destruct (transactionsFrom_reads sha3 a s Hs) as (s1 & -> & Hs1 & Hc1). cbn [liftState].
  rewrite bind_Ok_l. destruct (negb _); [done|].
  destruct (balance_reads sha3 a s1 Hs1) as (s2 & -> & Hs2 & Hc2). cbn [liftState].
  rewrite bind_Ok_l, (same_contents_bal s s1) by done. destruct (bal s a <? _); [done|].
  exists s2. split_and!; [done|done|by etrans].
Qed.

Lemma sender_fits t a : fits 160 (m_sender t) -> sender sha3 recover t = Ok a -> fits 160 a.
Proof.
  intros Hm. unfold sender. destruct (m_sender t =? 0); [|by intros [= <-]].
  destruct (liftTx _) as [d|]; [|done]. rewrite bind_Ok_l.
  destruct (recover _ _); [|done]. intros [= <-]. apply newAddress_fits.
Qed.

(** The fields of a transaction that are executed are within their widths. *)
Definition tx_fits (t : Transaction) : Prop :=
  fits 256 (tx_value t) /\ fits 256 (tx_gasPrice t) /\ 0 <= tx_gas t < gasBound /\
  wf_bytes (tx_data t) /\ sizeZ (tx_data t) < 2 ^ 32 /\ fits 160 (tx_receiveAddress t) /\
  fits 160 (m_sender t).

(** Buying the gas: the balance of the sender and the supply go down by it. *)
Lemma buyGas_ok a cost s : state_ok s -> fits 160 a -> 0 <= cost <= bal s a ->
  exists s1 s2, noteSending sha3 a s = Ok s1 /\ subBalance sha3 a cost s1 = Ok s2 /\
    state_ok s2 /\ same_base s s2 /\ supply s2 = supply s - cost /\ is_Some (m_cache s2 !! a) /\
    bal s2 a = bal s a - cost.
Proof.
  intros Hs Ha Hc. destruct (noteSending_any sha3 a s Hs) as (s1 & E1 & Hs1 & Hb1 & Hbal1 & Hca & _).
  destruct (subBalance_ok sha3 a cost s1 Hs1) as (s2 & E2 & Hset);
    [by apply cached_peek|by rewrite Hbal1|].
  pose proof Hset as [Hs2 Hb2 Hbal2 _ _ _]. exists s1, s2. split_and!; try done.
  - by etrans.
  - rewrite (supply_set sha3 s1 s2 a _ Ha Hset), (supply_same s s1), Hbal1 by done. lia.
  - destruct Hb2 as (_ & _ & _ & _ & Hd). apply elem_of_dom, Hd. by apply elem_of_dom.
  - by rewrite Hbal2, decide_True, Hbal1.
Qed.

Lemma Executive_execute_ok res t a s :
  let base := gasRequired (isCreation t) (tx_data t) sch 0 in
  let cost := tx_gas t * tx_gasPrice t in
  state_ok s -> tx_fits t -> fits 160 a -> base <= tx_gas t -> tx_value t + cost <= bal s a ->
  exists e s0 s1, Executive_execute sha3 precompiled ei lhsFirst res t a base cost s = Ok (e, s1) /\
    state_ok s0 /\ same_base s s0 /\ supply s0 = supply s - cost /\
    started 0 s0 (tx_gas t - base) e s1.
Proof.
  intros base cost Hs (Hv & Hp & Hg & Hd & Hdz & Hr & _) Ha Hbase Hcost. unfold Executive_execute.
  assert (0 <= base) by apply gasRequired_nonneg.
  assert (0 <= cost) by (apply Z.mul_nonneg_nonneg; [lia|apply Hp]).
  assert (gasBound < 2 ^ 256) by (by apply Z.ltb_lt).
  destruct Hv as [Hv0 Hv1].
  destruct (buyGas_ok a cost s Hs Ha) as (s1 & s2 & -> & E2 & Hs2 & Hb2 & Hsup & Hca & Hbal); [lia|].
  rewrite bind_Ok_l, E2, bind_Ok_l.
  assert (u256 (tx_gas t - u256 base) = tx_gas t - base) as ->.
  { rewrite (wrap_id 256 base) by (unfold fits; lia). apply wrap_id. unfold fits. lia. }
  destruct (isCreation t).
  - destruct (Executive_create_ok res 0 a (tx_value t) (tx_gasPrice t) (tx_gas t - base) (tx_data t) a s2)
      as (e & s3 & E3 & Hst & _); try done; [lia|lia|]. by exists e, s2, s3.
  - set (p := {| senderAddress := a |}).
    destruct (Executive_call_ok res 0 p (tx_gasPrice t) a s2) as (e & s3 & E3 & Hst & _);
      try done; [by apply Forall_nil_2|cbn; lia|cbn; lia|]. by exists e, s2, s3.
Qed.

Lemma kill_evolves a s : state_ok s ->
  evolves s (put a (kill sha3 (default (deadAccount sha3) (m_cache s !! a))) s).
Proof.
  intros Hs. set (acc := default _ _).
  assert (acc_ok (m_db s) acc) as (_ & _ & _ & _ & Hcw & Hcz).
  { subst acc. destruct (m_cache s !! a) as [x|] eqn:E; cbn; [by apply (ok_cache _ _ Hs a)|].
    by apply deadAccount_ok. }
  constructor; [apply put_ok; [done|]|apply put_base|].
  - split_and!; try done. by apply empty_storage_ok.
  - apply supply_le. intros b _. unfold bal at 1. rewrite peek_put.
    destruct (decide (b = a)) as [->|]; [|done]. apply (bal_fits sha3 s a Hs).
Qed.

Lemma killAll_evolves l s : state_ok s -> evolves s (killAll sha3 l s).
Proof.
  unfold killAll. revert s. induction l as [|a l IH]; intros s Hs; [by apply evolves_refl|].
  cbn [foldl]. pose proof (kill_evolves a s Hs) as Hev. eapply evolves_trans; [exact Hev|].
  apply IH, Hev.
Qed.

(** Half of the used gas is the most that is refunded. *)
Lemma refund_bounds t e : 0 <= m_gas e <= tx_gas t -> tx_gas t < gasBound ->
  let r := match m_ext (withSuicideRefunds sch e) with
           | Some x => Z.min (u256 (tx_gas t - m_gas e) / 2) (refunds (ev_sub x))
           | None => 0
           end in
  0 <= r <= (tx_gas t - m_gas e) / 2.
Proof.
  intros Hg Hb. assert (gasBound < 2 ^ 256) by (by apply Z.ltb_lt).
  rewrite wrap_id by (unfold fits; lia). cbn. assert (0 <= (tx_gas t - m_gas e) / 2) by (apply Z.div_pos; lia).
  destruct (m_ext e) as [x|]; cbn; [|lia]. set (f := u256 _ : Z).
  assert (0 <= f) by by apply wrap_fits. lia.
Qed.

(** The two payments of [finalize] when [g] gas is left *)
Definition paid (t : Transaction) (a : Address) (g : Z) (s s' : State DB) : Prop :=
  exists s1, balance_set sha3 s s1 a (u256 (bal s a + g * tx_gasPrice t)) /\
    balance_set sha3 s1 s' (author ei) (u256 (bal s1 (author ei) + (tx_gas t - g) * tx_gasPrice t)).

Lemma finalize_ok t a e s :
  state_ok s -> fits 160 a -> 0 <= m_gas e <= tx_gas t -> tx_gas t < gasBound ->
  fits 256 (tx_gasPrice t) -> tx_gas t * tx_gasPrice t < 2 ^ 256 ->
  exists e' s', finalize sha3 sch ei t a e s = Ok (e', s') /\ state_ok s' /\ same_base s s' /\
    supply s' <= supply s + tx_gas t * tx_gasPrice t /\
    m_gas e' = m_gas e + m_refunded e' /\ 0 <= m_refunded e' <= (tx_gas t - m_gas e) / 2 /\
    (m_type t <> NullTransaction -> (forall x, m_ext e = Some x -> suicides (ev_sub x) = ∅) ->
     paid t a (m_gas e') s s').
Proof.
  intros Hs Ha Hg Hgb Hp Hcost. unfold finalize.
  pose proof (refund_bounds t e Hg Hgb) as Hr. cbn zeta in Hr.
  change (m_gas (withSuicideRefunds sch e)) with (m_gas e).
  set (r := match m_ext (withSuicideRefunds sch e) with Some _ => _ | None => _ end) in *.
  assert (gasBound < 2 ^ 256) by (by apply Z.ltb_lt).
  assert ((tx_gas t - m_gas e) / 2 <= tx_gas t - m_gas e) by (apply Z.div_le_upper_bound; lia).
  assert (u256 (m_gas e + r) = m_gas e + r) as -> by (apply wrap_id; unfold fits; lia).
  assert (u256 (tx_gas t - (m_gas e + r)) = tx_gas t - (m_gas e + r)) as ->
    by (apply wrap_id; unfold fits; lia).
  destruct Hp as [Hp0 Hp1].
  assert (0 <= (m_gas e + r) * tx_gasPrice t) by (apply Z.mul_nonneg_nonneg; lia).
  assert (0 <= (tx_gas t - (m_gas e + r)) * tx_gasPrice t) by (apply Z.mul_nonneg_nonneg; lia).
  rewrite !wrap_id by (unfold fits; lia).
  assert (exists s2, (if decide (m_type t <> NullTransaction) then
            s1 ← State_addBalance sha3 a ((m_gas e + r) * tx_gasPrice t) s;
            State_addBalance sha3 (author ei) ((tx_gas t - (m_gas e + r)) * tx_gasPrice t) s1
          else Ok s) = Ok s2 /\ state_ok s2 /\ same_base s s2 /\
          supply s2 <= supply s + tx_gas t * tx_gasPrice t /\
          (m_type t <> NullTransaction -> paid t a (m_gas e + r) s s2))
    as (s2 & -> & Hs2 & Hb2 & Hsup & Hpaid).
  { destruct (decide _); [|exists s; split_and!; try done; lia].
    destruct (add_evolves sha3 s a ((m_gas e + r) * tx_gasPrice t)) as (s1 & -> & Hs1 & Hb1 & Hsup1 & Hset1);
      [done|done|unfold fits; lia|]. rewrite bind_Ok_l.
    destruct (add_evolves sha3 s1 (author ei) ((tx_gas t - (m_gas e + r)) * tx_gasPrice t))
      as (s2 & -> & Hs2 & Hb2 & Hsup2 & Hset2); [done|apply Hei|unfold fits; lia|].
    exists s2. split_and!; [done|done|by etrans|lia|]. intros _. by exists s1. }
  rewrite bind_Ok_l.
  set (s3 := match m_ext _ with Some x => killAll sha3 (elements (suicides (ev_sub x))) s2 | None => s2 end).
  assert (evolves s2 s3) as [Hs3 Hb3 Hsup3].
  { subst s3. destruct (m_ext _); [by apply killAll_evolves|by apply evolves_refl]. }
  eexists _, s3. split; [done|]. cbn [m_gas m_refunded].
  split_and!; [done|by etrans|lia|done|lia|lia|]. intros Hn Hno.
  assert (s3 = s2) as ->; [|by apply Hpaid]. subst s3. cbn. destruct (m_ext e) as [x|]; [|done].
  cbn. by rewrite (Hno x), elements_empty.
Qed.


(** C1: a transaction of at most [2^45] gas is either rejected by one of the
    checks of [initialize], or it is executed: no exception escapes, no matter
    which code runs at which depth.  After the execution the sum of all
    balances is at most what it was, the trie below the cache is the same, and
    between half of the intrinsic gas and all of the gas is charged. *)
Theorem transaction_correct t s (Hs : state_ok s) (Ht : tx_fits t) :
  match runTransaction sha3 precompiled sch ei lhsFirst recover t s with
  | Ok (e, s') =>
      state_ok s' /\ same_base s s' /\ supply s' <= supply s /\
      gasRequired (isCreation t) (tx_data t) sch 0 <= 2 * executive_gasUsed t e /\
      executive_gasUsed t e <= tx_gas t
  | Throw err =>
      err = EE_BlockGasLimitReached \/ err = EE_OutOfGasBase \/ err = EE_InvalidSignature \/
      err = EE_InvalidNonce \/ err = EE_NotEnoughCash
  end.
Proof.
  unfold runTransaction. destruct (sender sha3 recover t) as [a|er] eqn:Ha.
  2:{ unfold initialize. rewrite Ha. destruct (gasLimit ei <? _); [left; done|].
      destruct (tx_gas t <? _); [right; left; done|right; right; left; done]. }
  pose proof (initialize_table t s a Hs Ha) as Hi. cbn zeta in Hi. set (base := gasRequired _ _ _ _) in *.
  destruct (gasLimit ei <? _); [rewrite Hi; left; done|].
  destruct (Z.ltb_spec (tx_gas t) base) as [|Hbase]; [rewrite Hi; right; left; done|].
  destruct (negb _); [rewrite Hi; do 3 right; left; done|].
  destruct (Z.ltb_spec (bal s a) (tx_value t + tx_gas t * tx_gasPrice t)) as [|Hcost];
    [rewrite Hi; do 4 right; done|].
  destruct Hi as (s1 & -> & Hs1 & Hc1). rewrite bind_Ok_l.
  pose proof Ht as (Hv & Hp & Hg & _ & _ & _ & Hm). pose proof (sender_fits t a Hm Ha) as Hfa.
  destruct (Executive_execute_ok (Some newResult) t a s1) as (e & s2 & s3 & E & Hs2 & Hb2 & Hsup2 & Hst);
    [done|done|done|done|by rewrite (same_contents_bal s s1)|].
  fold base in E, Hst. rewrite E. cbn [liftState]. rewrite bind_Ok_l.
  destruct (go_ok (execAt 1024) 0 s2 _ e s3 (execAt_good 1024) Hst) as (e' & s4 & -> & Hfin).
  { pose proof (gasRequired_nonneg (isCreation t) (tx_data t) 0) as Hb0. fold base in Hb0. lia. }
  cbn [liftExec]. rewrite bind_Ok_l. destruct Hfin as [[Hs4 Hb4 Hsup4] Hg' _ _ _].
  destruct Hst as [_ Hge _ _ _ _ _ _].
  pose proof (gasRequired_nonneg (isCreation t) (tx_data t) 0) as Hb0. fold base in Hb0.
  pose proof (bal_fits sha3 s a Hs) as [_ Hlt]. destruct Hv as [Hv0 _].
  destruct (finalize_ok t a e' s4) as (e2 & s5 & -> & Hs5 & Hb5 & Hsup5 & Hgas & Href & _);
    [done|done|lia|lia|done|lia|].
  cbn [liftState]. assert (gasBound < 2 ^ 256) by (by apply Z.ltb_lt).
  assert ((tx_gas t - m_gas e') / 2 <= tx_gas t - m_gas e') by (apply Z.div_le_upper_bound; lia).
  assert (2 * ((tx_gas t - m_gas e') / 2) <= tx_gas t - m_gas e') by (apply Z.mul_div_le; lia).
  unfold executive_gasUsed. rewrite wrap_id by (unfold fits; lia).
  rewrite (supply_same s s1) in Hsup2 by (intros; by apply same_contents_bal).
  split_and!; [done| |lia|lia|lia].
  etrans; [apply Hc1|]. etrans; [exact Hb2|]. by etrans.
Qed.

End Frames.

(** ** A sample block

    The account 5 calls the contract 6, which stores a value; the author of the
    block is 9, and the precompiled contract 4 copies its input. *)
Definition sampleInfo : EnvInfo := mkEnvInfo 1 9 0 0 1000000 (replicate 256 0) 0.
Definition samplePrecompiled : gmap Address PrecompiledContract :=
  {[ 4 := wordPrecompiled 15 3 copyTo ]}.
Definition richCache : gmap Address Account :=
  <[5 := newAccount sampleHash 3 100000000 NormalCreation Changed]> sampleCache.
Definition sampleCallTx : Transaction :=
  mkTransaction MessageCall 3 7 6 2 100000 [1; 0] (mkSignature 0 0 0) 5.
Definition noRecover (g : SignatureStruct) (h : bytes) : option bytes := None.

Lemma sampleInfo_wf : info_wf sampleInfo.
Proof. decide_closed. Defined.

Lemma samplePrecompiled_wf : map_Forall (fun _ c => precompiled_ok c) samplePrecompiled.
Proof.
  apply map_Forall_singleton. split.
  - intros n Hn. cbn. assert (0 <= (n + 31) / 32) by (apply Z.div_pos; lia). lia.
  - intros i o Hi Ho. cbn. unfold copyTo. split.
    + rewrite length_app, length_take, length_drop. lia.
    + apply Forall_app. split; [by apply Forall_take|by apply Forall_drop].
Qed.

Lemma richState_ok : state_ok sampleHash (cacheState richCache).
Proof.
  apply cacheState_ok. unfold richCache, sampleCache.
  apply map_Forall_insert_2; [|apply map_Forall_insert_2; [|apply map_Forall_insert_2;
    [|apply map_Forall_empty]]]; (split_and!; try done; try apply map_Forall_empty; decide_closed).
Qed.

(** What is looked at after the execution: the gas used and a storage slot *)
Definition observe (r : result exec_error (Executive * State mapStore)) : Z * Z :=
  match r with
  | Ok (e, s') => (executive_gasUsed sampleCallTx e, slot s' 6 2)
  | Throw _ => (0, 0)
  end.

(** The call costs 21072 gas for the transaction and 20006 for the code. *)
Lemma sampleCall_observed :
  observe (runTransaction sampleHash samplePrecompiled HomesteadSchedule sampleInfo false noRecover
             sampleCallTx (cacheState richCache)) = (41078, 1).
Proof. vm_compute. reflexivity. Qed.

Lemma transaction_correct_witness :
  exists e s', runTransaction sampleHash samplePrecompiled HomesteadSchedule sampleInfo false noRecover
                 sampleCallTx (cacheState richCache) = Ok (e, s') /\
    supply s' <= supply (cacheState richCache) /\ executive_gasUsed sampleCallTx e = 41078 /\
    slot s' 6 2 = 1.
Proof.
  assert (tx_fits sampleCallTx) as Ht by decide_closed.
  pose proof (transaction_correct sampleHash samplePrecompiled true true 53000 sampleInfo false
    sampleHash_wf samplePrecompiled_wf sampleInfo_wf noRecover sampleCallTx (cacheState richCache)
    richState_ok Ht) as Hc.
  change (newSchedule true true 53000) with HomesteadSchedule in Hc.
  destruct (runTransaction sampleHash samplePrecompiled HomesteadSchedule sampleInfo false noRecover
              sampleCallTx (cacheState richCache)) as [[e s']|err] eqn:E.
  - exists e, s'. destruct Hc as (_ & _ & Hs & _). split; [reflexivity|]. split; [exact Hs|].
    pose proof sampleCall_observed as Hv. rewrite E in Hv. injection Hv as Hv1 Hv2.
    split; [exact Hv1|exact Hv2].
  - exfalso. pose proof sampleCall_observed as Hv. rewrite E in Hv. discriminate Hv.
Defined.


(** Five units to the contract 6, which runs out of gas. *)
Definition sampleCall : CallParameters := mkCallParameters 5 6 6 5 5 100 [] [].

Lemma message_call_correct_witness :
  exists e s1 e' s2,
    Executive_call sampleHash samplePrecompiled sampleInfo None 0 sampleCall 1 5 (cacheState richCache)
      = Ok (e, s1) /\
    Executive_go sampleHash HomesteadSchedule
      (execAt sampleHash samplePrecompiled HomesteadSchedule sampleInfo false 1024) e s1 = Ok (e', s2) /\
    (excepted e' = true -> m_gas e' = 0 /\ same_contents (cacheState richCache) s2).
Proof.
  destruct (message_call_correct sampleHash samplePrecompiled true true 53000 sampleInfo false
    sampleHash_wf samplePrecompiled_wf sampleInfo_wf 1024 None sampleCall 1 5 (cacheState richCache)
    richState_ok) as (e & s1 & e' & s2 & E1 & E2 & _ & _ & _ & _ & _ & Hf);
    try decide_closed.
  exists e, s1, e', s2. split; [exact E1|]. split; [exact E2|]. intros He. destruct (Hf He) as (? & ? & _).
  by split.
Defined.

(** The initialisation code [PUSH1 1; PUSH1 0; RETURN] deposits one byte of code. *)
Lemma creation_correct_witness :
  exists e s1 e' s2,
    Executive_create sampleHash sampleInfo false None 0 5 11 1 1000 [96; 1; 96; 0; 243] 5
      (cacheState richCache) = Ok (e, s1) /\
    Executive_go sampleHash HomesteadSchedule
      (execAt sampleHash samplePrecompiled HomesteadSchedule sampleInfo false 1024) e s1 = Ok (e', s2) /\
    supply s2 <= supply (cacheState richCache) /\ m_gas e' <= 1000.
Proof.
  destruct (creation_correct sampleHash samplePrecompiled true true 53000 sampleInfo false
    sampleHash_wf samplePrecompiled_wf sampleInfo_wf 1024 None 5 11 1 1000 [96; 1; 96; 0; 243] 5
    (cacheState richCache) richState_ok) as (e & s1 & e' & s2 & E1 & E2 & _ & _ & Hs & Hg & _);
    try decide_closed.
  exists e, s1, e', s2. split; [exact E1|]. split; [exact E2|]. split; [exact Hs|apply Hg].
Defined.

(** An executive without code, with 30000 of 100000 gas left *)
Definition sampleRest : Executive := mkExecutive None [] None 0 false TE_None 30000 0 [].

Definition gasLeft (r : result state_error (Executive * State mapStore)) : Z :=
  match r with Ok (e, _) => m_gas e | Throw _ => -1 end.

Lemma sampleRest_gas :
  gasLeft (finalize sampleHash HomesteadSchedule sampleInfo sampleCallTx 5 sampleRest
             (cacheState richCache)) = 30000.
Proof. vm_compute. reflexivity. Qed.

