(* ===== verification/BlockHeader.v ===== *)
(** * libelecore/BlockHeader.{h,cpp}

    Block headers: their fields, the RLP form with and without the seal, the
    memoised hashes, the parser, and the checks of [verify] against the parent and
    the rest of the block.  Hashes are the bytes of the [FixedHash].

    An RLP object is modelled by its bytes, as in [TrieDB]. *)

From Stdlib Require Import ZArith Lia.
From stdpp Require Import base list list_numbers option.
From S2P Require Import Prelude CommonData RLP RLPTheory FixedHash TrieCommon Trie TrieHash TrieHashTheory MemoryDB TrieDB.

Inductive IncludeSeal := WithoutSeal | WithSeal | OnlySeal.
#[export] Instance IncludeSeal_eq_dec : EqDecision IncludeSeal.
Proof. solve_decision. Defined.

Module Strictness.
Inductive t := CheckEverything | JustSeal | QuickNonce | IgnoreSeal | CheckNothingNew.
#[global] Instance t_eq_dec : EqDecision t.
Proof. solve_decision. Defined.
End Strictness.

Inductive BlockDataType := HeaderData | BlockData.
#[export] Instance BlockDataType_eq_dec : EqDecision BlockDataType.
Proof. solve_decision. Defined.

(** The exceptions of the header and of the seal engines *)
Inductive hdr_error :=
| HdrRLP (e : rlp_error)
| HdrTrie (e : trie_error)
| InvalidBlockFormat
| InvalidNumber
| TooMuchGasUsed
| InvalidParentHash
| InvalidTimestamp
| InvalidTransactionsRoot
| InvalidUnclesHash
| InvalidDifficulty
| InvalidGasLimit
| ExtraDataTooBig
| InvalidBlockNonce
| GenesisBlockCannotBeCalculated
| DivisionByZero
| HdrNoReturn.
#[export] Instance trie_error_eq_dec : EqDecision trie_error.
Proof. solve_decision. Defined.
#[export] Instance hdr_error_eq_dec : EqDecision hdr_error.
Proof. solve_decision. Defined.

Abbreviation hres := (result hdr_error).

Definition hrlp {A} (r : result rlp_error A) : hres A :=
  match r with Ok a => Ok a | Throw e => Throw (HdrRLP e) end.
Definition htrie {A} (r : result trie_error A) : hres A :=
  match r with Ok a => Ok a | Throw e => Throw (HdrTrie e) end.

(** [r[i]] and [r.itemCount()] *)
Definition item_ (d : bytes) (i : Z) : hres bytes := hrlp (snd (RLP.index (RLP.mk d) i)).
Definition items_ (d : bytes) : hres Z :=
  match RLP.itemCount d with Some r => hrlp r | None => Throw HdrNoReturn end.

Record BlockHeader := mkHeader {
  h_parentHash : bytes;
  h_sha3Uncles : bytes;
  h_stateRoot : bytes;
  h_transactionsRoot : bytes;
  h_receiptsRoot : bytes;
  h_logBloom : bytes;
  h_number : Z;
  h_gasLimit : Z;
  h_gasUsed : Z;
  h_extraData : bytes;
  h_timestamp : Z;
  h_author : bytes;
  h_difficulty : Z;
  h_seal : list bytes;
  h_hash : bytes;
  h_hashWithout : bytes
}.
#[export] Instance BlockHeader_eq_dec : EqDecision BlockHeader.
Proof. solve_decision. Defined.

(** [BlockHeader()] *)
Definition newHeader : BlockHeader :=
  mkHeader (zeroHash 32) (zeroHash 32) (zeroHash 32) (zeroHash 32) (zeroHash 32) (zeroHash 256)
    0 0 0 [] Invalid256 (zeroHash 20) 0 [] (zeroHash 32) (zeroHash 32).

(** [operator bool] *)
Definition isHeader (h : BlockHeader) : bool := negb (h_timestamp h =? Invalid256).

(** [operator==]: the seal and the memos are not compared. *)
Definition header_eqb (h c : BlockHeader) : bool :=
  bool_decide (h_parentHash h = h_parentHash c) && bool_decide (h_sha3Uncles h = h_sha3Uncles c) &&
  bool_decide (h_author h = h_author c) && bool_decide (h_stateRoot h = h_stateRoot c) &&
  bool_decide (h_transactionsRoot h = h_transactionsRoot c) && bool_decide (h_receiptsRoot h = h_receiptsRoot c) &&
  bool_decide (h_logBloom h = h_logBloom c) && (h_difficulty h =? h_difficulty c) &&
  (h_number h =? h_number c) && (h_gasLimit h =? h_gasLimit c) && (h_gasUsed h =? h_gasUsed c) &&
  (h_timestamp h =? h_timestamp c) && bool_decide (h_extraData h = h_extraData c).

(** The two memos *)
Definition set_memos (w wo : bytes) (h : BlockHeader) : BlockHeader :=
  mkHeader (h_parentHash h) (h_sha3Uncles h) (h_stateRoot h) (h_transactionsRoot h) (h_receiptsRoot h)
    (h_logBloom h) (h_number h) (h_gasLimit h) (h_gasUsed h) (h_extraData h) (h_timestamp h) (h_author h)
    (h_difficulty h) (h_seal h) w wo.

Definition noteDirty (h : BlockHeader) : BlockHeader := set_memos (zeroHash 32) (zeroHash 32) h.

(** *** The setters *)

Definition setParentHash (v : bytes) (h : BlockHeader) : BlockHeader :=
  noteDirty (mkHeader v (h_sha3Uncles h) (h_stateRoot h) (h_transactionsRoot h) (h_receiptsRoot h)
    (h_logBloom h) (h_number h) (h_gasLimit h) (h_gasUsed h) (h_extraData h) (h_timestamp h) (h_author h)
    (h_difficulty h) (h_seal h) (h_hash h) (h_hashWithout h)).
Definition setSha3Uncles (v : bytes) (h : BlockHeader) : BlockHeader :=
  noteDirty (mkHeader (h_parentHash h) v (h_stateRoot h) (h_transactionsRoot h) (h_receiptsRoot h)
    (h_logBloom h) (h_number h) (h_gasLimit h) (h_gasUsed h) (h_extraData h) (h_timestamp h) (h_author h)
    (h_difficulty h) (h_seal h) (h_hash h) (h_hashWithout h)).
Definition setTimestamp (v : Z) (h : BlockHeader) : BlockHeader :=
  noteDirty (mkHeader (h_parentHash h) (h_sha3Uncles h) (h_stateRoot h) (h_transactionsRoot h) (h_receiptsRoot h)
    (h_logBloom h) (h_number h) (h_gasLimit h) (h_gasUsed h) (h_extraData h) v (h_author h)
    (h_difficulty h) (h_seal h) (h_hash h) (h_hashWithout h)).
Definition setAuthor (v : bytes) (h : BlockHeader) : BlockHeader :=
  noteDirty (mkHeader (h_parentHash h) (h_sha3Uncles h) (h_stateRoot h) (h_transactionsRoot h) (h_receiptsRoot h)
    (h_logBloom h) (h_number h) (h_gasLimit h) (h_gasUsed h) (h_extraData h) (h_timestamp h) v
    (h_difficulty h) (h_seal h) (h_hash h) (h_hashWithout h)).
Definition setRoots (t r u s : bytes) (h : BlockHeader) : BlockHeader :=
  noteDirty (mkHeader (h_parentHash h) u s t r
    (h_logBloom h) (h_number h) (h_gasLimit h) (h_gasUsed h) (h_extraData h) (h_timestamp h) (h_author h)
    (h_difficulty h) (h_seal h) (h_hash h) (h_hashWithout h)).
Definition setGasUsed (v : Z) (h : BlockHeader) : BlockHeader :=
  noteDirty (mkHeader (h_parentHash h) (h_sha3Uncles h) (h_stateRoot h) (h_transactionsRoot h) (h_receiptsRoot h)
    (h_logBloom h) (h_number h) (h_gasLimit h) v (h_extraData h) (h_timestamp h) (h_author h)
    (h_difficulty h) (h_seal h) (h_hash h) (h_hashWithout h)).
Definition setNumber (v : Z) (h : BlockHeader) : BlockHeader :=
  noteDirty (mkHeader (h_parentHash h) (h_sha3Uncles h) (h_stateRoot h) (h_transactionsRoot h) (h_receiptsRoot h)
    (h_logBloom h) v (h_gasLimit h) (h_gasUsed h) (h_extraData h) (h_timestamp h) (h_author h)
    (h_difficulty h) (h_seal h) (h_hash h) (h_hashWithout h)).
Definition setGasLimit (v : Z) (h : BlockHeader) : BlockHeader :=
  noteDirty (mkHeader (h_parentHash h) (h_sha3Uncles h) (h_stateRoot h) (h_transactionsRoot h) (h_receiptsRoot h)
    (h_logBloom h) (h_number h) v (h_gasUsed h) (h_extraData h) (h_timestamp h) (h_author h)
    (h_difficulty h) (h_seal h) (h_hash h) (h_hashWithout h)).
Definition setExtraData (v : bytes) (h : BlockHeader) : BlockHeader :=
  noteDirty (mkHeader (h_parentHash h) (h_sha3Uncles h) (h_stateRoot h) (h_transactionsRoot h) (h_receiptsRoot h)
    (h_logBloom h) (h_number h) (h_gasLimit h) (h_gasUsed h) v (h_timestamp h) (h_author h)
    (h_difficulty h) (h_seal h) (h_hash h) (h_hashWithout h)).
Definition setLogBloom (v : bytes) (h : BlockHeader) : BlockHeader :=
  noteDirty (mkHeader (h_parentHash h) (h_sha3Uncles h) (h_stateRoot h) (h_transactionsRoot h) (h_receiptsRoot h)
    v (h_number h) (h_gasLimit h) (h_gasUsed h) (h_extraData h) (h_timestamp h) (h_author h)
    (h_difficulty h) (h_seal h) (h_hash h) (h_hashWithout h)).
Definition setDifficulty (v : Z) (h : BlockHeader) : BlockHeader :=
  noteDirty (mkHeader (h_parentHash h) (h_sha3Uncles h) (h_stateRoot h) (h_transactionsRoot h) (h_receiptsRoot h)
    (h_logBloom h) (h_number h) (h_gasLimit h) (h_gasUsed h) (h_extraData h) (h_timestamp h) (h_author h)
    v (h_seal h) (h_hash h) (h_hashWithout h)).

(** [if (m_seal.size() <= offset) m_seal.resize(offset + 1); m_seal[offset] = rlp(value)] *)
Definition resize (n : nat) (d : bytes) (l : list bytes) : list bytes := take n l ++ replicate (n - length l) d.

Definition setSeal (offset : nat) (v : bytes) (h : BlockHeader) : result rlp_error BlockHeader :=
  s ← RLPStream.appendHash RLPStream.empty v false false; r ← RLPStream.out s;
  let seal := if (length (h_seal h) <=? offset)%nat then resize (S offset) [] (h_seal h) else h_seal h in
  Ok (noteDirty (mkHeader (h_parentHash h) (h_sha3Uncles h) (h_stateRoot h) (h_transactionsRoot h) (h_receiptsRoot h)
    (h_logBloom h) (h_number h) (h_gasLimit h) (h_gasUsed h) (h_extraData h) (h_timestamp h) (h_author h)
    (h_difficulty h) (<[offset := r]> seal) (h_hash h) (h_hashWithout h))).

(** [seal<T>(offset)] for a hash of [n] bytes *)
Definition sealField (n : nat) (offset : nat) (h : BlockHeader) : hres bytes :=
  match h_seal h !! offset with
  | Some d => r ← hrlp (RLP.construct d VeryStrict); hrlp (RLP.toHash (Z.of_nat n) r VeryStrict)
  | None => Ok (zeroHash n)
  end.

(** *** Serialisation *)

Definition streamRLPFields (h : BlockHeader) (s : RLPStream.t) : result rlp_error RLPStream.t :=
  s1 ← RLPStream.appendHash s (h_parentHash h) false false;
  s2 ← RLPStream.appendHash s1 (h_sha3Uncles h) false false;
  s3 ← RLPStream.appendHash s2 (h_author h) false false;
  s4 ← RLPStream.appendHash s3 (h_stateRoot h) false false;
  s5 ← RLPStream.appendHash s4 (h_transactionsRoot h) false false;
  s6 ← RLPStream.appendHash s5 (h_receiptsRoot h) false false;
  s7 ← RLPStream.appendHash s6 (h_logBloom h) false false;
  s8 ← RLPStream.appendInt s7 (h_difficulty h);
  s9 ← RLPStream.appendInt s8 (h_number h);
  s10 ← RLPStream.appendInt s9 (h_gasLimit h);
  s11 ← RLPStream.appendInt s10 (h_gasUsed h);
  s12 ← RLPStream.appendInt s11 (h_timestamp h);
  RLPStream.append s12 (h_extraData h) false.

Definition BasicFields : Z := 13.

(** [for (i = 0; i < m_seal.size(); ++i) s.appendRaw(m_seal[i])] *)
Fixpoint appendSeal (l : list bytes) (s : RLPStream.t) : result rlp_error RLPStream.t :=
  match l with [] => Ok s | d :: l' => s1 ← RLPStream.appendRaw s d 1; appendSeal l' s1 end.

Definition header_streamRLP (h : BlockHeader) (i : IncludeSeal) (s : RLPStream.t) : result rlp_error RLPStream.t :=
  s1 ← (if decide (i <> OnlySeal) then
          s0 ← RLPStream.appendList s (BasicFields + (if decide (i = WithoutSeal) then 0 else sizeZ (h_seal h)));
          streamRLPFields h s0
        else Ok s);
  if decide (i <> WithoutSeal) then appendSeal (h_seal h) s1 else Ok s1.

Section Header.
Context (sha3 : bytes -> bytes).

(** [hash], which fills the memo *)
Definition header_hash (h : BlockHeader) (i : IncludeSeal) : result rlp_error (bytes * BlockHeader) :=
  let memo := match i with WithSeal => h_hash h | WithoutSeal => h_hashWithout h | OnlySeal => zeroHash 32 end in
  if nonzero memo then Ok (memo, h)
  else
    s ← header_streamRLP h i RLPStream.empty;
    o ← RLPStream.out s;
    Ok (sha3 o, match i with
                | WithSeal => set_memos (sha3 o) (h_hashWithout h) h
                | WithoutSeal => set_memos (h_hash h) (sha3 o) h
                | OnlySeal => h
                end).

(** [EmptyListSHA3] and [EmptyTrie] are the hashes of the empty list and the empty string. *)
Definition header_clear (h : BlockHeader) : BlockHeader :=
  mkHeader (zeroHash 32) (sha3 [192]) (sha3 [128]) (sha3 [128]) (sha3 [128]) (zeroHash 256)
    0 0 0 [] Invalid256 (zeroHash 20) 0 [] (zeroHash 32) (zeroHash 32).

(** *** Parsing *)

Definition headerHashFromBlock (block : bytes) : hres bytes :=
  r ← hrlp (RLP.construct block VeryStrict); x ← item_ r 0; Ok (sha3 x).

Definition extractHeader (block : bytes) : hres bytes :=
  root ← hrlp (RLP.construct block VeryStrict);
  _ ← guard_or (RLP.isList root) InvalidBlockFormat;
  header ← item_ root 0;
  _ ← guard_or (RLP.isList header) InvalidBlockFormat;
  txs ← item_ root 1;
  _ ← guard_or (RLP.isList txs) InvalidBlockFormat;
  uncles ← item_ root 2;
  _ ← guard_or (RLP.isList uncles) InvalidBlockFormat;
  Ok header.

(** [for (i = 13; i < header.itemCount(); ++i) m_seal.push_back(header[i].data())] *)
Fixpoint sealItems (d : bytes) (is_ : list Z) : hres (list bytes) :=
  match is_ with [] => Ok [] | i :: is' => x ← item_ d i; l ← sealItems d is'; Ok (x :: l) end.

Definition hashField (n : Z) (d : bytes) (i : Z) : hres bytes := x ← item_ d i; hrlp (RLP.toHash n x VeryStrict).
Definition intField (d : bytes) (i : Z) : hres Z := x ← item_ d i; hrlp (RLP.toInt (Some 256) x Strict).

(** [populate]; the memos are those of the constructor *)
Definition populate (d : bytes) (hash hashWithout : bytes) : hres BlockHeader :=
  parentHash ← hashField 32 d 0;
  sha3Uncles ← hashField 32 d 1;
  author ← hashField 20 d 2;
  stateRoot ← hashField 32 d 3;
  transactionsRoot ← hashField 32 d 4;
  receiptsRoot ← hashField 32 d 5;
  logBloom ← hashField 256 d 6;
  difficulty ← intField d 7;
  number ← intField d 8;
  gasLimit ← intField d 9;
  gasUsed ← intField d 10;
  timestamp ← intField d 11;
  x12 ← item_ d 12; extraData ← hrlp (RLP.toBytes x12 LaissezFaire);
  n ← items_ d;
  seal ← sealItems d (seqZ 13 (n - 13));
  Ok (mkHeader parentHash sha3Uncles stateRoot transactionsRoot receiptsRoot logBloom number gasLimit gasUsed
        extraData timestamp author difficulty seal hash hashWithout).

(** [BlockHeader(block, bdt, hashWith)] *)
Definition parseHeader (block : bytes) (bdt : BlockDataType) (hashWith : bytes) : hres BlockHeader :=
  header ← (if decide (bdt = BlockData) then extractHeader block else hrlp (RLP.construct block VeryStrict));
  populate header (if nonzero hashWith then hashWith else sha3 header) (zeroHash 32).

(** *** Relation to the parent *)

(** [populateFromParent]: the parent's memo is taken as it is, and the own memos stay *)
Definition header_populateFromParent (h parent : BlockHeader) : BlockHeader :=
  mkHeader (h_hash parent) (h_sha3Uncles h) (h_stateRoot parent) (h_transactionsRoot h) (h_receiptsRoot h)
    (h_logBloom h) (u256 (h_number parent + 1)) (h_gasLimit parent) 0 (h_extraData h) (h_timestamp h) (h_author h)
    1 (h_seal h) (h_hash h) (h_hashWithout h).

(** The trie that [verify] builds for its diagnostics when the root is wrong *)
Fixpoint diagnosticTrie (txList : bytes) (is_ : list Z) (db : MemoryDB) (root : bytes) : hres (MemoryDB * bytes) :=
  match is_ with
  | [] => Ok (db, root)
  | i :: is' =>
      k ← hrlp (rlpUnsigned i);
      v ← item_ txList i;
      '(db1, root1) ← htrie (trie_insert_ sha3 db root k v);
      diagnosticTrie txList is' db1 root1
  end.

(** [if (m_number > ~(unsigned)0)] and the checks against the parent *)
Definition verify_parent (h parent : BlockHeader) : hres unit :=
  if isHeader parent then
    _ ← (if nonzero (h_parentHash h) then
           '(ph, _) ← hrlp (header_hash parent WithSeal);
           guard_or (bool_decide (ph = h_parentHash h)) InvalidParentHash
         else Ok tt);
    _ ← guard_or (negb (h_timestamp h <=? h_timestamp parent)) InvalidTimestamp;
    guard_or (h_number h =? u256 (h_number parent + 1)) InvalidNumber
  else Ok tt.

Definition verify_block (h : BlockHeader) (block : bytes) : hres unit :=
  if decide (block <> []) then
    root ← hrlp (RLP.construct block VeryStrict);
    txList ← item_ root 1;
    n ← items_ txList;
    expectedRoot ← hrlp (trieRootOver sha3 (u32 n) rlpUnsigned (fun i => snd (RLP.index (RLP.mk txList) i)));
    _ ← (if decide (h_transactionsRoot h = expectedRoot) then Ok tt
         else
           let '(db, r) := init_ sha3 emptyMemoryDB in
           '(db1, r1) ← diagnosticTrie txList (seqZ 0 n) db r;
           _ ← htrie (trie_root db1 r1);
           Throw InvalidTransactionsRoot);
    uncles ← item_ root 2;
    guard_or (bool_decide (h_sha3Uncles h = sha3 uncles)) InvalidUnclesHash
  else Ok tt.

Definition header_verify (s : Strictness.t) (h parent : BlockHeader) (block : bytes) : hres unit :=
  _ ← guard_or (negb (2 ^ 32 - 1 <? h_number h)) InvalidNumber;
  _ ← guard_or (bool_decide (s = Strictness.CheckNothingNew) || negb (h_gasLimit h <? h_gasUsed h)) TooMuchGasUsed;
  _ ← verify_parent h parent;
  verify_block h block.

End Header.
