(* ===== verification/Elhash.v ===== *)
(** * libelecore/ChainOperationParams, SealEngine and libelhashseal/Elhash{,Aux}.cpp

    The parameters of a chain, the rules of the proof-of-work engine for
    difficulty and gas limit, the check of a header and its seal, and the seed
    hashes with their caches.  The memory-hard function itself (the C library
    libelhash below [ElhashAux::eval]) and Keccak are parameters. *)

From Stdlib Require Import ZArith Lia String Ascii.
From stdpp Require Import base list list_numbers option gmap strings.
From S2P Require Import Prelude CommonData RLP FixedHash Instruction ExtVMFace Account State Transaction Executive BlockHeader.

(** ** Chain parameters *)

Record ChainOperationParams := mkParams {
  sealEngineName : string;
  blockReward : Z;
  maximumExtraDataSize : Z;
  accountStartNonce : Z;
  tieBreakingGas : bool;
  cp_evmSchedule : EVMSchedule;
  cp_precompiled : gmap Address PrecompiledContract;
  otherParams : gmap string string
}.

(** [ChainOperationParams()] *)
Definition newParams : ChainOperationParams :=
  mkParams "NoProof" 5000000000000000000 1024 0 true DefaultSchedule ∅
    (list_to_map [("minGasLimit", "0x1388"); ("maxGasLimit", "0x7fffffffffffffff");
                  ("gasLimitBoundDivisor", "0x0400"); ("minimumDifficulty", "0x020000");
                  ("difficultyBoundDivisor", "0x0800"); ("durationLimit", "0x0d");
                  ("registrar", "5e70c0bbcd5636e0f9f9316e9f8633feb64d4050"); ("networkID", "0x0")])%string.

(** The codes of a string's characters *)
Fixpoint chars (s : string) : list Z :=
  match s with EmptyString => [] | String c s' => Z.of_N (N_of_ascii c) :: chars s' end.

(** [u256Param]; a parameter that is absent or no number counts as zero *)
Definition u256Param (p : ChainOperationParams) (name : string) : Z :=
  let at_ := default EmptyString (otherParams p !! name) in
  match fromHex (chars at_) DontThrow with
  | Ok b => u256 (fromBigEndian 256 b)
  | Throw _ => 0
  end.

(** ** [ImportRequirements] *)

Definition IR_ValidSeal : Z := 1.
Definition IR_UncleBasic : Z := 4.
Definition IR_TransactionBasic : Z := 8.
Definition IR_UncleSeals : Z := 16.
Definition IR_TransactionSignatures : Z := 32.
Definition IR_Parent : Z := 64.
Definition IR_UncleParent : Z := 128.
Definition IR_PostGenesis : Z := 256.
Definition IR_CheckUncles : Z := Z.lor IR_UncleBasic IR_UncleSeals.
Definition IR_CheckTransactions : Z := Z.lor IR_TransactionBasic IR_TransactionSignatures.
Definition IR_OutOfOrderChecks : Z := Z.lor (Z.lor IR_ValidSeal IR_CheckUncles) IR_CheckTransactions.
Definition IR_InOrderChecks : Z := Z.lor IR_Parent IR_UncleParent.
Definition IR_Everything : Z :=
  Z.lor (Z.lor (Z.lor (Z.lor IR_ValidSeal IR_CheckUncles) IR_CheckTransactions) IR_Parent) IR_UncleParent.

Definition requires (ir bit : Z) : bool := negb (Z.land ir bit =? 0).

(** ** [SealEngineFace] *)

Definition face_verify (sha3 : bytes -> bytes) := header_verify sha3.
Definition face_populateFromParent := header_populateFromParent.
Definition face_verifyTransaction (ir : Z) (t : Transaction) : result tx_error unit :=
  if requires ir IR_TransactionSignatures then checkLowS t else Ok tt.

(** ** Elhash *)

(** [x / y] on integers of libboost: throws on zero, truncates *)
Definition div_ (x y : Z) : hres Z := if y =? 0 then Throw DivisionByZero else Ok (Z.quot x y).

Definition elhash_evmSchedule (p : ChainOperationParams) (number : Z) : EVMSchedule :=
  if u256Param p "frontierCompatibilityModeLimit" <=? number then HomesteadSchedule else FrontierSchedule.

Inductive txcheck_error := CheckTx (e : tx_error) | OutOfGasIntrinsic.

Definition elhash_verifyTransaction (p : ChainOperationParams) (ir : Z) (t : Transaction) (bi : BlockHeader)
  : result txcheck_error unit :=
  _ ← (if requires ir IR_TransactionSignatures && (u256Param p "frontierCompatibilityModeLimit" <=? h_number bi)
       then match checkLowS t with Ok _ => Ok tt | Throw e => Throw (CheckTx e) end
       else Ok tt);
  guard_or (negb (requires ir IR_TransactionBasic &&
      (tx_gas t <? gasRequired (isCreation t) (tx_data t) (elhash_evmSchedule p (h_number bi)) 0)))
    OutOfGasIntrinsic.

(** [childGasLimit]: the arithmetic is that of [u256] *)
Definition childGasLimit (p : ChainOperationParams) (bi : BlockHeader) (gasFloorTarget_ : Z) : hres Z :=
  let gasFloorTarget := if gasFloorTarget_ =? Invalid256 then 3141562 else gasFloorTarget_ in
  let gasLimit := h_gasLimit bi in
  let boundDivisor := u256Param p "gasLimitBoundDivisor" in
  if gasLimit <? gasFloorTarget then
    q ← div_ gasLimit boundDivisor;
    Ok (Z.min gasFloorTarget (u256 (gasLimit + q - 1)))
  else
    q ← div_ gasLimit boundDivisor;
    u ← div_ (u256 (h_gasUsed bi * 6) / 5) boundDivisor;
    Ok (Z.max gasFloorTarget (u256 (gasLimit - q + 1 + u))).

Definition c_expDiffPeriod : Z := 100000.

Definition calculateDifficulty (p : ChainOperationParams) (bi parent : BlockHeader) : hres Z :=
  _ ← guard_or (negb (h_number bi =? 0)) GenesisBlockCannotBeCalculated;
  let minimumDifficulty := u256Param p "minimumDifficulty" in
  let difficultyBoundDivisor := u256Param p "difficultyBoundDivisor" in
  let durationLimit := u256Param p "durationLimit" in
  target ←
    (if h_number bi <? u256Param p "frontierCompatibilityModeLimit" then
       q ← div_ (h_difficulty parent) difficultyBoundDivisor;
       Ok (if u256 (h_timestamp parent + durationLimit) <=? h_timestamp bi
           then u256 (h_difficulty parent - q) else u256 (h_difficulty parent + q))
     else
       Ok (h_difficulty parent
           + h_difficulty parent / 2048 * Z.max (1 - Z.quot (h_timestamp bi - h_timestamp parent) 10) (-99)));
  let periodCount := u32 (u256 (h_number parent + 1)) / c_expDiffPeriod in
  let o := if 1 <? periodCount then target + Z.shiftl 1 (periodCount - 2) else target in
  Ok (u256 (Z.min (Z.max minimumDifficulty o) (2 ^ 256 - 1))).

(** [populateFromParent] *)
Definition elhash_populateFromParent (p : ChainOperationParams) (bi parent : BlockHeader) : hres BlockHeader :=
  let bi1 := face_populateFromParent bi parent in
  d ← calculateDifficulty p bi1 parent;
  g ← childGasLimit p parent Invalid256;
  Ok (setGasLimit g (setDifficulty d bi1)).

(** *** The seal *)

Definition elhash_nonce (bi : BlockHeader) : hres bytes := sealField 8 1 bi.
Definition elhash_mixHash (bi : BlockHeader) : hres bytes := sealField 32 0 bi.

Definition boundary (bi : BlockHeader) : bytes :=
  if h_difficulty bi =? 0 then zeroHash 32 else ofArith 32 (u256 (2 ^ 256 / h_difficulty bi)).

Definition setNonce (v : bytes) (bi : BlockHeader) : result rlp_error BlockHeader := setSeal 1 v bi.
Definition setMixHash (v : bytes) (bi : BlockHeader) : result rlp_error BlockHeader := setSeal 0 v bi.

Definition ELHASH_EPOCH_LENGTH : Z := 30000.

(** [elhash_check_difficulty] of libelhash/internal.h: the first byte that differs decides *)
Fixpoint check_difficulty (hash bound : bytes) : bool :=
  match hash, bound with
  | x :: hash', y :: bound' => if x =? y then check_difficulty hash' bound' else x <? y
  | _, _ => true
  end.

Section Seal.
Context (sha3 sha3_512 : bytes -> bytes).
(** [ElhashAux::eval]: seed hash, header hash and nonce to value and mix hash *)
Context (eval : bytes -> bytes -> bytes -> bytes * bytes).

(** [elhash_quick_hash]: the nonce is written with its least significant byte first *)
Definition quick_hash (headerHash nonce mixHash : bytes) : bytes :=
  sha3 (sha3_512 (headerHash ++ rev nonce) ++ mixHash).

Definition quickVerifySeal (bi : BlockHeader) : hres bool :=
  if ELHASH_EPOCH_LENGTH * 2048 <=? h_number bi then Ok false
  else
    '(h, _) ← hrlp (header_hash sha3 bi WithoutSeal);
    m ← elhash_mixHash bi;
    n ← elhash_nonce bi;
    Ok (check_difficulty (quick_hash h n m) (boundary bi)).

(** *** [ElhashAux::seedHash] and [number], with the caches they share *)

(** [for (; n <= epoch; ++n, ret = sha3(ret)) m_seedHashes[n] = ret] *)
Fixpoint seed_loop (k : nat) (n : nat) (ret : bytes) (cache : list bytes) : list bytes :=
  match k with O => cache | S k' => seed_loop k' (S n) (sha3 ret) (<[n := ret]> cache) end.

Definition seedHash (cache : list bytes) (number : Z) : bytes * list bytes :=
  let epoch := Z.to_nat (u32 number / ELHASH_EPOCH_LENGTH) in
  let cache1 :=
    if (length cache <=? epoch)%nat then
      let '(ret, n) := match last cache with
                       | Some h => (h, length cache - 1)%nat
                       | None => (zeroHash 32, 0%nat)
                       end in
      seed_loop (S epoch - n) n ret (resize (S epoch) (zeroHash 32) cache)
    else cache in
  (nth epoch cache1 [], cache1).

(** [for (h256 h; h != seedHash && epoch < 2048; ++epoch, h = sha3(h), m_epochs[h] = epoch) {}] *)
Fixpoint epoch_loop (fuel : nat) (h seed : bytes) (epoch : Z) (epochs : gmap bytes Z) : Z * gmap bytes Z :=
  match fuel with
  | O => (epoch, epochs)
  | S f =>
      if decide (h <> seed) then
        epoch_loop f (sha3 h) seed (epoch + 1) (<[sha3 h := epoch + 1]> epochs)
      else (epoch, epochs)
  end.

(** [number]; [None] is the exception for a seed hash that is not found *)
Definition seedNumber (epochs : gmap bytes Z) (seed : bytes) : option Z * gmap bytes Z :=
  match epochs !! seed with
  | Some e => (Some (e * ELHASH_EPOCH_LENGTH), epochs)
  | None =>
      let '(e, epochs1) := epoch_loop 2048 (zeroHash 32) seed 0 epochs in
      if e =? 2048 then (None, epochs1) else (Some (e * ELHASH_EPOCH_LENGTH), epochs1)
  end.

(** [verifySeal] in a release build; the seed hash does not depend on the cache *)
Definition verifySeal (bi : BlockHeader) : hres bool :=
  pre ← quickVerifySeal bi;
  if (pre : bool) then
    '(h, _) ← hrlp (header_hash sha3 bi WithoutSeal);
    n ← elhash_nonce bi;
    let '(value_, mix) := eval (fst (seedHash [] (h_number bi))) h n in
    m ← elhash_mixHash bi;
    Ok ((eqb value_ (boundary bi) || ltb value_ (boundary bi)) && eqb mix m)
  else Ok false.

(** [Elhash::verify] *)
Definition verify_limits (p : ChainOperationParams) (bi : BlockHeader) : hres unit :=
  _ ← guard_or (negb (h_difficulty bi <? u256Param p "minimumDifficulty")) InvalidDifficulty;
  _ ← guard_or (negb (h_gasLimit bi <? u256Param p "minGasLimit")) InvalidGasLimit;
  _ ← guard_or (negb (u256Param p "maxGasLimit" <? h_gasLimit bi)) InvalidGasLimit;
  guard_or (negb (negb (h_number bi =? 0) && (maximumExtraDataSize p <? sizeZ (h_extraData bi)))) ExtraDataTooBig.

Definition verify_rules (p : ChainOperationParams) (bi parent : BlockHeader) : hres unit :=
  if isHeader parent then
    expected ← calculateDifficulty p bi parent;
    _ ← guard_or (h_difficulty bi =? expected) InvalidDifficulty;
    let gasLimit := h_gasLimit bi in
    let parentGasLimit := h_gasLimit parent in
    _ ← guard_or (negb ((gasLimit <? u256Param p "minGasLimit") || (u256Param p "maxGasLimit" <? gasLimit))) InvalidGasLimit;
    q ← div_ parentGasLimit (u256Param p "gasLimitBoundDivisor");
    guard_or (negb ((gasLimit <=? u256 (parentGasLimit - q)) || (u256 (parentGasLimit + q) <=? gasLimit))) InvalidGasLimit
  else Ok tt.

Definition elhash_verify (p : ChainOperationParams) (s : Strictness.t) (bi parent : BlockHeader) (block : bytes)
  : hres unit :=
  _ ← face_verify sha3 s bi parent block;
  _ ← (if decide (s <> Strictness.CheckNothingNew) then verify_limits p bi else Ok tt);
  _ ← verify_rules p bi parent;
  if bool_decide (s = Strictness.CheckEverything) && nonzero (h_parentHash bi) then
    ok ← verifySeal bi; guard_or (ok : bool) InvalidBlockNonce
  else if bool_decide (s = Strictness.QuickNonce) && nonzero (h_parentHash bi) then
    ok ← quickVerifySeal bi; guard_or (ok : bool) InvalidBlockNonce
  else Ok tt.

End Seal.
