(* ===== verification/HeaderTheory.v ===== *)
(** * Block headers: serialisation, hashes and the checks of [verify] *)

From Stdlib Require Import ZArith Lia.
From stdpp Require Import base list list_numbers option.
From S2P Require Import Prelude CommonData RLP RLPTheory FixedHash TrieCommon Trie TrieHash TrieHashTheory MemoryDB TrieDB TrieDBTheory TrieDBInsert BlockHeader.

(** ** The serialised header *)

Definition hashOk (n : Z) (h : bytes) : Prop := wf_bytes h /\ sizeZ h = n.

#[export] Instance hashOk_dec n h : Decision (hashOk n h).
Proof. unfold hashOk. apply _. Defined.

(** Fields within their widths *)
Record wfHeader (h : BlockHeader) : Prop := mkWfHeader {
  wf_parentHash : hashOk 32 (h_parentHash h);
  wf_sha3Uncles : hashOk 32 (h_sha3Uncles h);
  wf_author : hashOk 20 (h_author h);
  wf_stateRoot : hashOk 32 (h_stateRoot h);
  wf_transactionsRoot : hashOk 32 (h_transactionsRoot h);
  wf_receiptsRoot : hashOk 32 (h_receiptsRoot h);
  wf_logBloom : hashOk 256 (h_logBloom h);
  wf_difficulty : fits 256 (h_difficulty h);
  wf_number : fits 256 (h_number h);
  wf_gasLimit : fits 256 (h_gasLimit h);
  wf_gasUsed : fits 256 (h_gasUsed h);
  wf_timestamp : fits 256 (h_timestamp h);
  wf_extraData : wf_bytes (h_extraData h) /\ sizeZ (h_extraData h) < 2 ^ 32
}.

(** The seal is a list of encoded items. *)
Definition sealIs (h : BlockHeader) (seals : list item) : Prop :=
  h_seal h = map encode seals /\ Forall smallItem seals /\ sizeZ seals < 2 ^ 16.

Definition headerItems (h : BlockHeader) : list item :=
  [Str (h_parentHash h); Str (h_sha3Uncles h); Str (h_author h); Str (h_stateRoot h); Str (h_transactionsRoot h);
   Str (h_receiptsRoot h); Str (h_logBloom h); int_item (h_difficulty h); int_item (h_number h);
   int_item (h_gasLimit h); int_item (h_gasUsed h); int_item (h_timestamp h); Str (h_extraData h)].

Lemma hash_small n h : hashOk n h -> n < 2 ^ 32 -> smallItem (Str h).
Proof. intros [Hw Hn] Hl. apply small_Str; [done|lia]. Qed.

Lemma headerItems_small h : wfHeader h -> Forall smallItem (headerItems h).
Proof.
  intros []. unfold headerItems.
  repeat (apply Forall_cons_2; [first [eapply hash_small; [eassumption|lia]|by apply small_int|by apply small_Str; apply wf_extraData0]|]).
  apply Forall_nil_2.
Qed.

Lemma header_good h seals : wfHeader h -> sealIs h seals ->
  wf_item (Lst (headerItems h ++ seals)) /\ fitsItem (Lst (headerItems h ++ seals)).
Proof.
  intros Hw (_ & Hs & Hn). apply small_items; [apply Forall_app; split; [by apply headerItems_small|done]|].
  rewrite sizeZ_app. change (sizeZ (headerItems h)) with 13. lia.
Qed.

Lemma appendItems_app s l l' : appendItems s (l ++ l') = (s' ← appendItems s l; appendItems s' l').
Proof.
  revert s. induction l as [|x l IH]; intros s; [done|]. cbn [app appendItems].
  destruct (appendItem s x) as [s1|e]; cbn; [apply IH|done].
Qed.

Lemma streamRLPFields_items h s : wfHeader h -> streamRLPFields h s = appendItems s (headerItems h).
Proof.
  intros []. unfold streamRLPFields, headerItems. cbn [appendItems].
  repeat (apply bind_ext; [first [done|by apply (appendInt_item _ _ 32)]|]; intros).
  change (appendItem a10 (Str (h_extraData h))) with (RLPStream.append a10 (h_extraData h) false).
  by destruct (RLPStream.append a10 (h_extraData h) false).
Qed.

Lemma appendSeal_items s seals : Forall smallItem seals -> appendSeal (map encode seals) s = appendItems s seals.
Proof.
  intros Hs. revert s. induction Hs as [|x seals [Hw Hx] Hs IH]; intros s; [done|]. cbn [map appendSeal appendItems].
  apply bind_ext; [by rewrite (appendItem_writes x s) by lia|]. intros s'. apply IH.
Qed.

(** The bytes of a header, with the seal and without *)
Definition headerBytes (h : BlockHeader) (seals : list item) (i : IncludeSeal) : bytes :=
  encode (Lst (headerItems h ++ match i with WithSeal => seals | _ => [] end)).

Lemma header_rlp h seals i : wfHeader h -> sealIs h seals -> i <> OnlySeal ->
  (s ← header_streamRLP h i RLPStream.empty; RLPStream.out s) = Ok (headerBytes h seals i).
Proof.
  intros Hw Hs Hi. destruct (header_good h seals Hw Hs) as [_ Hf]. pose proof Hs as (El & Hsm & _).
  unfold header_streamRLP, headerBytes. rewrite decide_True by done. destruct i; [| |done].
  - rewrite app_nil_r. rewrite <-(stream_items (headerItems h)); [|done|].
    + change (if decide (WithoutSeal = WithoutSeal) then 0 else sizeZ (h_seal h)) with 0. rewrite !bind_assoc. change (BasicFields + 0) with (sizeZ (headerItems h)).
      apply bind_ext; [done|]. intros s. rewrite streamRLPFields_items by done. destruct (appendItems s (headerItems h)); done.
    + by apply small_items; [apply headerItems_small|].
  - rewrite <-(stream_items (headerItems h ++ seals)) by done.
    change (if decide (WithSeal = WithoutSeal) then 0 else sizeZ (h_seal h)) with (sizeZ (h_seal h)). rewrite !bind_assoc.
    rewrite sizeZ_app. change (sizeZ (headerItems h)) with BasicFields.
    assert (sizeZ (h_seal h) = sizeZ seals) as -> by (rewrite El; unfold sizeZ; by rewrite length_map).
    apply bind_ext; [done|]. intros s. rewrite streamRLPFields_items, appendItems_app, El, !bind_assoc by done.
    apply bind_ext; [done|]. intros s'. by rewrite appendSeal_items.
Qed.

(** ** The memoised hashes *)

Section Hashes.
Context (sha3 : bytes -> bytes).

(** A memo that is set holds the hash. *)
Definition memosOk (h : BlockHeader) (seals : list item) : Prop :=
  (nonzero (h_hash h) = true -> h_hash h = sha3 (headerBytes h seals WithSeal)) /\
  (nonzero (h_hashWithout h) = true -> h_hashWithout h = sha3 (headerBytes h seals WithoutSeal)).

Lemma nonzero_zeroHash n : nonzero (zeroHash n) = false.
Proof. unfold nonzero, zeroHash. by induction n. Qed.

Lemma memosOk_dirty h seals : memosOk (noteDirty h) seals.
Proof. split; cbn [noteDirty set_memos h_hash h_hashWithout]; by rewrite nonzero_zeroHash. Qed.

Lemma header_hash_ok h seals i : wfHeader h -> sealIs h seals -> memosOk h seals -> i <> OnlySeal ->
  exists h', header_hash sha3 h i = Ok (sha3 (headerBytes h seals i), h') /\ memosOk h' seals /\
    noteDirty h' = noteDirty h.
Proof.
  intros Hw Hs Hm Hi. pose proof Hm as [Hm1 Hm2].
  pose proof (header_rlp h seals i Hw Hs Hi : (header_streamRLP h i RLPStream.empty ≫= RLPStream.out) = _) as E. unfold header_hash. destruct i; [| |done].
  - destruct (nonzero (h_hashWithout h)) eqn:En; [exists h; by rewrite Hm2|].
    rewrite <-bind_assoc, E, bind_Ok_l. eexists. by split; [|split; [split|]].
  - destruct (nonzero (h_hash h)) eqn:En; [exists h; by rewrite Hm1|].
    rewrite <-bind_assoc, E, bind_Ok_l. eexists. by split; [|split; [split|]].
Qed.

(** ** Parsing *)

Lemma item_ok l i x : goodItem (Lst l) -> l !! Z.to_nat i = Some x -> 0 <= i < 2 ^ 32 ->
  item_ (encode (Lst l)) i = Ok (encode x).
Proof.
  intros [Hw Hf] Hx Hi. destruct (index_ok l (RLP.mk (encode (Lst l))) i Hw Hf (cache_fresh l)) as (o & E & _).
  { unfold size_max. lia. }
  unfold item_. rewrite E. cbn. unfold item_bytes. by rewrite Hx.
Qed.

Lemma items_ok l : goodItem (Lst l) -> items_ (encode (Lst l)) = Ok (sizeZ l).
Proof.
  intros [Hw Hf]. unfold items_, RLP.itemCount.
  destruct (reads_exact (Lst l) Hw Hf) as [_ _ -> _ _ _ _]. cbn [is_Lst]. by rewrite items_encode.
Qed.

Lemma sealItems_ok pre l : goodItem (Lst (pre ++ l)) -> sizeZ (pre ++ l) < 2 ^ 32 ->
  sealItems (encode (Lst (pre ++ l))) (seqZ (sizeZ pre) (sizeZ l)) = Ok (map encode l).
Proof.
  revert pre. induction l as [|x l IH]; intros pre Hg Hn; [done|]. pose proof (sizeZ_nonneg pre). pose proof (sizeZ_nonneg l).
  rewrite sizeZ_cons, seqZ_cons by lia. cbn [sealItems].
  rewrite (item_ok _ _ x), bind_Ok_l; [|done| |rewrite sizeZ_app, sizeZ_cons in Hn; lia].
  - replace (Z.pred (1 + sizeZ l)) with (sizeZ l) by lia. replace (pre ++ x :: l) with ((pre ++ [x]) ++ l) in * by by rewrite <-app_assoc.
    replace (Z.succ (sizeZ pre)) with (sizeZ (pre ++ [x])) by (rewrite sizeZ_app; change (sizeZ [x]) with 1; lia).
    by rewrite IH.
  - unfold sizeZ. rewrite Nat2Z.id. by apply list_lookup_middle.
Qed.

Lemma hashField_ok l i n h : goodItem (Lst l) -> l !! Z.to_nat i = Some (Str h) -> hashOk n h -> 0 <= i < 2 ^ 32 -> n < 2 ^ 32 ->
  hashField n (encode (Lst l)) i = Ok h.
Proof.
  intros Hg Hx [Hw Hn] Hi Hn'. unfold hashField. rewrite (item_ok l i (Str h)), bind_Ok_l by done. by rewrite toHash_encode.
Qed.

Lemma intField_ok l i v : goodItem (Lst l) -> l !! Z.to_nat i = Some (int_item v) -> fits 256 v -> 0 <= i < 2 ^ 32 ->
  intField (encode (Lst l)) i = Ok v.
Proof.
  intros Hg Hx Hv Hi. unfold intField. rewrite (item_ok l i (int_item v)), bind_Ok_l by done. by rewrite (toInt_encode v 32).
Qed.

Lemma populate_ok h seals a b : wfHeader h -> sealIs h seals ->
  populate (headerBytes h seals WithSeal) a b = Ok (set_memos a b h).
Proof.
  intros Hw Hs. pose proof (header_good h seals Hw Hs) as Hg. destruct Hw. destruct Hs as (El & Hsm & Hsz).
  unfold populate, headerBytes.
  rewrite (hashField_ok _ 0 32 (h_parentHash h)), bind_Ok_l by done.
  rewrite (hashField_ok _ 1 32 (h_sha3Uncles h)), bind_Ok_l by done.
  rewrite (hashField_ok _ 2 20 (h_author h)), bind_Ok_l by done.
  rewrite (hashField_ok _ 3 32 (h_stateRoot h)), bind_Ok_l by done.
  rewrite (hashField_ok _ 4 32 (h_transactionsRoot h)), bind_Ok_l by done.
  rewrite (hashField_ok _ 5 32 (h_receiptsRoot h)), bind_Ok_l by done.
  rewrite (hashField_ok _ 6 256 (h_logBloom h)), bind_Ok_l by done.
  rewrite (intField_ok _ 7 (h_difficulty h)), bind_Ok_l by done.
  rewrite (intField_ok _ 8 (h_number h)), bind_Ok_l by done.
  rewrite (intField_ok _ 9 (h_gasLimit h)), bind_Ok_l by done.
  rewrite (intField_ok _ 10 (h_gasUsed h)), bind_Ok_l by done.
  rewrite (intField_ok _ 11 (h_timestamp h)), bind_Ok_l by done.
  rewrite (item_ok _ 12 (Str (h_extraData h))), bind_Ok_l by done.
  rewrite (proj1 (toBytes_encode (h_extraData h) LaissezFaire (proj1 wf_extraData0) (proj2 wf_extraData0))). cbn [hrlp].
  rewrite bind_Ok_l, items_ok, bind_Ok_l by done. rewrite sizeZ_app. change (sizeZ (headerItems h)) with 13.
  replace (13 + sizeZ seals - 13) with (sizeZ seals) by lia. change 13 with (sizeZ (headerItems h)).
  rewrite sealItems_ok, bind_Ok_l; [|done|rewrite sizeZ_app; change (sizeZ (headerItems h)) with 13; lia].
  by rewrite <-El.
Qed.

(** A block: header, transactions, uncles *)
Definition blockItems (h : BlockHeader) (seals txs uncles : list item) : list item :=
  [Lst (headerItems h ++ seals); Lst txs; Lst uncles].

Definition blockBytes (h : BlockHeader) (seals txs uncles : list item) : bytes := encode (Lst (blockItems h seals txs uncles)).

Lemma goodItem_Lst l x : goodItem (Lst l) -> x ∈ l -> goodItem x.
Proof.
  intros [Hw Hf] Hx. pose proof (proj1 (wf_item_Lst _) Hw) as Hwl. rewrite list_elem_of_In in Hx.
  split; [exact (proj1 (List.Forall_forall _ _) Hwl _ Hx)|]. unfold fitsItem in *. cbn [encode] in Hf.
  rewrite sizeZ_app in Hf. pose proof (sizeZ_nonneg (header 192 (sizeZ (flat_map encode l)))) as Hh.
  enough (sizeZ (encode x) <= sizeZ (flat_map encode l)) by lia.
  clear Hw Hf Hwl Hh. induction l as [|y l IH]; [done|]. rewrite sizeZ_flat_map_cons. destruct Hx as [->|Hx].
  - pose proof (sizeZ_nonneg (flat_map encode l)). lia.
  - specialize (IH Hx). pose proof (sizeZ_nonneg (encode y)). lia.
Qed.

Lemma extractHeader_ok h seals txs uncles : goodItem (Lst (blockItems h seals txs uncles)) ->
  extractHeader (blockBytes h seals txs uncles) = Ok (headerBytes h seals WithSeal).
Proof.
  intros Hg. unfold extractHeader, blockBytes. rewrite construct_item by done. cbn [hrlp]. rewrite bind_Ok_l.
  assert (forall x, x ∈ blockItems h seals txs uncles -> goodItem x) as Hin by (intros x; by apply goodItem_Lst).
  rewrite isList_item by done. cbn [is_Lst guard_or]. rewrite bind_Ok_l.
  rewrite (item_ok _ 0 (Lst (headerItems h ++ seals))), bind_Ok_l, isList_item by (done || apply Hin; by apply (list_elem_of_lookup_2 _ 0)).
  cbn [is_Lst guard_or]. rewrite bind_Ok_l.
  rewrite (item_ok _ 1 (Lst txs)), bind_Ok_l, isList_item by (done || apply Hin; by apply (list_elem_of_lookup_2 _ 1)).
  cbn [is_Lst guard_or]. rewrite bind_Ok_l.
  rewrite (item_ok _ 2 (Lst uncles)), bind_Ok_l, isList_item by (done || apply Hin; by apply (list_elem_of_lookup_2 _ 2)).
  done.
Qed.

Lemma parse_block h seals txs uncles : wfHeader h -> sealIs h seals -> goodItem (Lst (blockItems h seals txs uncles)) ->
  parseHeader sha3 (blockBytes h seals txs uncles) BlockData (zeroHash 32)
  = Ok (set_memos (sha3 (headerBytes h seals WithSeal)) (zeroHash 32) h).
Proof.
  intros Hw Hs Hg. unfold parseHeader. rewrite decide_True by done.
  rewrite extractHeader_ok, bind_Ok_l, nonzero_zeroHash by done. by apply populate_ok.
Qed.

Lemma parse_header h seals : wfHeader h -> sealIs h seals ->
  parseHeader sha3 (headerBytes h seals WithSeal) HeaderData (zeroHash 32)
  = Ok (set_memos (sha3 (headerBytes h seals WithSeal)) (zeroHash 32) h).
Proof.
  intros Hw Hs. unfold parseHeader. rewrite decide_False by done. pose proof (header_good h seals Hw Hs) as Hg.
  unfold headerBytes at 1. rewrite construct_item by done. cbn [hrlp]. rewrite bind_Ok_l, nonzero_zeroHash. by apply populate_ok.
Qed.
End Hashes.

(** ** The checks *)

(** The root over a list, by whichever function *)
Lemma trieRootOver_list sha3 data gv : sizeZ data < 2 ^ 32 -> (forall i d, data !! i = Some d -> gv (Z.of_nat i) = Ok d) ->
  trieRootOver sha3 (sizeZ data) rlpUnsigned gv = orderedTrieRoot sha3 data.
Proof.
  intros Hn Hg. unfold trieRootOver, orderedTrieRoot, sizeZ at 1. rewrite Nat2Z.id.
  by rewrite orderedMap_ok, (rootOver_ok data 0) by (done || lia).
Qed.

Lemma orderedTrieRoot_Ok sha3 data : (forall d, wf_bytes (sha3 d) /\ length (sha3 d) = 32%nat) ->
  Forall (fun d => wfValue d /\ d <> []) data -> sizeZ data < 2 ^ 32 ->
  orderedTrieRoot sha3 data = Ok (sha3 (enc sha3 (trieOf (assignAll (indexed 0 data) [])))).
Proof.
  intros Hsha3 Hd Hn. unfold orderedTrieRoot. rewrite orderedMap_ok, bind_Ok_l by (done || lia). unfold hash256.
  rewrite rlp256_spec; [done|done|]. apply assignAll_wfMap; [by apply indexed_wfMap|constructor].
Qed.

Section Verify.
Context (sha3 : bytes -> bytes).
Hypothesis Hsha3 : forall d, wf_bytes (sha3 d) /\ length (sha3 d) = 32%nat.

Lemma guard_Ok {E} (b : bool) (e : E) : guard_or b e = Ok tt <-> b = true.
Proof. by destruct b. Qed.

Lemma bind_unit_Ok {E B} (r : result E unit) (f : unit -> result E B) b : (r ≫= f) = Ok b <-> r = Ok tt /\ f tt = Ok b.
Proof. destruct r as [[]|e]; cbn; [by split; [|intros []]|by split; [|intros []]]. Qed.

Definition parentOk (h parent : BlockHeader) (ph : bytes) : Prop :=
  (nonzero (h_parentHash h) = true -> h_parentHash h = ph) /\
  h_timestamp parent < h_timestamp h /\ h_number h = u256 (h_number parent + 1).

Lemma verify_parent_ok h parent seals : wfHeader parent -> sealIs parent seals -> memosOk sha3 parent seals ->
  isHeader parent = true ->
  verify_parent sha3 h parent = Ok tt <-> parentOk h parent (sha3 (headerBytes parent seals WithSeal)).
Proof.
  intros Hw Hs Hm Hp. unfold verify_parent, parentOk. rewrite Hp.
  destruct (header_hash_ok sha3 parent seals WithSeal Hw Hs Hm) as (h' & -> & _ & _); [done|]. cbn [hrlp].
  rewrite !bind_unit_Ok, !guard_Ok, negb_true_iff, Z.leb_gt, Z.eqb_eq.
  assert ((if nonzero (h_parentHash h) then
     '(ph, _) ← Ok (sha3 (headerBytes parent seals WithSeal), h'); guard_or (bool_decide (ph = h_parentHash h)) InvalidParentHash
     else Ok tt) = Ok tt <-> (nonzero (h_parentHash h) = true -> h_parentHash h = sha3 (headerBytes parent seals WithSeal))) as ->; [|tauto].
  destruct (nonzero (h_parentHash h)); [|by split]. rewrite bind_Ok_l, guard_Ok, bool_decide_eq_true.
  split; [by intros <-|]. intros E. by rewrite E.
Qed.

Lemma verify_block_ok h blockh seals txs uncles :
  goodItem (Lst (blockItems blockh seals txs uncles)) -> sizeZ txs < 2 ^ 32 ->
  Forall (fun x => sizeZ (encode x) < 2 ^ 32) txs ->
  verify_block sha3 h (blockBytes blockh seals txs uncles) = Ok tt <->
  orderedTrieRoot sha3 (map encode txs) = Ok (h_transactionsRoot h) /\ h_sha3Uncles h = sha3 (encode (Lst uncles)).
Proof.
  intros Hg Hn Ht. unfold verify_block. rewrite decide_True by apply encode_not_nil.
  unfold blockBytes. rewrite construct_item by done. cbn [hrlp].
  assert (goodItem (Lst txs)) as Hgt by (eapply goodItem_Lst; [exact Hg|by apply (list_elem_of_lookup_2 _ 1)]).
  rewrite bind_Ok_l, (item_ok _ 1 (Lst txs)), bind_Ok_l by done. rewrite items_ok, bind_Ok_l by done.
  pose proof (sizeZ_nonneg txs). rewrite wrap_id by (unfold fits; lia).
  assert (Forall (fun d => wfValue d /\ d <> []) (map encode txs)) as Hd.
  { rewrite List.Forall_map. apply List.Forall_forall. intros x Hx. split; [split|apply encode_not_nil].
    - apply encode_wf; apply (goodItem_Lst txs); (done || by rewrite list_elem_of_In).
    - exact (proj1 (List.Forall_forall _ _) Ht _ Hx). }
  assert (sizeZ (map encode txs) = sizeZ txs) as Esz by (unfold sizeZ; by rewrite length_map).
  rewrite <-Esz at 1. rewrite (trieRootOver_list sha3 (map encode txs)); [|by rewrite Esz|].
  2: { intros i d Hi. change (map encode txs) with (encode <$> txs) in Hi. rewrite list_lookup_fmap in Hi.
       destruct (txs !! i) as [x|] eqn:Ex; [|done]. injection Hi as <-.
       pose proof (item_ok txs (Z.of_nat i) x Hgt) as E. rewrite Nat2Z.id in E. apply lookup_lt_Some in Ex as Hlt. unfold sizeZ in Hn.
       specialize (E Ex ltac:(lia)). unfold item_ in E.
       destruct (snd (RLP.index (RLP.mk (encode (Lst txs))) (Z.of_nat i))); [|done]. by injection E as ->. }
  rewrite (orderedTrieRoot_Ok sha3 _ Hsha3 Hd) by by rewrite Esz. cbn [hrlp]. rewrite bind_Ok_l.
  set (R := sha3 (enc sha3 _)). destruct (decide (h_transactionsRoot h = R)) as [->|Hne].
  - rewrite bind_Ok_l, (item_ok _ 2 (Lst uncles)), bind_Ok_l by done. rewrite guard_Ok, bool_decide_eq_true.
    by split; [|intros [_ ?]].
  - split; [|by intros [[= ->] _]]. intros E. exfalso. destruct (init_ sha3 emptyMemoryDB) as [db r].
    destruct (diagnosticTrie sha3 _ _ db r) as [[db1 r1]|e]; cbn in E; [|done]. by destruct (htrie _).
Qed.
End Verify.

(** ** Properties *)

(** C17: a header survives serialisation and parsing, alone and as the first item of a
    block: the parsed header has the same fields and seal; its memoised hash, the
    hash that [headerHashFromBlock] computes from the block and the hash of the
    original, memoised or not, are all the hash of the same bytes. *)
Theorem header_roundtrip (sha3 : bytes -> bytes) (h : BlockHeader) (seals txs uncles : list item)
  (Hw : wfHeader h) (Hs : sealIs h seals) (Hm : memosOk sha3 h seals)
  (Hg : goodItem (Lst (blockItems h seals txs uncles))) :
  exists d h1 h2, (s ← header_streamRLP h WithSeal RLPStream.empty; RLPStream.out s) = Ok d /\
    header_hash sha3 h WithSeal = Ok (sha3 d, h1) /\
    parseHeader sha3 d HeaderData (zeroHash 32) = Ok h2 /\
    parseHeader sha3 (encode (Lst (blockItems h seals txs uncles))) BlockData (zeroHash 32) = Ok h2 /\
    headerHashFromBlock sha3 (encode (Lst (blockItems h seals txs uncles))) = Ok (sha3 d) /\
    noteDirty h1 = noteDirty h /\ noteDirty h2 = noteDirty h /\ h_hash h2 = sha3 d /\
    exists h3, header_hash sha3 h2 WithSeal = Ok (sha3 d, h3).
Proof.
  destruct (header_hash_ok sha3 h seals WithSeal Hw Hs Hm) as (h1 & E1 & _ & D1); [done|].
  exists (headerBytes h seals WithSeal), h1, (set_memos (sha3 (headerBytes h seals WithSeal)) (zeroHash 32) h).
  split_and!; [by apply header_rlp|done|by apply parse_header|by apply parse_block| |done|done|done|].
  - unfold headerHashFromBlock. rewrite construct_item by done. cbn [hrlp].
    rewrite bind_Ok_l, (item_ok _ 0 (Lst (headerItems h ++ seals))) by done. done.
  - set (h2 := set_memos _ _ _).
    destruct (header_hash_ok sha3 h2 seals WithSeal) as (h3 & E3 & _); [by destruct Hw|done| |done|by exists h3].
    split; [done|]. cbn [h2 set_memos h_hashWithout]. by rewrite nonzero_zeroHash.
Qed.


(** *** Witnesses *)

Definition sampleParent : BlockHeader := setDifficulty 131072 (setGasLimit 3141592 (setTimestamp 5 newHeader)).

Definition sampleChild : BlockHeader :=
  setRoots (constHash []) (zeroHash 32) (constHash []) (zeroHash 32) (setTimestamp 20 (setNumber 1 newHeader)).

Lemma wfHeader_sample h : h = sampleParent \/ h = sampleChild -> wfHeader h.
Proof. intros [->| ->]; split; decide_closed. Qed.

Lemma header_roundtrip_witness :
  exists h2, parseHeader constHash (encode (Lst (blockItems sampleChild [] [Str [1]; Str [2]] []))) BlockData (zeroHash 32) = Ok h2 /\
    h_hash h2 = constHash [] /\ noteDirty h2 = sampleChild.
Proof.
  destruct (header_roundtrip constHash sampleChild [] [Str [1]; Str [2]] []) as (d & h1 & h2 & _ & _ & _ & E & _ & _ & D & Eh & _).
  - apply wfHeader_sample. by right.
  - split_and!; [done|by apply Forall_nil_2|done].
  - apply memosOk_dirty.
  - split; [by repeat constructor; vm_compute|by vm_compute].
  - exists h2. split_and!; [exact E|exact Eh|by rewrite D].
Defined.

