(* ===== verification/ElhashTheory.v ===== *)
(** * The rules of the proof-of-work engine *)

From Stdlib Require Import ZArith Lia String Ascii.
From stdpp Require Import base list list_numbers option gmap strings.
From S2P Require Import Prelude CommonData RLP RLPTheory FixedHash Instruction Trie TrieHash TrieHashTheory TrieDBTheory Transaction BlockHeader HeaderTheory Elhash.

Lemma u256Param_fits p name : fits 256 (u256Param p name).
Proof.
  unfold u256Param. destruct (fromHex _ _); [|done]. unfold fits, wrap. apply Z.mod_pos_bound. lia.
Qed.

(** ** Difficulty *)

Section Difficulty.
Variables (p : ChainOperationParams) (bi parent : BlockHeader).
Abbreviation D := (h_difficulty parent).
Abbreviation minimum := (u256Param p "minimumDifficulty").

(** The exponential part that grows with the block number *)
Definition bomb : Z :=
  let periodCount := u32 (u256 (h_number parent + 1)) / c_expDiffPeriod in
  if 1 <? periodCount then Z.shiftl 1 (periodCount - 2) else 0.

Lemma bomb_nonneg : 0 <= bomb.
Proof. unfold bomb. destruct (1 <? _); [|done]. by apply Z.shiftl_nonneg. Qed.

(** The adjustment of the Homestead era *)
Definition homestead (t : Z) : Z := D + D / 2048 * Z.max (1 - Z.quot (t - h_timestamp parent) 10) (-99).

Definition settle (target : Z) : Z := Z.min (Z.max minimum (target + bomb)) (2 ^ 256 - 1).

Lemma settle_spec target : fits 256 (settle target) /\ minimum <= settle target /\ Z.min target (2 ^ 256 - 1) <= settle target /\
  settle target <= Z.max minimum (target + bomb).
Proof.
  pose proof (u256Param_fits p "minimumDifficulty") as Hm. pose proof bomb_nonneg. unfold fits in *. unfold settle. lia.
Qed.

Lemma difficulty_homestead : h_number bi <> 0 -> u256Param p "frontierCompatibilityModeLimit" <= h_number bi ->
  calculateDifficulty p bi parent = Ok (settle (homestead (h_timestamp bi))).
Proof.
  intros Hn Hl. unfold calculateDifficulty. destruct (Z.eqb_spec (h_number bi) 0); [done|]. cbn [negb guard_or]. rewrite bind_Ok_l.
  destruct (Z.ltb_spec (h_number bi) (u256Param p "frontierCompatibilityModeLimit")); [lia|]. rewrite bind_Ok_l. fold (homestead (h_timestamp bi)).
  f_equal. set (pc := u32 _ / _). assert ((if 1 <? pc then homestead (h_timestamp bi) + Z.shiftl 1 (pc - 2) else homestead (h_timestamp bi))
    = homestead (h_timestamp bi) + bomb) as -> by (unfold bomb; fold pc; destruct (1 <? pc); lia).
  apply wrap_id, settle_spec.
Qed.

Definition frontier (t q : Z) : Z :=
  if u256 (h_timestamp parent + u256Param p "durationLimit") <=? t then u256 (D - q) else u256 (D + q).

Lemma difficulty_frontier : h_number bi <> 0 -> h_number bi < u256Param p "frontierCompatibilityModeLimit" ->
  u256Param p "difficultyBoundDivisor" <> 0 ->
  calculateDifficulty p bi parent = Ok (settle (frontier (h_timestamp bi) (Z.quot D (u256Param p "difficultyBoundDivisor")))).
Proof.
  intros Hn Hl Hd. unfold calculateDifficulty. destruct (Z.eqb_spec (h_number bi) 0); [done|]. cbn [negb guard_or]. rewrite bind_Ok_l.
  destruct (Z.ltb_spec (h_number bi) (u256Param p "frontierCompatibilityModeLimit")); [|lia]. unfold div_.
  destruct (Z.eqb_spec (u256Param p "difficultyBoundDivisor") 0); [done|]. rewrite !bind_Ok_l.
  set (q := Z.quot _ _). fold (frontier (h_timestamp bi) q). f_equal. set (pc := u32 _ / _).
  assert ((if 1 <? pc then frontier (h_timestamp bi) q + Z.shiftl 1 (pc - 2) else frontier (h_timestamp bi) q)
    = frontier (h_timestamp bi) q + bomb) as -> by (unfold bomb; fold pc; destruct (1 <? pc); lia).
  apply wrap_id, settle_spec.
Qed.

Lemma homestead_bounds t : 0 <= D -> h_timestamp parent <= t ->
  D - D / 2048 * 99 <= homestead t <= D + D / 2048.
Proof.
  intros HD Ht. unfold homestead. assert (0 <= D / 2048) by (apply Z.div_pos; lia).
  assert (0 <= Z.quot (t - h_timestamp parent) 10) by (apply Z.quot_pos; lia). nia.
Qed.

Lemma homestead_antitone t t' : 0 <= D -> t <= t' -> homestead t' <= homestead t.
Proof.
  intros HD Ht. unfold homestead. assert (0 <= D / 2048) by (apply Z.div_pos; lia).
  pose proof (Z.quot_le_mono (t - h_timestamp parent) (t' - h_timestamp parent) 10 ltac:(lia) ltac:(lia)). nia.
Qed.

Lemma settle_mono x y : x <= y -> settle x <= settle y.
Proof. unfold settle. lia. Qed.
End Difficulty.


(** ** Gas limit *)

(** What the checks of a child allow *)
Definition gasLimitAllowed (p : ChainOperationParams) (parentLimit limit : Z) : Prop :=
  let q := parentLimit / u256Param p "gasLimitBoundDivisor" in
  parentLimit - q < limit < parentLimit + q /\
  u256Param p "minGasLimit" <= limit <= u256Param p "maxGasLimit".

(** The parameters and the parent are far enough from the ends of the range. *)
Definition gasRoom (p : ChainOperationParams) (parent : BlockHeader) : Prop :=
  let k := u256Param p "gasLimitBoundDivisor" in
  0 < k /\ 3 <= h_gasLimit parent / k /\
  0 <= h_gasUsed parent <= h_gasLimit parent /\
  u256Param p "minGasLimit" <= h_gasLimit parent /\ u256Param p "minGasLimit" <= 3141562 /\
  h_gasLimit parent + h_gasLimit parent / k <= u256Param p "maxGasLimit" /\
  u256Param p "maxGasLimit" < 2 ^ 253.

Lemma childGasLimit_allowed p parent : gasRoom p parent ->
  exists g, childGasLimit p parent Invalid256 = Ok g /\ gasLimitAllowed p (h_gasLimit parent) g /\ fits 256 g.
Proof.
  intros (Hk & Hq & Hu & Hm & Hf & Hx & Hxb). unfold childGasLimit, gasLimitAllowed. rewrite Z.eqb_refl.
  set (k := u256Param p "gasLimitBoundDivisor") in *. set (G := h_gasLimit parent) in *. set (U := h_gasUsed parent) in *.
  unfold div_. destruct (Z.eqb_spec k 0); [lia|]. rewrite !Z.quot_div_nonneg by
    (first [lia|apply Z.div_pos; [apply Z.mod_pos_bound; lia|lia]]).
  rewrite (wrap_id 256 (U * 6)) by (unfold fits; lia). set (q := G / k) in *.
  assert (k * q <= G < k * q + k) as HG by (pose proof (Z.mul_div_le G k ltac:(lia)); pose proof (Z.mul_succ_div_gt G k ltac:(lia)); unfold q; lia).
  assert (0 <= U * 6 / 5 / k /\ U * 6 / 5 / k + 1 < 2 * q) as Hb.
  { split; [apply Z.div_pos; [apply Z.div_pos|]; lia|].
    assert (U * 6 / 5 <= G * 6 / 5) as Hle by (apply Z.div_le_mono; lia).
    pose proof (Z.mul_div_le (G * 6) 5 ltac:(lia)). enough (U * 6 / 5 / k < 2 * q - 1) by lia.
    apply Z.div_lt_upper_bound; [lia|]. nia. }
  assert (q <= G) as HqG by nia. destruct (Z.ltb_spec G 3141562).
  - rewrite bind_Ok_l. eexists. split; [done|]. rewrite wrap_id by (unfold fits; lia). unfold fits. lia.
  - rewrite !bind_Ok_l. eexists. split; [done|]. rewrite wrap_id by (unfold fits; lia). unfold fits. lia.
Qed.

(** ** The child of a header *)

Lemma calculateDifficulty_depends p bi bi' parent : h_number bi = h_number bi' -> h_timestamp bi = h_timestamp bi' ->
  calculateDifficulty p bi parent = calculateDifficulty p bi' parent.
Proof. intros Hn Ht. unfold calculateDifficulty. by rewrite Hn, Ht. Qed.

Section Child.
Variables (sha3 sha3_512 : bytes -> bytes) (eval : bytes -> bytes -> bytes -> bytes * bytes).
Variables (p : ChainOperationParams) (bi parent : BlockHeader) (seals : list item).
Hypothesis (Hw : wfHeader parent) (Hs : sealIs parent seals) (Hm : memosOk sha3 parent seals).
Hypothesis (Hn : 0 <= h_number parent < 2 ^ 32 - 1) (Ht : h_timestamp parent < h_timestamp bi < Invalid256).
Hypothesis (Hroom : gasRoom p parent) (Hdiv : u256Param p "difficultyBoundDivisor" <> 0).
Hypothesis (Hx : sizeZ (h_extraData bi) <= maximumExtraDataSize p).

Lemma calculateDifficulty_Ok h : h_number h = h_number parent + 1 ->
  exists d, calculateDifficulty p h parent = Ok d /\ u256Param p "minimumDifficulty" <= d /\ fits 256 d.
Proof.
  intros E. destruct (Z.le_gt_cases (u256Param p "frontierCompatibilityModeLimit") (h_number h)) as [Hl|Hl].
  - rewrite difficulty_homestead by lia. eexists. split; [done|]. destruct (settle_spec p parent (homestead parent (h_timestamp h))). tauto.
  - rewrite difficulty_frontier by lia. eexists. split; [done|]. destruct (settle_spec p parent (frontier p parent (h_timestamp h)
      (Z.quot (h_difficulty parent) (u256Param p "difficultyBoundDivisor")))). tauto.
Qed.

Lemma child_of_parent : exists bi', elhash_populateFromParent p bi parent = Ok bi' /\
  h_number bi' = h_number parent + 1 /\ h_stateRoot bi' = h_stateRoot parent /\ h_gasUsed bi' = 0 /\
  h_timestamp bi' = h_timestamp bi /\ h_extraData bi' = h_extraData bi /\ h_author bi' = h_author bi /\
  h_parentHash bi' = h_hash parent /\ gasLimitAllowed p (h_gasLimit parent) (h_gasLimit bi') /\
  calculateDifficulty p bi' parent = Ok (h_difficulty bi') /\ u256Param p "minimumDifficulty" <= h_difficulty bi' /\
  nonzero (h_hash bi') = false.
Proof.
  unfold elhash_populateFromParent, face_populateFromParent. set (bi1 := header_populateFromParent bi parent).
  assert (h_number bi1 = h_number parent + 1) as En by (cbn; apply wrap_id; unfold fits; lia).
  destruct (calculateDifficulty_Ok bi1 En) as (d & Ed & Hd & _). destruct (childGasLimit_allowed p parent Hroom) as (g & Eg & Hg & _).
  rewrite Ed, bind_Ok_l, Eg, bind_Ok_l. eexists. split; [done|].
  cbn [setGasLimit setDifficulty noteDirty set_memos h_number h_stateRoot h_gasUsed h_timestamp h_extraData h_author h_parentHash h_gasLimit h_difficulty h_hash].
  split_and!; try done; apply Hg.
Qed.

Lemma child_verifies bi' : h_number bi' = h_number parent + 1 -> h_gasUsed bi' = 0 -> h_timestamp bi' = h_timestamp bi ->
  h_extraData bi' = h_extraData bi -> h_parentHash bi' = h_hash parent ->
  gasLimitAllowed p (h_gasLimit parent) (h_gasLimit bi') -> calculateDifficulty p bi' parent = Ok (h_difficulty bi') ->
  u256Param p "minimumDifficulty" <= h_difficulty bi' ->
  elhash_verify sha3 sha3_512 eval p Strictness.IgnoreSeal bi' parent [] = Ok tt.
Proof.
  intros En Eu Et Ex Ep [Hg Hlim] Ed Hd. pose proof (u256Param_fits p "minGasLimit") as Hmg. unfold fits in Hmg.
  assert (isHeader parent = true) as Hp by (unfold isHeader; destruct (Z.eqb_spec (h_timestamp parent) Invalid256); [lia|done]).
  unfold elhash_verify, face_verify, header_verify.
  destruct (Z.ltb_spec (2 ^ 32 - 1) (h_number bi')); [lia|]. cbn [negb guard_or]. rewrite bind_Ok_l.
  destruct (Z.ltb_spec (h_gasLimit bi') (h_gasUsed bi')); [lia|]. rewrite orb_true_r. cbn [guard_or]. rewrite bind_Ok_l.
  assert (verify_parent sha3 bi' parent = Ok tt) as ->.
  { apply (verify_parent_ok sha3 bi' parent seals Hw Hs Hm Hp). split_and!; [|lia|rewrite wrap_id; [done|unfold fits; lia]].
    rewrite Ep. apply Hm. }
  rewrite bind_Ok_l. change (verify_block sha3 bi' []) with (@Ok hdr_error unit tt). rewrite bind_Ok_l, decide_True by done.
  unfold verify_limits. destruct (Z.ltb_spec (h_difficulty bi') (u256Param p "minimumDifficulty")); [lia|]. cbn [negb guard_or].
  rewrite bind_Ok_l. destruct (Z.ltb_spec (h_gasLimit bi') (u256Param p "minGasLimit")); [lia|]. cbn [negb guard_or].
  rewrite bind_Ok_l. destruct (Z.ltb_spec (u256Param p "maxGasLimit") (h_gasLimit bi')); [lia|]. cbn [negb guard_or].
  rewrite bind_Ok_l. destruct (Z.ltb_spec (maximumExtraDataSize p) (sizeZ (h_extraData bi'))); [rewrite Ex in *; lia|].
  rewrite andb_false_r. cbn [negb guard_or]. rewrite bind_Ok_l. unfold verify_rules. rewrite Hp, Ed, bind_Ok_l, Z.eqb_refl.
  cbn [guard_or]. rewrite bind_Ok_l. destruct (Z.ltb_spec (h_gasLimit bi') (u256Param p "minGasLimit")); [lia|].
  destruct (Z.ltb_spec (u256Param p "maxGasLimit") (h_gasLimit bi')); [lia|]. cbn [orb negb guard_or]. rewrite bind_Ok_l.
  destruct Hroom as (Hk & Hq & Hu & Hmn & Hf & Hxx & Hxb). unfold div_. destruct (Z.eqb_spec (u256Param p "gasLimitBoundDivisor") 0); [lia|].
  rewrite bind_Ok_l, Z.quot_div_nonneg by lia. set (q := h_gasLimit parent / _) in *.
  assert (q <= h_gasLimit parent) by (apply Z.div_le_upper_bound; [lia|]; nia).
  rewrite !wrap_id by (unfold fits; lia). destruct (Z.leb_spec (h_gasLimit bi') (h_gasLimit parent - q)); [lia|].
  destruct (Z.leb_spec (h_gasLimit parent + q) (h_gasLimit bi')); [lia|]. done.
Qed.
End Child.


(** ** The seal *)

Lemma check_difficulty_spec a b : wf_bytes a -> wf_bytes b -> length a = length b ->
  check_difficulty a b = (be_value a <=? be_value b).
Proof.
  intros Ha Hb Hl. pose proof (ltb_spec b a Hb Ha ltac:(lia)) as E.
  assert (check_difficulty a b = negb (ltb b a)) as ->.
  { clear. revert b. induction a as [|x a IH]; intros [|y b]; [done|done|done|]. cbn. rewrite IH.
    destruct (Z.eqb_spec x y), (Z.ltb_spec y x), (Z.ltb_spec x y); (done || lia). }
  rewrite E. symmetry. apply Z.leb_antisym.
Qed.

Lemma boundary_value bi : 2 <= h_difficulty bi < 2 ^ 256 ->
  wf_bytes (boundary bi) /\ length (boundary bi) = 32%nat /\ be_value (boundary bi) = 2 ^ 256 / h_difficulty bi.
Proof.
  intros Hd. unfold boundary. destruct (Z.eqb_spec (h_difficulty bi) 0); [lia|].
  assert (0 <= 2 ^ 256 / h_difficulty bi < 2 ^ 256) as Hb.
  { split; [apply Z.div_pos; lia|]. apply Z.div_lt; lia. }
  rewrite wrap_id by (unfold fits; lia). destruct (ofArith_hash 32 (2 ^ 256 / h_difficulty bi)) as [Hw Hs].
  split_and!; [done|unfold sizeZ in Hs; lia|]. unfold ofArith. rewrite toBigEndian_spec, be_value_be_bytes.
  rewrite pow256_pow2 by lia. by apply Z.mod_small.
Qed.

(** With difficulty one the quotient does not fit and the boundary is zero. *)
Lemma boundary_of_one bi : h_difficulty bi = 1 -> be_value (boundary bi) = 0.
Proof. intros E. unfold boundary. rewrite E. vm_compute. reflexivity. Qed.

(** The quick check of the seal accepts exactly the headers below block 61440000
    whose hash, computed from the header without seal, the nonce and the mix hash,
    is at most 2^256 divided by the difficulty. *)
Theorem seal_threshold (sha3 sha3_512 : bytes -> bytes) (bi : BlockHeader) (seals : list item) (m n : bytes)
  (Hsha3 : forall d, wf_bytes (sha3 d) /\ length (sha3 d) = 32%nat)
  (Hw : wfHeader bi) (Hs : sealIs bi (Str m :: Str n :: seals)) (Hm : memosOk sha3 bi (Str m :: Str n :: seals))
  (Hmix : length m = 32%nat) (Hnonce : length n = 8%nat) (Hd : 2 <= h_difficulty bi) :
  quickVerifySeal sha3 sha3_512 bi
  = Ok ((h_number bi <? 61440000) &&
        (be_value (sha3 (sha3_512 (sha3 (headerBytes bi [] WithoutSeal) ++ rev n) ++ m)) * h_difficulty bi <=? 2 ^ 256)).
Proof.
  pose proof Hs as (El & Hsm & _). apply Forall_cons_1 in Hsm as [[Hwm _] Hsm]. apply Forall_cons_1 in Hsm as [[Hwn _] _].
  unfold quickVerifySeal. change (ELHASH_EPOCH_LENGTH * 2048) with 61440000.
  destruct (Z.leb_spec 61440000 (h_number bi)), (Z.ltb_spec (h_number bi) 61440000); try lia; [done|]. cbn [andb].
  destruct (header_hash_ok sha3 bi _ WithoutSeal Hw Hs Hm) as (h' & -> & _ & _); [done|]. cbn [hrlp]. rewrite bind_Ok_l.
  assert (elhash_mixHash bi = Ok m) as ->.
  { unfold elhash_mixHash, sealField. rewrite El. cbn [map lookup list_lookup]. rewrite construct_item by (apply smallItem_good, small_Str; [done|unfold sizeZ; lia]).
    cbn [hrlp]. rewrite bind_Ok_l, toHash_encode; [done|done|unfold sizeZ; lia|done]. }
  assert (elhash_nonce bi = Ok n) as ->.
  { unfold elhash_nonce, sealField. rewrite El. cbn [map lookup list_lookup]. rewrite construct_item by (apply smallItem_good, small_Str; [done|unfold sizeZ; lia]).
    cbn [hrlp]. rewrite bind_Ok_l, toHash_encode; [done|done|unfold sizeZ; lia|done]. }
  rewrite !bind_Ok_l. unfold quick_hash. change (headerBytes bi (Str m :: Str n :: seals) WithoutSeal) with (headerBytes bi [] WithoutSeal).
  set (x := sha3 (sha3_512 _ ++ m)). destruct (Hsha3 (sha3_512 (sha3 (headerBytes bi [] WithoutSeal) ++ rev n) ++ m)) as [Hx Hlx]. fold x in Hx, Hlx.
  pose proof (wf_difficulty _ Hw) as Hdf. unfold fits in Hdf. destruct (boundary_value bi ltac:(lia)) as (Hb & Hlb & Eb).
  rewrite check_difficulty_spec, Eb by (done || lia). f_equal.
  destruct (Z.leb_spec (be_value x) (2 ^ 256 / h_difficulty bi)) as [Hle|Hgt], (Z.leb_spec (be_value x * h_difficulty bi) (2 ^ 256)) as [Hle'|Hgt']; try done.
  - pose proof (Z.mul_div_le (2 ^ 256) (h_difficulty bi) ltac:(lia)). nia.
  - pose proof (Z.div_le_lower_bound (2 ^ 256) (h_difficulty bi) (be_value x) ltac:(lia) ltac:(lia)). lia.
Qed.

(** ** Seed hashes *)

Section Seeds.
Context (sha3 : bytes -> bytes).

(** The seed of an epoch: the zero hash, hashed once per epoch *)
Fixpoint seedOf (n : nat) : bytes := match n with O => zeroHash 32 | S n' => sha3 (seedOf n') end.

Definition seedsOk (cache : list bytes) : Prop := forall i h, cache !! i = Some h -> h = seedOf i.

Lemma seed_loop_lookup k n cache i : (n + k = length cache)%nat ->
  seed_loop sha3 k n (seedOf n) cache !! i = if decide (n <= i < n + k)%nat then Some (seedOf i) else cache !! i.
Proof.
  revert n cache. induction k as [|k IH]; intros n cache Hl; cbn [seed_loop].
  { rewrite decide_False by lia. done. }
  change (sha3 (seedOf n)) with (seedOf (S n)). rewrite IH by (rewrite length_insert; lia).
  destruct (decide (i = n)) as [->|Hne].
  - rewrite decide_False, decide_True by lia. apply list_lookup_insert_eq. lia.
  - rewrite list_lookup_insert_ne by done.
    destruct (decide (S n <= i < S n + k)%nat), (decide (n <= i < n + S k)%nat); (done || lia).
Qed.

Lemma seed_loop_length k n r cache : length (seed_loop sha3 k n r cache) = length cache.
Proof. revert n r cache. induction k as [|k IH]; intros n r cache; cbn; [done|]. by rewrite IH, length_insert. Qed.

Lemma resize_length n d l : length (resize n d l) = n.
Proof. unfold resize. rewrite length_app, length_take, length_replicate. lia. Qed.

Lemma seedHash_ok cache number : seedsOk cache ->
  let e := Z.to_nat (u32 number / ELHASH_EPOCH_LENGTH) in
  fst (seedHash sha3 cache number) = seedOf e /\ seedsOk (snd (seedHash sha3 cache number)).
Proof.
  intros Hc e. unfold seedHash. fold e. destruct (Nat.leb_spec (length cache) e) as [Hl|Hl]; cbn [fst snd].
  - assert (exists n, match last cache with Some h => (h, (length cache - 1)%nat) | None => (zeroHash 32, 0%nat) end = (seedOf n, n) /\ (n <= e)%nat /\
      (n <= length cache)%nat) as (n & -> & Hn & Hcn).
    { destruct (last cache) as [h|] eqn:El.
      - exists (length cache - 1)%nat. rewrite last_lookup in El. rewrite (Hc _ _ El). replace (Nat.pred (length cache)) with (length cache - 1)%nat by lia.
        split_and!; [done|lia|lia].
      - exists 0%nat. apply last_None in El as ->. split_and!; [done|lia|cbn; lia]. }
    assert (forall i h, seed_loop sha3 (S e - n) n (seedOf n) (resize (S e) (zeroHash 32) cache) !! i = Some h -> h = seedOf i) as Hok.
    { intros i h. rewrite seed_loop_lookup by (rewrite resize_length; lia). destruct (decide (n <= i < n + (S e - n))%nat) as [|Hout]; [congruence|].
      unfold resize. intros Hi. destruct (decide (i < length cache)%nat).
      - rewrite lookup_app_l, lookup_take_lt in Hi by (rewrite ?length_take; lia). by apply Hc.
      - apply lookup_lt_Some in Hi. rewrite length_app, length_take, length_replicate in Hi. lia. }
    split; [|done]. destruct (lookup_lt_is_Some_2 (seed_loop sha3 (S e - n) n (seedOf n) (resize (S e) (zeroHash 32) cache)) e) as [h Hh].
    { rewrite seed_loop_length, resize_length. lia. }
    rewrite (nth_lookup_Some _ _ _ h Hh). by apply Hok.
  - split; [|done]. destruct (lookup_lt_is_Some_2 cache e Hl) as [h Hh]. rewrite (nth_lookup_Some _ _ _ h Hh). by apply Hc.
Qed.

Definition epochsOk (epochs : gmap bytes Z) : Prop :=
  forall h e, epochs !! h = Some e -> 0 <= e <= 2048 /\ h = seedOf (Z.to_nat e).

Lemma epoch_loop_ok fuel n e epochs : (n <= e)%nat -> (e < n + fuel)%nat -> (e <= 2048)%nat ->
  (forall j, (n <= j < e)%nat -> seedOf j <> seedOf e) -> epochsOk epochs ->
  exists epochs', epoch_loop sha3 fuel (seedOf n) (seedOf e) (Z.of_nat n) epochs = (Z.of_nat e, epochs') /\ epochsOk epochs'.
Proof.
  revert n epochs. induction fuel as [|f IH]; intros n epochs Hn He He2 Hd Hok; [lia|]. cbn [epoch_loop].
  destruct (decide (n = e)) as [->|Hne]; [rewrite decide_False by tauto; by eexists|].
  rewrite decide_True by (apply Hd; lia). change (sha3 (seedOf n)) with (seedOf (S n)).
  replace (Z.of_nat n + 1) with (Z.of_nat (S n)) by lia. apply IH; [lia|lia|done|intros j Hj; apply Hd; lia|].
  intros h x. destruct (decide (h = seedOf (S n))) as [->|Hh].
  - rewrite lookup_insert_eq. intros [= <-]. rewrite Nat2Z.id. split; [lia|done].
  - rewrite lookup_insert_ne by done. apply Hok.
Qed.
End Seeds.

(** The seed hash of a block is the zero hash, hashed once per epoch of 30000
    blocks, whatever the cache holds from earlier calls, and [number] maps it back
    to the first block of the epoch, for the 2048 epochs that the engine supports,
    as long as their seeds differ. *)
Theorem seed_roundtrip (sha3 : bytes -> bytes) (cache : list bytes) (epochs : gmap bytes Z) (n : Z)
  (Hc : seedsOk sha3 cache) (He : epochsOk sha3 epochs) (Hn : 0 <= n < 61440000)
  (Hd : forall i j, (i <= 2048)%nat -> (j <= 2048)%nat -> seedOf sha3 i = seedOf sha3 j -> i = j) :
  exists cache' epochs',
    seedHash sha3 cache n = (seedOf sha3 (Z.to_nat (n / 30000)), cache') /\ seedsOk sha3 cache' /\
    seedNumber sha3 epochs (seedOf sha3 (Z.to_nat (n / 30000))) = (Some (n / 30000 * 30000), epochs') /\
    epochsOk sha3 epochs'.
Proof.
  destruct (seedHash_ok sha3 cache n Hc) as [E1 E2]. rewrite wrap_id in E1 by (unfold fits; lia).
  change ELHASH_EPOCH_LENGTH with 30000 in E1. destruct (seedHash sha3 cache n) as [h cache']. cbn [fst snd] in E1, E2. subst h.
  assert (0 <= n / 30000 < 2048) as He'. { split; [apply Z.div_pos; lia|apply Z.div_lt_upper_bound; lia]. }
  set (e := n / 30000) in *. exists cache'. unfold seedNumber. change ELHASH_EPOCH_LENGTH with 30000.
  destruct (epochs !! seedOf sha3 (Z.to_nat e)) as [x|] eqn:Ex.
  - destruct (He _ _ Ex) as [Hx Eq]. apply Hd in Eq; [|lia|lia]. assert (x = e) as -> by lia. by eexists.
  - destruct (epoch_loop_ok sha3 2048 0 (Z.to_nat e) epochs) as (epochs' & E & Hok); [lia|lia|lia| |done|].
    { intros j Hj Eq. apply Hd in Eq; lia. }
    change (seedOf sha3 0) with (zeroHash 32) in E. change (Z.of_nat 0) with 0 in E. rewrite E.
    rewrite Z2Nat.id by lia. destruct (Z.eqb_spec e 2048); [lia|]. by eexists.
Qed.

(** *** Witnesses *)

Lemma default_params :
  u256Param newParams "minGasLimit" = 5000 /\ u256Param newParams "maxGasLimit" = 2 ^ 63 - 1 /\
  u256Param newParams "gasLimitBoundDivisor" = 1024 /\ u256Param newParams "minimumDifficulty" = 131072 /\
  u256Param newParams "difficultyBoundDivisor" = 2048 /\ u256Param newParams "durationLimit" = 13 /\
  u256Param newParams "frontierCompatibilityModeLimit" = 0.
Proof. vm_compute. done. Qed.



Definition sealedHeader : BlockHeader :=
  mkHeader (zeroHash 32) (zeroHash 32) (zeroHash 32) (zeroHash 32) (zeroHash 32) (zeroHash 256) 1 0 0 [] 0 (zeroHash 20) 4
    [encode (Str (zeroHash 32)); encode (Str (zeroHash 8))] (zeroHash 32) (zeroHash 32).

Lemma seal_threshold_witness : quickVerifySeal constHash constHash sealedHeader = Ok true.
Proof.
  rewrite (seal_threshold constHash constHash sealedHeader [] (zeroHash 32) (zeroHash 8)).
  - vm_compute. reflexivity.
  - apply constHash_wf.
  - split; decide_closed.
  - split_and!; [done|by repeat constructor; vm_compute|done].
  - apply (memosOk_dirty constHash sealedHeader).
  - done.
  - done.
  - by vm_compute.
Defined.

(** A counter in place of the hash *)
Definition countHash (d : bytes) : bytes := ofArith 32 (be_value d + 1).

Lemma countHash_seed n : (n <= 2048)%nat -> be_value (seedOf countHash n) = Z.of_nat n.
Proof.
  induction n as [|n IH]; intros Hn; [done|]. cbn [seedOf]. unfold countHash at 1. rewrite IH by lia. unfold ofArith.
  rewrite toBigEndian_spec, be_value_be_bytes, pow256_pow2 by lia. rewrite Z.mod_small; lia.
Qed.

Lemma seed_roundtrip_witness :
  exists cache epochs, seedHash countHash [] 90001 = (seedOf countHash 3, cache) /\
    seedNumber countHash ∅ (seedOf countHash 3) = (Some 90000, epochs).
Proof.
  destruct (seed_roundtrip countHash [] ∅ 90001) as (cache & epochs & E1 & _ & E2 & _).
  - done.
  - intros h e He. by rewrite lookup_empty in He.
  - done.
  - intros i j Hi Hj E. apply (f_equal be_value) in E. rewrite !countHash_seed in E by done. lia.
  - exists cache, epochs. split; [exact E1|exact E2].
Defined.
