(* ===== verification/TransactionQueue.v ===== *)
(** * libelementrem/TransactionQueue.{h,cpp}

    The pool of pending transactions.  Transactions that can run next are in
    [m_current], a [std::multiset] ordered by the distance of the nonce from the
    sender's first nonce and then by gas price; two indexes refer to its elements
    by iterator.  Transactions whose predecessors are missing wait in [m_future].

    An iterator is modelled by a node number: [q_current] lists the nodes in
    iteration order, [q_next] is the number of the next node, and the iterator
    [PriorityQueue::iterator()] is [None].  The operations run in a monad that
    keeps the state when an exception is thrown, because the code does.

    The comparator reads the index, so that the order of a [std::multiset] can
    change under its elements; where the tree then puts a new element is not
    specified.  [std::multiset::emplace] is therefore the class [Multiset], whose
    laws hold of every search tree, and [std::unordered_map::begin] the class
    [UnorderedMap].  [linearMultiset] and [firstBegin] are instances.

    The calls to the handlers of [m_onReady], [m_onReplaced] and [m_onImport] are
    recorded in [q_events].  Locks are not modelled: every operation holds
    [m_lock] while it runs. *)

From Stdlib Require Import ZArith Lia.
From stdpp Require Import base list list_numbers option gmap sorting.
From S2P Require Import Prelude CommonData RLP RLPTheory FixedHash Instruction ExtVMFace Transaction.

(** [ImportResult], [IfDropped] *)
Inductive ImportResult :=
  Success | UnknownParent | FutureTimeKnown | FutureTimeUnknown | AlreadyInChain | AlreadyKnown
| Malformed | OverbidGasPrice | BadChain.
#[export] Instance ImportResult_eq_dec : EqDecision ImportResult.
Proof. solve_decision. Defined.

Inductive IfDropped := Ignore | Retry.
#[export] Instance IfDropped_eq_dec : EqDecision IfDropped.
Proof. solve_decision. Defined.

(** What ends an operation early: an exception of a transaction or of the RLP
    reader, a failed assertion, the use of an iterator that refers to nothing, a
    loop that does not end *)
Inductive tq_error :=
| QTx (e : tx_error)
| QAssert
| QUndefined
| QNoReturn.
#[export] Instance tq_error_eq_dec : EqDecision tq_error.
Proof. solve_decision. Defined.

(** [VerifiedTransaction]: the transaction with its memoised hash [m_hashWith] *)
Record VerifiedTransaction := mkVerified { vt_tx : Transaction; vt_hash : bytes }.

(** What a move leaves behind: the byte vector of the transaction is gone *)
Definition moved (v : VerifiedTransaction) : VerifiedTransaction :=
  let t := vt_tx v in
  mkVerified (mkTransaction (m_type t) (tx_nonce t) (tx_value t) (tx_receiveAddress t) (tx_gasPrice t)
                (tx_gas t) [] (m_vrs t) (m_sender t)) (vt_hash v).

Inductive tq_event :=
| OnReady
| OnReplaced (h : bytes)
| OnImport (r : ImportResult) (h nodeId : bytes).

Abbreviation Node := (Z * VerifiedTransaction)%type.

Record TransactionQueue := mkQueue {
  q_known : gset bytes;
  q_dropped : gset bytes;
  q_current : list Node;
  q_currentByHash : gmap bytes Z;
  q_byAddress : gmap Address (gmap Z (option Z));
  q_future : gmap Address (gmap Z VerifiedTransaction);
  q_limit : Z;
  q_futureLimit : Z;
  q_futureSize : Z;
  q_unverified : list (bytes * bytes);
  q_next : Z;
  q_events : list tq_event
}.

Definition set_known (x : gset bytes) (q : TransactionQueue) : TransactionQueue :=
  mkQueue x (q_dropped q) (q_current q) (q_currentByHash q) (q_byAddress q) (q_future q) (q_limit q)
    (q_futureLimit q) (q_futureSize q) (q_unverified q) (q_next q) (q_events q).
Definition set_dropped (x : gset bytes) (q : TransactionQueue) : TransactionQueue :=
  mkQueue (q_known q) x (q_current q) (q_currentByHash q) (q_byAddress q) (q_future q) (q_limit q)
    (q_futureLimit q) (q_futureSize q) (q_unverified q) (q_next q) (q_events q).
Definition set_current (x : list Node) (q : TransactionQueue) : TransactionQueue :=
  mkQueue (q_known q) (q_dropped q) x (q_currentByHash q) (q_byAddress q) (q_future q) (q_limit q)
    (q_futureLimit q) (q_futureSize q) (q_unverified q) (q_next q) (q_events q).
Definition set_byHash (x : gmap bytes Z) (q : TransactionQueue) : TransactionQueue :=
  mkQueue (q_known q) (q_dropped q) (q_current q) x (q_byAddress q) (q_future q) (q_limit q)
    (q_futureLimit q) (q_futureSize q) (q_unverified q) (q_next q) (q_events q).
Definition set_byAddress (x : gmap Address (gmap Z (option Z))) (q : TransactionQueue) : TransactionQueue :=
  mkQueue (q_known q) (q_dropped q) (q_current q) (q_currentByHash q) x (q_future q) (q_limit q)
    (q_futureLimit q) (q_futureSize q) (q_unverified q) (q_next q) (q_events q).
Definition set_future (x : gmap Address (gmap Z VerifiedTransaction)) (n : Z) (q : TransactionQueue)
  : TransactionQueue :=
  mkQueue (q_known q) (q_dropped q) (q_current q) (q_currentByHash q) (q_byAddress q) x (q_limit q)
    (q_futureLimit q) n (q_unverified q) (q_next q) (q_events q).
Definition set_unverified (x : list (bytes * bytes)) (q : TransactionQueue) : TransactionQueue :=
  mkQueue (q_known q) (q_dropped q) (q_current q) (q_currentByHash q) (q_byAddress q) (q_future q) (q_limit q)
    (q_futureLimit q) (q_futureSize q) x (q_next q) (q_events q).
Definition set_next (x : Z) (q : TransactionQueue) : TransactionQueue :=
  mkQueue (q_known q) (q_dropped q) (q_current q) (q_currentByHash q) (q_byAddress q) (q_future q) (q_limit q)
    (q_futureLimit q) (q_futureSize q) (q_unverified q) x (q_events q).
Definition set_events (x : list tq_event) (q : TransactionQueue) : TransactionQueue :=
  mkQueue (q_known q) (q_dropped q) (q_current q) (q_currentByHash q) (q_byAddress q) (q_future q) (q_limit q)
    (q_futureLimit q) (q_futureSize q) (q_unverified q) (q_next q) x.

(** [TransactionQueue(limit, futureLimit)]; the verifier threads are left out *)
Definition newQueue (limit futureLimit : Z) : TransactionQueue :=
  mkQueue ∅ ∅ [] ∅ ∅ ∅ limit futureLimit 0 [] 0 [].

(** ** State and exceptions *)

Definition TQM (A : Type) : Type := TransactionQueue -> result tq_error A * TransactionQueue.

#[export] Instance TQM_ret : MRet TQM := fun A a q => (Ok a, q).
#[export] Instance TQM_bind : MBind TQM := fun A B f m q =>
  match m q with
  | (Ok a, q1) => f a q1
  | (Throw e, q1) => (Throw e, q1)
  end.

Definition throw {A} (e : tq_error) : TQM A := fun q => (Throw e, q).
Definition gets {A} (f : TransactionQueue -> A) : TQM A := fun q => (Ok (f q), q).
Definition modify (f : TransactionQueue -> TransactionQueue) : TQM unit := fun q => (Ok tt, f q).
Definition emit (e : tq_event) : TQM unit := modify (fun q => set_events (q_events q ++ [e]) q).
Definition or_throw {A} (o : option A) (e : tq_error) : TQM A :=
  match o with Some a => mret a | None => throw e end.
Definition assertQ (b : bool) : TQM unit := if b then mret tt else throw QAssert.

(** [catch (Exception const&) ... catch (std::exception const&)]: a failed
    assertion and undefined behaviour are not caught. *)
Definition catch_ {A} (m : TQM A) (a : A) : TQM A := fun q =>
  match m q with
  | (Throw (QTx _), q1) => (Ok a, q1)
  | r => r
  end.

(** ** Ordered maps *)

(** The elements of a [std::map<u256, T>] in the order of iteration *)
Definition key_le {A} (x y : Z * A) : Prop := x.1 <= y.1.
#[export] Instance key_le_dec {A} (x y : Z * A) : Decision (key_le x y) := _ : Decision (x.1 <= y.1).
Definition entries {A} (m : gmap Z A) : list (Z * A) := merge_sort key_le (map_to_list m).
Definition firstKey {A} (m : gmap Z A) : option Z := fst <$> head (entries m).
Definition lastKey {A} (m : gmap Z A) : option Z := fst <$> last (entries m).
Definition lower_bound {A} (n : Z) (m : gmap Z A) : list (Z * A) := filter (fun x => n <= x.1) (entries m).

(** ** What is used of the standard containers *)

(** [std::multiset::emplace] with a comparator that may throw *)
Class Multiset := {
  emplace : (Node -> Node -> result tq_error bool) -> Node -> list Node -> result tq_error (list Node)
}.

(** Whatever the shape of the tree: the new element is put between two others,
    behind all that it does not precede if the set is in order, and only
    comparisons with it are made. *)
Class MultisetLaws `{Multiset} := {
  emplace_somewhere lt x l :
    (forall y, y ∈ l -> is_Ok (lt x y) /\ is_Ok (lt y x)) ->
    exists l1 l2, l = l1 ++ l2 /\ emplace lt x l = Ok (l1 ++ x :: l2);
  emplace_in_order lt x l :
    (forall y, y ∈ l -> is_Ok (lt x y) /\ is_Ok (lt y x)) ->
    StronglySorted (fun y z => lt x y = Ok true -> lt x z = Ok true) l ->
    exists l1 l2, l = l1 ++ l2 /\ emplace lt x l = Ok (l1 ++ x :: l2) /\
      Forall (fun y => lt x y = Ok false) l1 /\ Forall (fun y => lt x y = Ok true) l2;
  emplace_throws lt x l e :
    emplace lt x l = Throw e -> exists y, y ∈ l /\ (lt x y = Throw e \/ lt y x = Throw e)
}.

(** The key of [m_future.begin()] *)
Class UnorderedMap := { begin_ : gmap Address (gmap Z VerifiedTransaction) -> option Address }.
Class UnorderedMapLaws `{UnorderedMap} := {
  begin_ok m : m <> ∅ -> exists a, begin_ m = Some a /\ is_Some (m !! a)
}.

(** Insertion by a search from the front *)
Fixpoint linear_emplace (lt : Node -> Node -> result tq_error bool) (x : Node) (l : list Node)
  : result tq_error (list Node) :=
  match l with
  | [] => Ok [x]
  | y :: l' =>
      match lt x y with
      | Throw e => Throw e
      | Ok true => Ok (x :: l)
      | Ok false => r ← linear_emplace lt x l'; Ok (y :: r)
      end
  end.
#[export] Instance linearMultiset : Multiset := {| emplace := linear_emplace |}.
#[export] Instance firstBegin : UnorderedMap := {| begin_ m := fst <$> head (map_to_list m) |}.

Section Queue.
Context (sha3 : bytes -> bytes) (recover : SignatureStruct -> bytes -> option bytes).
Context `{Multiset} `{UnorderedMap}.

(** [TransactionBase::sha3(WithSignature)]; the serialisation of a transaction
    does not throw ([tx_rlp_items]). *)
Definition tx_sha3 (t : Transaction) : bytes :=
  match tx_rlp t WithSignature with Ok d => sha3 d | Throw _ => sha3 [] end.

Definition verified (t : Transaction) : VerifiedTransaction := mkVerified t (tx_sha3 t).

(** [from()] *)
Definition from_ (t : Transaction) : Address := safeSender sha3 recover t.

(** [PriorityCompare::operator()]; [begin()] of an empty map is not dereferenceable *)
Definition height (q : TransactionQueue) (v : VerifiedTransaction) : result tq_error Z :=
  match sender sha3 recover (vt_tx v) with
  | Throw e => Throw (QTx e)
  | Ok a =>
      match firstKey (default ∅ (q_byAddress q !! a)) with
      | None => Throw QUndefined
      | Some n => Ok (u256 (tx_nonce (vt_tx v) - n))
      end
  end.
Definition PriorityCompare (q : TransactionQueue) (first second : Node) : result tq_error bool :=
  height1 ← height q first.2;
  height2 ← height q second.2;
  Ok ((height1 <? height2) || ((height1 =? height2) && (tx_gasPrice (vt_tx second.2) <? tx_gasPrice (vt_tx first.2)))).

(** [*handle] *)
Definition find_node (i : Z) (l : list Node) : option VerifiedTransaction :=
  snd <$> (list_find (fun x => x.1 = i) l ≫= fun p => Some p.2).
Definition deref (i : Z) : TQM VerifiedTransaction :=
  q ← gets id; or_throw (find_node i (q_current q)) QUndefined.

(** [m_current.emplace(v)] *)
Definition m_current_emplace (v : VerifiedTransaction) : TQM Z := fun q =>
  let i := q_next q in
  match emplace (PriorityCompare q) (i, v) (q_current q) with
  | Ok l => (Ok i, set_current l (set_next (i + 1) q))
  | Throw e => (Throw e, q)
  end.

(** [m_current.erase(handle)] *)
Definition m_current_erase (i : Z) : TQM unit :=
  _ ← deref i; modify (fun q => set_current (filter (fun x => x.1 <> i) (q_current q)) q).

(** [m_currentByAddressAndNonce[from].insert(make_pair(nonce, PriorityQueue::iterator()))],
    which keeps an element that is there, then [m_current.emplace(v)] and
    [inserted.first->second = handle] *)
Definition indexNonce (a : Address) (n : Z) (x : gmap Address (gmap Z (option Z)))
  : gmap Address (gmap Z (option Z)) :=
  let m := default ∅ (x !! a) in
  <[a := match m !! n with Some _ => m | None => <[n := None]> m end]> x.
Definition enter (a : Address) (v : VerifiedTransaction) : TQM Z :=
  let n := tx_nonce (vt_tx v) in
  _ ← modify (fun q => set_byAddress (indexNonce a n (q_byAddress q)) q);
  handle ← m_current_emplace v;
  _ ← modify (fun q => set_byAddress (alter (fun m => <[n := Some handle]> m) a (q_byAddress q)) q);
  mret handle.

(** Erasing from a map of maps, and the outer element with the last inner one *)
Definition erase2 {A} (a : Address) (n : Z) (x : gmap Address (gmap Z A)) : gmap Address (gmap Z A) :=
  match x !! a with
  | None => x
  | Some m => if decide (delete n m = ∅) then delete a x else <[a := delete n m]> x
  end.

(** [remove_WITH_LOCK] *)
Definition remove_ (h : bytes) : TQM bool :=
  q ← gets id;
  match q_currentByHash q !! h with
  | None => mret false
  | Some i =>
      v ← deref i;
      let a := from_ (vt_tx v) in
      _ ← assertQ (bool_decide (is_Some (q_byAddress q !! a)));
      _ ← m_current_erase i;
      _ ← modify (fun q => set_byHash (delete h (q_currentByHash q)) q);
      _ ← modify (fun q => set_byAddress (erase2 a (tx_nonce (vt_tx v)) (q_byAddress q)) q);
      _ ← modify (fun q => set_known (q_known q ∖ {[h]}) q);
      mret true
  end.

(** The loop of [makeCurrent_WITH_LOCK] that moves consecutive nonces; it returns
    the keys it has walked over *)
Fixpoint promote (a : Address) (l : list (Z * VerifiedTransaction)) (nonce : Z) : TQM (list Z) :=
  match l with
  | [] => mret []
  | (k, v) :: l' =>
      if tx_nonce (vt_tx v) =? nonce then
        _ ← modify (fun q => set_future (alter (fun m => <[k := moved v]> m) a (q_future q)) (q_futureSize q) q);
        handle ← enter a v;
        _ ← modify (fun q => set_byHash (<[vt_hash v := handle]> (q_currentByHash q)) q);
        _ ← modify (fun q => set_future (q_future q) (u32 (q_futureSize q - 1)) q);
        ks ← promote a l' (u256 (nonce + 1));
        mret (k :: ks)
      else mret []
  end.

(** [while (m_futureSize > m_futureLimit)] *)
Fixpoint evictFuture (fuel : nat) : TQM unit :=
  q ← gets id;
  if q_futureLimit q <? q_futureSize q then
    match fuel with
    | O => throw QNoReturn
    | S f =>
        a ← or_throw (begin_ (q_future q)) QUndefined;
        n ← or_throw (lastKey (default ∅ (q_future q !! a))) QUndefined;
        _ ← modify (fun q => set_future (erase2 a n (q_future q)) (u32 (q_futureSize q - 1)) q);
        evictFuture f
    end
  else mret tt.

(** [makeCurrent_WITH_LOCK] *)
Definition eraseKeys (a : Address) (ks : list Z) (x : gmap Address (gmap Z VerifiedTransaction))
  : gmap Address (gmap Z VerifiedTransaction) :=
  match x !! a with
  | None => x
  | Some m =>
      let m' := foldr delete m ks in
      if decide (m' = ∅) then delete a x else <[a := m']> x
  end.
Definition makeCurrent (t : Transaction) : TQM unit :=
  q ← gets id;
  let a := from_ t in
  newCurrent ←
    (match q_future q !! a with
     | None => mret false
     | Some fs =>
         let nonce := u256 (tx_nonce t + 1) in
         match fs !! nonce with
         | None => mret false
         | Some _ =>
             ks ← promote a (lower_bound nonce fs) nonce;
             _ ← modify (fun q => set_future (eraseKeys a ks (q_future q)) (q_futureSize q) q);
             mret true
         end
     end : TQM bool);
  n ← gets q_futureSize;
  _ ← evictFuture (Z.to_nat n);
  if newCurrent : bool then emit OnReady else mret tt.

(** [insertCurrent_WITH_LOCK] *)
Definition insertCurrent (h : bytes) (t : Transaction) : TQM unit :=
  q ← gets id;
  if decide (is_Some (q_currentByHash q !! h)) then mret tt
  else
    handle ← enter (from_ t) (verified t);
    _ ← modify (fun q => set_byHash (<[h := handle]> (q_currentByHash q)) q);
    _ ← makeCurrent t;
    modify (fun q => set_known ({[h]} ∪ q_known q) q).

(** [check_WITH_LOCK] *)
Definition check_ (h : bytes) (ik : IfDropped) (q : TransactionQueue) : ImportResult :=
  if decide (h ∈ q_known q) then AlreadyKnown
  else if decide (h ∈ q_dropped q /\ ik = Ignore) then AlreadyInChain
  else Success.

(** [while (m_current.size() > m_limit)] *)
Fixpoint evictCurrent (fuel : nat) : TQM unit :=
  q ← gets id;
  if q_limit q <? sizeZ (q_current q) then
    match fuel with
    | O => throw QNoReturn
    | S f =>
        v ← or_throw (last (q_current q)) QUndefined;
        _ ← remove_ (vt_hash v.2);
        evictCurrent f
    end
  else mret tt.

(** The two searches for a prior transaction in [manageImport_WITH_LOCK]: [false]
    says that it is better paid *)
Definition replaceCurrent (t : Transaction) : TQM bool :=
  q ← gets id;
  match q_byAddress q !! from_ t ≫= fun m => m !! tx_nonce t with
  | None => mret true
  | Some handle =>
      i ← or_throw handle QUndefined;
      v ← deref i;
      if tx_gasPrice t <? tx_gasPrice (vt_tx v) then mret false
      else
        _ ← remove_ (vt_hash v);
        _ ← emit (OnReplaced (vt_hash v));
        mret true
  end.
Definition replaceFuture (t : Transaction) : TQM bool :=
  q ← gets id;
  match q_future q !! from_ t ≫= fun m => m !! tx_nonce t with
  | None => mret true
  | Some v =>
      if tx_gasPrice t <? tx_gasPrice (vt_tx v) then mret false
      else
        _ ← modify (fun q => set_future (erase2 (from_ t) (tx_nonce t) (q_future q)) (u32 (q_futureSize q - 1)) q);
        mret true
  end.

(** [manageImport_WITH_LOCK] *)
Definition manageImport (h : bytes) (t : Transaction) : TQM ImportResult :=
  catch_
    (_ ← assertQ (bool_decide (h = tx_sha3 t));
     c ← replaceCurrent t;
     if negb c then mret OverbidGasPrice
     else
       f ← replaceFuture t;
       if negb f then mret OverbidGasPrice
       else
         _ ← insertCurrent h t;
         n ← gets (fun q => length (q_current q));
         _ ← evictCurrent n;
         _ ← emit OnReady;
         mret Success)
    Malformed.

(** [import(Transaction const&, IfDropped)] *)
Definition import_ (t : Transaction) (ik : IfDropped) : TQM ImportResult :=
  let h := tx_sha3 t in
  ir ← gets (check_ h ik);
  if decide (ir = Success) then manageImport h t else mret ir.

(** [import(bytesConstRef, IfDropped)] *)
Definition import_rlp (d : bytes) (ik : IfDropped) : TQM ImportResult :=
  let h := sha3 d in
  ir ← gets (check_ h ik);
  if decide (ir = Success) then
    match fromRLP sha3 recover d CheckEverything with
    | Throw _ => mret Malformed
    | Ok t => catch_ (manageImport h t) Malformed
    end
  else mret ir.

(** [topTransactions] *)
Fixpoint top_loop (limit : Z) (avoid : gset bytes) (l : list Node) (ret : list Transaction) : list Transaction :=
  match l with
  | [] => ret
  | (_, v) :: l' =>
      if sizeZ ret <? limit then
        top_loop limit avoid l' (if decide (vt_hash v ∈ avoid) then ret else ret ++ [vt_tx v])
      else ret
  end.
Definition topTransactions (limit : Z) (avoid : gset bytes) (q : TransactionQueue) : list Transaction :=
  top_loop limit avoid (q_current q) [].

(** [maxNonce_WITH_LOCK], [waiting] *)
Definition maxNonce (a : Address) (q : TransactionQueue) : Z :=
  let ret := match q_byAddress q !! a ≫= lastKey with Some n => u256 (n + 1) | None => 0 end in
  match q_future q !! a ≫= lastKey with Some n => Z.max ret (u256 (n + 1)) | None => ret end.
Definition waiting (a : Address) (q : TransactionQueue) : Z :=
  u32 (Z.of_nat (match q_byAddress q !! a with Some m => size m | None => 0 end)
       + Z.of_nat (match q_future q !! a with Some m => size m | None => 0 end)).

(** The loop of [setFuture] *)
Fixpoint future_loop (a : Address) (l : list (Z * option Z)) : TQM unit :=
  match l with
  | [] => mret tt
  | (_, handle) :: l' =>
      i ← or_throw handle QUndefined;
      v ← deref i;
      let n := tx_nonce (vt_tx v) in
      _ ← modify (fun q => set_byHash (delete (vt_hash v) (q_currentByHash q)) q);
      _ ← modify (fun q => set_future
             (alter (fun m => match m !! n with Some _ => m | None => <[n := v]> m end) a (q_future q))
             (q_futureSize q) q);
      _ ← m_current_erase i;
      _ ← modify (fun q => set_future (q_future q) (u32 (q_futureSize q + 1)) q);
      future_loop a l'
  end.

(** [setFuture]; [m_currentByAddressAndNonce[from]] and [m_future[from]] make the
    element if it is missing *)
Definition touch {A} (a : Address) (x : gmap Address (gmap Z A)) : gmap Address (gmap Z A) :=
  match x !! a with Some _ => x | None => <[a := ∅]> x end.
Definition setFuture (h : bytes) : TQM unit :=
  q ← gets id;
  match q_currentByHash q !! h with
  | None => mret tt
  | Some i =>
      st ← deref i;
      let a := from_ (vt_tx st) in
      let n := tx_nonce (vt_tx st) in
      _ ← modify (fun q => set_byAddress (touch a (q_byAddress q)) q);
      _ ← modify (fun q => set_future (touch a (q_future q)) (q_futureSize q) q);
      queue ← gets (fun q => default ∅ (q_byAddress q !! a));
      _ ← future_loop a (lower_bound n queue);
      let queue' := filter (fun x => x.1 < n) queue in
      modify (fun q => set_byAddress (if decide (queue' = ∅) then delete a (q_byAddress q)
                                      else <[a := queue']> (q_byAddress q)) q)
  end.

(** [drop], [dropGood], [clear] *)
Definition drop_ (h : bytes) : TQM unit :=
  q ← gets id;
  if decide (h ∈ q_known q) then
    _ ← modify (fun q => set_dropped ({[h]} ∪ q_dropped q) q);
    _ ← remove_ h;
    mret tt
  else mret tt.
Definition dropGood (t : Transaction) : TQM unit :=
  _ ← makeCurrent t;
  q ← gets id;
  if decide (tx_sha3 t ∈ q_known q) then _ ← remove_ (tx_sha3 t); mret tt else mret tt.
Definition clear : TQM unit :=
  modify (fun q => mkQueue ∅ (q_dropped q) [] ∅ ∅ ∅ (q_limit q) (q_futureLimit q) 0 (q_unverified q)
                     (q_next q) (q_events q)).

(** ** The verification queue *)

Definition c_maxVerificationQueueSize : Z := 8192.

(** [UnverifiedTransaction(UnverifiedTransaction&&)] moves the bytes only: the
    node identity of the new object is the zero hash. *)
Definition moveUnverified (u : bytes * bytes) : bytes * bytes := (u.1, zeroHash 64).

Definition rlp_q {A} (r : result rlp_error A) : TQM A :=
  match r with Ok a => mret a | Throw e => throw (QTx (TxRLP e)) end.

(** The loop of [enqueue] *)
Fixpoint enqueue_loop (d nodeId : bytes) (is_ : list Z) : TQM unit :=
  match is_ with
  | [] => mret tt
  | i :: is' =>
      n ← gets (fun q => sizeZ (q_unverified q));
      if c_maxVerificationQueueSize <=? n then mret tt
      else
        x ← rlp_q (snd (RLP.index (RLP.mk d) i));
        _ ← modify (fun q => set_unverified (q_unverified q ++ [moveUnverified (x, nodeId)]) q);
        enqueue_loop d nodeId is'
  end.
Definition enqueue (d nodeId : bytes) : TQM unit :=
  match RLP.itemCount d with
  | None => throw QNoReturn
  | Some r => n ← rlp_q r; enqueue_loop d nodeId (seqZ 0 (u32 n))
  end.

(** One round of [verifierBody] on a queue that is not empty *)
Definition verifierRound : TQM unit :=
  q ← gets id;
  match q_unverified q with
  | [] => mret tt
  | (d, nodeId) :: rest =>
      _ ← modify (set_unverified rest);
      catch_
        (match fromRLP sha3 recover d CheckCheap with
         | Throw e => throw (QTx e)
         | Ok t =>
             ir ← import_ t Ignore;
             emit (OnImport ir (tx_sha3 t) nodeId)
         end) tt
  end.

(** [status]: pending, future, unverified and dropped *)
Definition status (q : TransactionQueue) : Z * Z * Z * Z :=
  (Z.of_nat (size (q_currentByHash q)), Z.of_nat (size (q_future q)), sizeZ (q_unverified q),
   Z.of_nat (size (q_dropped q))).

End Queue.
