(* ===== verification/TransactionQueueTheory.v ===== *)
(** * The transaction queue implements two maps from sender and nonce to transaction

    [RepC] and [RepF] relate a queue to its pending and its waiting transactions;
    [Valid] adds what holds between operations.  Every operation preserves [Valid]
    and acts on the two maps as its specification says. *)

From Stdlib Require Import ZArith Lia.
From stdpp Require Import base list list_numbers option gmap sorting.
From S2P Require Import Prelude CommonData RLP RLPTheory FixedHash Instruction ExtVMFace Transaction TransactionQueue.

(** Reads the fields of an updated queue *)
Ltac qfields := cbn [q_known q_dropped q_current q_currentByHash q_byAddress q_future q_limit q_futureLimit
  q_futureSize q_unverified q_next q_events set_known set_dropped set_current set_byHash set_byAddress set_future
  set_unverified set_next set_events].

(** ** The monad *)

Lemma tbind {A B} (m : TQM A) (f : A -> TQM B) q a q1 : m q = (Ok a, q1) -> (m ≫= f) q = f a q1.
Proof. intros E. unfold mbind, TQM_bind. by rewrite E. Qed.
Lemma tbind_gets {A B} (g : TransactionQueue -> A) (f : A -> TQM B) q : (gets g ≫= f) q = f (g q) q.
Proof. done. Qed.
Lemma tbind_modify {B} g (f : unit -> TQM B) q : (modify g ≫= f) q = f tt (g q).
Proof. done. Qed.
Lemma tbind_emit {B} e (f : unit -> TQM B) q : (emit e ≫= f) q = f tt (set_events (q_events q ++ [e]) q).
Proof. done. Qed.
Lemma tbind_ret {A B} (a : A) (f : A -> TQM B) q : (mret a ≫= f) q = f a q.
Proof. done. Qed.
Lemma tret {A} (a : A) q : (mret a : TQM A) q = (Ok a, q).
Proof. done. Qed.
Lemma tbind_assoc {A B C} (m : TQM A) (f : A -> TQM B) (g : B -> TQM C) q :
  ((m ≫= f) ≫= g) q = (m ≫= fun a => f a ≫= g) q.
Proof. unfold mbind, TQM_bind. destruct (m q) as [[a|e] q1]; done. Qed.

(** Runs the steps that only read or write fields *)
Ltac trun := repeat (rewrite tbind_gets || rewrite tbind_modify || rewrite tbind_emit || rewrite tbind_ret
                     || rewrite tbind_assoc); cbn [id].

(** ** Maps of maps and ordered maps *)

Definition at2 {A} (x : gmap Address (gmap Z A)) (a : Address) (n : Z) : option A := x !! a ≫= fun m => m !! n.

Definition innerNonempty {A} (x : gmap Address (gmap Z A)) : Prop := forall a m, x !! a = Some m -> m <> ∅.

Lemma at2_Some {A} (x : gmap Address (gmap Z A)) a n v :
  at2 x a n = Some v <-> exists m, x !! a = Some m /\ m !! n = Some v.
Proof. unfold at2. rewrite bind_Some. done. Qed.

Lemma at2_insert {A} (x : gmap Address (gmap Z A)) a m a' n' :
  at2 (<[a := m]> x) a' n' = if decide (a' = a) then m !! n' else at2 x a' n'.
Proof. unfold at2. case_decide; subst; [by rewrite lookup_insert_eq|by rewrite lookup_insert_ne]. Qed.

Lemma at2_delete {A} (x : gmap Address (gmap Z A)) a a' n' :
  at2 (delete a x) a' n' = if decide (a' = a) then None else at2 x a' n'.
Proof. unfold at2. case_decide; subst; [by rewrite lookup_delete_eq|by rewrite lookup_delete_ne]. Qed.

Lemma at2_erase2 {A} (x : gmap Address (gmap Z A)) a n a' n' :
  at2 (erase2 a n x) a' n' = if decide ((a', n') = (a, n)) then None else at2 x a' n'.
Proof.
  unfold erase2. destruct (x !! a) as [m|] eqn:E.
  - case_decide as Em.
    + rewrite at2_delete. repeat case_decide; simplify_eq; try done.
      unfold at2. rewrite E. simpl. symmetry. rewrite <- (lookup_delete_ne m n n') by congruence. by rewrite Em.
    + rewrite at2_insert. repeat case_decide; simplify_eq; try done.
      * by rewrite lookup_delete_eq.
      * unfold at2. rewrite E. simpl. rewrite lookup_delete_ne by congruence. done.
  - case_decide; [simplify_eq|done]. unfold at2. by rewrite E.
Qed.

Lemma erase2_nonempty {A} a n (x : gmap Address (gmap Z A)) : innerNonempty x -> innerNonempty (erase2 a n x).
Proof.
  intros Hx a' m. unfold erase2. destruct (x !! a) eqn:E; [|by apply Hx]. case_decide.
  - intros Hm. apply (Hx a'). by apply lookup_delete_Some in Hm as [_ Hm].
  - intros [[-> <-]|[_ Hm]]%lookup_insert_Some; [done|by apply (Hx a')].
Qed.

Lemma at2_touch {A} a (x : gmap Address (gmap Z A)) a' n' : at2 (touch a x) a' n' = at2 x a' n'.
Proof.
  unfold touch. destruct (x !! a) eqn:E; [done|]. rewrite at2_insert. case_decide; [|done]. subst.
  unfold at2. by rewrite E.
Qed.

Lemma elem_of_entries {A} (m : gmap Z A) k v : (k, v) ∈ entries m <-> m !! k = Some v.
Proof. unfold entries. rewrite merge_sort_Permutation. apply elem_of_map_to_list. Qed.

#[export] Instance key_le_total {A} : Total (@key_le A).
Proof. intros x y. unfold key_le. lia. Qed.
#[export] Instance key_le_trans {A} : Transitive (@key_le A).
Proof. intros x y z. unfold key_le. lia. Qed.

(** The entries come in the order of their keys. *)
Lemma entries_sorted {A} (m : gmap Z A) : StronglySorted (fun x y => x.1 < y.1) (entries m).
Proof.
  assert (Hd : NoDup (entries m).*1).
  { unfold entries. rewrite merge_sort_Permutation. apply NoDup_fst_map_to_list. }
  pose proof (StronglySorted_merge_sort key_le (map_to_list m)) as Hs. fold (entries m) in Hs.
  induction Hs as [|x l Hs IH Hx]; constructor.
  - apply IH. by apply list.NoDup_cons in Hd as [_ ?].
  - rewrite list.Forall_forall in Hx |- *. intros y Hy. specialize (Hx y Hy). unfold key_le in Hx.
    cbn [fmap list_fmap] in Hd. apply list.NoDup_cons in Hd as [Hd _].
    assert (y.1 <> x.1) by (intros E; apply Hd; rewrite <- E; by apply list_elem_of_fmap_2). lia.
Qed.

Lemma entries_nonempty {A} (m : gmap Z A) : m <> ∅ -> exists k v l, entries m = (k, v) :: l /\ m !! k = Some v.
Proof.
  intros Hm. destruct (entries m) as [|[k v] l] eqn:E.
  - destruct (map_choose _ Hm) as (k & v & Hk). apply elem_of_entries in Hk. rewrite E in Hk. by apply elem_of_nil in Hk.
  - exists k, v, l. split; [done|]. apply elem_of_entries. rewrite E. by left.
Qed.

Lemma firstKey_nonempty {A} (m : gmap Z A) : m <> ∅ -> is_Some (firstKey m).
Proof. intros (k & v & l & E & _)%entries_nonempty. unfold firstKey. rewrite E. by eexists. Qed.

Lemma lastKey_nonempty {A} (m : gmap Z A) : m <> ∅ -> exists k, lastKey m = Some k /\ is_Some (m !! k).
Proof.
  intros (k & v & l & E & _)%entries_nonempty. unfold lastKey.
  destruct (last (entries m)) as [[k' v']|] eqn:El; [|apply last_None in El; congruence].
  exists k'. split; [done|]. exists v'. apply elem_of_entries. apply last_Some in El as [l' ->]. set_solver.
Qed.

Lemma elem_of_lower_bound {A} n (m : gmap Z A) k v : (k, v) ∈ lower_bound n m <-> n <= k /\ m !! k = Some v.
Proof. unfold lower_bound. rewrite list_elem_of_filter, elem_of_entries. done. Qed.

Lemma StronglySorted_filter {A} (R : A -> A -> Prop) (P : A -> Prop) `{!forall x, Decision (P x)} l :
  StronglySorted R l -> StronglySorted R (filter P l).
Proof.
  induction 1 as [|x l Hs IH Hx]; [constructor|]. rewrite filter_cons. case_decide; [|done].
  constructor; [done|]. rewrite list.Forall_forall in Hx |- *. intros y [_ Hy]%list_elem_of_filter. auto.
Qed.

Lemma lower_bound_sorted {A} n (m : gmap Z A) : StronglySorted (fun x y => x.1 < y.1) (lower_bound n m).
Proof. apply StronglySorted_filter, entries_sorted. Qed.

(** ** The two instances satisfy the laws *)

Lemma linear_emplace_spec lt x l :
  (forall y, y ∈ l -> is_Ok (lt x y)) ->
  exists l1 l2, l = l1 ++ l2 /\ linear_emplace lt x l = Ok (l1 ++ x :: l2) /\
    Forall (fun y => lt x y = Ok false) l1 /\ (forall y l', l2 = y :: l' -> lt x y = Ok true).
Proof.
  induction l as [|y l IH]; intros Hl; simpl.
  - by exists [], [].
  - destruct (Hl y ltac:(left)) as [b Eb]. rewrite Eb. destruct b.
    + exists [], (y :: l). repeat split; [constructor|by intros ? ? [= -> ->]].
    + destruct IH as (l1 & l2 & -> & -> & Hf & Ht); [intros; apply Hl; by right|].
      exists (y :: l1), l2. repeat split; [constructor; done|done].
Qed.

#[export] Instance linearMultiset_laws : MultisetLaws.
Proof.
  split; cbn [emplace linearMultiset].
  - intros lt x l Hl. destruct (linear_emplace_spec lt x l) as (l1 & l2 & ? & ? & _); [naive_solver|eauto].
  - intros lt x l Hl Hs. destruct (linear_emplace_spec lt x l) as (l1 & l2 & -> & ? & Hf & Ht); [naive_solver|].
    exists l1, l2. repeat split; try done. destruct l2 as [|y l2]; [constructor|]. specialize (Ht _ _ eq_refl).
    constructor; [done|]. apply StronglySorted_app_1_r in Hs. apply StronglySorted_inv in Hs as [_ Hs].
    rewrite list.Forall_forall in Hs |- *. eauto.
  - intros lt x l e. induction l as [|y l IH]; simpl; [done|]. destruct (lt x y) as [[]|e'] eqn:E; [done| |].
    + destruct (linear_emplace lt x l) as [r|e''] eqn:El; cbn; [done|]. intros [= ->].
      destruct IH as (z & Hz & Hor); [done|]. exists z. split; [by right|done].
    + intros [= ->]. exists y. split; [by left|by left].
Qed.

#[export] Instance firstBegin_laws : UnorderedMapLaws.
Proof.
  split. intros m Hm. cbn. destruct (map_to_list m) as [|[a x] l] eqn:E.
  - by apply map_to_list_empty_iff in E.
  - exists a. split; [done|]. exists x. apply elem_of_map_to_list. rewrite E. by left.
Qed.

Section Theory.
Context (sha3 : bytes -> bytes) (recover : SignatureStruct -> bytes -> option bytes).
Context `{HMs : Multiset} `{!MultisetLaws} `{HUm : UnorderedMap} `{!UnorderedMapLaws}.
Abbreviation from_ := (from_ sha3 recover).
Abbreviation tx_sha3 := (tx_sha3 sha3).
Abbreviation verified := (verified sha3).

(** A transaction whose signature has a signer, with a nonce of 256 bits *)
Definition good (t : Transaction) : Prop := is_Ok (sender sha3 recover t) /\ fits 256 (tx_nonce t).
Definition goodV (v : VerifiedTransaction) : Prop := good (vt_tx v) /\ vt_hash v = tx_sha3 (vt_tx v).
Definition keyT (t : Transaction) : Address * Z := (from_ t, tx_nonce t).
Definition key (v : VerifiedTransaction) : Address * Z := keyT (vt_tx v).

Abbreviation pool := (gmap (Address * Z) VerifiedTransaction).

(** The multiset and its two indexes represent the pending transactions [C]. *)
Record RepC (q : TransactionQueue) (C : pool) : Prop := {
  rc_ids : NoDup (q_current q).*1;
  rc_next i v : (i, v) ∈ q_current q -> i < q_next q;
  rc_node i v : (i, v) ∈ q_current q -> C !! key v = Some v;
  rc_hash i v : (i, v) ∈ q_current q -> q_currentByHash q !! vt_hash v = Some i;
  rc_addr i v : (i, v) ∈ q_current q -> at2 (q_byAddress q) (key v).1 (key v).2 = Some (Some i);
  rc_cur k v : C !! k = Some v -> key v = k /\ goodV v /\ exists i, (i, v) ∈ q_current q;
  rc_byHash h i : q_currentByHash q !! h = Some i -> exists v, (i, v) ∈ q_current q /\ vt_hash v = h;
  rc_byAddr a n : is_Some (at2 (q_byAddress q) a n) -> is_Some (C !! (a, n));
  rc_nonempty : innerNonempty (q_byAddress q);
  rc_size : length (q_current q) = size C
}.

(** [m_future] and its counter represent the waiting transactions [F]. *)
Record RepF (q : TransactionQueue) (F : pool) : Prop := {
  rf_at a n : at2 (q_future q) a n = F !! (a, n);
  rf_nonempty : innerNonempty (q_future q);
  rf_good k v : F !! k = Some v -> key v = k /\ goodV v;
  rf_size : q_futureSize q = Z.of_nat (size F)
}.

Lemma RepC_frame q q' C :
  q_current q' = q_current q -> q_currentByHash q' = q_currentByHash q -> q_byAddress q' = q_byAddress q ->
  q_next q' = q_next q -> RepC q C -> RepC q' C.
Proof. intros E1 E2 E3 E4 []. split; rewrite ?E1, ?E2, ?E3, ?E4; done. Qed.

Lemma RepF_frame q q' F :
  q_future q' = q_future q -> q_futureSize q' = q_futureSize q -> RepF q F -> RepF q' F.
Proof. intros E1 E2 []. split; rewrite ?E1, ?E2; done. Qed.

Lemma node_unique q C i v w : RepC q C -> (i, v) ∈ q_current q -> (i, w) ∈ q_current q -> v = w.
Proof.
  intros HC Hv Hw. destruct HC as [Hd _ _ _ _ _ _ _ _ _].
  induction (q_current q) as [|[j u] l IH]; [by apply elem_of_nil in Hv|].
  cbn in Hd. apply list.NoDup_cons in Hd as [Hj Hd].
  apply elem_of_cons in Hv as [Hv|Hv], Hw as [Hw|Hw]; simplify_eq; auto.
  - exfalso. apply Hj. by apply (list_elem_of_fmap_2 fst l (_, w)).
  - exfalso. apply Hj. by apply (list_elem_of_fmap_2 fst l (_, v)).
Qed.

Lemma find_node_ok q C i v : RepC q C -> (i, v) ∈ q_current q -> find_node i (q_current q) = Some v.
Proof.
  intros HC Hv. unfold find_node. destruct (list_find _ _) as [[p [j u]]|] eqn:E; simpl.
  - apply list_find_Some in E as (Ep & Ej & _). simpl in Ej. subst j. f_equal.
    eapply node_unique; [done| |done]. by eapply list_elem_of_lookup_2.
  - exfalso. apply list_find_None in E. rewrite list.Forall_forall in E. exact (E (i, v) Hv eq_refl).
Qed.

Lemma key_from v a : goodV v -> key v = a -> sender sha3 recover (vt_tx v) = Ok a.1.
Proof.
  intros [[[b Hb] _] _] <-. unfold key, keyT. cbn. unfold TransactionQueue.from_, safeSender. by rewrite Hb.
Qed.

Lemma height_ok q C v : RepC q C -> C !! key v = Some v -> is_Ok (height sha3 recover q v).
Proof.
  intros HC Hv. destruct (rc_cur q C HC _ _ Hv) as (_ & Hg & i & Hi). unfold height.
  rewrite (key_from v _ Hg eq_refl). apply (rc_addr q C HC) in Hi. apply at2_Some in Hi as (m & Em & Hm).
  rewrite Em. cbn. destruct (firstKey_nonempty m) as [n ->]; [|by eexists]. by eapply rc_nonempty.
Qed.

(** ** Entering and removing a transaction *)

Definition entered (a : Address) (v : VerifiedTransaction) (l : list Node) (q : TransactionQueue) : TransactionQueue :=
  let n := tx_nonce (vt_tx v) in
  set_byAddress (alter (fun m => <[n := Some (q_next q)]> m) a (indexNonce a n (q_byAddress q)))
    (set_current l (set_next (q_next q + 1) q)).

Lemma at2_entered (x : gmap Address (gmap Z (option Z))) a n i a' n' :
  at2 (alter (fun m => <[n := Some i]> m) a (indexNonce a n x)) a' n'
  = if decide ((a', n') = (a, n)) then Some (Some i) else at2 x a' n'.
Proof.
  unfold at2, indexNonce. destruct (decide (a' = a)) as [->|Ha].
  - rewrite lookup_alter_eq, lookup_insert_eq. cbn. destruct (decide (n' = n)) as [->|Hn].
    + rewrite lookup_insert_eq, decide_True by done. done.
    + rewrite lookup_insert_ne, decide_False by congruence. destruct (x !! a) as [m|]; cbn.
      * destruct (m !! n); [done|by rewrite lookup_insert_ne].
      * by rewrite lookup_empty, lookup_insert_ne, lookup_empty.
  - rewrite lookup_alter_ne, lookup_insert_ne, decide_False by congruence. done.
Qed.

Lemma entered_nonempty (x : gmap Address (gmap Z (option Z))) a n i :
  innerNonempty x -> innerNonempty (alter (fun m => <[n := Some i]> m) a (indexNonce a n x)).
Proof.
  intros Hx a' m. unfold indexNonce. destruct (decide (a' = a)) as [->|Ha].
  - rewrite lookup_alter_eq, lookup_insert_eq. intros [= <-]. apply insert_non_empty.
  - rewrite lookup_alter_ne, lookup_insert_ne by congruence. apply Hx.
Qed.

Lemma height_indexed q C v a n :
  RepC q C -> C !! key v = Some v -> is_Ok (height sha3 recover (set_byAddress (indexNonce a n (q_byAddress q)) q) v).
Proof.
  intros HC Hv. destruct (rc_cur q C HC _ _ Hv) as (_ & Hg & i & Hi). unfold height.
  rewrite (key_from v _ Hg eq_refl). cbn [q_byAddress set_byAddress]. apply (rc_addr q C HC) in Hi. apply at2_Some in Hi as (m & Em & Hm).
  match goal with |- context [firstKey ?m] => destruct (firstKey_nonempty m) as [k ->]; [|by eexists] end.
  unfold indexNonce. destruct (decide ((key v).1 = a)) as [<-|Ha].
  - rewrite lookup_insert_eq, Em. cbn. destruct (m !! n); [by eapply rc_nonempty|apply insert_non_empty].
  - rewrite lookup_insert_ne, Em by congruence. by eapply rc_nonempty.
Qed.

Lemma height_new q v a n :
  goodV v -> (key v).1 = a -> is_Ok (height sha3 recover (set_byAddress (indexNonce a n (q_byAddress q)) q) v).
Proof.
  intros Hg <-. unfold height. rewrite (key_from v _ Hg eq_refl). cbn [q_byAddress set_byAddress]. unfold indexNonce. rewrite lookup_insert_eq. cbn.
  match goal with |- context [firstKey ?m] => destruct (firstKey_nonempty m) as [k ->]; [|by eexists] end.
  destruct (default ∅ _ !! n) eqn:E; [|apply insert_non_empty]. intros E0. by rewrite E0, lookup_empty in E.
Qed.

(** [enter] puts the transaction somewhere and never throws. *)
Lemma enter_ok q C v :
  RepC q C -> goodV v ->
  exists l1 l2, q_current q = l1 ++ l2 /\
    enter sha3 recover (key v).1 v q = (Ok (q_next q), entered (key v).1 v (l1 ++ (q_next q, v) :: l2) q).
Proof.
  intros HC Hg. unfold enter. set (q0 := set_byAddress (indexNonce (key v).1 (tx_nonce (vt_tx v)) (q_byAddress q)) q).
  destruct (emplace_somewhere (PriorityCompare sha3 recover q0) (q_next q, v) (q_current q)) as (l1 & l2 & El & Ee).
  { intros [i w] Hw. apply (rc_node q C HC) in Hw. unfold PriorityCompare. cbn [snd].
    destruct (height_indexed q C w (key v).1 (tx_nonce (vt_tx v)) HC Hw) as [hw Ew].
    destruct (height_new q v (key v).1 (tx_nonce (vt_tx v)) Hg eq_refl) as [hv Ev].
    fold q0 in Ew, Ev. rewrite Ew, Ev. split; by eexists. }
  exists l1, l2. split; [done|]. unfold mbind, TQM_bind, modify, m_current_emplace. fold q0.
  change (q_next q0) with (q_next q). change (q_current q0) with (q_current q). rewrite Ee. done.
Qed.

Lemma RepC_enter q C v l1 l2 :
  RepC q C -> goodV v -> C !! key v = None -> q_currentByHash q !! vt_hash v = None -> q_current q = l1 ++ l2 ->
  RepC (set_byHash (<[vt_hash v := q_next q]> (q_currentByHash q)) (entered (key v).1 v (l1 ++ (q_next q, v) :: l2) q))
    (<[key v := v]> C).
Proof.
  intros HC Hg Hk Hh El.
  assert (Hin : forall i w, (i, w) ∈ l1 ++ (q_next q, v) :: l2 <-> (i = q_next q /\ w = v) \/ (i, w) ∈ q_current q).
  { intros i w. rewrite El. set_solver. }
  split; unfold entered; qfields.
  - rewrite fmap_app, fmap_cons. cbn. rewrite <- Permutation_middle, <- fmap_app, <- El.
    apply NoDup_cons_2; [|apply (rc_ids q C HC)]. intros ([i w] & Ei & Hw)%list_elem_of_fmap. cbn in Ei.
    apply (rc_next q C HC) in Hw. lia.
  - intros i w [[-> ->]|Hw]%Hin; [lia|]. apply (rc_next q C HC) in Hw. lia.
  - intros i w [[-> ->]|Hw]%Hin; [apply lookup_insert_eq|]. apply (rc_node q C HC) in Hw.
    rewrite lookup_insert_ne by congruence. done.
  - intros i w [[-> ->]|Hw]%Hin; [apply lookup_insert_eq|]. apply (rc_hash q C HC) in Hw.
    rewrite lookup_insert_ne by congruence. done.
  - intros i w [[-> ->]|Hw]%Hin; rewrite at2_entered.
    + rewrite decide_True by done. done.
    + rewrite decide_False; [by apply (rc_addr q C HC)|]. intros E. apply (rc_node q C HC) in Hw.
      change (tx_nonce (vt_tx v)) with (key v).2 in E. rewrite <- !surjective_pairing in E. congruence.
  - intros k w [[<- <-]|[Hne Hw]]%lookup_insert_Some.
    + split; [done|]. split; [done|]. exists (q_next q). apply Hin. by left.
    + apply (rc_cur q C HC) in Hw as (? & ? & i & Hi). split; [done|]. split; [done|]. exists i. apply Hin. by right.
  - intros h i [[<- <-]|[Hne Hw]]%lookup_insert_Some.
    + exists v. split; [apply Hin; by left|done].
    + apply (rc_byHash q C HC) in Hw as (w & Hw & <-). exists w. split; [apply Hin; by right|done].
  - intros a n. rewrite at2_entered. case_decide as E.
    + intros _. change (tx_nonce (vt_tx v)) with (key v).2 in E. rewrite <- !surjective_pairing in E. rewrite E.
      rewrite lookup_insert_eq. by eexists.
    + intros Hs%(rc_byAddr q C HC). destruct (decide (key v = (a, n))) as [->|Hne].
      * rewrite lookup_insert_eq. by eexists.
      * by rewrite lookup_insert_ne.
  - by apply entered_nonempty, (rc_nonempty q C HC).
  - rewrite map_size_insert_None by done. rewrite <- (rc_size q C HC), El, !length_app. cbn. lia.
Qed.

(** What is left when the node [i] with the transaction [v] has been removed *)
Definition removed (i : Z) (v : VerifiedTransaction) (q : TransactionQueue) : TransactionQueue :=
  set_known (q_known q ∖ {[vt_hash v]})
    (set_byAddress (erase2 (key v).1 (key v).2 (q_byAddress q))
       (set_byHash (delete (vt_hash v) (q_currentByHash q))
          (set_current (filter (fun x => x.1 <> i) (q_current q)) q))).

Lemma deref_ok q C i v : RepC q C -> (i, v) ∈ q_current q -> deref i q = (Ok v, q).
Proof. intros HC Hv. unfold deref. trun. by rewrite (find_node_ok q C i v HC Hv). Qed.

Lemma erase_ok q C i v :
  RepC q C -> (i, v) ∈ q_current q ->
  m_current_erase i q = (Ok tt, set_current (filter (fun x => x.1 <> i) (q_current q)) q).
Proof. intros HC Hv. unfold m_current_erase. by rewrite (tbind _ _ _ _ _ (deref_ok q C i v HC Hv)). Qed.

Lemma remove_ok q C i v :
  RepC q C -> (i, v) ∈ q_current q -> remove_ sha3 recover (vt_hash v) q = (Ok true, removed i v q).
Proof.
  intros HC Hv. unfold remove_. trun. rewrite (rc_hash q C HC i v Hv).
  rewrite (tbind _ _ _ _ _ (deref_ok q C i v HC Hv)).
  pose proof (rc_addr q C HC i v Hv) as Ha. apply at2_Some in Ha as (m & Em & _).
  change (TransactionQueue.from_ sha3 recover (vt_tx v)) with (key v).1. rewrite Em.
  rewrite bool_decide_eq_true_2 by (by eexists). cbn [assertQ]. trun.
  by rewrite (tbind _ _ _ _ _ (erase_ok q C i v HC Hv)).
Qed.

Lemma remove_absent q h : q_currentByHash q !! h = None -> remove_ sha3 recover h q = (Ok false, q).
Proof. intros E. unfold remove_. trun. by rewrite E. Qed.

Lemma elem_of_removed q C i v j w :
  RepC q C -> (i, v) ∈ q_current q ->
  (j, w) ∈ filter (fun x => x.1 <> i) (q_current q) <-> (j, w) ∈ q_current q /\ key w <> key v.
Proof.
  intros HC Hv. rewrite list_elem_of_filter. cbn. split; intros [H1 H2]; split; try done.
  - intros E. pose proof (rc_addr q C HC i v Hv) as H3. pose proof (rc_addr q C HC j w H2) as H4.
    rewrite E in H4. congruence.
  - intros ->. apply H2. by rewrite (node_unique q C i v w HC Hv H1).
Qed.

Lemma filter_ids (l : list Node) i : i ∉ l.*1 -> filter (fun x => x.1 <> i) l = l.
Proof.
  induction l as [|[j w] l IH]; [done|]. cbn [fmap list_fmap fst]. intros [Hj Hl]%not_elem_of_cons.
  rewrite filter_cons, decide_True by (cbn; congruence). by rewrite IH.
Qed.

(** The list without the node *)
Lemma filter_node q C l1 i v l2 :
  RepC q C -> q_current q = l1 ++ (i, v) :: l2 -> filter (fun x => x.1 <> i) (q_current q) = l1 ++ l2.
Proof.
  intros HC E. pose proof (rc_ids q C HC) as Hd. rewrite E in Hd |- *.
  rewrite fmap_app, fmap_cons in Hd. cbn in Hd. rewrite <- Permutation_middle in Hd.
  apply list.NoDup_cons in Hd as [[Hi1 Hi2]%not_elem_of_app _].
  rewrite list.filter_app, filter_cons, decide_False by (cbn; auto). by rewrite !filter_ids.
Qed.

Lemma length_removed q C i v :
  RepC q C -> (i, v) ∈ q_current q -> S (length (filter (fun x : Node => x.1 <> i) (q_current q))) = length (q_current q).
Proof.
  intros HC Hv. apply list_elem_of_split in Hv as (l1 & l2 & E). rewrite (filter_node q C l1 i v l2 HC E), E.
  rewrite !length_app. cbn. lia.
Qed.

Lemma RepC_remove q C i v : RepC q C -> (i, v) ∈ q_current q -> RepC (removed i v q) (delete (key v) C).
Proof.
  intros HC Hv. pose proof (fun j w => elem_of_removed q C i v j w HC Hv) as He.
  split; unfold removed; qfields.
  - destruct (list_elem_of_split _ _ Hv) as (l1 & l2 & E). rewrite (filter_node q C l1 i v l2 HC E).
    pose proof (rc_ids q C HC) as Hd. rewrite E, fmap_app, fmap_cons, <- Permutation_middle, <- fmap_app in Hd.
    by apply list.NoDup_cons in Hd as [_ ?].
  - intros j w [Hw _]%He. by apply (rc_next q C HC) in Hw.
  - intros j w [Hw Hne]%He. rewrite lookup_delete_ne by congruence. by apply (rc_node q C HC) in Hw.
  - intros j w [Hw Hne]%He. rewrite lookup_delete_ne; [by apply (rc_hash q C HC)|]. intros E.
    apply (rc_hash q C HC) in Hw as H1. rewrite <- E, (rc_hash q C HC i v Hv) in H1. injection H1 as <-.
    apply Hne. f_equal. by eapply node_unique.
  - intros j w [Hw Hne]%He. rewrite at2_erase2, decide_False; [by apply (rc_addr q C HC)|].
    rewrite <- !surjective_pairing. done.
  - intros k w [Hk Hw]%lookup_delete_Some. apply (rc_cur q C HC) in Hw as (Ek & Hg & j & Hj). split; [done|].
    split; [done|]. exists j. apply He. split; congruence.
  - intros h j [Hh Hj]%lookup_delete_Some. apply (rc_byHash q C HC) in Hj as (w & Hw & <-). exists w. split; [|done].
    apply He. split; [done|]. intros E. apply Hh. apply (rc_node q C HC) in Hw, Hv. congruence.
  - intros a n. rewrite at2_erase2. rewrite <- surjective_pairing. case_decide as E; [by intros []|].
    intros Hs%(rc_byAddr q C HC). by rewrite lookup_delete_ne.
  - apply erase2_nonempty, (rc_nonempty q C HC).
  - apply (rc_node q C HC) in Hv as Hk. pose proof (length_removed q C i v HC Hv) as Hl.
    rewrite map_size_delete, Hk. rewrite (rc_size q C HC) in Hl. lia.
Qed.

(** ** The loops that enforce the limits *)

(** The fields that the operations on the pending transactions leave alone *)
Definition restC (q : TransactionQueue) :=
  (q_dropped q, q_future q, q_futureSize q, q_limit q, q_futureLimit q, q_unverified q, q_events q).
(** The fields that the operations on the waiting transactions leave alone *)
Definition restF (q : TransactionQueue) :=
  (q_known q, q_dropped q, q_current q, q_currentByHash q, q_byAddress q, q_limit q, q_futureLimit q, q_unverified q,
   q_next q, q_events q).

Lemma RepC_restF q q' C : restF q' = restF q -> RepC q C -> RepC q' C.
Proof. intros [=]. by apply RepC_frame. Qed.
Lemma RepF_restC q q' F : restC q' = restC q -> RepF q F -> RepF q' F.
Proof. intros [=]. by apply RepF_frame. Qed.

(** The pending transactions beyond the limit are dropped, from the end. *)
Lemma evictCurrent_ok fuel : forall q C,
  RepC q C -> 0 <= q_limit q -> sizeZ (q_current q) <= Z.of_nat fuel + q_limit q ->
  exists q' C', evictCurrent sha3 recover fuel q = (Ok tt, q') /\ RepC q' C' /\ C' ⊆ C /\ restC q' = restC q /\
    q_current q' = take (Z.to_nat (q_limit q)) (q_current q) /\
    forall h, h ∈ q_known q' <->
      h ∈ q_known q /\ forall k v, C !! k = Some v -> C' !! k = None -> vt_hash v <> h.
Proof.
  induction fuel as [|fuel IH]; intros q C HC H0l Hl; cbn [evictCurrent]; trun.
  all: destruct (Z.ltb_spec (q_limit q) (sizeZ (q_current q))) as [Hlt|Hge]; [try lia|].
  1, 3: exists q, C; unfold sizeZ in Hge; rewrite take_ge by lia; split_and!; try done; intros h; split; [|by intros []]; intros; split; [done|congruence].
  destruct (last (q_current q)) as [[i v]|] eqn:El; [|apply last_None in El; rewrite El, sizeZ_nil in Hlt; lia].
  cbn [or_throw]. trun. apply last_Some in El as [l El]. cbn [snd].
  assert (Hv : (i, v) ∈ q_current q) by (rewrite El; set_solver).
  rewrite (tbind _ _ _ _ _ (remove_ok q C i v HC Hv)).
  assert (Ec : q_current (removed i v q) = l).
  { unfold removed. qfields. rewrite (filter_node q C l i v [] HC El). by rewrite app_nil_r. }
  rewrite El, sizeZ_app, sizeZ_cons, sizeZ_nil in Hlt, Hl.
  destruct (IH (removed i v q) (delete (key v) C)) as (q' & C' & E & HC' & Hsub & Hr & Hcur & Hk).
  { by apply RepC_remove. } { done. } { rewrite Ec. change (q_limit (removed i v q)) with (q_limit q). lia. }
  exists q', C'. rewrite E. change (q_limit (removed i v q)) with (q_limit q) in *. rewrite Ec in *.
  unfold sizeZ in Hlt. rewrite El, take_app_le by lia.
  split_and!; try done.
  - etransitivity; [exact Hsub|apply delete_subseteq].
  - intros h. rewrite Hk. unfold removed. qfields. rewrite elem_of_difference, elem_of_singleton.
    pose proof (rc_node q C HC i v Hv) as Hkv.
    assert (HC'v : C' !! key v = None).
    { destruct (C' !! key v) eqn:Ev; [|done]. apply (lookup_weaken _ _ _ _ Ev) in Hsub. by rewrite lookup_delete_eq in Hsub. }
    split.
    + intros [[Hkn Hne] Hall]. split; [done|]. intros k w Hw Hw'. destruct (decide (k = key v)) as [->|Hne']; [congruence|].
      apply (Hall k); [by rewrite lookup_delete_ne|done].
    + intros [Hkn Hall]. split; [split; [done|by intros ->; apply (Hall (key v) v)]|].
      intros k w [_ Hw]%lookup_delete_Some. by apply Hall.
Qed.

(** The waiting transactions beyond the limit are dropped, in no special order. *)
Lemma evictFuture_ok fuel : forall q F,
  RepF q F -> 0 <= q_futureLimit q -> q_futureSize q < 2 ^ 32 -> q_futureSize q <= Z.of_nat fuel + q_futureLimit q ->
  exists q' F', evictFuture fuel q = (Ok tt, q') /\ RepF q' F' /\ F' ⊆ F /\ restF q' = restF q /\
    Z.of_nat (size F') = Z.min (Z.of_nat (size F)) (q_futureLimit q).
Proof.
  induction fuel as [|fuel IH]; intros q F HF H0l Hw Hl; cbn [evictFuture]; trun.
  all: pose proof (rf_size q F HF) as Hsz.
  all: destruct (Z.ltb_spec (q_futureLimit q) (q_futureSize q)) as [Hlt|Hge]; [try lia|].
  1, 3: exists q, F; split_and!; try done; lia.
  assert (Hne : q_future q <> ∅).
  { intros E. assert (F = ∅) as ->; [|rewrite map_size_empty in Hsz; lia]. apply map_empty. intros [a n].
    rewrite <- (rf_at q F HF). unfold at2. rewrite E, lookup_empty. done. }
  destruct (begin_ok (q_future q) Hne) as (a & Ea & m & Em). rewrite Ea. cbn [or_throw]. trun.
  destruct (lastKey_nonempty m) as (n & En & v & Hv); [by eapply rf_nonempty|]. rewrite Em. cbn [default from_option id].
  rewrite En. cbn [or_throw]. trun.
  assert (HFv : F !! (a, n) = Some v) by (rewrite <- (rf_at q F HF); apply at2_Some; eauto).
  pose proof (map_size_delete (a, n) F) as Hd. rewrite HFv in Hd.
  assert (size F <> 0%nat) by (intros E; apply map_size_empty_iff in E; by rewrite E, lookup_empty in HFv).
  match goal with |- context [evictFuture fuel ?q1] => set (q1' := q1) end.
  assert (Hfs : u32 (q_futureSize q - 1) = q_futureSize q - 1) by (apply wrap_id; split; lia).
  destruct (IH q1' (delete (a, n) F)) as (q' & F' & E & HF' & Hsub & Hr & Hs).
  - split; unfold q1'; qfields.
    + intros a' n'. rewrite at2_erase2, (rf_at q F HF). case_decide as Ek.
      * rewrite Ek. by rewrite lookup_delete_eq.
      * by rewrite lookup_delete_ne by congruence.
    + apply erase2_nonempty, (rf_nonempty q F HF).
    + intros k w [_ Hk]%lookup_delete_Some. by apply (rf_good q F HF).
    + lia.
  - done.
  - unfold q1'. qfields. lia.
  - unfold q1'. qfields. lia.
  - exists q', F'. rewrite E. split_and!; try done.
    + etransitivity; [exact Hsub|apply delete_subseteq].
    + rewrite Hs. unfold q1'. qfields. lia.
Qed.

(** ** Moving waiting transactions to the pending ones *)

Definition restP (q : TransactionQueue) :=
  (q_known q, q_dropped q, q_limit q, q_futureLimit q, q_unverified q, q_events q).

(** Waiting transactions that can be entered one after the other *)
Definition enterable (q : TransactionQueue) (C : pool) (a : Address) (l : list (Z * VerifiedTransaction)) : Prop :=
  (forall k v, (k, v) ∈ l -> key v = (a, k) /\ goodV v /\ C !! (a, k) = None /\ q_currentByHash q !! vt_hash v = None) /\
  (forall k1 v1 k2 v2, (k1, v1) ∈ l -> (k2, v2) ∈ l -> vt_hash v1 = vt_hash v2 -> k1 = k2).

Definition movedOne (a : Address) (k : Z) (v : VerifiedTransaction) (l : list Node) (q : TransactionQueue) : TransactionQueue :=
  let q1 := set_future (alter (fun m => <[k := moved v]> m) a (q_future q)) (q_futureSize q) q in
  let q2 := set_byHash (<[vt_hash v := q_next q]> (q_currentByHash q)) (entered a v l q1) in
  set_future (q_future q2) (u32 (q_futureSize q2 - 1)) q2.

Lemma promote_step q C a k v l' nonce :
  RepC q C -> key v = (a, k) -> goodV v -> tx_nonce (vt_tx v) = nonce -> C !! (a, k) = None -> q_currentByHash q !! vt_hash v = None ->
  exists l, promote sha3 recover a ((k, v) :: l') nonce q
    = (ks ← promote sha3 recover a l' (u256 (nonce + 1)); mret (k :: ks)) (movedOne a k v l q) /\
    RepC (movedOne a k v l q) (<[(a, k) := v]> C).
Proof.
  intros HC Hk Hg Hn HCk Hh. rewrite <- Hk in *. assert (Ha : a = (key v).1) by (by rewrite Hk). subst a.
  cbn [promote]. rewrite Hn, Z.eqb_refl. trun.
  match goal with |- context [(enter _ _ _ v ≫= _) ?q1] => set (q1' := q1) end.
  assert (HC1 : RepC q1' C) by (by apply (RepC_frame q)).
  destruct (enter_ok q1' C v HC1 Hg) as (l1 & l2 & El & Ee). exists (l1 ++ (q_next q, v) :: l2).
  rewrite (tbind _ _ _ _ _ Ee). trun. split; [done|].
  eapply RepC_frame; [..|exact (RepC_enter q1' C v l1 l2 HC1 Hg HCk Hh El)]; done.
Qed.

Lemma promote_ok a l : forall q C nonce m,
  RepC q C -> q_future q !! a = Some m -> StronglySorted (fun x y => x.1 < y.1) l ->
  (forall k v, (k, v) ∈ l -> nonce <= k) -> enterable q C a l -> 0 <= nonce ->
  Z.of_nat (length l) <= q_futureSize q < 2 ^ 32 ->
  exists q' C' taken rest m', l = taken ++ rest /\ promote sha3 recover a l nonce q = (Ok taken.*1, q') /\
    taken.*1 = seqZ nonce (Z.of_nat (length taken)) /\ (forall v, (nonce + Z.of_nat (length taken), v) ∉ l) /\
    RepC q' C' /\ (forall k v, C' !! k = Some v <-> C !! k = Some v \/ exists n, k = (a, n) /\ (n, v) ∈ taken) /\
    q_futureSize q' = q_futureSize q - Z.of_nat (length taken) /\
    q_future q' !! a = Some m' /\ (forall k, k ∉ taken.*1 -> m' !! k = m !! k) /\
    (forall b, b <> a -> q_future q' !! b = q_future q !! b) /\ restP q' = restP q.
Proof.
  induction l as [|[k v] l IH]; intros q C nonce m HC Hm Hs Hge [Hen Hdis] H0n Hfs.
  { exists q, C, [], [], m. split_and!; try done; [intros ? []%elem_of_nil|set_solver|cbn; lia]. }
  apply StronglySorted_inv in Hs as [Hs Hfirst]. rewrite list.Forall_forall in Hfirst. cbn [fst] in Hfirst.
  destruct (Hen k v) as (Hk & Hg & HCk & Hh); [by left|].
  assert (Hnk : tx_nonce (vt_tx v) = k) by (by injection Hk).
  destruct (decide (k = nonce)) as [->|Hne].
  2:{ exists q, C, [], ((k, v) :: l), m. cbn [promote]. rewrite Hnk.
      assert (Hlt : nonce < k) by (specialize (Hge k v ltac:(left)); lia).
      rewrite (proj2 (Z.eqb_neq k nonce)) by done. split_and!; try done; [|set_solver|cbn; lia].
      intros w [[= ?]|Hw]%elem_of_cons; cbn in *; [lia|]. specialize (Hfirst _ Hw). cbn in Hfirst. lia. }
  destruct (promote_step q C a nonce v l nonce) as (l0 & Ep & HC1); [done..|]. rewrite Ep.
  set (q1 := movedOne a nonce v l0 q) in *.
  assert (Hfs1 : q_futureSize q1 = q_futureSize q - 1).
  { unfold q1, movedOne. qfields. apply wrap_id. cbn [length] in Hfs. split; lia. }
  assert (Hm1 : q_future q1 !! a = Some (<[nonce := moved v]> m)).
  { unfold q1, movedOne, entered. qfields. by rewrite lookup_alter_eq, Hm. }
  assert (Hen1 : enterable q1 (<[(a, nonce) := v]> C) a l).
  { split; [|intros; eapply Hdis; [right..|]; done]. intros k' v' Hv'. pose proof (Hfirst _ Hv') as Hlt. cbn in Hlt.
    destruct (Hen k' v') as (? & ? & ? & ?); [by right|]. rewrite lookup_insert_ne by (intros [= ?]; lia). split_and!; try done.
    unfold q1, movedOne, entered. qfields. rewrite lookup_insert_ne; [done|]. intros E.
    specialize (Hdis nonce v k' v' ltac:(left) ltac:(by right) E). lia. }
  destruct l as [|[k' v'] l].
  { cbn [promote]. trun. exists q1, (<[(a, nonce) := v]> C), [(nonce, v)], [], (<[nonce := moved v]> m).
    cbn [length Z.of_nat fmap list_fmap fst] in *. split_and!; try done.
    - intros w [[=]|[]%elem_of_nil]%elem_of_cons. lia.
    - intros k w. rewrite lookup_insert_Some. set_solver.
    - intros k Hk'. rewrite lookup_insert_ne by set_solver. done.
    - intros b Hb. unfold q1, movedOne, entered. qfields. by rewrite lookup_alter_ne. }
  assert (Hu : u256 (nonce + 1) = nonce + 1).
  { pose proof (Hfirst (k', v') ltac:(left)) as Hlt. cbn in Hlt.
    destruct (Hen k' v') as (Hkk & [[_ [_ Hf]] _] & _); [right; left|].
    assert (tx_nonce (vt_tx v') = k') by (by injection Hkk). apply wrap_id. split; lia. }
  rewrite Hu.
  destruct (IH q1 (<[(a, nonce) := v]> C) (nonce + 1) (<[nonce := moved v]> m))
    as (q' & C' & taken & rest & m' & El & Er & Hseq & Hend & HC' & Hlk & Hsz & Hm' & Hsame & Hoth & Hrest); try done.
  { intros k2 v2 H2. specialize (Hfirst _ H2). cbn in Hfirst. lia. }
  { lia. } { cbn [length] in *. lia. }
  exists q', C', ((nonce, v) :: taken), rest, m'. rewrite (tbind _ _ _ _ _ Er), El.
  cbn [length fmap list_fmap fst] in *. split_and!; try done.
  - rewrite Nat2Z.inj_succ, seqZ_cons by lia. rewrite Z.pred_succ. by rewrite Hseq at 1.
  - intros w. rewrite <- El. intros [[=]|Hw]%elem_of_cons; [lia|]. apply (Hend w).
    replace (nonce + 1 + Z.of_nat (length taken)) with (nonce + Z.of_nat (S (length taken))) by lia. done.
  - intros k w. rewrite Hlk, lookup_insert_Some. set_solver.
  - lia.
  - intros k Hk'. rewrite Hsame by set_solver. by rewrite lookup_insert_ne by set_solver.
  - intros b Hb. rewrite Hoth by done. unfold q1, movedOne, entered. qfields. by rewrite lookup_alter_ne.
Qed.

(** The waiting transactions of [a] with consecutive nonces from [n] on are [c]. *)
Definition runs (a : Address) (n c : Z) (F : pool) : Prop :=
  0 <= c /\ (forall m, n <= m < n + c -> is_Some (F !! (a, m))) /\ F !! (a, n + c) = None.
Definition inRun (a : Address) (n c : Z) (k : Address * Z) : Prop := k.1 = a /\ n <= k.2 < n + c.
#[export] Instance inRun_dec a n c k : Decision (inRun a n c k).
Proof. unfold inRun. apply _. Defined.
Definition ready (a : Address) (n c : Z) (F : pool) : pool := filter (fun x => inRun a n c x.1) F.
Definition remain (a : Address) (n c : Z) (F : pool) : pool := filter (fun x => ~ inRun a n c x.1) F.

Lemma inRun_0 a n k : ~ inRun a n 0 k.
Proof. unfold inRun. lia. Qed.

Lemma ready_0 a n F : ready a n 0 F = ∅.
Proof. apply map_empty. intros k. apply map_lookup_filter_None. right. intros v _ Hk. by apply inRun_0 in Hk. Qed.

Lemma remain_0 a n F : remain a n 0 F = F.
Proof. apply map_filter_id. intros k v _. apply inRun_0. Qed.

Lemma remain_subseteq a n c F : remain a n c F ⊆ F.
Proof. apply map_filter_subseteq. Qed.

Lemma lookup_ready a n c F k : ready a n c F !! k = if decide (inRun a n c k) then F !! k else None.
Proof.
  unfold ready. rewrite map_lookup_filter. destruct (F !! k) as [v|]; cbn; [|by case_decide].
  repeat (case_guard || case_decide); done.
Qed.

Lemma lookup_remain a n c F k : remain a n c F !! k = if decide (inRun a n c k) then None else F !! k.
Proof.
  unfold remain. rewrite map_lookup_filter. destruct (F !! k) as [v|]; cbn; [|by case_decide].
  repeat (case_guard || case_decide); done.
Qed.

Lemma lookup_foldr_delete {A} (m : gmap Z A) ks k : foldr delete m ks !! k = if decide (k ∈ ks) then None else m !! k.
Proof.
  induction ks as [|k' ks IH]; cbn [foldr]; [by rewrite decide_False by apply not_elem_of_nil|].
  destruct (decide (k = k')) as [->|Hne].
  - rewrite lookup_delete_eq, decide_True by left. done.
  - rewrite lookup_delete_ne by done. rewrite IH. repeat case_decide; set_solver.
Qed.

(** Counting a list of entries of a map *)
Lemma size_without (a : Address) (F : pool) (l : list (Z * VerifiedTransaction)) (F' : pool) :
  NoDup l.*1 -> (forall k v, (k, v) ∈ l -> F !! (a, k) = Some v) ->
  (forall k : Address * Z, F' !! k = if decide (k.1 = a /\ k.2 ∈ l.*1) then None else F !! k) ->
  (size F' + length l = size F)%nat.
Proof.
  revert F. induction l as [|[k v] l IH]; intros F Hd Hin HF'.
  - cbn. replace F' with F; [lia|]. apply map_eq. intros k. rewrite HF', decide_False; [done|]. by intros [_ []%elem_of_nil].
  - cbn [fmap list_fmap fst] in Hd. apply list.NoDup_cons in Hd as [Hk Hd].
    pose proof (Hin k v ltac:(left)) as Hkv. pose proof (map_size_delete_Some (a, k) F ltac:(by eexists)) as Hs.
    assert (size F <> 0%nat) by (intros E; apply map_size_empty_iff in E; by rewrite E, lookup_empty in Hkv).
    rewrite <- (IH (delete (a, k) F)) in Hs; [cbn; lia|done|..].
    + intros k' v' Hv'. rewrite lookup_delete_ne; [apply Hin; by right|]. intros [= ->]. apply Hk.
      by apply (list_elem_of_fmap_2 fst l (k', v')).
    + intros [b k']. rewrite HF'. cbn [fst snd fmap list_fmap]. rewrite lookup_delete.
      repeat case_decide; try done; simplify_eq; set_solver.
Qed.

Lemma size_entries_le (a : Address) (F : pool) (l : list (Z * VerifiedTransaction)) :
  NoDup l.*1 -> (forall k v, (k, v) ∈ l -> F !! (a, k) = Some v) -> (length l <= size F)%nat.
Proof.
  intros Hd Hin. rewrite <- (size_without a F l (filter (fun x => ~ (x.1.1 = a /\ x.1.2 ∈ l.*1)) F) Hd Hin); [lia|].
  intros k. rewrite map_lookup_filter. destruct (F !! k) as [v|]; cbn; [|by case_decide].
  case_guard; repeat case_decide; naive_solver.
Qed.

Lemma sorted_NoDup {A} (l : list (Z * A)) : StronglySorted (fun x y => x.1 < y.1) l -> NoDup l.*1.
Proof.
  induction 1 as [|x l Hs IH Hx]; cbn; [constructor|]. apply NoDup_cons_2; [|done].
  intros (y & Ey & Hy)%list_elem_of_fmap. rewrite list.Forall_forall in Hx. specialize (Hx y Hy). lia.
Qed.

(** What [makeCurrent] and the operations that call it leave alone *)
Definition restM (q : TransactionQueue) := (q_dropped q, q_limit q, q_futureLimit q, q_unverified q).

(** No two transactions have one hash. *)
Definition distinct (U : pool) : Prop :=
  forall k1 v1 k2 v2, U !! k1 = Some v1 -> U !! k2 = Some v2 -> vt_hash v1 = vt_hash v2 -> k1 = k2.

Lemma RepF_lookup q F a m n v : RepF q F -> q_future q !! a = Some m -> m !! n = Some v <-> F !! (a, n) = Some v.
Proof. intros HF Hm. rewrite <- (rf_at q F HF). unfold at2. by rewrite Hm. Qed.

Lemma byHash_future q C F k v :
  RepC q C -> C ##ₘ F -> distinct (C ∪ F) -> F !! k = Some v -> q_currentByHash q !! vt_hash v = None.
Proof.
  intros HC Hd Hx Hv. destruct (q_currentByHash q !! vt_hash v) as [i|] eqn:E; [|done]. exfalso.
  apply (rc_byHash q C HC) in E as (w & Hw & Eh). apply (rc_node q C HC) in Hw.
  assert (key w = k) as <-.
  { eapply Hx; [by apply lookup_union_Some_l|by apply lookup_union_Some_r|done]. }
  by rewrite (map_disjoint_Some_l _ _ _ _ Hd Hw) in Hv.
Qed.

Lemma enterable_lower_bound q C F a m n :
  RepC q C -> RepF q F -> C ##ₘ F -> distinct (C ∪ F) -> q_future q !! a = Some m -> enterable q C a (lower_bound n m).
Proof.
  intros HC HF Hd Hx Hm. split.
  - intros k v [_ Hk]%elem_of_lower_bound. apply (RepF_lookup q F a m k v HF Hm) in Hk.
    destruct (rf_good q F HF _ _ Hk) as [? ?]. split_and!; try done.
    + by eapply map_disjoint_Some_r.
    + by eapply byHash_future.
  - intros k1 v1 k2 v2 [_ H1]%elem_of_lower_bound [_ H2]%elem_of_lower_bound E.
    apply (RepF_lookup q F a m _ _ HF Hm) in H1, H2.
    assert ((a, k1) = (a, k2)) as [= ->]; [|done].
    eapply Hx; [by apply lookup_union_Some_r..|done].
Qed.

(** The part of [makeCurrent] before the limit is enforced *)
Definition makeReady (t : Transaction) : TQM bool :=
  q ← gets id;
  match q_future q !! from_ t with
  | None => mret false
  | Some fs =>
      match fs !! u256 (tx_nonce t + 1) with
      | None => mret false
      | Some _ =>
          ks ← promote sha3 recover (from_ t) (lower_bound (u256 (tx_nonce t + 1)) fs) (u256 (tx_nonce t + 1));
          _ ← modify (fun q => set_future (eraseKeys (from_ t) ks (q_future q)) (q_futureSize q) q);
          mret true
      end
  end.

Lemma RepF_eraseKeys q q1 F a m m' n c :
  RepF q F -> q_future q !! a = Some m -> q_future q1 !! a = Some m' ->
  (forall k, k ∉ seqZ n c -> m' !! k = m !! k) -> (forall b, b <> a -> q_future q1 !! b = q_future q !! b) ->
  q_futureSize q1 = Z.of_nat (size (remain a n c F)) ->
  RepF (set_future (eraseKeys a (seqZ n c) (q_future q1)) (q_futureSize q1) q1) (remain a n c F).
Proof.
  intros HF Hm Hm' Hsame Hoth Hsz. split; qfields; [..|done].
  - intros b k. unfold eraseKeys. rewrite Hm'. rewrite lookup_remain.
    assert (El : at2 (if decide (foldr delete m' (seqZ n c) = ∅) then delete a (q_future q1)
              else <[a:=foldr delete m' (seqZ n c)]> (q_future q1)) b k
            = if decide (b = a) then foldr delete m' (seqZ n c) !! k else at2 (q_future q) b k).
    { case_decide as Em; [rewrite at2_delete, Em, lookup_empty|rewrite at2_insert].
      all: case_decide; [done|]. all: unfold at2; by rewrite Hoth. }
    rewrite El. destruct (decide (b = a)) as [->|Eb].
    + rewrite lookup_foldr_delete. destruct (decide (k ∈ seqZ n c)) as [Hk|Hk].
      * rewrite decide_True; [done|]. split; [done|]. by apply elem_of_seqZ in Hk.
      * rewrite decide_False; [|intros [_ Hr]; apply Hk; by apply elem_of_seqZ].
        rewrite Hsame by done. rewrite <- (rf_at q F HF). unfold at2. by rewrite Hm.
    + rewrite decide_False by (by intros [? _]). apply (rf_at q F HF).
  - intros b mb. unfold eraseKeys. rewrite Hm'. case_decide as Em.
    + intros [Hb Hmb]%lookup_delete_Some. rewrite Hoth in Hmb by done. by eapply rf_nonempty.
    + intros [[<- <-]|[Hb Hmb]]%lookup_insert_Some; [done|]. rewrite Hoth in Hmb by done. by eapply rf_nonempty.
  - intros k v. rewrite lookup_remain. case_decide; [done|]. apply (rf_good q F HF).
Qed.

Lemma makeReady_none q C F t :
  RepC q C -> RepF q F -> F !! (from_ t, u256 (tx_nonce t + 1)) = None -> makeReady t q = (Ok false, q).
Proof.
  intros HC HF Hn. unfold makeReady. trun. rewrite <- (rf_at q F HF) in Hn. unfold at2 in Hn.
  destruct (q_future q !! from_ t) as [m|]; [|done]. cbn in Hn. by rewrite Hn.
Qed.

(** The consecutive waiting transactions become pending. *)
Lemma makeReady_ok q C F t :
  RepC q C -> RepF q F -> C ##ₘ F -> distinct (C ∪ F) -> q_futureSize q < 2 ^ 32 ->
  exists q' c, runs (from_ t) (u256 (tx_nonce t + 1)) c F /\ makeReady t q = (Ok (bool_decide (c <> 0)), q') /\
    RepC q' (C ∪ ready (from_ t) (u256 (tx_nonce t + 1)) c F) /\ RepF q' (remain (from_ t) (u256 (tx_nonce t + 1)) c F) /\
    restP q' = restP q.
Proof.
  intros HC HF Hd Hx Hw. set (n := u256 (tx_nonce t + 1)). set (a := from_ t).
  destruct (F !! (a, n)) as [v0|] eqn:E0.
  2:{ exists q, 0. rewrite (makeReady_none q C F t HC HF E0), ready_0, remain_0, map_union_empty. split_and!; try done.
      split_and!; [lia|lia|by rewrite Z.add_0_r]. }
  pose proof E0 as E1. rewrite <- (rf_at q F HF) in E1. apply at2_Some in E1 as (m & Em & Ev).
  set (l := lower_bound n m).
  assert (HlF : forall k v, (k, v) ∈ l <-> n <= k /\ F !! (a, k) = Some v).
  { intros k v. unfold l. by rewrite elem_of_lower_bound, (RepF_lookup q F a m k v HF Em). }
  assert (Hls : StronglySorted (fun x y => x.1 < y.1) l) by apply lower_bound_sorted.
  assert (Hll : (length l <= size F)%nat).
  { apply (size_entries_le a); [by apply sorted_NoDup|]. intros k v Hk. by apply HlF in Hk as [_ ?]. }
  destruct (promote_ok a l q C n m) as (q1 & C' & taken & rest & m' & El & Er & Hseq & Hend & HC' & Hlk & Hsz & Hm' & Hsame & Hoth & Hrest);
    try done.
  { intros k v Hk. by apply HlF in Hk as [? _]. } { by eapply enterable_lower_bound. }
  { apply wrap_nonneg. lia. } { rewrite (rf_size q F HF) in *. lia. }
  set (c := Z.of_nat (length taken)) in *.
  assert (Htk : forall k v, (k, v) ∈ taken <-> F !! (a, k) = Some v /\ n <= k < n + c).
  { intros k v. split.
    - intros Hk. split; [apply HlF; rewrite El; set_solver|]. apply elem_of_seqZ. rewrite <- Hseq.
      by apply (list_elem_of_fmap_2 fst taken (k, v)).
    - intros [Hk Hr]. apply elem_of_seqZ in Hr. rewrite <- Hseq in Hr. apply list_elem_of_fmap in Hr as ([k' v'] & Ek & Hk').
      cbn in Ek. subst k'. assert ((k, v') ∈ l) as [_ H1]%HlF by (rewrite El; set_solver). congruence. }
  assert (Hsize : (size (remain a n c F) + length taken = size F)%nat).
  { apply (size_without a); [rewrite Hseq; apply NoDup_seqZ|by intros k v [? _]%Htk|]. intros [b k]. rewrite lookup_remain.
    rewrite Hseq. unfold inRun. cbn [fst snd]. repeat case_decide; try done; rewrite elem_of_seqZ in *; tauto. }
  exists (set_future (eraseKeys a (seqZ n c) (q_future q1)) (q_futureSize q1) q1), c.
  assert (Hc0 : c <> 0).
  { intros E. rewrite E in Hend. apply (Hend v0). apply HlF. rewrite Z.add_0_r. split; [lia|done]. }
  split_and!.
  - split_and!; [lia| |].
    + intros k Hk. apply elem_of_seqZ in Hk. rewrite <- Hseq in Hk. apply list_elem_of_fmap in Hk as ([k' v] & -> & Hv).
      exists v. by apply Htk in Hv as [? _].
    + destruct (F !! (a, n + c)) as [v|] eqn:E; [|done]. exfalso. apply (Hend v). apply HlF. split; [lia|done].
  - unfold makeReady. trun. fold a. rewrite Em. fold n. rewrite Ev. fold l. rewrite (tbind _ _ _ _ _ Er). trun.
    rewrite bool_decide_eq_true_2 by done. rewrite tret. by rewrite Hseq.
  - eapply RepC_frame; [..|replace (C ∪ ready a n c F) with C'; [exact HC'|]]; try done.
    apply map_eq. intros k. apply option_eq. intros v. rewrite Hlk, lookup_union_Some.
    + rewrite lookup_ready. destruct k as [b k]. unfold inRun. cbn [fst snd]. case_decide as Hr.
      * destruct Hr as [-> Hr]. split; [intros [?|(n' & [= <-] & ?%Htk)]; tauto|]. intros [?|?]; [by left|].
        right. exists k. split; [done|]. by apply Htk.
      * split; [|by intros [?|?]; left]. intros [?|(n' & [= -> <-] & ?%Htk)]; tauto.
    + eapply map_disjoint_weaken_r; [exact Hd|apply map_filter_subseteq].
  - eapply (RepF_eraseKeys q q1 F a m m' n c); try done.
    + intros k Hk. apply Hsame. by rewrite Hseq.
    + rewrite Hsz, (rf_size q F HF). assert (c = Z.of_nat (length taken)) by done. lia.
  - done.
Qed.

Lemma makeCurrent_unfold t q :
  makeCurrent sha3 recover t q
  = (newCurrent ← makeReady t; n ← gets q_futureSize; _ ← evictFuture (Z.to_nat n);
     if newCurrent : bool then emit OnReady else mret tt) q.
Proof. unfold makeCurrent, makeReady. by rewrite tbind_assoc. Qed.

Lemma makeCurrent_ok q C F t :
  RepC q C -> RepF q F -> C ##ₘ F -> distinct (C ∪ F) -> q_futureSize q < 2 ^ 32 -> 0 <= q_futureLimit q ->
  exists q' c F', let F1 := remain (from_ t) (u256 (tx_nonce t + 1)) c F in
    makeCurrent sha3 recover t q = (Ok tt, q') /\ runs (from_ t) (u256 (tx_nonce t + 1)) c F /\
    RepC q' (C ∪ ready (from_ t) (u256 (tx_nonce t + 1)) c F) /\ RepF q' F' /\ F' ⊆ F1 /\
    Z.of_nat (size F') = Z.min (Z.of_nat (size F1)) (q_futureLimit q) /\ restM q' = restM q /\ q_known q' = q_known q.
Proof.
  intros HC HF Hd Hx Hw Hl. destruct (makeReady_ok q C F t HC HF Hd Hx Hw) as (q1 & c & Hr & E1 & HC1 & HF1 & Hrest).
  set (F1 := remain (from_ t) (u256 (tx_nonce t + 1)) c F) in *.
  assert (Hs1 : (size F1 <= size F)%nat) by (apply map_subseteq_size, remain_subseteq).
  injection Hrest as Hk1 Hd1 Hl1 Hf1 Hu1 Hv1.
  destruct (evictFuture_ok (Z.to_nat (q_futureSize q1)) q1 F1) as (q2 & F' & E2 & HF2 & Hsub & Hr2 & Hs2); try done.
  { by rewrite Hf1. }
  { rewrite (rf_size q1 F1 HF1). rewrite (rf_size q F HF) in Hw. lia. }
  { rewrite (rf_size q1 F1 HF1), Hf1. lia. }
  rewrite makeCurrent_unfold, (tbind _ _ _ _ _ E1). trun. rewrite (tbind _ _ _ _ _ E2).
  pose proof (RepC_restF q1 q2 _ Hr2 HC1) as HC2. injection Hr2 as Hk2 Hd2 _ _ _ Hl2 Hf2 Hu2 _ Hv2.
  assert (Hend : forall b q3, (if b : bool then emit OnReady else mret tt) q2 = (Ok tt, q3) ->
            RepC q3 (C ∪ ready (from_ t) (u256 (tx_nonce t + 1)) c F) /\ RepF q3 F' /\ restM q3 = restM q /\ q_known q3 = q_known q).
  { intros [] q3 [= <-]; (split_and!; [by eapply RepC_frame; [..|exact HC2]|by eapply RepF_frame; [..|exact HF2]|..]).
    all: unfold restM; cbn; congruence. }
  destruct (bool_decide (c <> 0)); [destruct (Hend true _ eq_refl) as (? & ? & ? & ?)|destruct (Hend false _ eq_refl) as (? & ? & ? & ?)].
  all: eexists _, c, F'; split_and!; try done; by rewrite <- Hf1.
Qed.

(** ** Importing *)

(** What holds between operations: the indexes are consistent, no transaction is
    both pending and waiting, hashes are distinct and known, and the queue is
    within its limits. *)
Record Valid (q : TransactionQueue) (C F : pool) : Prop := {
  v_C : RepC q C;
  v_F : RepF q F;
  v_disj : C ##ₘ F;
  v_distinct : distinct (C ∪ F);
  v_known k v : (C ∪ F) !! k = Some v -> vt_hash v ∈ q_known q;
  v_bound : Z.of_nat (size C + size F) <= q_limit q + q_futureLimit q;
  v_limits : 0 <= q_limit q /\ 0 <= q_futureLimit q /\ q_limit q + q_futureLimit q < 2 ^ 32
}.

Lemma distinct_subseteq U U' : U' ⊆ U -> distinct U -> distinct U'.
Proof. intros Hs Hd k1 v1 k2 v2 H1 H2. apply Hd; by eapply lookup_weaken. Qed.

Lemma replaceCurrent_ok q C t :
  RepC q C ->
  match C !! keyT t with
  | None => replaceCurrent sha3 recover t q = (Ok true, q)
  | Some v =>
      if tx_gasPrice t <? tx_gasPrice (vt_tx v) then replaceCurrent sha3 recover t q = (Ok false, q)
      else exists i, (i, v) ∈ q_current q /\
        replaceCurrent sha3 recover t q
        = (Ok true, set_events (q_events q ++ [OnReplaced (vt_hash v)]) (removed i v q))
  end.
Proof.
  intros HC. unfold replaceCurrent. trun.
  change (q_byAddress q !! from_ t ≫= fun m => m !! tx_nonce t) with (at2 (q_byAddress q) (keyT t).1 (keyT t).2).
  destruct (C !! keyT t) as [v|] eqn:E.
  - destruct (rc_cur q C HC _ _ E) as (Hk & _ & i & Hi). pose proof (rc_addr q C HC i v Hi) as Ha.
    rewrite Hk in Ha. rewrite Ha. cbn [or_throw]. trun. rewrite (tbind _ _ _ _ _ (deref_ok q C i v HC Hi)).
    destruct (tx_gasPrice t <? _); [done|]. exists i. split; [done|].
    rewrite (tbind _ _ _ _ _ (remove_ok q C i v HC Hi)). done.
  - destruct (at2 (q_byAddress q) (keyT t).1 (keyT t).2) eqn:Ea; [|done]. exfalso.
    destruct (rc_byAddr q C HC (keyT t).1 (keyT t).2) as [w Hw]; [by eexists|]. by rewrite <- surjective_pairing, E in Hw.
Qed.

Lemma replaceFuture_ok q F t :
  RepF q F -> q_futureSize q < 2 ^ 32 ->
  match F !! keyT t with
  | None => replaceFuture sha3 recover t q = (Ok true, q)
  | Some v =>
      if tx_gasPrice t <? tx_gasPrice (vt_tx v) then replaceFuture sha3 recover t q = (Ok false, q)
      else exists q', replaceFuture sha3 recover t q = (Ok true, q') /\ RepF q' (delete (keyT t) F) /\ restF q' = restF q
  end.
Proof.
  intros HF Hw. unfold replaceFuture. trun.
  change (q_future q !! from_ t ≫= fun m => m !! tx_nonce t) with (at2 (q_future q) (keyT t).1 (keyT t).2).
  rewrite (rf_at q F HF), <- surjective_pairing. destruct (F !! keyT t) as [v|] eqn:E; [|done].
  destruct (tx_gasPrice t <? _); [done|]. trun. eexists. split; [done|]. split; [|done].
  pose proof (map_size_delete_Some (keyT t) F ltac:(by eexists)) as Hs. pose proof (rf_size q F HF) as Hz.
  assert (size F <> 0%nat) by (intros E0; apply map_size_empty_iff in E0; by rewrite E0, lookup_empty in E).
  split; qfields.
  - intros a n. rewrite at2_erase2, (rf_at q F HF). unfold keyT. case_decide as Ek.
    + rewrite Ek. by rewrite lookup_delete_eq.
    + by rewrite lookup_delete_ne by congruence.
  - apply erase2_nonempty, (rf_nonempty q F HF).
  - intros k w [_ Hk]%lookup_delete_Some. by apply (rf_good q F HF).
  - rewrite Hs. unfold wrap. rewrite Z.mod_small; lia.
Qed.

Lemma good_verified t : good t -> goodV (verified t).
Proof. by intros. Qed.

Lemma distinct_insert U k v :
  distinct U -> (forall k' w, U !! k' = Some w -> vt_hash w <> vt_hash v) -> distinct (<[k := v]> U).
Proof.
  intros Hd Hf k1 v1 k2 v2 [[<- <-]|[H1 H1']]%lookup_insert_Some [[<- <-]|[H2 H2']]%lookup_insert_Some E; try done.
  - by apply Hf in H2'.
  - by apply Hf in H1'.
  - by eapply Hd.
Qed.

Lemma insertCurrent_ok q C F t :
  RepC q C -> RepF q F -> C ##ₘ F -> distinct (C ∪ F) -> q_futureSize q < 2 ^ 32 -> 0 <= q_futureLimit q ->
  good t -> C !! keyT t = None -> F !! keyT t = None ->
  (forall k v, (C ∪ F) !! k = Some v -> vt_hash v <> tx_sha3 t) ->
  exists q' c F', let n := u256 (tx_nonce t + 1) in let F1 := remain (from_ t) n c F in
    insertCurrent sha3 recover (tx_sha3 t) t q = (Ok tt, q') /\ runs (from_ t) n c F /\
    RepC q' (<[keyT t := verified t]> C ∪ ready (from_ t) n c F) /\ RepF q' F' /\ F' ⊆ F1 /\
    Z.of_nat (size F') = Z.min (Z.of_nat (size F1)) (q_futureLimit q) /\ restM q' = restM q /\
    q_known q' = {[tx_sha3 t]} ∪ q_known q.
Proof.
  intros HC HF Hd Hx Hw Hl Hg HCk HFk Hfresh. pose proof (good_verified t Hg) as Hgv.
  assert (Hh : q_currentByHash q !! tx_sha3 t = None).
  { destruct (q_currentByHash q !! tx_sha3 t) as [i|] eqn:E; [|done]. apply (rc_byHash q C HC) in E as (w & Hi & Ew).
    apply (rc_node q C HC) in Hi. exfalso. eapply Hfresh; [by apply lookup_union_Some_l|done]. }
  destruct (enter_ok q C (verified t) HC Hgv) as (l1 & l2 & El & Ee).
  pose proof (RepC_enter q C (verified t) l1 l2 HC Hgv HCk Hh El) as HC1.
  match type of HC1 with RepC ?x _ => set (q1 := x) in * end. change (key (verified t)) with (keyT t) in *.
  assert (HF1 : RepF q1 F) by (by eapply RepF_frame; [..|exact HF]).
  assert (Hd1 : <[keyT t := verified t]> C ##ₘ F) by (by apply map_disjoint_insert_l).
  assert (Hx1 : distinct (<[keyT t := verified t]> C ∪ F)).
  { rewrite <- insert_union_l. by apply distinct_insert. }
  destruct (makeCurrent_ok q1 _ F t HC1 HF1 Hd1 Hx1 Hw Hl) as (q2 & c & F' & E2 & Hr & HC2 & HF2 & Hsub & Hs & Hm & Hkn).
  exists (set_known ({[tx_sha3 t]} ∪ q_known q2) q2), c, F'. split_and!; try done.
  - unfold insertCurrent. trun. rewrite decide_False by (rewrite Hh; by intros []).
    change (TransactionQueue.from_ sha3 recover t) with (keyT t).1.
    rewrite (tbind _ _ _ _ _ Ee). trun. change (set_byHash _ _) with q1. by rewrite (tbind _ _ _ _ _ E2).
  - by eapply RepC_frame; [..|exact HC2].
  - by eapply RepF_frame; [..|exact HF2].
  - qfields. by rewrite Hkn.
Qed.

(** The prior transaction with the same sender and nonce, if any, pays more and
    stops the import, or is taken out. *)
Definition takenOut (q : TransactionQueue) (C F : pool) (k : Address * Z) (q' : TransactionQueue) : Prop :=
  RepC q' (delete k C) /\ RepF q' (delete k F) /\ restM q' = restM q /\ q_known q' ⊆ q_known q /\
  forall k' v, (delete k C ∪ delete k F) !! k' = Some v -> vt_hash v ∈ q_known q'.

Lemma takenOut_current q C F i v :
  Valid q C F -> (i, v) ∈ q_current q ->
  takenOut q C F (key v) (set_events (q_events q ++ [OnReplaced (vt_hash v)]) (removed i v q)).
Proof.
  intros HV Hi. pose proof (v_C q C F HV) as HC. pose proof (rc_node q C HC i v Hi) as Hk.
  assert (HFk : F !! key v = None) by (eapply map_disjoint_Some_l; [apply HV|done]). split_and!; try done.
  - eapply RepC_frame; [..|exact (RepC_remove q C i v HC Hi)]; done.
  - rewrite delete_id by done. by eapply RepF_frame; [..|apply HV].
  - unfold removed. qfields. set_solver.
  - intros k' w. rewrite <- delete_union. intros [Hne Hw]%lookup_delete_Some. unfold removed. qfields.
    apply elem_of_difference. split; [by eapply v_known|]. intros E%elem_of_singleton. apply Hne.
    eapply (v_distinct q C F HV); [by apply lookup_union_Some_l|done|done].
Qed.

Lemma takenOut_future q C F k v q' :
  Valid q C F -> F !! k = Some v -> RepF q' (delete k F) -> restF q' = restF q -> takenOut q C F k q'.
Proof.
  intros HV Hk HF Hr. assert (HCk : C !! k = None) by (eapply map_disjoint_Some_r; [apply HV|done]).
  unfold takenOut. rewrite (delete_id C k) by done. pose proof (RepC_restF q q' C Hr (v_C q C F HV)) as HC.
  injection Hr as Hkn Hdr _ _ _ Hl Hfl Hu _ _. unfold restM. rewrite Hdr, Hl, Hfl, Hu, Hkn. split_and!; try done.
  intros k' w Hw. eapply (v_known q C F HV). eapply lookup_weaken; [exact Hw|].
  apply map_union_mono_l, delete_subseteq.
Qed.

Lemma takenOut_none q C F k : Valid q C F -> C !! k = None -> F !! k = None -> takenOut q C F k q.
Proof. intros HV HC HF. unfold takenOut. rewrite !delete_id by done. split_and!; try done; apply HV. Qed.

Lemma futureSize_small q C F : Valid q C F -> q_futureSize q < 2 ^ 32.
Proof. intros HV. rewrite (rf_size q F (v_F q C F HV)). destruct HV as [_ _ _ _ _ Hb Hl]. lia. Qed.

Lemma replace_ok q C F t :
  Valid q C F ->
  (exists v, (C ∪ F) !! keyT t = Some v /\ tx_gasPrice t < tx_gasPrice (vt_tx v) /\
     (replaceCurrent sha3 recover t q = (Ok false, q) \/
      replaceCurrent sha3 recover t q = (Ok true, q) /\ replaceFuture sha3 recover t q = (Ok false, q))) \/
  ((forall v, (C ∪ F) !! keyT t = Some v -> tx_gasPrice (vt_tx v) <= tx_gasPrice t) /\
   exists q1 q2, replaceCurrent sha3 recover t q = (Ok true, q1) /\ replaceFuture sha3 recover t q1 = (Ok true, q2) /\
     takenOut q C F (keyT t) q2).
Proof.
  intros HV. pose proof (replaceCurrent_ok q C t (v_C q C F HV)) as H1.
  pose proof (futureSize_small q C F HV) as Hw.
  destruct (C !! keyT t) as [v|] eqn:EC.
  - assert (EF : F !! keyT t = None) by (eapply map_disjoint_Some_l; [apply HV|done]).
    assert (EU : (C ∪ F) !! keyT t = Some v) by (by apply lookup_union_Some_l).
    destruct (Z.ltb_spec (tx_gasPrice t) (tx_gasPrice (vt_tx v))) as [Hlt|Hge]; [left; eauto 10|].
    destruct H1 as (i & Hi & H1). right. split; [intros; by simplify_eq|].
    destruct (rc_cur q C (v_C q C F HV) _ _ EC) as [Ek _]. pose proof (takenOut_current q C F i v HV Hi) as HT.
    rewrite Ek in HT. eexists _, _. split; [done|]. split; [|exact HT].
    match goal with |- _ ?q1 = _ => pose proof (replaceFuture_ok q1 F t) as H2 end.
    rewrite EF in H2. apply H2; [by eapply RepF_frame; [..|apply HV]|done].
  - assert (EU : (C ∪ F) !! keyT t = F !! keyT t) by (by apply lookup_union_r). rewrite EU.
    pose proof (replaceFuture_ok q F t (v_F q C F HV) Hw) as H2.
    destruct (F !! keyT t) as [v|] eqn:EF.
    + destruct (Z.ltb_spec (tx_gasPrice t) (tx_gasPrice (vt_tx v))) as [Hlt|Hge]; [left; eauto 10|].
      destruct H2 as (q2 & H2 & HF & Hr). right. split; [intros; by simplify_eq|]. exists q, q2. split_and!; try done.
      by eapply takenOut_future.
    + right. split; [done|]. exists q, q. split_and!; try done. by apply takenOut_none.
Qed.

(** The effect of a successful import on the two maps: the transaction replaces
    its predecessor and becomes pending together with the waiting transactions
    that follow it; then the limits are enforced. *)
Definition imported (q : TransactionQueue) (C F : pool) (t : Transaction) (q' : TransactionQueue) (C' F' : pool) : Prop :=
  let a := from_ t in
  let n := u256 (tx_nonce t + 1) in
  let F0 := delete (keyT t) F in
  exists c, runs a n c F0 /\
    let C1 := <[keyT t := verified t]> C ∪ ready a n c F0 in
    let F1 := remain a n c F0 in
    C' ⊆ C1 /\ Z.of_nat (size C') = Z.min (Z.of_nat (size C1)) (q_limit q) /\
    F' ⊆ F1 /\ Z.of_nat (size F') = Z.min (Z.of_nat (size F1)) (q_futureLimit q) /\
    Valid q' C' F' /\ q_dropped q' = q_dropped q.

Lemma ready_remain_union (a : Address) (n c : Z) (C F F' : pool) : F' ⊆ remain a n c F -> C ##ₘ F -> C ∪ ready a n c F ##ₘ F'.
Proof.
  intros Hs Hd. apply map_disjoint_spec. intros k v w Hv Hw. apply (lookup_weaken _ _ _ _ Hw) in Hs.
  rewrite lookup_remain in Hs. case_decide as Hr; [done|]. apply lookup_union_Some_raw in Hv as [Hv|[_ Hv]].
  - by rewrite (map_disjoint_Some_l _ _ _ _ Hd Hv) in Hs.
  - rewrite lookup_ready in Hv. by rewrite decide_False in Hv.
Qed.

Lemma ready_union_subseteq (a : Address) (n c : Z) (C F F' : pool) :
  F' ⊆ remain a n c F -> C ##ₘ F -> (C ∪ ready a n c F) ∪ F' ⊆ C ∪ F.
Proof.
  intros Hs Hd. apply map_subseteq_spec. intros k v Hk.
  apply lookup_union_Some_raw in Hk as [[Hk|[_ Hk]]%lookup_union_Some_raw|[_ Hk]].
  - by apply lookup_union_Some_l.
  - apply lookup_union_Some_r; [done|]. rewrite lookup_ready in Hk. by case_decide.
  - apply lookup_union_Some_r; [done|]. apply (lookup_weaken _ _ _ _ Hk) in Hs. eapply lookup_weaken; [exact Hs|].
    apply remain_subseteq.
Qed.

(** The pool with the new transaction in the free place *)
Lemma freed_lookup q C F t q2 k v :
  takenOut q C F (keyT t) q2 -> (<[keyT t := verified t]> C ∪ delete (keyT t) F) !! k = Some v ->
  vt_hash v ∈ {[tx_sha3 t]} ∪ q_known q2.
Proof.
  intros (_ & _ & _ & _ & Hkn). rewrite <- insert_union_l. intros [[_ <-]|[Hne Hw]]%lookup_insert_Some; [set_solver|].
  apply elem_of_union_r, (Hkn k). rewrite <- delete_union, lookup_delete_ne by done.
  eapply lookup_weaken; [exact Hw|]. apply map_union_mono_l, delete_subseteq.
Qed.

Lemma freed_distinct q C F t q2 :
  Valid q C F -> tx_sha3 t ∉ q_known q -> takenOut q C F (keyT t) q2 ->
  distinct (<[keyT t := verified t]> C ∪ delete (keyT t) F).
Proof.
  intros HV Hnew (_ & _ & _ & Hsub & Hkn).
  rewrite <- insert_union_l, <- insert_delete_eq, delete_union, delete_delete_eq. apply distinct_insert.
  - rewrite <- delete_union. eapply distinct_subseteq; [apply delete_subseteq|apply HV].
  - intros k' w Hw E. apply Hnew. change (tx_sha3 t) with (vt_hash (verified t)). rewrite <- E. apply Hsub. by eapply Hkn.
Qed.

(** [insertCurrent] and the loop behind it, once the place is free *)
Lemma import_free q C F t q2 :
  Valid q C F -> good t -> tx_sha3 t ∉ q_known q -> takenOut q C F (keyT t) q2 ->
  exists q' C' F', (_ ← insertCurrent sha3 recover (tx_sha3 t) t; n ← gets (fun q => length (q_current q));
    _ ← evictCurrent sha3 recover n; _ ← emit OnReady; mret Success) q2 = (Ok Success, q') /\ imported q C F t q' C' F'.
Proof.
  intros HV Hg Hnew HT. destruct (id HT) as (HC & HF & Hr & Hsub & Hkn). pose proof (v_limits q C F HV) as Hlim.
  set (k := keyT t) in *. set (F0 := delete k F) in *.
  assert (HdU : (delete k C) ∪ F0 ⊆ C ∪ F) by (unfold F0; rewrite <- delete_union; apply delete_subseteq).
  assert (Hdis : delete k C ##ₘ F0).
  { eapply map_disjoint_weaken; [apply HV|apply delete_subseteq..]. }
  assert (Hsz : q_futureSize q2 < 2 ^ 32).
  { rewrite (rf_size q2 F0 HF). pose proof (map_subseteq_size F0 F (delete_subseteq F k)).
    pose proof (v_bound q C F HV). lia. }
  injection Hr as Hdr Hl2 Hfl2 Hu2.
  destruct (insertCurrent_ok q2 (delete k C) F0 t) as (q3 & c & F' & E3 & Hrun & HC3 & HF3 & HsF & HzF & Hr3 & Hk3); try done.
  { eapply distinct_subseteq; [exact HdU|apply HV]. } { rewrite Hfl2. lia. } { apply lookup_delete_eq. } { apply lookup_delete_eq. }
  { intros k' v Hv E. apply Hnew. rewrite <- E. apply Hsub. by eapply Hkn. }
  rewrite insert_delete_eq in HC3. fold k in HC3.
  set (n := u256 (tx_nonce t + 1)) in *. set (C1 := <[k := verified t]> C ∪ ready (from_ t) n c F0) in *.
  injection Hr3 as Hdr3 Hl3 Hfl3 Hu3.
  destruct (evictCurrent_ok (length (q_current q3)) q3 C1 HC3) as (q4 & C' & E4 & HC4 & HsC & Hr4 & Hcur & Hk4).
  { rewrite Hl3, Hl2. lia. } { unfold sizeZ. rewrite Hl3, Hl2. lia. }
  pose proof (RepF_restC q3 q4 F' Hr4 HF3) as HF4. injection Hr4 as Hdr4 _ _ Hl4 Hfl4 _ _.
  exists (set_events (q_events q4 ++ [OnReady]) q4), C', F'. split.
  { rewrite (tbind _ _ _ _ _ E3). trun. by rewrite (tbind _ _ _ _ _ E4). }
  assert (HzC : Z.of_nat (size C') = Z.min (Z.of_nat (size C1)) (q_limit q)).
  { rewrite <- (rc_size q4 C' HC4), <- (rc_size q3 C1 HC3), Hcur, length_take, Hl3, Hl2. lia. }
  assert (Hins : <[k := verified t]> C ##ₘ F0).
  { apply map_disjoint_insert_l. split; [apply lookup_delete_eq|]. eapply map_disjoint_weaken_r; [apply HV|apply delete_subseteq]. }
  assert (Hsub' : C1 ∪ F' ⊆ <[k := verified t]> C ∪ F0) by (by apply ready_union_subseteq).
  assert (Hdis' : C1 ##ₘ F') by (by apply ready_remain_union).
  assert (Hdist : distinct (C1 ∪ F')) by (eapply distinct_subseteq; [exact Hsub'|by eapply freed_distinct]).
  exists c. split; [done|]. cbv zeta. split_and!; try done.
  - by rewrite <- Hfl2.
  - split; qfields.
    + by eapply RepC_frame; [..|exact HC4].
    + by eapply RepF_frame; [..|exact HF4].
    + by eapply map_disjoint_weaken_l.
    + eapply distinct_subseteq; [|exact Hdist]. by apply map_union_mono_r.
    + intros k' v Hv. apply Hk4. assert (HvU : (C1 ∪ F') !! k' = Some v).
      { eapply lookup_weaken; [exact Hv|]. by apply map_union_mono_r. }
      split.
      * rewrite Hk3. eapply freed_lookup; [done|]. by eapply lookup_weaken.
      * intros k2 w Hw Hnone E. assert (k2 = k').
        { eapply Hdist; [by apply lookup_union_Some_l|exact HvU|done]. }
        subst k2. apply lookup_union_Some_raw in Hv as [Hv|[_ Hv]]; [congruence|].
        by rewrite (map_disjoint_Some_l _ _ _ _ Hdis' Hw) in Hv.
    + rewrite Hl4, Hl3, Hl2, Hfl4, Hfl3, Hfl2. rewrite Hfl2 in HzF. lia.
    + rewrite Hl4, Hl3, Hl2, Hfl4, Hfl3, Hfl2. done.
  - cbn. congruence.
Qed.

Lemma manage_ok q C F t :
  Valid q C F -> good t -> tx_sha3 t ∉ q_known q ->
  exists r q', manageImport sha3 recover (tx_sha3 t) t q = (Ok r, q') /\
    ((r = OverbidGasPrice /\ (exists v, (C ∪ F) !! keyT t = Some v /\ tx_gasPrice t < tx_gasPrice (vt_tx v)) /\ q' = q) \/
     (r = Success /\ (forall v, (C ∪ F) !! keyT t = Some v -> tx_gasPrice (vt_tx v) <= tx_gasPrice t) /\
      exists C' F', imported q C F t q' C' F')).
Proof.
  intros HV Hg Hnew. unfold manageImport, catch_. rewrite bool_decide_eq_true_2 by done. cbn [assertQ]. trun.
  destruct (replace_ok q C F t HV) as [(v & Hv & Hlt & [E|[E1 E2]])|(Hle & q1 & q2 & E1 & E2 & HT)].
  - rewrite (tbind _ _ _ _ _ E). eexists _, _. split; [done|]. left. eauto.
  - rewrite (tbind _ _ _ _ _ E1). cbn [negb]. rewrite (tbind _ _ _ _ _ E2). eexists _, _. split; [done|]. left. eauto.
  - rewrite (tbind _ _ _ _ _ E1). cbn [negb]. rewrite (tbind _ _ _ _ _ E2). cbn [negb].
    destruct (import_free q C F t q2 HV Hg Hnew HT) as (q' & C' & F' & E & Hi). rewrite E.
    eexists _, _. split; [done|]. right. eauto.
Qed.

(** ** Moving transactions back to the waiting ones *)

Lemma RepC_at2 q C X Y :
  (forall a n, at2 Y a n = at2 X a n) -> innerNonempty Y -> RepC (set_byAddress X q) C -> RepC (set_byAddress Y q) C.
Proof. intros HXY HY []. split; cbn in *; intros; rewrite ?HXY in *; eauto. Qed.

(** [m_future] while the inner map of [a] may still be empty *)
Definition RepFa (q : TransactionQueue) (a : Address) (F : pool) : Prop :=
  (forall b n, at2 (q_future q) b n = F !! (b, n)) /\ is_Some (q_future q !! a) /\
  (forall b m, b <> a -> q_future q !! b = Some m -> m <> ∅) /\
  (forall k v, F !! k = Some v -> key v = k /\ goodV v) /\ q_futureSize q = Z.of_nat (size F).

Lemma RepFa_touch q F a :
  RepF q F -> RepFa (set_future (touch a (q_future q)) (q_futureSize q) q) a F.
Proof.
  intros [Hat Hne Hg Hs]. unfold RepFa. qfields. split_and!; try done.
  - intros b n. by rewrite at2_touch.
  - unfold touch. destruct (q_future q !! a) eqn:E; [by rewrite E|]. rewrite lookup_insert_eq. by eexists.
  - intros b m Hb. unfold touch. destruct (q_future q !! a) eqn:E; [by apply Hne|].
    rewrite lookup_insert_ne by done. by apply Hne.
Qed.

Lemma RepFa_RepF q F a k v : RepFa q a F -> F !! (a, k) = Some v -> RepF q F.
Proof.
  intros (Hat & Ha & Hne & Hg & Hs) Hk. split; try done. intros b m Hm. destruct (decide (b = a)) as [->|Hb]; [|by eapply Hne].
  rewrite <- Hat in Hk. apply at2_Some in Hk as (m' & Em & Hv). intros ->. rewrite Hm in Em. injection Em as <-.
  by rewrite lookup_empty in Hv.
Qed.

(** One round: the transaction is taken from the multiset and from the index by
    hash, and waits; the index by address still refers to it. *)
Definition deferred (a : Address) (i : Z) (v : VerifiedTransaction) (q : TransactionQueue) : TransactionQueue :=
  let n := tx_nonce (vt_tx v) in
  set_future (alter (fun m => match m !! n with Some _ => m | None => <[n := v]> m end) a (q_future q))
    (u32 (q_futureSize q + 1))
    (set_current (filter (fun x => x.1 <> i) (q_current q)) (set_byHash (delete (vt_hash v) (q_currentByHash q)) q)).

Lemma deferred_step q X C a i k v l :
  RepC (set_byAddress X q) C -> (i, v) ∈ q_current q -> key v = (a, k) ->
  future_loop a ((k, Some i) :: l) q = future_loop a l (deferred a i v q) /\
  RepC (set_byAddress (erase2 a k X) (deferred a i v q)) (delete (a, k) C).
Proof.
  intros HC Hi Hk. split.
  - cbn [future_loop or_throw]. trun.
    assert (Hf : find_node i (q_current q) = Some v) by exact (find_node_ok (set_byAddress X q) C i v HC Hi).
    assert (Hd : forall q1, q_current q1 = q_current q -> deref i q1 = (Ok v, q1)).
    { intros q1 E. unfold deref. trun. by rewrite E, Hf. }
    rewrite (tbind _ _ _ _ _ (Hd q eq_refl)). trun. unfold m_current_erase. trun.
    match goal with |- (deref i ≫= _) ?q1 = _ => rewrite (tbind _ _ _ _ _ (Hd q1 eq_refl)) end. trun. done.
  - pose proof (RepC_remove (set_byAddress X q) C i v HC Hi) as HR. rewrite Hk in HR.
    eapply RepC_frame; [..|exact HR]; unfold removed; qfields; try done. by rewrite Hk.
Qed.

Lemma RepFa_deferred q F a i k v :
  RepFa q a F -> key v = (a, k) -> goodV v -> F !! (a, k) = None -> Z.of_nat (size F) + 1 < 2 ^ 32 ->
  RepFa (deferred a i v q) a (<[(a, k) := v]> F).
Proof.
  intros (Hat & [m Hm] & Hne & Hg & Hs) Hk Hv HFk Hsz.
  assert (Hn : tx_nonce (vt_tx v) = k) by (by injection Hk).
  assert (Hmk : m !! k = None) by (rewrite <- Hat in HFk; unfold at2 in HFk; by rewrite Hm in HFk).
  unfold RepFa, deferred. qfields. rewrite Hn. split_and!.
  - intros b n. destruct (decide (b = a)) as [->|Hb].
    + unfold at2. rewrite lookup_alter_eq, Hm. cbn. rewrite Hmk. destruct (decide (n = k)) as [->|Hnk].
      * by rewrite !lookup_insert_eq.
      * rewrite !lookup_insert_ne by congruence. rewrite <- Hat. unfold at2. by rewrite Hm.
    + unfold at2. rewrite lookup_alter_ne by done. rewrite lookup_insert_ne by congruence. apply Hat.
  - rewrite lookup_alter_eq, Hm. by eexists.
  - intros b m' Hb. rewrite lookup_alter_ne by done. by apply Hne.
  - intros k' w [[<- <-]|[_ Hw]]%lookup_insert_Some; [done|by apply Hg].
  - rewrite map_size_insert_None by done. rewrite Hs. unfold wrap. rewrite Z.mod_small; lia.
Qed.

(** What the loop leaves alone *)
Definition restL (q : TransactionQueue) :=
  (q_known q, q_dropped q, q_byAddress q, q_limit q, q_futureLimit q, q_unverified q, q_events q).

Lemma future_loop_ok a l : forall q X C F,
  RepC (set_byAddress X q) C -> RepFa q a F -> C ##ₘ F -> Z.of_nat (size C + size F) < 2 ^ 32 ->
  NoDup l.*1 -> (forall k h, (k, h) ∈ l -> at2 X a k = Some h) ->
  exists q' X' C' F', future_loop a l q = (Ok tt, q') /\
    RepC (set_byAddress X' q') C' /\ RepFa q' a F' /\ (size C' + size F' = size C + size F)%nat /\
    (forall k : Address * Z, C' !! k = if decide (k.1 = a /\ k.2 ∈ l.*1) then None else C !! k) /\
    (forall k : Address * Z, F' !! k = if decide (k.1 = a /\ k.2 ∈ l.*1) then C !! k else F !! k) /\
    (forall b n, at2 X' b n = if decide (b = a /\ n ∈ l.*1) then None else at2 X b n) /\ restL q' = restL q.
Proof.
  induction l as [|[k h] l IH]; intros q X C F HC HF Hd Hsz Hnd Hl.
  { exists q, X, C, F. split_and!; try done; intros; rewrite decide_False; try done; by intros [_ []%elem_of_nil]. }
  cbn [fmap list_fmap fst] in Hnd. apply list.NoDup_cons in Hnd as [Hk Hnd].
  pose proof (Hl k h ltac:(left)) as Hh.
  destruct (rc_byAddr _ _ HC a k) as [v Hv]; [cbn; by eexists|].
  destruct (rc_cur _ _ HC _ _ Hv) as (Ekey & Hg & i & Hi). pose proof (rc_addr _ _ HC i v Hi) as Ha.
  rewrite Ekey in Ha. cbn in Ha. rewrite Hh in Ha. injection Ha as ->.
  destruct (deferred_step q X C a i k v l HC Hi Ekey) as [Estep HC1].
  assert (HFk : F !! (a, k) = None) by (by eapply map_disjoint_Some_l).
  assert (Hs1 : (size (delete (a, k) C) + size (<[(a, k) := v]> F) = size C + size F)%nat).
  { rewrite map_size_insert_None by done. rewrite map_size_delete_Some by (by eexists).
    assert (size C <> 0%nat) by (intros E0; apply map_size_empty_iff in E0; by rewrite E0, lookup_empty in Hv). lia. }
  assert (HF1 : RepFa (deferred a i v q) a (<[(a, k) := v]> F)).
  { apply (RepFa_deferred q F a i k v); try done. rewrite map_size_insert_None in Hs1 by done. lia. }
  destruct (IH (deferred a i v q) (erase2 a k X) (delete (a, k) C) (<[(a, k) := v]> F))
    as (q' & X' & C' & F' & E & HC' & HF' & Hs & HlC & HlF & HlX & Hr); try done.
  { apply map_disjoint_insert_r. split; [apply lookup_delete_eq|].
    eapply map_disjoint_weaken_l; [done|apply delete_subseteq]. }
  { by rewrite Hs1. }
  { intros k' h' Hk'. rewrite at2_erase2, decide_False; [apply Hl; by right|]. intros [= ->]. apply Hk.
    by apply (list_elem_of_fmap_2 fst l (k, h')). }
  exists q', X', C', F'. rewrite Estep. cbn [fmap list_fmap fst]. split_and!; try done.
  - by rewrite Hs.
  - intros [b n]. rewrite HlC. rewrite lookup_delete. cbn [fst snd]. repeat case_decide; try done; simplify_eq; set_solver.
  - intros [b n]. rewrite HlF. rewrite lookup_delete, lookup_insert. cbn [fst snd].
    repeat case_decide; try done; simplify_eq; set_solver.
  - intros b n. rewrite HlX, at2_erase2. repeat case_decide; try done; simplify_eq; set_solver.
Qed.

(** The transactions of [a] from the nonce [n] on *)
Definition tailOf (a : Address) (n : Z) (k : Address * Z) : Prop := k.1 = a /\ n <= k.2.
#[export] Instance tailOf_dec a n k : Decision (tailOf a n k).
Proof. unfold tailOf. apply _. Defined.
Definition tail_ (a : Address) (n : Z) (C : pool) : pool := filter (fun x => tailOf a n x.1) C.
Definition front_ (a : Address) (n : Z) (C : pool) : pool := filter (fun x => ~ tailOf a n x.1) C.

Lemma lookup_tail a n C k : tail_ a n C !! k = if decide (tailOf a n k) then C !! k else None.
Proof.
  unfold tail_. rewrite map_lookup_filter. destruct (C !! k) as [v|]; cbn; [|by case_decide].
  repeat (case_guard || case_decide); done.
Qed.
Lemma lookup_front a n C k : front_ a n C !! k = if decide (tailOf a n k) then None else C !! k.
Proof.
  unfold front_. rewrite map_lookup_filter. destruct (C !! k) as [v|]; cbn; [|by case_decide].
  repeat (case_guard || case_decide); done.
Qed.

Lemma front_tail_union (a : Address) (n : Z) (C F : pool) : C ##ₘ F -> front_ a n C ∪ (F ∪ tail_ a n C) = C ∪ F.
Proof.
  intros Hd. apply map_eq. intros k. apply option_eq. intros v. pose proof (map_disjoint_Some_l C F k) as Hl.
  pose proof (map_disjoint_Some_r C F k) as Hr.
  rewrite !lookup_union_Some_raw, lookup_front, lookup_tail. case_decide; naive_solver.
Qed.

Lemma front_tail_disjoint (a : Address) (n : Z) (C F : pool) : C ##ₘ F -> front_ a n C ##ₘ F ∪ tail_ a n C.
Proof.
  intros Hd. apply map_disjoint_spec. intros k v w. rewrite lookup_union_Some_raw, lookup_front, lookup_tail.
  case_decide; [done|]. intros Hv [Hw|[_ Hw]]; [|done]. by rewrite (map_disjoint_Some_l _ _ _ _ Hd Hv) in Hw.
Qed.

(** The index by address after the range of nonces has been erased *)
Definition cutIndex (a : Address) (n : Z) (x : gmap Address (gmap Z (option Z))) : gmap Address (gmap Z (option Z)) :=
  let queue' := filter (fun y => y.1 < n) (default ∅ (x !! a)) in
  if decide (queue' = ∅) then delete a x else <[a := queue']> x.

Lemma at2_cutIndex a n x b k : at2 (cutIndex a n x) b k = if decide (tailOf a n (b, k)) then None else at2 x b k.
Proof.
  unfold cutIndex, tailOf. cbn [fst snd].
  assert (Hl : filter (fun y => y.1 < n) (default ∅ (x !! a)) !! k = if decide (n <= k) then None else at2 x a k).
  { rewrite map_lookup_filter. unfold at2. destruct (x !! a) as [m|]; cbn; [|rewrite lookup_empty; cbn; by case_decide].
    destruct (m !! k); cbn; [|by case_decide]. repeat (case_guard || case_decide); try done; cbn in *; lia. }
  destruct (decide (filter _ _ = ∅)) as [E|E]; [rewrite at2_delete; rewrite E, lookup_empty in Hl|rewrite at2_insert].
  all: destruct (decide (b = a)) as [->|Hb]; [|by rewrite decide_False by tauto].
  - case_decide; case_decide; tauto || done.
  - rewrite Hl. case_decide; case_decide; tauto || done.
Qed.

Lemma cutIndex_nonempty a n x : innerNonempty x -> innerNonempty (cutIndex a n x).
Proof.
  intros Hx b m. unfold cutIndex. case_decide as E.
  - intros [_ Hm]%lookup_delete_Some. by eapply Hx.
  - intros [[_ <-]|[_ Hm]]%lookup_insert_Some; [done|by eapply Hx].
Qed.

Lemma touch_id {A} a (x : gmap Address (gmap Z A)) m : x !! a = Some m -> touch a x = x.
Proof. intros E. unfold touch. by rewrite E. Qed.

Lemma cut_pools (a : Address) (n : Z) (C F C' F' : pool) (ks : list Z) :
  C ##ₘ F -> (forall k, (a, k) ∈ dom C -> k ∈ ks <-> n <= k) -> (forall k, k ∈ ks -> (a, k) ∈ dom C) ->
  (forall k : Address * Z, C' !! k = if decide (k.1 = a /\ k.2 ∈ ks) then None else C !! k) ->
  (forall k : Address * Z, F' !! k = if decide (k.1 = a /\ k.2 ∈ ks) then C !! k else F !! k) ->
  C' = front_ a n C /\ F' = F ∪ tail_ a n C.
Proof.
  intros Hd Hkeys Hin HlC HlF.
  assert (Hks : forall b k, is_Some (C !! (b, k)) -> b = a /\ k ∈ ks <-> tailOf a n (b, k)).
  { intros b k Hs. unfold tailOf. cbn [fst snd]. split; intros [-> H1]; (split; [done|]); by apply Hkeys; [apply elem_of_dom|]. }
  split; apply map_eq; intros [b k]; rewrite ?HlC, ?HlF, ?lookup_front; cbn [fst snd].
  - destruct (C !! (b, k)) as [w|] eqn:Ew; [|by repeat case_decide].
    specialize (Hks b k ltac:(by eexists)). repeat case_decide; tauto.
  - destruct (C !! (b, k)) as [w|] eqn:Ew.
    + rewrite lookup_union_r, lookup_tail, Ew by (by eapply map_disjoint_Some_l).
      rewrite (map_disjoint_Some_l _ _ _ _ Hd Ew). specialize (Hks b k ltac:(by eexists)). repeat case_decide; tauto.
    + rewrite lookup_union_l by (rewrite lookup_tail, Ew; by case_decide). case_decide as Hx; [|done].
      destruct Hx as [-> Hx%Hin%elem_of_dom]. rewrite Ew in Hx. by destruct Hx.
Qed.

(** [setFuture] moves the transaction and the pending ones of its sender that
    follow it to the waiting ones. *)
Lemma setFuture_ok q C F v i :
  Valid q C F -> (i, v) ∈ q_current q ->
  exists q', setFuture sha3 recover (vt_hash v) q = (Ok tt, q') /\
    Valid q' (front_ (key v).1 (key v).2 C) (F ∪ tail_ (key v).1 (key v).2 C) /\ restM q' = restM q /\ q_known q' = q_known q.
Proof.
  intros HV Hi. pose proof (v_C q C F HV) as HC. pose proof (v_limits q C F HV) as Hlim. pose proof (v_bound q C F HV) as Hb.
  pose proof (rc_addr q C HC i v Hi) as Ha. set (a := (key v).1) in *. set (n := (key v).2) in *.
  apply at2_Some in Ha as (m & Em & Hmn).
  set (q0 := set_future (touch a (q_future q)) (q_futureSize q) q).
  set (l := lower_bound n m).
  assert (Hl : forall k h, (k, h) ∈ l <-> n <= k /\ at2 (q_byAddress q) a k = Some h).
  { intros k h. unfold l. rewrite elem_of_lower_bound. unfold at2. by rewrite Em. }
  assert (Hkeys : forall k, (a, k) ∈ dom C -> k ∈ l.*1 <-> n <= k).
  { intros k [w Hw]%elem_of_dom. destruct (rc_cur q C HC _ _ Hw) as (Ek & _ & j & Hj). pose proof (rc_addr q C HC j w Hj) as Hx.
    rewrite Ek in Hx. cbn in Hx. split.
    - intros ([k' h] & -> & Hin)%list_elem_of_fmap. by apply Hl in Hin as [? _].
    - intros Hk. apply (list_elem_of_fmap_2 fst l (k, Some j)). by apply Hl. }
  destruct (future_loop_ok a l q0 (q_byAddress q) C F) as (q1 & X' & C' & F' & E & HC' & HF' & Hs & HlC & HlF & HlX & Hr).
  { by eapply RepC_frame; [..|exact HC]. } { apply RepFa_touch, HV. } { apply HV. } { lia. }
  { apply sorted_NoDup, lower_bound_sorted. } { intros k h Hk. by apply Hl in Hk as [_ ?]. }
  destruct (cut_pools a n C F C' F' l.*1) as [EC EF]; [apply HV|done| |done..|].
  { intros k ([k' h] & -> & [_ Hx]%Hl)%list_elem_of_fmap. apply elem_of_dom, (rc_byAddr q C HC). by eexists. }
  exists (set_byAddress (cutIndex a n (q_byAddress q)) q1).
  injection Hr as Hkn Hdr Hba Hli Hfl Hun Hev.
  split_and!.
  - unfold setFuture. trun. rewrite (rc_hash q C HC i v Hi), (tbind _ _ _ _ _ (deref_ok q C i v HC Hi)). trun. qfields.
    change (TransactionQueue.from_ sha3 recover (vt_tx v)) with a. change (tx_nonce (vt_tx v)) with n.
    rewrite (touch_id a (q_byAddress q) m Em), Em. cbn [default from_option id]. fold l.
    match goal with |- (future_loop a l ≫= _) ?x = _ => change x with q0 end.
    rewrite (tbind _ _ _ _ _ E). unfold modify, cutIndex. rewrite Em, Hba. done.
  - subst C' F'. split; qfields; rewrite ?Hli, ?Hfl, ?Hkn.
    + apply (RepC_at2 q1 _ X'); [|apply cutIndex_nonempty, HC|done]. intros b k. rewrite HlX, at2_cutIndex. unfold tailOf.
      cbn [fst snd]. destruct (at2 (q_byAddress q) b k) as [x|] eqn:Ex; [|by repeat case_decide].
      destruct (decide (b = a)) as [->|Hne]; [|repeat case_decide; tauto].
      assert (k ∈ l.*1 <-> n <= k).
      { apply Hkeys, elem_of_dom, (rc_byAddr q C HC). by eexists. }
      repeat case_decide; tauto.
    + eapply RepF_frame; [..|apply (RepFa_RepF q1 _ a n v HF')]; try done.
      apply lookup_union_Some_raw. right. split.
      * eapply (map_disjoint_Some_l C F _ v); [apply HV|]. apply (rc_node q C HC) in Hi. by rewrite (surjective_pairing (key v)) in Hi.
      * rewrite lookup_tail, decide_True by done. apply (rc_node q C HC) in Hi. by rewrite (surjective_pairing (key v)) in Hi.
    + apply front_tail_disjoint, HV.
    + rewrite front_tail_union by apply HV. apply HV.
    + intros k w. rewrite front_tail_union by apply HV. apply HV.
    + rewrite Hs. apply HV.
    + apply HV.
  - unfold restM. qfields. congruence.
  - done.
Qed.

(** ** Dropping *)

(** The pool without the transaction of a hash *)
Definition without (h : bytes) (C : pool) : pool := filter (fun x => vt_hash x.2 <> h) C.

Lemma without_delete (C : pool) k v :
  C !! k = Some v -> (forall k' w, C !! k' = Some w -> vt_hash w = vt_hash v -> k' = k) -> without (vt_hash v) C = delete k C.
Proof.
  intros Hk Hu. apply map_eq. intros k'. apply option_eq. intros w. unfold without.
  rewrite map_lookup_filter_Some, lookup_delete_Some. cbn. split; intros [H1 H2]; split; try done; try congruence.
  intros E. apply H1. symmetry. eauto.
Qed.

Lemma without_absent (C : pool) h : (forall k v, C !! k = Some v -> vt_hash v <> h) -> without h C = C.
Proof. intros Hn. apply map_filter_id. intros k v Hk. by eapply Hn. Qed.

Lemma Valid_remove q C F i v : Valid q C F -> (i, v) ∈ q_current q -> Valid (removed i v q) (delete (key v) C) F.
Proof.
  intros HV Hi. pose proof (v_C q C F HV) as HC. pose proof (rc_node q C HC i v Hi) as Hk.
  assert (HU : delete (key v) C ∪ F ⊆ C ∪ F) by (apply map_union_mono_r; [apply HV|apply delete_subseteq]).
  split; try done; try apply HV.
  - by apply RepC_remove.
  - by eapply RepF_frame; [..|apply HV].
  - eapply map_disjoint_weaken_l; [apply HV|apply delete_subseteq].
  - eapply distinct_subseteq; [exact HU|apply HV].
  - intros k w Hw. unfold removed. qfields. apply elem_of_difference. split.
    + eapply (v_known q C F HV). by eapply lookup_weaken.
    + intros E%elem_of_singleton. assert (k = key v) as ->.
      { eapply (v_distinct q C F HV); [by eapply lookup_weaken|by apply lookup_union_Some_l|done]. }
      apply lookup_union_Some_raw in Hw as [Hw|[_ Hw]]; [by rewrite lookup_delete_eq in Hw|].
      by rewrite (map_disjoint_Some_l _ _ _ _ (v_disj q C F HV) Hk) in Hw.
  - pose proof (map_subseteq_size _ _ (delete_subseteq C (key v))). pose proof (v_bound q C F HV). cbn. lia.
Qed.

Lemma remove_valid q C F h :
  Valid q C F -> exists b q', remove_ sha3 recover h q = (Ok b, q') /\ Valid q' (without h C) F /\ restM q' = restM q.
Proof.
  intros HV. pose proof (v_C q C F HV) as HC. destruct (q_currentByHash q !! h) as [i|] eqn:E.
  - apply (rc_byHash q C HC) in E as (v & Hi & <-). exists true, (removed i v q). rewrite (remove_ok q C i v HC Hi).
    rewrite (without_delete C (key v) v); [by split_and!; [|apply Valid_remove|]|by eapply rc_node|].
    intros k w Hw Ew. eapply (v_distinct q C F HV); [by apply lookup_union_Some_l| |done].
    apply lookup_union_Some_l. by eapply rc_node.
  - exists false, q. rewrite remove_absent by done. rewrite without_absent; [done|]. intros k v Hk <-.
    destruct (rc_cur q C HC _ _ Hk) as (_ & _ & i & Hi). apply (rc_hash q C HC) in Hi. congruence.
Qed.

Lemma drop_ok q C F h :
  Valid q C F -> exists q' C', drop_ sha3 recover h q = (Ok tt, q') /\ Valid q' C' F /\
    if decide (h ∈ q_known q) then C' = without h C /\ q_dropped q' = {[h]} ∪ q_dropped q else C' = C /\ q' = q.
Proof.
  intros HV. unfold drop_. trun. case_decide; [|by exists q, C]. trun.
  set (q1 := set_dropped ({[h]} ∪ q_dropped q) q).
  assert (HV1 : Valid q1 C F).
  { split; try apply HV; [by eapply RepC_frame; [..|apply HV]|by eapply RepF_frame; [..|apply HV]]. }
  destruct (remove_valid q1 C F h HV1) as (b & q2 & E & HV2 & Hr). rewrite (tbind _ _ _ _ _ E).
  exists q2, (without h C). split_and!; try done. by injection Hr.
Qed.

Lemma makeCurrent_valid q C F t :
  Valid q C F ->
  exists q' c F', let n := u256 (tx_nonce t + 1) in let F1 := remain (from_ t) n c F in
    makeCurrent sha3 recover t q = (Ok tt, q') /\ runs (from_ t) n c F /\
    Valid q' (C ∪ ready (from_ t) n c F) F' /\ F' ⊆ F1 /\
    Z.of_nat (size F') = Z.min (Z.of_nat (size F1)) (q_futureLimit q) /\ restM q' = restM q.
Proof.
  intros HV. pose proof (v_limits q C F HV) as Hlim. pose proof (v_disj q C F HV) as Hd.
  destruct (makeCurrent_ok q C F t) as (q' & c & F' & E & Hr & HC & HF & Hs & Hz & Hm & Hk); try apply HV.
  { by eapply futureSize_small. }
  exists q', c, F'. split_and!; try done.
  pose proof (ready_union_subseteq _ _ _ C F F' Hs Hd) as HU. pose proof (ready_remain_union _ _ _ C F F' Hs Hd) as HD.
  injection Hm as Hdr Hl Hfl Hu. split; rewrite ?Hl, ?Hfl, ?Hk; try done.
  - eapply distinct_subseteq; [exact HU|apply HV].
  - intros k v Hv. eapply (v_known q C F HV). by eapply lookup_weaken.
  - apply map_subseteq_size in HU. rewrite (map_size_disj_union _ F' HD), (map_size_disj_union C F Hd) in HU. pose proof (v_bound q C F HV). lia.
Qed.

Lemma dropGood_ok q C F t :
  Valid q C F ->
  exists q' c F', let n := u256 (tx_nonce t + 1) in let F1 := remain (from_ t) n c F in
    dropGood sha3 recover t q = (Ok tt, q') /\ runs (from_ t) n c F /\
    Valid q' (without (tx_sha3 t) (C ∪ ready (from_ t) n c F)) F' /\ F' ⊆ F1 /\
    Z.of_nat (size F') = Z.min (Z.of_nat (size F1)) (q_futureLimit q).
Proof.
  intros HV. destruct (makeCurrent_valid q C F t HV) as (q1 & c & F' & E & Hr & HV1 & Hs & Hz & Hm). unfold dropGood.
  rewrite (tbind _ _ _ _ _ E). trun. case_decide as Hk.
  - destruct (remove_valid q1 _ F' (tx_sha3 t) HV1) as (b & q2 & E2 & HV2 & _). exists q2, c, F'.
    by rewrite (tbind _ _ _ _ _ E2).
  - exists q1, c, F'. split_and!; try done. rewrite without_absent; [done|]. intros k v Hv E1. apply Hk. rewrite <- E1.
    eapply (v_known q1 _ F' HV1). by apply lookup_union_Some_l.
Qed.

Lemma clear_ok q C F : Valid q C F -> exists q', clear q = (Ok tt, q') /\ Valid q' ∅ ∅ /\ restM q' = restM q.
Proof.
  intros HV. eexists. split; [done|]. split; [|done].
  assert (Hn : forall (A : Type) (a : Address) (n : Z), at2 (∅ : gmap Address (gmap Z A)) a n = None).
  { intros A a n. unfold at2. by rewrite lookup_empty. }
  split; qfields.
  - split; qfields; try (intros *; rewrite ?lookup_empty, ?elem_of_nil, ?Hn; try done; by intros []).
    constructor.
  - split; qfields; try (intros *; rewrite ?lookup_empty, ?Hn; done).
  - apply map_disjoint_empty_l.
  - intros k1 v1 k2 v2. rewrite map_union_empty, lookup_empty. done.
  - intros k v. rewrite map_union_empty, lookup_empty. done.
  - rewrite map_size_empty. pose proof (v_limits q C F HV). cbn. lia.
  - apply HV.
Qed.

End Theory.
