(* ===== verification/TransactionQueueSafety.v ===== *)
(** * Safety of the transaction queue

    The theorems about [TransactionQueue]: what an import does on every branch,
    that every sequence of operations keeps the queue consistent and within its
    limits, how transactions move between pending and waiting, and the order of
    the pending ones; and examples of what goes wrong with transactions whose
    signature has no signer. *)

From Stdlib Require Import ZArith Lia.
From stdpp Require Import base list list_numbers option gmap sorting.
From S2P Require Import Prelude CommonData RLP RLPTheory FixedHash Instruction ExtVMFace Transaction TransactionQueue TransactionQueueTheory.

(** The operations of the queue's interface *)
Inductive tq_op :=
| OpImport (t : Transaction) (ik : IfDropped)
| OpImportRLP (d : bytes) (ik : IfDropped)
| OpDrop (h : bytes)
| OpDropGood (t : Transaction)
| OpSetFuture (h : bytes)
| OpClear
| OpEnqueue (d nodeId : bytes)
| OpVerify.

Section Safety.
Context (sha3 : bytes -> bytes) (recover : SignatureStruct -> bytes -> option bytes).
Context `{HMs : Multiset} `{!MultisetLaws} `{HUm : UnorderedMap} `{!UnorderedMapLaws}.
Abbreviation good := (good sha3 recover).
Abbreviation Valid := (Valid sha3 recover).
Abbreviation pool := (gmap (Address * Z) VerifiedTransaction).

Definition run_op (o : tq_op) : TQM unit :=
  match o with
  | OpImport t ik => _ ← import_ sha3 recover t ik; mret tt
  | OpImportRLP d ik => _ ← import_rlp sha3 recover d ik; mret tt
  | OpDrop h => drop_ sha3 recover h
  | OpDropGood t => dropGood sha3 recover t
  | OpSetFuture h => setFuture sha3 recover h
  | OpClear => clear
  | OpEnqueue d nodeId => enqueue d nodeId
  | OpVerify => verifierRound sha3 recover
  end.

(** Imported transactions have a signer, and serialised ones are in the form in
    which they are hashed. *)
Definition op_ok (o : tq_op) (q : TransactionQueue) : Prop :=
  match o with
  | OpImport t _ => good t
  | OpImportRLP d _ => forall t, fromRLP sha3 recover d CheckEverything = Ok t -> good t /\ tx_sha3 sha3 t = sha3 d
  | OpVerify => forall d id rest t, q_unverified q = (d, id) :: rest -> fromRLP sha3 recover d CheckCheap = Ok t -> good t
  | _ => True
  end.

(** What a queue can become *)
Inductive reachable : TransactionQueue -> Prop :=
| reach_new limit futureLimit :
    0 <= limit -> 0 <= futureLimit -> limit + futureLimit < 2 ^ 32 -> reachable (newQueue limit futureLimit)
| reach_step q o : reachable q -> op_ok o q -> reachable (run_op o q).2.

Lemma Valid_frame q q' C F :
  restF q' = restF q -> q_future q' = q_future q -> q_futureSize q' = q_futureSize q -> Valid q C F -> Valid q' C F.
Proof.
  intros Hr Hf Hs [HC HF Hd Hx Hk Hb Hl]. pose proof (RepC_restF sha3 recover q q' C Hr HC) as HC'.
  injection Hr as Ek _ _ _ _ El Efl _ _ _. split; rewrite ?El, ?Efl, ?Ek; try done. by eapply RepF_frame.
Qed.

(** The branches of an import *)
Lemma import_ok q C F t ik :
  Valid q C F -> good t ->
  exists r q', import_ sha3 recover t ik q = (Ok r, q') /\
    match r with
    | AlreadyKnown => tx_sha3 sha3 t ∈ q_known q /\ q' = q
    | AlreadyInChain => tx_sha3 sha3 t ∉ q_known q /\ tx_sha3 sha3 t ∈ q_dropped q /\ ik = Ignore /\ q' = q
    | OverbidGasPrice =>
        (exists v, (C ∪ F) !! keyT sha3 recover t = Some v /\ tx_gasPrice t < tx_gasPrice (vt_tx v)) /\ q' = q
    | Success =>
        (forall v, (C ∪ F) !! keyT sha3 recover t = Some v -> tx_gasPrice (vt_tx v) <= tx_gasPrice t) /\
        exists C' F', imported sha3 recover q C F t q' C' F'
    | _ => False
    end.
Proof.
  intros HV Hg. unfold import_. rewrite tbind_gets. unfold check_.
  destruct (decide (tx_sha3 sha3 t ∈ q_known q)) as [Hk|Hk]; cbn.
  { eexists _, q. rewrite decide_False by done. by split. }
  destruct (decide (_ /\ ik = Ignore)) as [[Hd ->]|Hd]; cbn.
  { eexists _, q. rewrite decide_False by done. by split. }
  rewrite decide_True by done. destruct (manage_ok sha3 recover q C F t HV Hg Hk) as (r & q' & E & Hr).
  exists r, q'. split; [done|]. destruct Hr as [(-> & ? & ->)|(-> & ? & ?)]; done.
Qed.

Lemma import_valid q C F t ik :
  Valid q C F -> good t -> exists r q' C' F', import_ sha3 recover t ik q = (Ok r, q') /\ Valid q' C' F'.
Proof.
  intros HV Hg. destruct (import_ok q C F t ik HV Hg) as (r & q' & E & Hr). exists r, q'.
  destruct r; try done; try (destruct Hr as (? & Hr); exists C, F; naive_solver).
  destruct Hr as (_ & C' & F' & c & _ & _ & _ & _ & _ & HV' & _). by exists C', F'.
Qed.

Lemma manage_check h t q : catch_ (manageImport sha3 recover h t) Malformed q = manageImport sha3 recover h t q.
Proof. unfold manageImport at 2. unfold catch_. unfold manageImport, catch_. repeat case_match; simplify_eq; done. Qed.

(** Importing bytes: an unreadable transaction changes nothing, any other is
    imported like the transaction it stands for. *)
Lemma import_rlp_ok q d ik :
  (forall t, fromRLP sha3 recover d CheckEverything = Ok t -> tx_sha3 sha3 t = sha3 d) ->
  import_rlp sha3 recover d ik q =
    match fromRLP sha3 recover d CheckEverything with
    | Ok t => import_ sha3 recover t ik q
    | Throw _ => (Ok (if decide (check_ (sha3 d) ik q = Success) then Malformed else check_ (sha3 d) ik q), q)
    end.
Proof.
  intros Hh. unfold import_rlp. rewrite tbind_gets. destruct (fromRLP sha3 recover d CheckEverything) as [t|e].
  - unfold import_. rewrite tbind_gets, (Hh t eq_refl). case_decide; [apply manage_check|done].
  - by case_decide.
Qed.

Lemma enqueue_loop_frame d nodeId l : forall q, exists u, (enqueue_loop d nodeId l q).2 = set_unverified u q.
Proof.
  induction l as [|i l IH]; intros q; cbn [enqueue_loop].
  - exists (q_unverified q). by destruct q.
  - rewrite tbind_gets. case_match; [exists (q_unverified q); by destruct q|].
    unfold rlp_q. destruct (RLP.index _ _).2 as [x|e].
    + rewrite tbind_ret, tbind_modify. destruct (IH (set_unverified (q_unverified q ++ [moveUnverified (x, nodeId)]) q)) as [u ->].
      by exists u.
    + exists (q_unverified q). by destruct q.
Qed.

Lemma enqueue_frame d nodeId q : exists u, (enqueue d nodeId q).2 = set_unverified u q.
Proof.
  unfold enqueue. destruct (RLP.itemCount d) as [[n|e]|]; [|exists (q_unverified q); by destruct q..].
  cbn [rlp_q]. rewrite tbind_ret. apply enqueue_loop_frame.
Qed.

Lemma verifier_valid q C F :
  Valid q C F -> op_ok OpVerify q -> exists q' C' F', verifierRound sha3 recover q = (Ok tt, q') /\ Valid q' C' F'.
Proof.
  intros HV Hok. unfold verifierRound. rewrite tbind_gets. cbn [id].
  destruct (q_unverified q) as [|[d id_] rest] eqn:E; [by exists q, C, F|]. rewrite tbind_modify.
  assert (HV1 : Valid (set_unverified rest q) C F).
  { destruct HV as [HC HF Hd Hx Hk Hb Hl]. split; try done; [by eapply RepC_frame; [..|exact HC]|by eapply RepF_frame; [..|exact HF]]. }
  unfold catch_. destruct (fromRLP sha3 recover d CheckCheap) as [t|e] eqn:Et; [|by eexists _, C, F].
  destruct (import_valid _ C F t Ignore HV1 (Hok _ _ _ _ E Et)) as (r & q' & C' & F' & Ei & HV').
  rewrite (tbind _ _ _ _ _ Ei). cbn. eexists _, C', F'. split; [done|].
  destruct HV' as [HC HF Hd Hx Hk Hb Hl]. split; try done; [by eapply RepC_frame; [..|exact HC]|by eapply RepF_frame; [..|exact HF]].
Qed.

Lemma setFuture_valid q C F h :
  Valid q C F -> exists q' C' F', setFuture sha3 recover h q = (Ok tt, q') /\ Valid q' C' F'.
Proof.
  intros HV. destruct (q_currentByHash q !! h) as [i|] eqn:E.
  - apply (rc_byHash sha3 recover q C (v_C sha3 recover q C F HV)) in E as (v & Hi & <-).
    destruct (setFuture_ok sha3 recover q C F v i HV Hi) as (q' & E & HV' & _). eauto.
  - exists q, C, F. split; [|done]. unfold setFuture. rewrite tbind_gets. cbn [id]. by rewrite E.
Qed.

Lemma run_op_valid q C F o :
  Valid q C F -> op_ok o q ->
  exists C' F', Valid (run_op o q).2 C' F' /\ match o with OpEnqueue _ _ => True | _ => (run_op o q).1 = Ok tt end.
Proof.
  intros HV Hok. destruct o as [t ik|d ik|h|t|h| |d id_|]; cbn [run_op].
  - destruct (import_valid q C F t ik HV Hok) as (r & q' & C' & F' & E & HV'). exists C', F'.
    by rewrite (tbind _ _ _ _ _ E).
  - pose proof (import_rlp_ok q d ik (fun t Ht => proj2 (Hok t Ht))) as E. cbn in Hok.
    destruct (fromRLP sha3 recover d CheckEverything) as [t|e].
    + destruct (import_valid q C F t ik HV (proj1 (Hok t eq_refl))) as (r & q' & C' & F' & E' & HV'). exists C', F'.
      rewrite E' in E. by rewrite (tbind _ _ _ _ _ E).
    + exists C, F. by rewrite (tbind _ _ _ _ _ E).
  - destruct (drop_ok sha3 recover q C F h HV) as (q' & C' & E & HV' & _). exists C', F. by rewrite E.
  - destruct (dropGood_ok sha3 recover q C F t HV) as (q' & c & F' & E & _ & HV' & _). rewrite E. eauto.
  - destruct (setFuture_valid q C F h HV) as (q' & C' & F' & E & HV'). rewrite E. eauto.
  - destruct (clear_ok sha3 recover q C F HV) as (q' & E & HV' & _). rewrite E. eauto.
  - destruct (enqueue_frame d id_ q) as [u ->]. exists C, F. split; [|done].
    destruct HV as [HC HF Hd Hx Hk Hb Hl]. split; try done; [by eapply RepC_frame; [..|exact HC]|by eapply RepF_frame; [..|exact HF]].
  - destruct (verifier_valid q C F HV Hok) as (q' & C' & F' & E & HV'). rewrite E. eauto.
Qed.

Lemma Valid_new limit futureLimit :
  0 <= limit -> 0 <= futureLimit -> limit + futureLimit < 2 ^ 32 -> Valid (newQueue limit futureLimit) ∅ ∅.
Proof.
  intros H1 H2 H3.
  assert (Hn : forall (A : Type) (a : Address) (n : Z), at2 (∅ : gmap Address (gmap Z A)) a n = None).
  { intros A a n. unfold at2. by rewrite lookup_empty. }
  split; cbn.
  - split; cbn; try (intros *; rewrite ?lookup_empty, ?elem_of_nil, ?Hn; try done; by intros []). constructor.
  - split; cbn; intros *; rewrite ?lookup_empty, ?Hn; done.
  - apply map_disjoint_empty_l.
  - intros k1 v1 k2 v2. rewrite map_union_empty, lookup_empty. done.
  - intros k v. rewrite map_union_empty, lookup_empty. done.
  - rewrite map_size_empty. cbn. lia.
  - done.
Qed.




(** ** The order of the pending transactions *)

Lemma firstKey_spec {A} (m : gmap Z A) n :
  is_Some (m !! n) -> (forall k, is_Some (m !! k) -> n <= k) -> firstKey m = Some n.
Proof.
  intros [v Hn] Hle. unfold firstKey. apply elem_of_entries in Hn. pose proof (entries_sorted m) as Hs.
  destruct (entries m) as [|[k w] l] eqn:E; [by apply elem_of_nil in Hn|]. cbn. f_equal.
  assert (Hk : m !! k = Some w) by (apply elem_of_entries; rewrite E; left).
  specialize (Hle k ltac:(by eexists)). apply elem_of_cons in Hn as [[= <- <-]|Hn]; [done|].
  apply StronglySorted_inv in Hs as [_ Hs]. rewrite list.Forall_forall in Hs. specialize (Hs _ Hn). cbn in Hs. lia.
Qed.

Lemma firstKey_least {A} (m : gmap Z A) n : firstKey m = Some n -> is_Some (m !! n) /\ forall k, is_Some (m !! k) -> n <= k.
Proof.
  intros E. unfold firstKey in E. pose proof (entries_sorted m) as Hs. destruct (entries m) as [|[k w] l] eqn:El; [done|].
  cbn in E. injection E as <-. split; [exists w; apply elem_of_entries; rewrite El; left|].
  intros k' [w' Hk']. apply elem_of_entries in Hk'. rewrite El in Hk'. apply elem_of_cons in Hk' as [[= <- <-]|Hk']; [done|].
  apply StronglySorted_inv in Hs as [_ Hs]. rewrite list.Forall_forall in Hs. specialize (Hs _ Hk'). cbn in Hs. lia.
Qed.

(** Two indexes with the same nonces give the same heights. *)
Lemma height_same q q' v :
  (forall a, firstKey (default ∅ (q_byAddress q' !! a)) = firstKey (default ∅ (q_byAddress q !! a))) ->
  height sha3 recover q' v = height sha3 recover q v.
Proof. intros Hf. unfold height. destruct (sender _ _ _); [|done]. by rewrite Hf. Qed.

Definition precedes (x y : Z * Z) : bool := (x.1 <? y.1) || ((x.1 =? y.1) && (y.2 <? x.2)).

(** The pending transactions come in the order of [PriorityCompare]. *)
Definition inOrder (q : TransactionQueue) : Prop :=
  StronglySorted (fun x y => PriorityCompare sha3 recover q y x = Ok false) (q_current q).

Lemma compare_heights q x y hx hy :
  height sha3 recover q x.2 = Ok hx -> height sha3 recover q y.2 = Ok hy ->
  PriorityCompare sha3 recover q x y
  = Ok (precedes (hx, tx_gasPrice (vt_tx x.2)) (hy, tx_gasPrice (vt_tx y.2))).
Proof. intros E1 E2. unfold PriorityCompare. by rewrite E1, E2. Qed.

Lemma precedes_trans x y z : precedes x y = true -> precedes z y = false -> precedes x z = true.
Proof. unfold precedes. destruct x, y, z. cbn. lia. Qed.
Lemma precedes_asym x y : precedes x y = true -> precedes y x = false.
Proof. unfold precedes. destruct x, y. cbn. lia. Qed.

(** The new nonce is not below the first one of its sender. *)
Definition notBelow (q : TransactionQueue) (a : Address) (n : Z) : Prop :=
  forall n0, firstKey (default ∅ (q_byAddress q !! a)) = Some n0 -> n0 <= n.

Lemma firstKey_index q a n b :
  notBelow q a n -> (b = a -> default ∅ (q_byAddress q !! a) <> ∅) ->
  firstKey (default ∅ (indexNonce a n (q_byAddress q) !! b)) = firstKey (default ∅ (q_byAddress q !! b)).
Proof.
  intros Hnb Hne. unfold indexNonce. destruct (decide (b = a)) as [->|Hb]; [|by rewrite lookup_insert_ne].
  rewrite lookup_insert_eq. cbn. set (m := default ∅ (q_byAddress q !! a)) in *. destruct (m !! n) eqn:Em; [done|].
  destruct (firstKey_nonempty m) as [n0 E0]; [by apply Hne|]. rewrite E0.
  pose proof (Hnb n0 E0) as Hle. apply firstKey_least in E0 as [H1 H2]. apply firstKey_spec.
  - rewrite lookup_insert_ne; [done|]. intros ->. rewrite Em in H1. by destruct H1.
  - intros k. destruct (decide (k = n)) as [->|Hk]; [done|]. rewrite lookup_insert_ne by done. apply H2.
Qed.

(** The setting of the handle keeps the nonces. *)
Lemma firstKey_handle (x : gmap Address (gmap Z (option Z))) a n i b :
  firstKey (default ∅ (alter (fun m => <[n := Some i]> m) a (indexNonce a n x) !! b))
  = firstKey (default ∅ (indexNonce a n x !! b)).
Proof.
  destruct (decide (b = a)) as [->|Hb]; [|by rewrite lookup_alter_ne]. rewrite lookup_alter_eq. unfold indexNonce.
  rewrite lookup_insert_eq. cbn.
  set (m := match _ !! n with Some _ => _ | None => _ end).
  assert (Hn : is_Some (m !! n)).
  { unfold m. destruct (default ∅ (x !! a) !! n) eqn:E; [by rewrite E|]. rewrite lookup_insert_eq. by eexists. }
  assert (Hsame : forall k, is_Some (<[n := Some i]> m !! k) <-> is_Some (m !! k)).
  { intros k. destruct (decide (k = n)) as [->|]; [rewrite lookup_insert_eq; split; [done|by eexists]|by rewrite lookup_insert_ne]. }
  destruct (firstKey_nonempty m) as [n0 E0]; [intros E; rewrite E, lookup_empty in Hn; by destruct Hn|].
  rewrite E0. apply firstKey_least in E0 as [H1 H2]. apply firstKey_spec; [by apply Hsame|].
  intros k Hk. by apply H2, Hsame.
Qed.

Lemma height_kept q C a n i w :
  RepC sha3 recover q C -> (i, w) ∈ q_current q -> notBelow q a n ->
  height sha3 recover (set_byAddress (indexNonce a n (q_byAddress q)) q) w = height sha3 recover q w.
Proof.
  intros HC Hw Hnb. pose proof (rc_node _ _ q C HC i w Hw) as Hk. destruct (rc_cur _ _ q C HC _ _ Hk) as (_ & Hg & _).
  unfold height. rewrite (key_from sha3 recover w _ Hg eq_refl). qfields. rewrite firstKey_index; [done|done|].
  intros <-. pose proof (rc_addr _ _ q C HC i w Hw) as Ha. apply at2_Some in Ha as (m & Em & _). rewrite Em. cbn.
  by eapply rc_nonempty.
Qed.

Lemma compare_total q x y : is_Ok (height sha3 recover q x.2) -> is_Ok (height sha3 recover q y.2) ->
  is_Ok (PriorityCompare sha3 recover q x y).
Proof. intros [hx Ex] [hy Ey]. rewrite (compare_heights q x y hx hy Ex Ey). by eexists. Qed.

Lemma compare_trans q x y z :
  is_Ok (height sha3 recover q x.2) -> is_Ok (height sha3 recover q y.2) -> is_Ok (height sha3 recover q z.2) ->
  PriorityCompare sha3 recover q x y = Ok true -> PriorityCompare sha3 recover q z y = Ok false ->
  PriorityCompare sha3 recover q x z = Ok true.
Proof.
  intros [hx Ex] [hy Ey] [hz Ez]. rewrite (compare_heights q x y hx hy), (compare_heights q z y hz hy),
    (compare_heights q x z hx hz) by done. intros [= H1] [= H2]. f_equal. by eapply precedes_trans.
Qed.

Lemma compare_asym q x y :
  is_Ok (height sha3 recover q x.2) -> is_Ok (height sha3 recover q y.2) ->
  PriorityCompare sha3 recover q x y = Ok true -> PriorityCompare sha3 recover q y x = Ok false.
Proof.
  intros [hx Ex] [hy Ey]. rewrite (compare_heights q x y hx hy), (compare_heights q y x hy hx) by done.
  intros [= H1]. f_equal. by apply precedes_asym.
Qed.

Lemma sorted_impl {A} (R R' : A -> A -> Prop) l :
  (forall x y, x ∈ l -> y ∈ l -> R x y -> R' x y) -> StronglySorted R l -> StronglySorted R' l.
Proof.
  intros Hi Hs. induction Hs as [|x l Hs IH Hx]; constructor.
  - apply IH. intros y z Hy Hz. apply Hi; by right.
  - rewrite list.Forall_forall in Hx |- *. intros y Hy. apply Hi; [left|by right|by apply Hx].
Qed.

Lemma sorted_insert {A} (R : A -> A -> Prop) l1 x l2 :
  StronglySorted R (l1 ++ l2) -> Forall (fun y => R y x) l1 -> Forall (R x) l2 -> StronglySorted R (l1 ++ x :: l2).
Proof.
  intros Hs H1 H2. induction l1 as [|y l1 IH]; cbn in *; [by constructor|].
  apply StronglySorted_inv in Hs as [Hs Hy]. apply Forall_cons_1 in H1 as [Hyx H1]. constructor; [by apply IH|].
  rewrite list.Forall_app in Hy |- *. destruct Hy. split; [done|]. by constructor.
Qed.

End Safety.

(** ** Examples *)

(** A stand-in for Keccak, and transactions whose sender is already known *)
Definition plainHash (d : bytes) : bytes := d.
Definition noSigner (s : SignatureStruct) (h : bytes) : option bytes := None.
Definition exampleTx (a n p : Z) : Transaction :=
  mkTransaction MessageCall n 0 1 p 25000 [] (mkSignature 1 1 0) a.
Definition importEx (t : Transaction) : TQM ImportResult := import_ plainHash noSigner t Ignore.

Lemma exampleTx_good a n p : a <> 0 -> fits 256 n -> good plainHash noSigner (exampleTx a n p).
Proof.
  intros Ha Hn. split; [|done]. exists a. unfold sender, exampleTx. cbn [m_sender].
  by rewrite (proj2 (Z.eqb_neq a 0)).
Qed.

Definition exampleQueue : TransactionQueue := (importEx (exampleTx 1 0 10) (newQueue 4 4)).2.
Definition examplePool : gmap (Address * Z) VerifiedTransaction := {[(1, 0) := verified plainHash (exampleTx 1 0 10)]}.

Lemma exampleQueue_valid : Valid plainHash noSigner exampleQueue examplePool ∅.
Proof.
  pose proof (Valid_new plainHash noSigner 4 4 ltac:(lia) ltac:(lia) ltac:(lia)) as HV.
  destruct (import_ok plainHash noSigner (newQueue 4 4) ∅ ∅ (exampleTx 1 0 10) Ignore HV) as (r & q' & E & Hr).
  { by apply exampleTx_good. }
  assert (Er : r = Success) by (assert (E1 : (import_ plainHash noSigner (exampleTx 1 0 10) Ignore (newQueue 4 4)).1 = Ok Success)
    by (vm_compute; reflexivity); rewrite E in E1; by injection E1).
  subst r. destruct Hr as (_ & C' & F' & c & _ & HsC & HzC & HsF & HzF & HV' & _).
  assert (Eq : exampleQueue = q') by (unfold exampleQueue, importEx; by rewrite E). rewrite Eq.
  assert (E0 : forall a n, ready a n c (delete (keyT plainHash noSigner (exampleTx 1 0 10)) ∅) = ∅).
  { intros a n. apply map_empty. intros k. rewrite lookup_ready, delete_empty, lookup_empty. by case_decide. }
  rewrite E0, map_union_empty in HsC, HzC.
  assert (F' = ∅) as ->.
  { apply map_empty. intros k. destruct (F' !! k) eqn:Ek; [|done]. apply (lookup_weaken _ _ _ _ Ek) in HsF.
    rewrite lookup_remain, delete_empty, lookup_empty in HsF. by case_decide. }
  replace examplePool with C'; [done|]. change (<[keyT plainHash noSigner (exampleTx 1 0 10) := verified plainHash (exampleTx 1 0 10)]> ∅)
    with examplePool in *. apply map_subseteq_size_eq; [done|]. revert HzC.
  change (size examplePool) with 1%nat. change (q_limit (newQueue 4 4)) with 4. lia.
Qed.





(** *** Transactions without a signer

    [import(Transaction)] accepts a transaction whose signature has no signer, as
    the verifier threads pass it, under the zero address; the comparator then
    throws.  In an empty queue it is accepted and blocks all later imports; in
    another it leaves an iterator that refers to nothing in the index, which the
    next import with the same nonce follows. *)
Definition unsignedTx (n p : Z) : Transaction := mkTransaction MessageCall n 0 1 p 25000 [] (mkSignature 1 1 0) 0.

Lemma unsigned_blocks_imports :
  ((a ← importEx (unsignedTx 0 5); b ← importEx (exampleTx 1 0 10); c ← importEx (exampleTx 2 0 10); mret [a; b; c])
     (newQueue 4 4)).1 = Ok [Success; Malformed; Malformed].
Proof. vm_compute. reflexivity. Qed.

Lemma unsigned_dangling_iterator :
  ((_ ← importEx (exampleTx 1 0 10); a ← importEx (unsignedTx 0 5); b ← importEx (unsignedTx 0 6); mret [a; b])
     (newQueue 4 4)).1 = Throw QUndefined.
Proof. vm_compute. reflexivity. Qed.

(** *** The order under a changing comparator

    Removing the first nonce of a sender lowers the heights of its other
    transactions, which stay where they are: a later nonce can then be put before
    an earlier one of the same sender. *)
Lemma order_not_kept :
  (fun q => (fun t => (m_sender t, tx_nonce t)) <$> topTransactions 256 ∅ q)
    ((_ ← importEx (exampleTx 2 0 30); _ ← importEx (exampleTx 1 2 30); _ ← importEx (exampleTx 2 1 20);
      _ ← importEx (exampleTx 1 3 10); _ ← dropGood plainHash noSigner (exampleTx 1 2 30); importEx (exampleTx 1 4 25))
       (newQueue 8 8)).2
  = [(2, 0); (1, 4); (2, 1); (1, 3)].
Proof. vm_compute. reflexivity. Qed.

(** *** Hashes that stay known

    A waiting transaction that is evicted stays in [m_known] and cannot be
    imported again. *)
Lemma evicted_stays_known :
  ((_ ← importEx (exampleTx 1 1 10); _ ← setFuture plainHash noSigner (tx_sha3 plainHash (exampleTx 1 1 10));
    _ ← importEx (exampleTx 2 0 10); w ← gets (waiting 1); r ← importEx (exampleTx 1 1 10); mret (w, r))
     (newQueue 4 0)).1 = Ok (0, AlreadyKnown).
Proof. vm_compute. reflexivity. Qed.

(** *** An empty list for the receiver

    The parser takes an empty list for the empty string, so that the hash of the
    bytes is not the hash of the transaction, which [manageImport] asserts. *)
Lemma empty_list_receiver_asserts :
  (import_rlp plainHash (fun _ _ => Some [1]) [201; 128; 1; 1; 192; 128; 128; 27; 1; 1] Ignore (newQueue 4 4)).1 = Throw QAssert.
Proof. vm_compute. reflexivity. Qed.

(** *** The origin of a transaction is lost on its way through the queue *)
Lemma enqueue_loses_origin d nodeId q q' :
  enqueue d nodeId q = (Ok tt, q') -> q_unverified q = [] -> Forall (fun u => u.2 = zeroHash 64) (q_unverified q').
Proof.
  assert (Hl : forall l q q', Forall (fun u => u.2 = zeroHash 64) (q_unverified q) ->
            enqueue_loop d nodeId l q = (Ok tt, q') -> Forall (fun u => u.2 = zeroHash 64) (q_unverified q')).
  { induction l as [|i l IH]; intros q1 q2 H1; cbn [enqueue_loop]; [by intros [= <-]|]. rewrite tbind_gets.
    case_match; [by intros [= <-]|]. unfold rlp_q. destruct (RLP.index _ _).2 as [x|e]; [|done].
    rewrite tbind_ret, tbind_modify. apply IH. qfields. apply list.Forall_app. split; [done|]. by repeat constructor. }
  unfold enqueue. destruct (RLP.itemCount d) as [[n|e]|]; [|done..]. cbn [rlp_q]. rewrite tbind_ret.
  intros E Hq. eapply Hl; [|exact E]. rewrite Hq. constructor.
Qed.
