(* ===== verification/BlockQueue.v ===== *)
(** * libelementrem/BlockQueue.{h,cpp} and VerifiedBlock.h

    The queue between the network and the block chain.  A block waits for its time
    ([m_future]) or for its parent ([m_unknown]), is then verified out of order by
    several threads ([m_unverified], [m_verifying]) and drained in order
    ([m_verified]).  Blocks that failed are remembered, and their descendants are
    condemned with them.

    A verifier thread takes a block under the lock, verifies it without, and
    reports under the lock again: these are the two steps [verifierTake] and
    [verifierDone], between which any other operation may run; [b_jobs] are the
    blocks that threads are working on.  All other operations hold [m_lock] while
    they run.  The block chain is the class [BlockVerifier]; the clock is an
    argument.  The calls to the handlers of [m_onReady] and [m_onRoomAvailable] are
    recorded in [b_events]. *)

From Stdlib Require Import ZArith Lia.
From stdpp Require Import base list list_numbers option gmap.
From S2P Require Import Prelude CommonData RLP FixedHash Transaction BlockHeader Elhash TransactionQueue.

(** [VerifiedBlockRef], [VerifiedBlock] *)
Record VerifiedBlockRef := mkVerifiedRef {
  vr_block : bytes;
  vr_info : BlockHeader;
  vr_transactions : list Transaction
}.
Record VerifiedBlock := mkVerifiedBlock { vb_verified : VerifiedBlockRef; vb_blockData : bytes }.

(** [VerifiedBlock(BlockHeader&&)] *)
Definition headerOnly (bi : BlockHeader) : VerifiedBlock := mkVerifiedBlock (mkVerifiedRef [] bi []) [].

Record UnverifiedBlock := mkUnverified { ub_hash : bytes; ub_parentHash : bytes; ub_block : bytes }.

Inductive QueueStatus := QS_Ready | QS_Importing | QS_UnknownParent | QS_Bad | QS_Unknown.

Inductive bq_event := BqReady | BqRoomAvailable.

(** What the queue uses of the block chain: [verifyBlock] and [isKnown] *)
Class BlockVerifier (BC : Type) := {
  verifyBlock : BC -> bytes -> Z -> hres VerifiedBlockRef;
  isKnown : BC -> bytes -> bool
}.

(** A [std::unordered_multimap] is the list of its elements; the order of equal
    keys, which the standard leaves open, is that of insertion. *)
Record BlockQueue := mkBlockQueue {
  b_drainingSet : gset bytes;
  b_readySet : gset bytes;
  b_unknownSet : gset bytes;
  b_unknown : list (bytes * (bytes * bytes));
  b_knownBad : gset bytes;
  b_future : list (Z * (bytes * bytes));
  b_verified : list VerifiedBlock;
  b_verifying : list VerifiedBlock;
  b_unverified : list UnverifiedBlock;
  b_unknownSize : Z;
  b_knownSize : Z;
  b_unknownCount : Z;
  b_knownCount : Z;
  b_difficulty : Z;
  b_drainingDifficulty : Z;
  b_jobs : list UnverifiedBlock;
  b_events : list bq_event
}.

(** The sets of hashes *)
Definition set_sets (draining ready unknown bad : gset bytes) (q : BlockQueue) : BlockQueue :=
  mkBlockQueue draining ready unknown (b_unknown q) bad (b_future q) (b_verified q) (b_verifying q) (b_unverified q)
    (b_unknownSize q) (b_knownSize q) (b_unknownCount q) (b_knownCount q) (b_difficulty q) (b_drainingDifficulty q)
    (b_jobs q) (b_events q).
(** The blocks that wait for their parent or their time *)
Definition set_waiting (unknown : list (bytes * (bytes * bytes))) (future : list (Z * (bytes * bytes))) (q : BlockQueue)
  : BlockQueue :=
  mkBlockQueue (b_drainingSet q) (b_readySet q) (b_unknownSet q) unknown (b_knownBad q) future (b_verified q)
    (b_verifying q) (b_unverified q) (b_unknownSize q) (b_knownSize q) (b_unknownCount q) (b_knownCount q)
    (b_difficulty q) (b_drainingDifficulty q) (b_jobs q) (b_events q).
(** The three stages of verification *)
Definition set_stages (verified verifying : list VerifiedBlock) (unverified : list UnverifiedBlock) (q : BlockQueue)
  : BlockQueue :=
  mkBlockQueue (b_drainingSet q) (b_readySet q) (b_unknownSet q) (b_unknown q) (b_knownBad q) (b_future q) verified
    verifying unverified (b_unknownSize q) (b_knownSize q) (b_unknownCount q) (b_knownCount q) (b_difficulty q)
    (b_drainingDifficulty q) (b_jobs q) (b_events q).
(** The counters of type [size_t] *)
Definition add_unknown (size count : Z) (q : BlockQueue) : BlockQueue :=
  mkBlockQueue (b_drainingSet q) (b_readySet q) (b_unknownSet q) (b_unknown q) (b_knownBad q) (b_future q) (b_verified q)
    (b_verifying q) (b_unverified q) (u64 (b_unknownSize q + size)) (b_knownSize q) (u64 (b_unknownCount q + count))
    (b_knownCount q) (b_difficulty q) (b_drainingDifficulty q) (b_jobs q) (b_events q).
Definition add_known (size count : Z) (q : BlockQueue) : BlockQueue :=
  mkBlockQueue (b_drainingSet q) (b_readySet q) (b_unknownSet q) (b_unknown q) (b_knownBad q) (b_future q) (b_verified q)
    (b_verifying q) (b_unverified q) (b_unknownSize q) (u64 (b_knownSize q + size)) (b_unknownCount q)
    (u64 (b_knownCount q + count)) (b_difficulty q) (b_drainingDifficulty q) (b_jobs q) (b_events q).
Definition set_difficulties (difficulty draining : Z) (q : BlockQueue) : BlockQueue :=
  mkBlockQueue (b_drainingSet q) (b_readySet q) (b_unknownSet q) (b_unknown q) (b_knownBad q) (b_future q) (b_verified q)
    (b_verifying q) (b_unverified q) (b_unknownSize q) (b_knownSize q) (b_unknownCount q) (b_knownCount q) difficulty
    draining (b_jobs q) (b_events q).
Definition set_jobs (jobs : list UnverifiedBlock) (q : BlockQueue) : BlockQueue :=
  mkBlockQueue (b_drainingSet q) (b_readySet q) (b_unknownSet q) (b_unknown q) (b_knownBad q) (b_future q) (b_verified q)
    (b_verifying q) (b_unverified q) (b_unknownSize q) (b_knownSize q) (b_unknownCount q) (b_knownCount q)
    (b_difficulty q) (b_drainingDifficulty q) jobs (b_events q).
Definition notify (e : bq_event) (q : BlockQueue) : BlockQueue :=
  mkBlockQueue (b_drainingSet q) (b_readySet q) (b_unknownSet q) (b_unknown q) (b_knownBad q) (b_future q) (b_verified q)
    (b_verifying q) (b_unverified q) (b_unknownSize q) (b_knownSize q) (b_unknownCount q) (b_knownCount q)
    (b_difficulty q) (b_drainingDifficulty q) (b_jobs q) (b_events q ++ [e]).

(** [m_readySet.erase(h); m_knownBad.insert(h)] *)
Definition condemn (h : bytes) (q : BlockQueue) : BlockQueue :=
  set_sets (b_drainingSet q) (b_readySet q ∖ {[h]}) (b_unknownSet q) (b_knownBad q ∪ {[h]}) q.

(** [BlockQueue()] *)
Definition newBlockQueue : BlockQueue :=
  mkBlockQueue ∅ ∅ ∅ [] ∅ [] [] [] [] 0 0 0 0 0 0 [] [].

(** [clear] *)
Definition bq_clear (q : BlockQueue) : BlockQueue :=
  mkBlockQueue ∅ ∅ ∅ [] (b_knownBad q) [] [] [] [] 0 0 0 0 0 0 (b_jobs q) (b_events q).

Definition c_maxKnownCount : Z := 100000.
Definition c_maxKnownSize : Z := 128 * 1024 * 1024.
Definition c_maxUnknownCount : Z := 100000.
Definition c_maxUnknownSize : Z := 512 * 1024 * 1024.

Definition knownFull (q : BlockQueue) : bool := (c_maxKnownSize <? b_knownSize q) || (c_maxKnownCount <? b_knownCount q).
Definition unknownFull (q : BlockQueue) : bool :=
  (c_maxUnknownSize <? b_unknownSize q) || (c_maxUnknownCount <? b_unknownCount q).

(** [invariants] *)
Definition bq_invariants (q : BlockQueue) : bool :=
  Nat.eqb (size (b_readySet q)) (length (b_verified q) + length (b_unverified q) + length (b_verifying q)).

(** [blockStatus] *)
Definition blockStatus (h : bytes) (q : BlockQueue) : QueueStatus :=
  if decide (h ∈ b_readySet q) then QS_Ready
  else if decide (h ∈ b_drainingSet q) then QS_Importing
  else if decide (h ∈ b_unknownSet q) then QS_UnknownParent
  else if decide (h ∈ b_knownBad q) then QS_Bad
  else QS_Unknown.

(** [items], [firstUnknown] up to the order of the set, [status] *)
Definition bq_items (q : BlockQueue) : Z * Z :=
  (Z.of_nat (size (b_readySet q)), Z.of_nat (size (b_unknownSet q))).

Section BlockQueue.
Context (sha3 : bytes -> bytes) {BC : Type} `{!BlockVerifier BC}.

(** [info.hash()]; writing a header does not throw. *)
Definition hashOf (bi : BlockHeader) : bytes :=
  match header_hash sha3 bi WithSeal with Ok (h, _) => h | Throw _ => sha3 [] end.

Definition vb_info (b : VerifiedBlock) : BlockHeader := vr_info (vb_verified b).

(** ** Blocks whose parent is unknown *)

(** One element of the range in [collectUnknownBad_WITH_BOTH_LOCKS] *)
Definition condemnUnknown (e : bytes * (bytes * bytes)) (q : BlockQueue) : BlockQueue :=
  let q1 := add_unknown (- sizeZ e.2.2) (-1) q in
  set_sets (b_drainingSet q1) (b_readySet q1) (b_unknownSet q1 ∖ {[e.2.1]}) (b_knownBad q1 ∪ {[e.2.1]}) q1.

(** [collectUnknownBad_WITH_BOTH_LOCKS]; each round takes one hash from the queue
    and puts in one for each element that it takes from [m_unknown] *)
Fixpoint collectUnknownBad_loop (fuel : nat) (badQueue : list bytes) (q : BlockQueue) : BlockQueue :=
  match fuel, badQueue with
  | S f, b :: badQueue' =>
      let r := filter (fun e => e.1 = b) (b_unknown q) in
      let q1 := foldl (fun q e => condemnUnknown e q) q r in
      collectUnknownBad_loop f (badQueue' ++ ((fun e => e.2.1) <$> r))
        (set_waiting (filter (fun e => e.1 <> b) (b_unknown q1)) (b_future q1) q1)
  | _, _ => q
  end.
Definition collectUnknownBad (bad : bytes) (q : BlockQueue) : BlockQueue :=
  collectUnknownBad_loop (S (length (b_unknown q))) [bad] q.

(** One element of the range in [noteReady_WITH_LOCK] *)
Definition readyUnknown (e : bytes * (bytes * bytes)) (q : BlockQueue) : BlockQueue :=
  let q1 := set_stages (b_verified q) (b_verifying q) (b_unverified q ++ [mkUnverified e.2.1 e.1 e.2.2]) q in
  let q2 := add_unknown (- sizeZ e.2.2) (-1) (add_known (sizeZ e.2.2) 1 q1) in
  set_sets (b_drainingSet q2) (b_readySet q2 ∪ {[e.2.1]}) (b_unknownSet q2 ∖ {[e.2.1]}) (b_knownBad q2) q2.

(** [noteReady_WITH_LOCK] *)
Fixpoint noteReady_loop (fuel : nat) (goodQueue : list bytes) (q : BlockQueue) : BlockQueue :=
  match fuel, goodQueue with
  | S f, g :: goodQueue' =>
      let r := filter (fun e => e.1 = g) (b_unknown q) in
      let q1 := foldl (fun q e => readyUnknown e q) q r in
      noteReady_loop f (goodQueue' ++ ((fun e => e.2.1) <$> r))
        (set_waiting (filter (fun e => e.1 <> g) (b_unknown q1)) (b_future q1) q1)
  | _, _ => q
  end.
Definition noteReady (good : bytes) (q : BlockQueue) : BlockQueue :=
  noteReady_loop (S (length (b_unknown q))) [good] q.

(** [retryAllUnknown] *)
Definition retryUnknown (e : bytes * (bytes * bytes)) (q : BlockQueue) : BlockQueue :=
  let q1 := set_stages (b_verified q) (b_verifying q) (b_unverified q ++ [mkUnverified e.2.1 e.1 e.2.2]) q in
  let q2 := set_sets (b_drainingSet q1) (b_readySet q1 ∪ {[e.2.1]}) (b_unknownSet q1 ∖ {[e.2.1]}) (b_knownBad q1) q1 in
  add_known 0 1 q2.
Definition retryAllUnknown (q : BlockQueue) : BlockQueue :=
  let q1 := foldl (fun q e => retryUnknown e q) q (b_unknown q) in
  let q2 := add_known (b_unknownSize q1) 0 (set_waiting [] (b_future q1) q1) in
  add_unknown (- b_unknownSize q2) (- b_unknownCount q2) q2.

(** ** Condemning descendants *)

(** One of the three loops of [updateBad_WITH_LOCK]: keep an element or condemn it
    with the blocks that wait for it *)
Fixpoint sweep {A} (isBad : A -> gset bytes -> bool) (h : A -> bytes) (l keep : list A) (moreBad : bool) (q : BlockQueue)
  : list A * bool * BlockQueue :=
  match l with
  | [] => (keep, moreBad, q)
  | b :: l' =>
      if isBad b (b_knownBad q) then sweep isBad h l' keep true (collectUnknownBad (h b) (condemn (h b) q))
      else sweep isBad h l' (keep ++ [b]) moreBad q
  end.

Definition verifiedBad (b : VerifiedBlock) (bad : gset bytes) : bool :=
  bool_decide (h_parentHash (vb_info b) ∈ bad) || bool_decide (hashOf (vb_info b) ∈ bad).
Definition unverifiedBad (b : UnverifiedBlock) (bad : gset bytes) : bool :=
  bool_decide (ub_parentHash b ∈ bad) || bool_decide (ub_hash b ∈ bad).
Definition verifyingBad (b : VerifiedBlock) (bad : gset bytes) : bool :=
  bool_decide (h_parentHash (vb_info b) ∈ bad) || bool_decide (h_sha3Uncles (vb_info b) ∈ bad).

(** The hash of a block that is being verified: while it has no data, its header is
    a place holder with the hash in the field for the uncles *)
Definition verifyingHash (b : VerifiedBlock) : bytes :=
  if decide (vb_blockData b = []) then h_sha3Uncles (vb_info b) else hashOf (vb_info b).

(** One round of the loop of [updateBad_WITH_LOCK] *)
Definition updateBad_round (q : BlockQueue) : bool * BlockQueue :=
  let '(v, m1, q1) := sweep verifiedBad (fun b => hashOf (vb_info b)) (b_verified q) [] false q in
  let q1' := set_stages v (b_verifying q1) (b_unverified q1) q1 in
  let '(u, m2, q2) := sweep unverifiedBad ub_hash (b_unverified q1') [] m1 q1' in
  let q2' := set_stages (b_verified q2) (b_verifying q2) u q2 in
  let '(w, m3, q3) := sweep verifyingBad verifyingHash (b_verifying q2') [] m2 q2' in
  (m3, set_stages (b_verified q3) w (b_unverified q3) q3).

(** Each further round has removed an element. *)
Fixpoint updateBad_loop (fuel : nat) (q : BlockQueue) : BlockQueue :=
  match fuel with
  | O => q
  | S f => let '(moreBad, q1) := updateBad_round q in if moreBad then updateBad_loop f q1 else q1
  end.
Definition updateBad (bad : bytes) (q : BlockQueue) : BlockQueue :=
  let q1 := collectUnknownBad bad q in
  updateBad_loop (S (length (b_verified q1) + length (b_unverified q1) + length (b_verifying q1))) q1.

(** ** Verification *)

(** [drainVerified_WITH_BOTH_LOCKS] *)
Fixpoint drainVerified_loop (l : list VerifiedBlock) (q : BlockQueue) : BlockQueue :=
  match l with
  | [] => set_stages (b_verified q) [] (b_unverified q) q
  | b :: l' =>
      if decide (vb_blockData b = []) then set_stages (b_verified q) l (b_unverified q) q
      else drainVerified_loop l'
             (if decide (h_parentHash (vb_info b) ∈ b_knownBad q) then condemn (hashOf (vb_info b)) q
              else set_stages (b_verified q ++ [b]) (b_verifying q) (b_unverified q) q)
  end.
Definition drainVerified (q : BlockQueue) : BlockQueue := drainVerified_loop (b_verifying q) q.

(** The first half of a round of [verifierBody]: take a block, leave a place holder *)
Definition placeHolder (w : UnverifiedBlock) : VerifiedBlock :=
  headerOnly (setParentHash (ub_parentHash w) (setSha3Uncles (ub_hash w) newHeader)).
Definition verifierTake (q : BlockQueue) : BlockQueue :=
  match b_unverified q with
  | [] => q
  | work :: rest =>
      set_jobs (b_jobs q ++ [work])
        (set_stages (b_verified q) (b_verifying q ++ [placeHolder work]) rest q)
  end.

(** Erases, or replaces, the first place holder for a hash *)
Fixpoint eraseJob (h : bytes) (l : list VerifiedBlock) : list VerifiedBlock :=
  match l with
  | [] => []
  | b :: l' => if decide (h_sha3Uncles (vb_info b) = h) then l' else b :: eraseJob h l'
  end.
Fixpoint replaceJob (h : bytes) (res : VerifiedBlock) (l : list VerifiedBlock) : list VerifiedBlock :=
  match l with
  | [] => []
  | b :: l' => if decide (h_sha3Uncles (vb_info b) = h) then res :: l' else b :: replaceJob h res l'
  end.

(** The second half: the thread with job number [i] reports *)
Definition jobFailed (h : bytes) (q : BlockQueue) : BlockQueue :=
  let q1 := condemn h q in
  drainVerified (set_stages (b_verified q1) (eraseJob h (b_verifying q1)) (b_unverified q1) q1).
Definition jobVerified (h : bytes) (res : VerifiedBlock) (q : BlockQueue) : BlockQueue :=
  match b_verifying q with
  | b :: rest =>
      if decide (h_sha3Uncles (vb_info b) = h) then
        let q1 := set_stages (b_verified q) rest (b_unverified q) q in
        let q2 := if decide (h_parentHash (vb_info res) ∈ b_knownBad q1) then condemn (hashOf (vb_info res)) q1
                  else set_stages (b_verified q1 ++ [res]) (b_verifying q1) (b_unverified q1) q1 in
        notify BqReady (drainVerified q2)
      else set_stages (b_verified q) (replaceJob h res (b_verifying q)) (b_unverified q) q
  | [] => q
  end.
Definition verifierDone (bc : BC) (i : nat) (q : BlockQueue) : BlockQueue :=
  match b_jobs q !! i with
  | None => q
  | Some work =>
      let q1 := set_jobs (delete i (b_jobs q)) q in
      match verifyBlock bc (ub_block work) IR_OutOfOrderChecks with
      | Throw _ => jobFailed (ub_hash work) q1
      | Ok r => jobVerified (ub_hash work) (mkVerifiedBlock r (ub_block work)) q1
      end
  end.

(** ** Importing and draining *)

(** [m_future.insert]: behind the elements with the same key *)
Fixpoint insertFuture (t : Z) (x : bytes * bytes) (l : list (Z * (bytes * bytes))) : list (Z * (bytes * bytes)) :=
  match l with
  | [] => [(t, x)]
  | y :: l' => if t <? y.1 then (t, x) :: l else y :: insertFuture t x l'
  end.

(** The parent is neither ready, being imported nor in the chain *)
Definition unknownParent (bc : BC) (p : bytes) (q : BlockQueue) : bool :=
  negb (bool_decide (p ∈ b_readySet q)) && negb (bool_decide (p ∈ b_drainingSet q)) && negb (isKnown bc p).

(** The branches of [import] for a block that is coherent and new *)
Definition importNew (bc : BC) (now : Z) (h : bytes) (bi : BlockHeader) (block : bytes) (isOurs : bool) (q : BlockQueue)
  : ImportResult * BlockQueue :=
  if (now <? h_timestamp bi) && negb isOurs then
    let q1 := set_waiting (b_unknown q) (insertFuture (u32 (h_timestamp bi)) (h, block) (b_future q)) q in
    let q2 := add_unknown (sizeZ block) 1 q1 in
    let q3 := set_difficulties (u256 (b_difficulty q2 + h_difficulty bi)) (b_drainingDifficulty q2) q2 in
    (if unknownParent bc (h_parentHash bi) q3 then FutureTimeUnknown else FutureTimeKnown, q3)
  else if decide (h_parentHash bi ∈ b_knownBad q) then
    let q1 := set_sets (b_drainingSet q) (b_readySet q) (b_unknownSet q) (b_knownBad q ∪ {[hashOf bi]}) q in
    (BadChain, updateBad (hashOf bi) q1)
  else if unknownParent bc (h_parentHash bi) q then
    let q1 := set_waiting (b_unknown q ++ [(h_parentHash bi, (h, block))]) (b_future q) q in
    let q2 := set_sets (b_drainingSet q1) (b_readySet q1) (b_unknownSet q1 ∪ {[h]}) (b_knownBad q1) q1 in
    let q3 := add_unknown (sizeZ block) 1 q2 in
    (UnknownParent, set_difficulties (u256 (b_difficulty q3 + h_difficulty bi)) (b_drainingDifficulty q3) q3)
  else
    let q1 := set_stages (b_verified q) (b_verifying q) (b_unverified q ++ [mkUnverified h (h_parentHash bi) block]) q in
    let q2 := set_sets (b_drainingSet q1) (b_readySet q1 ∪ {[h]}) (b_unknownSet q1) (b_knownBad q1) q1 in
    let q3 := add_known (sizeZ block) 1 q2 in
    let q4 := set_difficulties (u256 (b_difficulty q3 + h_difficulty bi)) (b_drainingDifficulty q3) q3 in
    (Success, noteReady h q4).

(** [import(bytesConstRef, bool)] at the time [now] *)
Definition import_block (bc : BC) (now : Z) (block : bytes) (isOurs : bool) (q : BlockQueue)
  : hres (ImportResult * BlockQueue) :=
  h ← headerHashFromBlock sha3 block;
  if decide (h ∈ b_readySet q \/ h ∈ b_drainingSet q \/ h ∈ b_unknownSet q \/ h ∈ b_knownBad q) then Ok (AlreadyKnown, q)
  else
    match verifyBlock bc block IR_PostGenesis with
    | Throw HdrNoReturn => Throw HdrNoReturn
    | Throw _ => Ok (Malformed, q)
    | Ok r =>
        if isKnown bc h then Ok (AlreadyInChain, q)
        else Ok (importNew bc now h (vr_info r) block isOurs q)
    end.

(** [tick]; the key of [upper_bound] is an [unsigned] *)
Definition takeFuture (now : Z) (q : BlockQueue) : list (bytes * bytes) * BlockQueue :=
  let todo := filter (fun e => e.1 <= u32 now) (b_future q) in
  (todo.*2,
   set_waiting (b_unknown q) (filter (fun e => ~ e.1 <= u32 now) (b_future q))
     (foldl (fun q e => add_unknown (- sizeZ e.2.2) (-1) q) q todo)).
Fixpoint import_all (bc : BC) (now : Z) (todo : list (bytes * bytes)) (q : BlockQueue) : hres BlockQueue :=
  match todo with
  | [] => Ok q
  | b :: todo' => '(_, q1) ← import_block bc now b.2 false q; import_all bc now todo' q1
  end.
Definition tick (bc : BC) (now : Z) (q : BlockQueue) : hres BlockQueue :=
  match b_future q with
  | [] => Ok q
  | e :: _ => if now <? e.1 then Ok q else let '(todo, q1) := takeFuture now q in import_all bc now todo q1
  end.

(** One block of [drain] *)
Definition drainOne (b : VerifiedBlock) (q : BlockQueue) : BlockQueue :=
  let h := hashOf (vb_info b) in
  let q1 := set_sets (b_drainingSet q ∪ {[h]}) (b_readySet q ∖ {[h]}) (b_unknownSet q) (b_knownBad q) q in
  let q2 := set_difficulties (b_difficulty q1) (u256 (b_drainingDifficulty q1 + h_difficulty (vb_info b))) q1 in
  add_known (- sizeZ (vr_block (vb_verified b))) (-1) q2.
(** [drain]; the result is what [o_out] holds if it was empty *)
Definition drain (max : Z) (q : BlockQueue) : list VerifiedBlock * BlockQueue :=
  let wasFull := knownFull q in
  let '(out, q1) :=
    if decide (b_drainingSet q = ∅) then
      let q1 := set_difficulties (b_difficulty q) 0 q in
      let n := Z.to_nat (Z.min max (sizeZ (b_verified q1))) in
      let out := take n (b_verified q1) in
      (out, foldl (fun q b => drainOne b q) (set_stages (drop n (b_verified q1)) (b_verifying q1) (b_unverified q1) q1) out)
    else ([], q) in
  (out, if wasFull && negb (knownFull q1) then notify BqRoomAvailable q1 else q1).

(** [doneDrain] *)
Definition doneDrain (bad : list bytes) (q : BlockQueue) : bool * BlockQueue :=
  let q1 := set_sets ∅ (b_readySet q) (b_unknownSet q) (b_knownBad q) q in
  let q2 := set_difficulties (u256 (b_difficulty q1 - b_drainingDifficulty q1)) 0 q1 in
  let q3 :=
    if decide (bad = []) then q2
    else foldl (fun q b => updateBad b q)
           (set_sets (b_drainingSet q2) (b_readySet q2) (b_unknownSet q2) (b_knownBad q2 ∪ list_to_set bad) q2) bad in
  (negb (bool_decide (b_readySet q3 = ∅)), q3).

End BlockQueue.
