(* ===== verification/BlockQueueTheory.v ===== *)
(** * The block queue keeps its stages, sets and waiting blocks consistent

    The blocks in the three stages of verification form one sequence of hashes with
    parents, [entries].  [Sets] says what holds of the sequence, of the sets of
    hashes and of the chain; [Stages] says that the elements are genuine.  Every
    step of the operations takes an element out of the sequence, puts one at its
    end or leaves it alone. *)

From Stdlib Require Import ZArith Lia.
From stdpp Require Import base list list_numbers option gmap.
From S2P Require Import Prelude CommonData RLP FixedHash Transaction BlockHeader Elhash TransactionQueue BlockQueue.

(** Reads the fields of an updated queue *)
Ltac bfields := cbn [b_drainingSet b_readySet b_unknownSet b_unknown b_knownBad b_future b_verified b_verifying b_unverified
  b_unknownSize b_knownSize b_unknownCount b_knownCount b_difficulty b_drainingDifficulty b_jobs b_events set_sets set_waiting
  set_stages add_unknown add_known set_difficulties set_jobs notify condemn].

(** Membership in the sets of hashes *)
Ltac rsets := repeat (progress rewrite ?elem_of_union, ?elem_of_difference, ?elem_of_singleton, ?elem_of_list_to_set, ?elem_of_empty).

(** What the queue relies on: a verified block is the one asked about, not empty;
    its header and the hash of its header are determined by its bytes; and no
    header has the hash of a list of uncles. *)
Class BlockVerifierLaws (sha3 : bytes -> bytes) (BC : Type) `{!BlockVerifier BC} := {
  verify_block bc b ir r : verifyBlock bc b ir = Ok r -> vr_block r = b /\ b <> [];
  verify_info bc bc' b ir ir' r r' : verifyBlock bc b ir = Ok r -> verifyBlock bc' b ir' = Ok r' -> vr_info r = vr_info r';
  verify_hash bc b ir r h : verifyBlock bc b ir = Ok r -> headerHashFromBlock sha3 b = Ok h -> hashOf sha3 (vr_info r) = h;
  verify_uncles bc bc' b b' ir ir' r r' :
    verifyBlock bc b ir = Ok r -> verifyBlock bc' b' ir' = Ok r' -> h_sha3Uncles (vr_info r) <> hashOf sha3 (vr_info r')
}.

Section Theory.
Context (sha3 : bytes -> bytes) {BC : Type} `{HBV : !BlockVerifier BC} `{!BlockVerifierLaws sha3 BC}.
Abbreviation hashOf := (hashOf sha3).
Abbreviation verifyingHash := (verifyingHash sha3).

(** ** The sequence of blocks in verification *)

Definition entryV (b : VerifiedBlock) : bytes * bytes := (hashOf (vb_info b), h_parentHash (vb_info b)).
Definition entryW (b : VerifiedBlock) : bytes * bytes := (verifyingHash b, h_parentHash (vb_info b)).
Definition entryU (u : UnverifiedBlock) : bytes * bytes := (ub_hash u, ub_parentHash u).
Definition entries (v w : list VerifiedBlock) (u : list UnverifiedBlock) : list (bytes * bytes) :=
  (entryV <$> v) ++ (entryW <$> w) ++ (entryU <$> u).

(** A block with its hash and its parent *)
Definition genuine (h p b : bytes) : Prop :=
  exists bc ir r, verifyBlock bc b ir = Ok r /\ hashOf (vr_info r) = h /\ h_parentHash (vr_info r) = p.
Definition genuineU (u : UnverifiedBlock) : Prop := genuine (ub_hash u) (ub_parentHash u) (ub_block u).
Definition genuineE (e : bytes * (bytes * bytes)) : Prop := genuine e.2.1 e.1 e.2.2.
Definition finished (b : VerifiedBlock) : Prop :=
  vb_blockData b <> [] /\ exists bc ir, verifyBlock bc (vb_blockData b) ir = Ok (vb_verified b).

(** *** The sequence and the sets *)

(** Each parent in a sequence is in [base] or comes before. *)
Fixpoint linked (base : bytes -> Prop) (s : list (bytes * bytes)) : Prop :=
  match s with
  | [] => True
  | e :: s' => base e.2 /\ linked (fun x => base x \/ x = e.1) s'
  end.

Lemma linked_mono (base base' : bytes -> Prop) s : (forall x, base x -> base' x) -> linked base s -> linked base' s.
Proof. revert base base'. induction s as [|e s IH]; cbn; intros base base' Hb; [done|].
  intros [H1 H2]. split; [auto|]. eapply IH, H2. intros x [?|?]; auto.
Qed.

Lemma linked_app base s1 s2 : linked base (s1 ++ s2) <-> linked base s1 /\ linked (fun x => base x \/ x ∈ s1.*1) s2.
Proof.
  revert base. induction s1 as [|e s1 IH]; intros base; cbn.
  - split; [intros H; split; [done|]|intros [_ H]]; revert H; apply linked_mono; intros x;
      rewrite elem_of_nil; tauto.
  - rewrite IH. assert (linked (fun x => (base x \/ x = e.1) \/ x ∈ s1.*1) s2 <-> linked (fun x => base x \/ x ∈ e.1 :: s1.*1) s2)
      as ->; [|tauto]. split; apply linked_mono; intros x; rewrite elem_of_cons; tauto.
Qed.

Lemma linked_split base s1 h p s2 : linked base (s1 ++ (h, p) :: s2) -> base p \/ p ∈ s1.*1.
Proof. rewrite linked_app. cbn. tauto. Qed.

Definition settledHash (bc : BC) (q : BlockQueue) (x : bytes) : Prop :=
  isKnown bc x = true \/ x ∈ b_drainingSet q \/ x ∈ b_knownBad q.

(** [r] is whether [retryAllUnknown] has put in blocks without regard to order; [X]
    are the bad hashes whose waiting children are still to be condemned. *)
Record Sets (r : bool) (bc : BC) (s : list (bytes * bytes)) (k : list (bytes * (bytes * bytes))) (X : gset bytes)
  (q : BlockQueue) : Prop := {
  s_nodup : NoDup s.*1;
  s_ready h : h ∈ b_readySet q <-> h ∈ s.*1;
  s_unodup : NoDup k.*2.*1;
  s_unknown h : h ∈ b_unknownSet q <-> h ∈ k.*2.*1;
  s_disj h : (h ∈ b_readySet q -> h ∉ b_drainingSet q /\ h ∉ b_unknownSet q /\ h ∉ b_knownBad q) /\
             (h ∈ b_unknownSet q -> h ∉ b_drainingSet q /\ h ∉ b_knownBad q) /\
             (h ∈ b_drainingSet q -> h ∉ b_knownBad q);
  s_wait e : e ∈ k -> e.1 ∉ b_readySet q /\ e.1 ∉ b_drainingSet q /\ (e.1 ∈ b_knownBad q -> e.1 ∈ X);
  s_chain h : isKnown bc h = true -> h ∉ b_readySet q /\ h ∉ b_unknownSet q /\ h ∉ b_knownBad q;
  s_order : r = false -> linked (settledHash bc q) s
}.

(** *** The elements *)
Record Stages (v w : list VerifiedBlock) (u : list UnverifiedBlock) (k : list (bytes * (bytes * bytes))) (q : BlockQueue)
  : Prop := {
  i_v : Forall finished v;
  i_w : Forall (fun b => finished b \/ exists j, j ∈ b_jobs q /\ b = placeHolder j) w;
  i_u : Forall genuineU u;
  i_k : Forall genuineE k;
  i_jobs : Forall genuineU (b_jobs q) /\ NoDup (ub_hash <$> b_jobs q);
  i_held j : j ∈ b_jobs q -> placeHolder j ∈ w \/ ub_hash j ∈ b_knownBad q
}.

(** No verified block has a bad parent. *)
Definition goodParents (v : list VerifiedBlock) (q : BlockQueue) : Prop :=
  forall b, b ∈ v -> h_parentHash (vb_info b) ∉ b_knownBad q.

Record Inv (r : bool) (bc : BC) (q : BlockQueue) : Prop := {
  inv_sets : Sets r bc (entries (b_verified q) (b_verifying q) (b_unverified q)) (b_unknown q) ∅ q;
  inv_stages : Stages (b_verified q) (b_verifying q) (b_unverified q) (b_unknown q) q;
  inv_good : r = false -> goodParents (b_verified q) q
}.

Lemma entryW_placeHolder j : entryW (placeHolder j) = entryU j.
Proof. done. Qed.

Lemma entryW_finished b : finished b -> entryW b = entryV b.
Proof. intros [Hb _]. unfold entryW, entryV, BlockQueue.verifyingHash. by rewrite decide_False. Qed.

(** The check that the code makes *)
Lemma Inv_invariants r bc q : Inv r bc q -> bq_invariants q = true.
Proof.
  intros Hi. unfold bq_invariants. set (s := entries (b_verified q) (b_verifying q) (b_unverified q)).
  assert (b_readySet q = list_to_set s.*1) as ->.
  { apply set_eq. intros h. rewrite elem_of_list_to_set. apply (s_ready _ _ _ _ _ _ (inv_sets _ _ _ Hi)). }
  rewrite size_list_to_set by apply (s_nodup _ _ _ _ _ _ (inv_sets _ _ _ Hi)).
  subst s. unfold entries. rewrite length_fmap, !length_app, !length_fmap. apply Nat.eqb_eq. lia.
Qed.

Lemma Inv_new r bc : Inv r bc newBlockQueue.
Proof.
  split; [split|split|]; bfields; cbn; try set_solver.
  all: repeat constructor.
Qed.

(** The fields that [Sets] and [Stages] read *)
Definition seen (q : BlockQueue) := (b_readySet q, b_drainingSet q, b_unknownSet q, b_knownBad q, b_jobs q).
Lemma Sets_seen r bc s k X q q' : seen q' = seen q -> Sets r bc s k X q -> Sets r bc s k X q'.
Proof.
  intros E []. injection E as E1 E2 E3 E4 E5. split; unfold settledHash in *; rewrite ?E1, ?E2, ?E3, ?E4, ?E5; done.
Qed.
Lemma Stages_seen v w u k q q' : seen q' = seen q -> Stages v w u k q -> Stages v w u k q'.
Proof. intros E []. injection E as E1 E2 E3 E4 E5. split; rewrite ?E4, ?E5; done. Qed.

Lemma Sets_perm r bc s k k' X q : k ≡ₚ k' -> Sets r bc s k X q -> Sets r bc s k' X q.
Proof.
  intros Hp []. split; try done.
  - by rewrite <- Hp.
  - intros h. by rewrite <- Hp.
  - intros e. rewrite <- Hp. auto.
Qed.

(** ** Taking an element out, and condemning it *)

Lemma Sets_condemn r bc s1 h p s2 k X q :
  Sets r bc (s1 ++ (h, p) :: s2) k X q -> Sets r bc (s1 ++ s2) k X (condemn h q).
Proof.
  intros []. rewrite fmap_app, fmap_cons in s_nodup0. cbn in s_nodup0.
  apply NoDup_app in s_nodup0 as (N1 & N2 & N3). apply list.NoDup_cons in N3 as [N3 N4].
  assert (Hr : forall x, x ∈ (s1 ++ s2).*1 <-> x ∈ (s1 ++ (h, p) :: s2).*1 /\ x <> h).
  { intros x. rewrite !fmap_app, fmap_cons, !elem_of_app, elem_of_cons. cbn. set_solver. }
  assert (Hh : h ∈ b_readySet q) by (apply s_ready0; rewrite fmap_app, fmap_cons; set_solver).
  split; bfields; try done.
  - rewrite fmap_app. apply NoDup_app. split_and!; [done| |done]. intros x Hx Hx'. apply (N2 x Hx), elem_of_cons. by right.
  - intros x. rewrite Hr, <- s_ready0. rsets. tauto.
  - intros x. specialize (s_disj0 x). set_solver.
  - intros e He. specialize (s_wait0 e He). set_solver.
  - intros x Hx. specialize (s_chain0 x Hx). set_solver.
  - intros Hro. specialize (s_order0 Hro). apply linked_app in s_order0 as [Ho1 [Hp Ho2]].
    apply linked_app. unfold settledHash. bfields. split; [eapply linked_mono, Ho1|eapply linked_mono, Ho2];
      unfold settledHash; set_solver.
Qed.

(** The condemned children of [X] leave the waiting blocks. *)
Lemma Sets_collect r bc s k X X' q rem k' :
  Sets r bc s k X q -> k ≡ₚ rem ++ k' ->
  (forall e, e ∈ k' -> e.1 ∈ X -> e.1 ∈ X') -> (forall e, e ∈ k' -> e.1 ∉ rem.*2.*1) ->
  forall q', b_readySet q' = b_readySet q -> b_drainingSet q' = b_drainingSet q ->
  b_unknownSet q' = b_unknownSet q ∖ list_to_set rem.*2.*1 -> b_knownBad q' = b_knownBad q ∪ list_to_set rem.*2.*1 ->
  Sets r bc s k' X' q'.
Proof.
  intros Hs Hk HX Hrem q' E1 E2 E3 E4. apply (Sets_perm _ _ _ _ _ _ _ Hk) in Hs. destruct Hs.
  rewrite !fmap_app in *. apply NoDup_app in s_unodup0 as (N1 & N2 & N3).
  split; rewrite ?E1, ?E2, ?E3, ?E4; try done.
  - intros h. specialize (s_unknown0 h). specialize (N2 h). rewrite elem_of_app in s_unknown0. rsets. tauto.
  - intros h. specialize (s_unknown0 h). specialize (s_disj0 h). rewrite elem_of_app in s_unknown0. rsets. tauto.
  - intros e He. specialize (s_wait0 e). specialize (HX e He). specialize (Hrem e He).
    rewrite elem_of_app in s_wait0. rsets. tauto.
  - intros h Hh. specialize (s_unknown0 h). specialize (s_chain0 h Hh). rewrite elem_of_app in s_unknown0. rsets. tauto.
  - intros Hro. eapply linked_mono, s_order0, Hro. unfold settledHash. rewrite E2, E4. intros x. rsets. tauto.
Qed.
(** ** Spreading through the waiting blocks

    [collectUnknownBad] and [noteReady] search the waiting blocks breadth first: the
    blocks found come out in an order in which children follow their parents. *)
Fixpoint spread (fuel : nat) (todo : list bytes) (k : list (bytes * (bytes * bytes)))
  : list (bytes * (bytes * bytes)) * list (bytes * (bytes * bytes)) :=
  match fuel, todo with
  | S f, b :: todo' =>
      let r := filter (fun e => e.1 = b) k in
      let rk := spread f (todo' ++ ((fun e => e.2.1) <$> r)) (filter (fun e => e.1 <> b) k) in
      (r ++ rk.1, rk.2)
  | _, _ => ([], k)
  end.

Definition children (r : list (bytes * (bytes * bytes))) : list (bytes * bytes) := (fun e => (e.2.1, e.1)) <$> r.

Lemma children_hashes r : (children r).*1 = r.*2.*1.
Proof. unfold children. rewrite <- !list_fmap_compose. done. Qed.

Lemma spread_perm fuel : forall todo k, k ≡ₚ (spread fuel todo k).1 ++ (spread fuel todo k).2.
Proof.
  induction fuel as [|f IH]; intros [|b todo] k; cbn; try done.
  rewrite <- app_assoc, <- IH. clear. induction k as [|e k IHk]; [done|].
  rewrite !filter_cons. destruct (decide (e.1 = b)) as [He|He].
  - rewrite decide_False by tauto. cbn. by rewrite <- IHk.
  - rewrite decide_True by done. rewrite <- Permutation_middle. by rewrite <- IHk.
Qed.

Lemma spread_linked fuel : forall todo k, linked (fun x => x ∈ todo) (children (spread fuel todo k).1).
Proof.
  induction fuel as [|f IH]; intros [|b todo] k; cbn; try done.
  unfold children. rewrite fmap_app. apply linked_app. split.
  - assert (Forall (fun e => e.1 = b) (filter (fun e => e.1 = b) k)) as Hf.
    { apply list.Forall_forall. intros e He. apply list_elem_of_filter in He. tauto. }
    clear IH. revert Hf. generalize (filter (fun e : bytes * (bytes * bytes) => e.1 = b) k) as l. intros l Hf.
    assert (forall base : bytes -> Prop, base b -> linked base ((fun e => (e.2.1, e.1)) <$> l)) as Hl.
    { induction Hf as [|e l He Hf IH]; intros base Hb; cbn; [done|]. rewrite He. auto. }
    apply Hl. set_solver.
  - eapply linked_mono, IH. intros x. rewrite elem_of_app, elem_of_cons.
    rewrite <- !list_fmap_compose. intros [?|?]; [tauto|]. right. done.
Qed.

Lemma spread_closed fuel : forall todo k, (length todo + length k <= fuel)%nat ->
  forall e, e ∈ (spread fuel todo k).2 -> e.1 ∉ todo /\ e.1 ∉ (spread fuel todo k).1.*2.*1.
Proof.
  induction fuel as [|f IH]; intros [|b todo] k Hf e; cbn.
  - destruct k; cbn in *; [set_solver|lia].
  - cbn in Hf. lia.
  - set_solver.
  - assert (Hl : (length (filter (fun e : bytes * (bytes * bytes) => e.1 = b) k) +
                  length (filter (fun e : bytes * (bytes * bytes) => e.1 <> b) k) = length k)%nat).
    { clear. induction k as [|x k IHk]; [done|]. rewrite !filter_cons. destruct (decide (x.1 = b)) as [Hx|Hx].
      - rewrite decide_False by tauto. cbn. lia.
      - rewrite decide_True by done. cbn. lia. }
    intros He. pose proof He as Hi. apply IH in Hi as [H1 H2]; [|rewrite length_app, length_fmap; cbn in Hf; lia].
    assert (Hk : e ∈ filter (fun e : bytes * (bytes * bytes) => e.1 <> b) k).
    { rewrite (spread_perm f (todo ++ ((fun e => e.2.1) <$> filter (fun e => e.1 = b) k))).
      apply elem_of_app. by right. }
    apply list_elem_of_filter in Hk as [Hk _].
    rewrite !fmap_app, !elem_of_app, elem_of_cons.
    rewrite elem_of_app in H1. rewrite <- (list_fmap_compose snd fst). tauto.
Qed.

(** The loop that both operations are *)
Definition spread_loop (op : bytes * (bytes * bytes) -> BlockQueue -> BlockQueue) :=
  fix loop (fuel : nat) (todo : list bytes) (q : BlockQueue) : BlockQueue :=
  match fuel, todo with
  | S f, b :: todo' =>
      let r := filter (fun e => e.1 = b) (b_unknown q) in
      let q1 := foldl (fun q e => op e q) q r in
      loop f (todo' ++ ((fun e => e.2.1) <$> r))
        (set_waiting (filter (fun e => e.1 <> b) (b_unknown q1)) (b_future q1) q1)
  | _, _ => q
  end.

Lemma set_waiting_same q : set_waiting (b_unknown q) (b_future q) q = q.
Proof. by destruct q. Qed.

Lemma spread_loop_eq op fuel :
  (forall e k f q, op e (set_waiting k f q) = set_waiting k f (op e q)) ->
  (forall e q, b_unknown (op e q) = b_unknown q /\ b_future (op e q) = b_future q) ->
  forall todo q,
  spread_loop op fuel todo q =
    set_waiting (spread fuel todo (b_unknown q)).2 (b_future q) (foldl (fun q e => op e q) q (spread fuel todo (b_unknown q)).1).
Proof.
  intros Hc Hn.
  assert (Hfc : forall l k f q, foldl (fun q e => op e q) (set_waiting k f q) l = set_waiting k f (foldl (fun q e => op e q) q l)).
  { induction l as [|e l IHl]; intros k f q; cbn; [done|]. by rewrite Hc, IHl. }
  assert (Hfn : forall l q, b_unknown (foldl (fun q e => op e q) q l) = b_unknown q /\
                            b_future (foldl (fun q e => op e q) q l) = b_future q).
  { induction l as [|e l IHl]; intros q; cbn; [done|]. destruct (IHl (op e q)) as [-> ->]. apply Hn. }
  induction fuel as [|f IH]; intros [|b todo] q; cbn; rewrite ?set_waiting_same; try done.
  rewrite IH. bfields. destruct (Hfn (filter (fun e => e.1 = b) (b_unknown q)) q) as [-> ->].
  rewrite Hfc, foldl_app. done.
Qed.

(** What the two searches do to the queue: [rem] leaves the waiting blocks. *)
Definition searched (h : bytes) (k rem k' : list (bytes * (bytes * bytes))) : Prop :=
  k ≡ₚ rem ++ k' /\ linked (fun x => x = h) (children rem) /\ forall e, e ∈ k' -> e.1 <> h /\ e.1 ∉ rem.*2.*1.

Lemma spread_searched h k : searched h k (spread (S (length k)) [h] k).1 (spread (S (length k)) [h] k).2.
Proof.
  split_and!.
  - apply spread_perm.
  - eapply linked_mono, spread_linked. cbn. set_solver.
  - intros e He. apply spread_closed in He; [set_solver|cbn; lia].
Qed.

Lemma searched_nil h k rem k' : (forall e, e ∈ k -> e.1 <> h) -> searched h k rem k' -> rem = [].
Proof.
  intros Hk (Hp & Hl & _). destruct rem as [|e rem]; [done|]. destruct Hl as [Hl _].
  destruct (Hk e); [|done]. rewrite Hp. set_solver.
Qed.

Lemma condemnUnknown_fold rem : forall q,
  let q' := foldl (fun q e => condemnUnknown e q) q rem in
  b_readySet q' = b_readySet q /\ b_drainingSet q' = b_drainingSet q /\
  b_unknownSet q' = b_unknownSet q ∖ list_to_set rem.*2.*1 /\ b_knownBad q' = b_knownBad q ∪ list_to_set rem.*2.*1 /\
  b_jobs q' = b_jobs q /\ b_verified q' = b_verified q /\ b_verifying q' = b_verifying q /\
  b_unverified q' = b_unverified q.
Proof.
  induction rem as [|e rem IH]; intros q; cbn; [split_and!; try done; set_solver|].
  destruct (IH (condemnUnknown e q)) as (E1 & E2 & E3 & E4 & E5 & E6 & E7 & E8).
  rewrite E1, E2, E3, E4, E5, E6, E7, E8. unfold condemnUnknown. bfields.
  split_and!; try done; apply set_eq; intros x; rsets; rewrite ?elem_of_cons; tauto.
Qed.

Lemma collectUnknownBad_spec h q : exists rem k',
  let q' := collectUnknownBad h q in
  searched h (b_unknown q) rem k' /\ b_unknown q' = k' /\
  b_readySet q' = b_readySet q /\ b_drainingSet q' = b_drainingSet q /\
  b_unknownSet q' = b_unknownSet q ∖ list_to_set rem.*2.*1 /\ b_knownBad q' = b_knownBad q ∪ list_to_set rem.*2.*1 /\
  b_jobs q' = b_jobs q /\ b_verified q' = b_verified q /\ b_verifying q' = b_verifying q /\
  b_unverified q' = b_unverified q.
Proof.
  set (rk := spread (S (length (b_unknown q))) [h] (b_unknown q)). exists rk.1, rk.2. cbv zeta.
  change (collectUnknownBad h q) with (spread_loop condemnUnknown (S (length (b_unknown q))) [h] q).
  rewrite (spread_loop_eq condemnUnknown) by done.
  bfields. split; [apply spread_searched|]. split; [done|]. apply condemnUnknown_fold.
Qed.

Lemma readyUnknown_fold rem : forall q,
  let q' := foldl (fun q e => readyUnknown e q) q rem in
  b_readySet q' = b_readySet q ∪ list_to_set rem.*2.*1 /\ b_drainingSet q' = b_drainingSet q /\
  b_unknownSet q' = b_unknownSet q ∖ list_to_set rem.*2.*1 /\ b_knownBad q' = b_knownBad q /\
  b_jobs q' = b_jobs q /\ b_verified q' = b_verified q /\ b_verifying q' = b_verifying q /\
  b_unverified q' = b_unverified q ++ ((fun e => mkUnverified e.2.1 e.1 e.2.2) <$> rem).
Proof.
  induction rem as [|e rem IH]; intros q; cbn; [rewrite app_nil_r; split_and!; try done; set_solver|].
  destruct (IH (readyUnknown e q)) as (E1 & E2 & E3 & E4 & E5 & E6 & E7 & E8).
  rewrite E1, E2, E3, E4, E5, E6, E7, E8. unfold readyUnknown. bfields. rewrite <- app_assoc.
  split_and!; try done; apply set_eq; intros x; rsets; rewrite ?elem_of_cons; tauto.
Qed.

Lemma noteReady_spec h q : exists rem k',
  let q' := noteReady h q in
  searched h (b_unknown q) rem k' /\ b_unknown q' = k' /\
  b_readySet q' = b_readySet q ∪ list_to_set rem.*2.*1 /\ b_drainingSet q' = b_drainingSet q /\
  b_unknownSet q' = b_unknownSet q ∖ list_to_set rem.*2.*1 /\ b_knownBad q' = b_knownBad q /\
  b_jobs q' = b_jobs q /\ b_verified q' = b_verified q /\ b_verifying q' = b_verifying q /\
  b_unverified q' = b_unverified q ++ ((fun e => mkUnverified e.2.1 e.1 e.2.2) <$> rem).
Proof.
  set (rk := spread (S (length (b_unknown q))) [h] (b_unknown q)). exists rk.1, rk.2. cbv zeta.
  change (noteReady h q) with (spread_loop readyUnknown (S (length (b_unknown q))) [h] q).
  rewrite (spread_loop_eq readyUnknown) by done.
  bfields. split; [apply spread_searched|]. split; [done|]. apply readyUnknown_fold.
Qed.

(** ** [collectUnknownBad] in the invariant *)
Lemma Sets_collectUnknownBad r bc s X q h :
  Sets r bc s (b_unknown q) X q ->
  Sets r bc s (b_unknown (collectUnknownBad h q)) (X ∖ {[h]}) (collectUnknownBad h q).
Proof.
  intros Hs. destruct (collectUnknownBad_spec h q) as (rem & k' & (Hp & Hl & Hc) & -> & E1 & E2 & E3 & E4 & _).
  eapply Sets_collect; eauto.
  - intros e He HX. specialize (Hc e He). set_solver.
  - intros e He. by apply Hc.
Qed.

Lemma Stages_collectUnknownBad v w u q h :
  Stages v w u (b_unknown q) q -> Stages v w u (b_unknown (collectUnknownBad h q)) (collectUnknownBad h q).
Proof.
  intros []. destruct (collectUnknownBad_spec h q) as (rem & k' & (Hp & Hl & Hc) & -> & E1 & E2 & E3 & E4 & E5 & _).
  split; rewrite ?E4, ?E5; try done.
  - rewrite Hp in i_k0. apply list.Forall_app in i_k0. apply i_k0.
  - intros j Hj. destruct (i_held0 j Hj); set_solver.
Qed.

(** ** The sweeps of [updateBad] *)

Definition Core (r : bool) (bc : BC) (q : BlockQueue) : Prop :=
  Sets r bc (entries (b_verified q) (b_verifying q) (b_unverified q)) (b_unknown q) ∅ q /\
  Stages (b_verified q) (b_verifying q) (b_unverified q) (b_unknown q) q.

Definition stagesOf (q : BlockQueue) := (b_verified q, b_verifying q, b_unverified q).

Definition condemnAll (h : bytes) (q : BlockQueue) : BlockQueue := collectUnknownBad h (condemn h q).

Lemma condemnAll_fields h q :
  stagesOf (condemnAll h q) = stagesOf q /\ b_jobs (condemnAll h q) = b_jobs q /\
  b_knownBad q ∪ {[h]} ⊆ b_knownBad (condemnAll h q).
Proof.
  unfold condemnAll, stagesOf.
  destruct (collectUnknownBad_spec h (condemn h q)) as (rem & k' & _ & _ & E1 & E2 & E3 & E4 & E5 & E6 & E7 & E8).
  rewrite E4, E5, E6, E7, E8. bfields. set_solver.
Qed.

Lemma Sets_condemnAll r bc s1 h p s2 q :
  Sets r bc (s1 ++ (h, p) :: s2) (b_unknown q) ∅ q ->
  Sets r bc (s1 ++ s2) (b_unknown (condemnAll h q)) ∅ (condemnAll h q).
Proof.
  intros Hs. replace (∅ : gset bytes) with (∅ ∖ {[h]} : gset bytes) by set_solver.
  apply Sets_collectUnknownBad. bfields. by eapply Sets_condemn.
Qed.

Lemma Stages_condemn v w u k v' w' u' q h :
  Stages v w u k q -> v' ⊆ v -> w' ⊆ w -> u' ⊆ u ->
  (forall j, placeHolder j ∈ w -> placeHolder j ∈ w' \/ ub_hash j = h) -> Stages v' w' u' k (condemn h q).
Proof.
  intros [] Hv Hw Hu Hj. split; bfields; try done.
  - eapply list.Forall_forall. intros b Hb. by eapply list.Forall_forall, Hv.
  - eapply list.Forall_forall. intros b Hb. by eapply (proj1 (list.Forall_forall _ _) i_w0), Hw.
  - eapply list.Forall_forall. intros b Hb. by eapply list.Forall_forall, Hu.
  - intros j Hin. destruct (i_held0 j Hin) as [Hp|Hb]; [|set_solver]. destruct (Hj j Hp); set_solver.
Qed.

Lemma Stages_condemnAll v w u v' w' u' q h :
  Stages v w u (b_unknown q) q -> v' ⊆ v -> w' ⊆ w -> u' ⊆ u ->
  (forall j, placeHolder j ∈ w -> placeHolder j ∈ w' \/ ub_hash j = h) ->
  Stages v' w' u' (b_unknown (condemnAll h q)) (condemnAll h q).
Proof. intros. apply Stages_collectUnknownBad. bfields. by eapply Stages_condemn. Qed.

(** What a sweep keeps and drops *)
Lemma sweep_ind {A} (isBad : A -> gset bytes -> bool) (h : A -> bytes) (P : list A -> BlockQueue -> Prop) :
  (forall l1 b l2 q, P (l1 ++ b :: l2) q -> P (l1 ++ l2) (condemnAll (h b) q)) ->
  forall l keep m q, P (keep ++ l) q ->
  let '(keep', _, q') := sweep isBad h l keep m q in P keep' q' /\ stagesOf q' = stagesOf q.
Proof.
  intros HP. induction l as [|b l IH]; intros keep m q Hp; cbn.
  - rewrite app_nil_r in Hp. done.
  - destruct (isBad b (b_knownBad q)).
    + specialize (IH keep true (condemnAll (h b) q) (HP _ _ _ _ Hp)).
      unfold condemnAll in IH. destruct (sweep _ _ _ _ _ _) as [[keep' m'] q']. destruct IH as [IH1 IH2].
      split; [done|]. rewrite IH2. apply (condemnAll_fields (h b) q).
    + apply IH. by rewrite <- app_assoc.
Qed.

Lemma sweep_stages {A} (isBad : A -> gset bytes -> bool) (h : A -> bytes) l keep m q :
  stagesOf (sweep isBad h l keep m q).2 = stagesOf q.
Proof.
  pose proof (sweep_ind isBad h (fun _ _ => True) ltac:(done) l keep m q I) as Hs.
  destruct (sweep _ _ _ _ _ _) as [[keep' m'] q']. apply Hs.
Qed.

(** A sweep that found nothing changed nothing; otherwise it dropped an element. *)
Lemma sweep_result {A} (isBad : A -> gset bytes -> bool) (h : A -> bytes) l :
  forall keep m q, let '(keep', m', q') := sweep isBad h l keep m q in
  (m' = false -> m = false /\ keep' = keep ++ l /\ q' = q /\ Forall (fun b => isBad b (b_knownBad q) = false) l) /\
  (length keep' <= length keep + length l)%nat /\ (m = false -> m' = true -> length keep' < length keep + length l)%nat.
Proof.
  induction l as [|b l IH]; intros keep m q; cbn.
  - rewrite app_nil_r. split_and!; [done|lia|congruence].
  - destruct (isBad b (b_knownBad q)) eqn:Eb.
    + specialize (IH keep true (collectUnknownBad (h b) (condemn (h b) q))).
      destruct (sweep _ _ _ _ _ _) as [[keep' m'] q']. destruct IH as (IH1 & IH2 & IH3).
      split_and!; [intros ->; by destruct IH1|lia|lia].
    + specialize (IH (keep ++ [b]) m q). destruct (sweep _ _ _ _ _ _) as [[keep' m'] q'].
      rewrite length_app in IH. cbn in IH. destruct IH as (IH1 & IH2 & IH3). split_and!; [|lia|intros; specialize (IH3 ltac:(done) ltac:(done)); lia].
      intros Hm. destruct (IH1 Hm) as (-> & -> & -> & Hf). rewrite <- app_assoc. by split_and!; [..|constructor].
Qed.

Lemma Core_set_stages r bc v w u q :
  Core r bc (set_stages v w u q) <-> Sets r bc (entries v w u) (b_unknown q) ∅ q /\ Stages v w u (b_unknown q) q.
Proof.
  unfold Core. bfields. split; (intros [H1 H2]; split; [eapply Sets_seen, H1; done|eapply Stages_seen, H2; done]).
Qed.

(** One element out of each stage *)
Lemma drop_verified r bc l1 b l2 w u q :
  Core r bc (set_stages (l1 ++ b :: l2) w u q) ->
  Core r bc (set_stages (l1 ++ l2) w u (condemnAll (hashOf (vb_info b)) q)).
Proof.
  rewrite !Core_set_stages. intros [Hs Ht]. split.
  - unfold entries in *. rewrite fmap_app, <- app_assoc. rewrite fmap_app, fmap_cons, <- app_assoc in Hs.
    cbn [app] in Hs. by eapply Sets_condemnAll.
  - eapply Stages_condemnAll; [exact Ht|set_solver..].
Qed.
Lemma drop_verifying r bc v l1 b l2 u q :
  Core r bc (set_stages v (l1 ++ b :: l2) u q) ->
  Core r bc (set_stages v (l1 ++ l2) u (condemnAll (verifyingHash b) q)).
Proof.
  rewrite !Core_set_stages. intros [Hs Ht]. split.
  - unfold entries in *. rewrite fmap_app, <- app_assoc, app_assoc. rewrite fmap_app, fmap_cons, <- app_assoc, app_assoc in Hs.
    cbn [app] in Hs. by eapply Sets_condemnAll.
  - eapply Stages_condemnAll; [exact Ht|set_solver..|].
    intros j. rewrite !elem_of_app, elem_of_cons. intros [?|[<-|?]]; auto.
Qed.
Lemma drop_unverified r bc v w l1 b l2 q :
  Core r bc (set_stages v w (l1 ++ b :: l2) q) ->
  Core r bc (set_stages v w (l1 ++ l2) (condemnAll (ub_hash b) q)).
Proof.
  rewrite !Core_set_stages. intros [Hs Ht]. split.
  - unfold entries in *. rewrite fmap_app, !app_assoc. rewrite fmap_app, fmap_cons, !app_assoc in Hs.
    by eapply Sets_condemnAll.
  - eapply Stages_condemnAll; [exact Ht|set_solver..].
Qed.

Lemma set_stages_same q : set_stages (b_verified q) (b_verifying q) (b_unverified q) q = q.
Proof. by destruct q. Qed.

(** No element has a bad parent. *)
Definition swept (q : BlockQueue) : Prop :=
  forall h p, (h, p) ∈ entries (b_verified q) (b_verifying q) (b_unverified q) -> p ∉ b_knownBad q.

Definition queued (q : BlockQueue) : nat := length (b_verified q) + length (b_unverified q) + length (b_verifying q).

Lemma updateBad_round_Core r bc q : Core r bc q -> Core r bc (updateBad_round sha3 q).2.
Proof.
  intros Hc. unfold updateBad_round.
  pose proof (sweep_ind (verifiedBad sha3) (fun b => hashOf (vb_info b))
    (fun l q' => Core r bc (set_stages l (b_verifying q) (b_unverified q) q'))
    (fun l1 b l2 q' => drop_verified r bc l1 b l2 _ _ q') (b_verified q) [] false q) as H1.
  destruct (sweep _ _ (b_verified q) [] false q) as [[v m1] q1]. cbn [app] in H1.
  rewrite set_stages_same in H1. destruct (H1 Hc) as [Hc1 E1]. clear H1 Hc. injection E1 as E1 E2 E3.
  pose proof (sweep_ind unverifiedBad ub_hash
    (fun l q' => Core r bc (set_stages v (b_verifying q) l q'))
    (fun l1 b l2 q' => drop_unverified r bc _ _ l1 b l2 q') (b_unverified q) [] m1 (set_stages v (b_verifying q1) (b_unverified q1) q1)) as H2.
  bfields. rewrite E3. rewrite E2, E3 in H2. rewrite E2.
  destruct (sweep _ _ (b_unverified q) _ _ _) as [[u m2] q2]. cbn [app] in H2.
  destruct (H2 Hc1) as [Hc2 E4]. clear H2 Hc1. injection E4 as E4 E5 E6. revert E4 E5 E6. bfields. intros E4 E5 E6.
  pose proof (sweep_ind verifyingBad verifyingHash
    (fun l q' => Core r bc (set_stages v l u q'))
    (fun l1 b l2 q' => drop_verifying r bc _ l1 b l2 _ q') (b_verifying q) [] m2 (set_stages v (b_verifying q) u q2)) as H3.
  rewrite E4, E5. destruct (sweep _ _ (b_verifying q) _ _ _) as [[w m3] q3]. cbn [app] in H3.
  destruct (H3 Hc2) as [Hc3 E7]. injection E7 as E7 E8 E9. revert E7 E8 E9. bfields. intros E7 E8 E9.
  cbn [snd]. by rewrite E7, E9.
Qed.

Lemma updateBad_round_result q :
  let '(moreBad, q') := updateBad_round sha3 q in
  (moreBad = false -> q' = q /\ swept q) /\ (moreBad = true -> queued q' < queued q)%nat.
Proof.
  unfold updateBad_round.
  pose proof (sweep_result (verifiedBad sha3) (fun b => hashOf (vb_info b)) (b_verified q) [] false q) as H1.
  pose proof (sweep_stages (verifiedBad sha3) (fun b => hashOf (vb_info b)) (b_verified q) [] false q) as S1.
  destruct (sweep _ _ (b_verified q) [] false q) as [[v m1] q1]. cbn in S1. injection S1 as S1 S2 S3.
  bfields. rewrite S2, S3. set (q1' := set_stages v (b_verifying q) (b_unverified q) q1).
  pose proof (sweep_result unverifiedBad ub_hash (b_unverified q) [] m1 q1') as H2.
  pose proof (sweep_stages unverifiedBad ub_hash (b_unverified q) [] m1 q1') as S4.
  destruct (sweep _ _ (b_unverified q) _ _ _) as [[u m2] q2]. cbn in S4. injection S4 as S4 S5 S6.
  rewrite S4, S5. set (q2' := set_stages v (b_verifying q) u q2).
  pose proof (sweep_result verifyingBad verifyingHash (b_verifying q) [] m2 q2') as H3.
  pose proof (sweep_stages verifyingBad verifyingHash (b_verifying q) [] m2 q2') as S7.
  destruct (sweep _ _ (b_verifying q) _ _ _) as [[w m3] q3]. cbn in S7. injection S7 as S7 S8 S9.
  rewrite S7, S9. cbn [app length] in *.
  destruct H1 as (F1 & L1 & N1), H2 as (F2 & L2 & N2), H3 as (F3 & L3 & N3). split.
  - intros Hm. destruct (F3 Hm) as (-> & -> & -> & G3). destruct (F2 eq_refl) as (-> & -> & -> & G2).
    destruct (F1 eq_refl) as (_ & -> & -> & G1). subst q1' q2'. bfields. revert G2 G3. bfields. intros G2 G3.
    split; [by destruct q|].
    intros h p. unfold entries. rewrite !elem_of_app, !list_elem_of_fmap. unfold entryV, entryW, entryU.
    intros [(b & E & Hb)|[(b & E & Hb)|(b & E & Hb)]]; injection E as -> ->.
    + eapply list.Forall_forall in G1; [|exact Hb]. unfold verifiedBad in G1. apply orb_false_iff in G1 as [G1 _].
      by apply bool_decide_eq_false in G1.
    + eapply list.Forall_forall in G3; [|exact Hb]. unfold verifyingBad in G3. apply orb_false_iff in G3 as [G3 _].
      by apply bool_decide_eq_false in G3.
    + eapply list.Forall_forall in G2; [|exact Hb]. unfold unverifiedBad in G2. apply orb_false_iff in G2 as [G2 _].
      by apply bool_decide_eq_false in G2.
  - intros Hm. unfold queued. bfields. destruct m1, m2, m3; try done;
      try specialize (N1 eq_refl eq_refl); try specialize (N2 eq_refl eq_refl); try specialize (N3 eq_refl eq_refl); try lia;
      try (destruct (F3 eq_refl); done); try (destruct (F2 eq_refl); done).
Qed.

Lemma updateBad_loop_spec r bc fuel : forall q, Core r bc q -> (queued q < fuel)%nat ->
  Core r bc (updateBad_loop sha3 fuel q) /\ swept (updateBad_loop sha3 fuel q).
Proof.
  induction fuel as [|f IH]; intros q Hc Hf; [lia|]. cbn.
  pose proof (updateBad_round_result q) as Hr. pose proof (updateBad_round_Core r bc q Hc) as Hc'.
  destruct (updateBad_round sha3 q) as [[] q']; destruct Hr as [Hr1 Hr2].
  - apply IH; [done|]. specialize (Hr2 eq_refl). lia.
  - split; [done|]. by destruct (Hr1 eq_refl) as [-> ?].
Qed.

Lemma updateBad_spec r bc h X q :
  Sets r bc (entries (b_verified q) (b_verifying q) (b_unverified q)) (b_unknown q) X q -> X ⊆ {[h]} ->
  Stages (b_verified q) (b_verifying q) (b_unverified q) (b_unknown q) q ->
  Core r bc (updateBad sha3 h q) /\ swept (updateBad sha3 h q).
Proof.
  intros Hs HX Ht. unfold updateBad. apply updateBad_loop_spec; [|unfold queued; lia].
  destruct (collectUnknownBad_spec h q) as (rem & k' & _ & _ & _ & _ & _ & _ & _ & E6 & E7 & E8).
  unfold Core. rewrite E6, E7, E8. split; [|by apply Stages_collectUnknownBad].
  replace (∅ : gset bytes) with (X ∖ {[h]} : gset bytes) by set_solver. by apply Sets_collectUnknownBad.
Qed.

Lemma swept_good q : swept q -> goodParents (b_verified q) q.
Proof.
  intros Hs b Hb. apply (Hs (hashOf (vb_info b))). unfold entries. apply elem_of_app. left.
  by apply (list_elem_of_fmap_2 entryV).
Qed.

(** ** Verified blocks leave the front *)

(** A parent does not come after its child. *)
Lemma parent_not_later bc s1 x h s2 p s3 k X q : Sets false bc (s1 ++ (x, h) :: s2 ++ (h, p) :: s3) k X q ->
  h ∈ b_knownBad q.
Proof.
  intros []. assert (Hh : h ∈ b_readySet q) by (apply s_ready0; rewrite fmap_app, fmap_cons, fmap_app, fmap_cons; set_solver).
  destruct (linked_split _ _ _ _ _ (s_order0 eq_refl)) as [[H|[H|H]]|H]; [|by destruct (s_disj0 h) as [Hd _]; destruct (Hd Hh)|done|].
  - by destruct (s_chain0 h H).
  - rewrite fmap_app in s_nodup0. apply NoDup_app in s_nodup0 as (_ & Hn & _).
    destruct (Hn h H). rewrite fmap_cons, fmap_app, fmap_cons. set_solver.
Qed.

Lemma good_condemn bc v s2 h p s3 k X q :
  Sets false bc ((entryV <$> v) ++ s2 ++ (h, p) :: s3) k X q -> goodParents v q -> goodParents v (condemn h q).
Proof.
  intros Hs Hg b Hb. bfields. intros Hin. apply elem_of_union in Hin as [Hin|Hin]; [by apply (Hg b Hb)|].
  apply elem_of_singleton in Hin. apply (Hg b Hb). rewrite Hin.
  apply list_elem_of_split in Hb as (v1 & v2 & ->). rewrite fmap_app, fmap_cons, <- app_assoc in Hs. cbn in Hs.
  rewrite app_assoc in Hs. unfold entryV at 2 in Hs. rewrite Hin in Hs. by eapply parent_not_later.
Qed.

Lemma Inv_set_stages r bc v w u q :
  Inv r bc (set_stages v w u q) <-> Core r bc (set_stages v w u q) /\ (r = false -> goodParents v q).
Proof. split; [intros [H1 H2 H3]; split; [by split|done]|intros [[H1 H2] H3]; by split]. Qed.

(** The front of [m_verifying] is condemned. *)
Lemma condemn_front r bc v b w u q :
  entryW b = entryV b -> Inv r bc (set_stages v (b :: w) u q) -> Inv r bc (set_stages v w u (condemn (hashOf (vb_info b)) q)).
Proof.
  rewrite !Inv_set_stages, !Core_set_stages. intros Eb [[Hs Ht] Hg]. unfold entries in *. rewrite fmap_cons, Eb in Hs. split_and!.
  - by eapply Sets_condemn.
  - eapply Stages_condemn; [exact Ht|set_solver..|]. intros j. rewrite elem_of_cons. intros [<-|?]; [|auto].
    right. injection Eb as Eb. by rewrite <- Eb.
  - intros ->. specialize (Hg eq_refl). by eapply (good_condemn bc v []).
Qed.

(** The front of [m_verifying] goes to [m_verified]. *)
Lemma pass_front r bc v b w u q :
  finished b -> h_parentHash (vb_info b) ∉ b_knownBad q ->
  Inv r bc (set_stages v (b :: w) u q) -> Inv r bc (set_stages (v ++ [b]) w u q).
Proof.
  rewrite !Inv_set_stages, !Core_set_stages. intros Hb Hp [[Hs Ht] Hg]. unfold entries in *.
  rewrite fmap_cons, entryW_finished in Hs by done. split_and!.
  - rewrite fmap_app, <- app_assoc. done.
  - destruct Ht. split; try done.
    + apply list.Forall_app. split; [done|]. by apply list.Forall_singleton.
    + by inversion i_w0.
    + intros j Hj. destruct (i_held0 j Hj) as [Hw|]; [|auto]. apply elem_of_cons in Hw as [<-|]; [|auto]. by destruct Hb.
  - intros Hr x. rewrite elem_of_app, list_elem_of_singleton. intros [Hx|Hx]; [by apply Hg|by subst].
Qed.

Lemma stage_finished v b w u k q : Stages v (b :: w) u k q -> vb_blockData b <> [] -> finished b.
Proof. intros [] Hb. inversion i_w0 as [|? ? [?|(j & _ & ->)] ?]; subst; [done|]. by destruct Hb. Qed.

Lemma drainVerified_loop_Inv r bc l : forall q,
  Inv r bc (set_stages (b_verified q) l (b_unverified q) q) -> Inv r bc (drainVerified_loop sha3 l q).
Proof.
  induction l as [|b l IH]; intros q Hi; cbn; [done|].
  destruct (decide (vb_blockData b = [])) as [|Hb]; [done|].
  assert (finished b) as Hf.
  { eapply stage_finished, Hb. apply (inv_stages _ _ _ Hi). }
  apply IH. destruct (decide (h_parentHash (vb_info b) ∈ b_knownBad q)) as [Hp|Hp]; bfields.
  - apply condemn_front; [by apply entryW_finished|done].
  - apply (pass_front _ _ (b_verified q) b l (b_unverified q) q) in Hi; done.
Qed.

Lemma drainVerified_Inv r bc q : Inv r bc q -> Inv r bc (drainVerified sha3 q).
Proof. intros Hi. apply drainVerified_loop_Inv. by rewrite set_stages_same. Qed.

(** ** Verifier threads *)

Lemma delete_jobs {A B} (f : A -> B) (l : list A) i x y :
  NoDup (f <$> l) -> l !! i = Some x -> y ∈ delete i l <-> y ∈ l /\ f y <> f x.
Proof.
  intros Hn Hi. rewrite delete_take_drop. rewrite <- (take_drop_middle l i x Hi) in Hn.
  rewrite <- (take_drop_middle l i x Hi) at 3.
  rewrite fmap_app, fmap_cons in Hn. apply NoDup_app in Hn as (_ & N1 & N2). apply list.NoDup_cons in N2 as [N2 _].
  rewrite !elem_of_app, elem_of_cons. split.
  - intros [H|H]; (split; [tauto|]); intros E.
    + apply (N1 (f y)); [by apply (list_elem_of_fmap_2 f)|]. rewrite E. apply elem_of_cons. by left.
    + apply N2. rewrite <- E. by apply (list_elem_of_fmap_2 f).
  - intros [[H|[->|H]] Hf]; [by left|done|by right].
Qed.

Lemma genuine_uncles h p d b : genuine h p d -> finished b -> h_sha3Uncles (vb_info b) <> h.
Proof. intros (bc & ir & r & Hv & <- & _) [_ (bc' & ir' & Hb)]. unfold vb_info. by eapply verify_uncles. Qed.

(** A thread finds its own place holder, or none if its block has been condemned. *)
Lemma find_job r bc q i j :
  Inv r bc q -> b_jobs q !! i = Some j ->
  let w := b_verifying q in
  (exists w1 w2, w = w1 ++ placeHolder j :: w2 /\ Forall (fun b => h_sha3Uncles (vb_info b) <> ub_hash j) (w1 ++ w2)) \/
  (ub_hash j ∈ b_knownBad q /\ Forall (fun b => h_sha3Uncles (vb_info b) <> ub_hash j) w).
Proof.
  intros [Hs Ht _] Hj. cbn zeta. assert (Hin : j ∈ b_jobs q) by by eapply list_elem_of_lookup_2.
  assert (Hg : genuineU j) by (destruct Ht as [_ _ _ _ [Ht _] _]; by eapply list.Forall_forall in Ht).
  assert (Hn : forall b, b ∈ b_verifying q -> h_sha3Uncles (vb_info b) = ub_hash j -> b = placeHolder j).
  { intros b Hb E. pose proof (proj1 (list.Forall_forall _ _) (i_w _ _ _ _ _ Ht) b Hb) as [Hf|(j' & Hj' & ->)].
    - by destruct (genuine_uncles _ _ _ _ Hg Hf).
    - f_equal. destruct (i_jobs _ _ _ _ _ Ht) as [_ Hjn]. cbn in E.
      apply list_elem_of_lookup in Hj' as [i' Hj'].
      assert (i' = i) as ->; [|congruence]. eapply NoDup_lookup; [exact Hjn|..]; rewrite list_lookup_fmap.
      + by rewrite Hj'. + rewrite Hj. cbn. by rewrite E. }
  pose proof (s_nodup _ _ _ _ _ _ Hs) as Hd. unfold entries in Hd. rewrite !fmap_app in Hd.
  apply NoDup_app in Hd as (_ & _ & Hd). apply NoDup_app in Hd as (Hd & _).
  destruct (i_held _ _ _ _ _ Ht j Hin) as [Hp|Hb].
  - left. apply list_elem_of_split in Hp as (w1 & w2 & E). exists w1, w2. split; [done|].
    rewrite E, fmap_app, fmap_cons in Hd. rewrite fmap_app, fmap_cons in Hd.
    apply NoDup_app in Hd as (_ & D1 & D2). apply list.NoDup_cons in D2 as [D2 _].
    apply list.Forall_forall. intros b Hb Eb. rewrite elem_of_app in Hb.
    assert (b = placeHolder j) as -> by (apply Hn; [rewrite E; set_solver|done]).
    destruct Hb as [Hb|Hb].
    + apply (D1 (entryW (placeHolder j)).1); [|apply elem_of_cons; by left].
      by apply (list_elem_of_fmap_2 fst), (list_elem_of_fmap_2 entryW).
    + apply D2. by apply (list_elem_of_fmap_2 fst), (list_elem_of_fmap_2 entryW).
  - right. split; [done|]. apply list.Forall_forall. intros b Hb' Eb. rewrite (Hn b Hb' Eb) in Hb'.
    destruct (s_disj _ _ _ _ _ _ Hs (ub_hash j)) as [Hr _]. destruct Hr as (_ & _ & Hr); [|done].
    apply (s_ready _ _ _ _ _ _ Hs). unfold entries. rewrite !fmap_app, !elem_of_app. right. left.
    by apply (list_elem_of_fmap_2 fst _ (entryW (placeHolder j))), (list_elem_of_fmap_2 entryW).
Qed.

Lemma eraseJob_none h w : Forall (fun b => h_sha3Uncles (vb_info b) <> h) w -> eraseJob h w = w.
Proof. induction 1 as [|b w Hb Hw IH]; cbn; [done|]. by rewrite decide_False, IH. Qed.
Lemma replaceJob_none h res w : Forall (fun b => h_sha3Uncles (vb_info b) <> h) w -> replaceJob h res w = w.
Proof. induction 1 as [|b w Hb Hw IH]; cbn; [done|]. by rewrite decide_False, IH. Qed.
Lemma eraseJob_at j w1 w2 : Forall (fun b => h_sha3Uncles (vb_info b) <> ub_hash j) (w1 ++ w2) ->
  eraseJob (ub_hash j) (w1 ++ placeHolder j :: w2) = w1 ++ w2.
Proof.
  intros Hf. induction w1 as [|b w1 IH]; cbn; [by rewrite decide_True|]. inversion Hf; subst.
  by rewrite decide_False, IH.
Qed.
Lemma replaceJob_at j res w1 w2 : Forall (fun b => h_sha3Uncles (vb_info b) <> ub_hash j) (w1 ++ w2) ->
  replaceJob (ub_hash j) res (w1 ++ placeHolder j :: w2) = w1 ++ res :: w2.
Proof.
  intros Hf. induction w1 as [|b w1 IH]; cbn; [by rewrite decide_True|]. inversion Hf; subst.
  by rewrite decide_False, IH.
Qed.

(** The thread with job [i] is done; [w'] has no place holder of it. *)
Lemma Stages_done v w w' u k q i j :
  Stages v w u k q -> b_jobs q !! i = Some j ->
  Forall (fun b => finished b \/ b ∈ w /\ h_sha3Uncles (vb_info b) <> ub_hash j) w' ->
  (forall j', ub_hash j' <> ub_hash j -> placeHolder j' ∈ w -> placeHolder j' ∈ w') ->
  Stages v w' u k (set_jobs (delete i (b_jobs q)) q).
Proof.
  intros [] Hj Hw' Hk. destruct i_jobs0 as [Hg Hn].
  pose proof (fun y => delete_jobs ub_hash (b_jobs q) i j y Hn Hj) as Hd.
  split; bfields; try done.
  - apply list.Forall_forall. intros b Hb. apply (proj1 (list.Forall_forall _ _) Hw') in Hb as [?|[Hb Hu]]; [by left|].
    apply (proj1 (list.Forall_forall _ _) i_w0) in Hb as [?|(j' & Hj' & ->)]; [by left|].
    right. exists j'. rewrite Hd. auto.
  - split.
    + apply list.Forall_forall. intros y Hy. apply Hd in Hy as [Hy _]. by eapply list.Forall_forall in Hg.
    + rewrite list_fmap_delete. eapply sublist_NoDup; [exact Hn|apply sublist_delete].
  - intros j' Hj'. apply Hd in Hj' as [Hj' Hne]. destruct (i_held0 j' Hj'); auto.
Qed.

Lemma Inv_done_gone r bc q i j :
  Inv r bc q -> b_jobs q !! i = Some j -> Forall (fun b => h_sha3Uncles (vb_info b) <> ub_hash j) (b_verifying q) ->
  Inv r bc (set_jobs (delete i (b_jobs q)) q).
Proof.
  intros [Hs Ht Hg] Hj Hf. split; bfields; [|eapply Stages_done; [done|done|..]|done].
  - destruct Hs. by split.
  - apply list.Forall_forall. intros b Hb. right. split; [done|]. by apply (proj1 (list.Forall_forall _ _) Hf).
  - done.
Qed.

Lemma Inv_done_erase r bc q i j w1 w2 :
  Inv r bc q -> b_jobs q !! i = Some j -> b_verifying q = w1 ++ placeHolder j :: w2 ->
  Forall (fun b => h_sha3Uncles (vb_info b) <> ub_hash j) (w1 ++ w2) ->
  Inv r bc (set_stages (b_verified q) (w1 ++ w2) (b_unverified q) (condemn (ub_hash j) (set_jobs (delete i (b_jobs q)) q))).
Proof.
  intros [Hs Ht Hg] Hj Ew Hf. rewrite Inv_set_stages, Core_set_stages. bfields. unfold entries in *.
  rewrite Ew, fmap_app, fmap_cons, entryW_placeHolder in Hs.
  assert (Hs' : Sets r bc ((entryV <$> b_verified q) ++ (entryW <$> w1) ++ entryU j :: (entryW <$> w2) ++ (entryU <$> b_unverified q))
    (b_unknown q) ∅ (set_jobs (delete i (b_jobs q)) q)).
  { rewrite <- app_assoc in Hs. destruct Hs; by split. }
  split_and!.
  - rewrite fmap_app, <- app_assoc, app_assoc. rewrite app_assoc in Hs'. by eapply Sets_condemn.
  - eapply Stages_condemn; [eapply (Stages_done _ _ (w1 ++ w2)); [exact Ht|exact Hj|..]|done..|auto].
    + apply list.Forall_forall. intros b Hb. right. split; [rewrite Ew; set_solver|].
      by apply (proj1 (list.Forall_forall _ _) Hf).
    + intros j' Hne. rewrite Ew, !elem_of_app, elem_of_cons. intros [?|[E|?]]; [by left| |by right].
      injection E as E1 E2. done.
  - intros ->. eapply (good_condemn bc); [exact Hs'|]. by apply Hg.
Qed.

Lemma Inv_done_replace r bc q i j w1 w2 res :
  Inv r bc q -> b_jobs q !! i = Some j -> b_verifying q = w1 ++ placeHolder j :: w2 ->
  Forall (fun b => h_sha3Uncles (vb_info b) <> ub_hash j) (w1 ++ w2) -> finished res -> entryV res = entryU j ->
  Inv r bc (set_stages (b_verified q) (w1 ++ res :: w2) (b_unverified q) (set_jobs (delete i (b_jobs q)) q)).
Proof.
  intros [Hs Ht Hg] Hj Ew Hf Hr Er. rewrite Inv_set_stages, Core_set_stages. bfields. unfold entries in *.
  rewrite Ew, fmap_app, fmap_cons, entryW_placeHolder in Hs. split_and!.
  - rewrite fmap_app, fmap_cons, entryW_finished, Er by done. destruct Hs; by split.
  - eapply Stages_done; [exact Ht|exact Hj|..].
    + apply list.Forall_forall. intros b Hb. rewrite elem_of_app, elem_of_cons in Hb.
      assert (b = res \/ b ∈ w1 ++ w2) as [->|Hb'] by (rewrite elem_of_app; tauto); [by left|].
      right. split; [rewrite Ew; set_solver|]. by apply (proj1 (list.Forall_forall _ _) Hf).
    + intros j' Hne. rewrite Ew, !elem_of_app, !elem_of_cons. intros [?|[E|?]]; [by left| |by right;right].
      injection E as E1 E2. done.
  - done.
Qed.

Lemma Inv_condemn_gone r bc h q : h ∈ b_knownBad q -> Inv r bc q -> Inv r bc (condemn h q).
Proof.
  intros Hh [Hs Ht Hg].
  assert (E1 : b_readySet q ∖ {[h]} = b_readySet q) by (pose proof (s_disj _ _ _ _ _ _ Hs h); set_solver).
  assert (E2 : b_knownBad q ∪ {[h]} = b_knownBad q) by set_solver.
  split; bfields; [eapply Sets_seen, Hs|eapply Stages_seen, Ht|unfold goodParents; bfields; by rewrite E2];
    unfold seen; bfields; by rewrite E1, E2.
Qed.

Lemma jobFailed_Inv r bc q i j :
  Inv r bc q -> b_jobs q !! i = Some j -> Inv r bc (jobFailed sha3 (ub_hash j) (set_jobs (delete i (b_jobs q)) q)).
Proof.
  intros Hi Hj. unfold jobFailed. apply drainVerified_Inv. bfields.
  destruct (find_job r bc q i j Hi Hj) as [(w1 & w2 & Ew & Hf)|[Hb Hf]].
  - rewrite Ew, eraseJob_at by done. by apply Inv_done_erase.
  - rewrite eraseJob_none by done.
    apply (Inv_condemn_gone r bc (ub_hash j) (set_jobs (delete i (b_jobs q)) q)); [done|]. by eapply Inv_done_gone.
Qed.

Lemma Inv_notify r bc e q : Inv r bc q -> Inv r bc (notify e q).
Proof. intros [Hs Ht Hg]. split; [by eapply Sets_seen, Hs|by eapply Stages_seen, Ht|done]. Qed.

Lemma jobVerified_Inv r bc q i j res :
  Inv r bc q -> b_jobs q !! i = Some j -> finished res -> entryV res = entryU j ->
  Inv r bc (jobVerified sha3 (ub_hash j) res (set_jobs (delete i (b_jobs q)) q)).
Proof.
  intros Hi Hj Hr Er. unfold jobVerified. bfields.
  destruct (find_job r bc q i j Hi Hj) as [(w1 & w2 & Ew & Hf)|[Hb Hf]].
  - pose proof (Inv_done_replace r bc q i j w1 w2 res Hi Hj Ew Hf Hr Er) as Hd.
    destruct w1 as [|b w1]; rewrite Ew; cbn [app].
    + rewrite decide_True by done. apply Inv_notify, drainVerified_Inv.
      destruct (decide (h_parentHash (vb_info res) ∈ b_knownBad q)) as [Hp|Hp].
      * by apply (condemn_front _ _ _ res) in Hd; [|apply entryW_finished].
      * by apply (pass_front _ _ _ res) in Hd.
    + inversion Hf as [|? ? Hb1 Hf1]; subst. rewrite decide_False by done. 
      pose proof (replaceJob_at j res (b :: w1) w2 Hf) as E. cbn [app] in E. by rewrite E.
  - destruct (b_verifying q) as [|b w] eqn:Ew; [eapply Inv_done_gone; try done; by rewrite Ew|].
    inversion Hf as [|? ? Hb1 Hf1]; subst. rewrite decide_False by done. rewrite replaceJob_none by done.
    rewrite <- Ew. eapply Inv_done_gone in Hi; [|exact Hj|by rewrite Ew]. by destruct q.
Qed.

Lemma verifierDone_Inv r bc i q : Inv r bc q -> Inv r bc (verifierDone sha3 bc i q).
Proof.
  intros Hi. unfold verifierDone. destruct (b_jobs q !! i) as [j|] eqn:Hj; [|done].
  destruct (verifyBlock bc (ub_block j) IR_OutOfOrderChecks) as [r'|] eqn:Hv; [|by apply jobFailed_Inv].
  assert (Hg : genuineU j).
  { pose proof (i_jobs _ _ _ _ _ (inv_stages _ _ _ Hi)) as [Hg _]. eapply list.Forall_forall; [exact Hg|].
    by eapply list_elem_of_lookup_2. }
  apply jobVerified_Inv; [done|done|..].
  - split; [by eapply verify_block|]. by exists bc, IR_OutOfOrderChecks.
  - destruct Hg as (bc' & ir & r0 & Hv0 & E1 & E2). unfold entryV, entryU, vb_info. cbn.
    rewrite (verify_info bc bc' _ _ _ _ _ Hv Hv0), E1, E2. done.
Qed.

Lemma verifierTake_Inv r bc q : Inv r bc q -> Inv r bc (verifierTake q).
Proof.
  intros Hi. unfold verifierTake. destruct (b_unverified q) as [|j u] eqn:Eu; [done|].
  destruct Hi as [Hs Ht Hg]. rewrite Eu in *.
  assert (Es : entries (b_verified q) (b_verifying q ++ [placeHolder j]) u = entries (b_verified q) (b_verifying q) (j :: u)).
  { unfold entries. rewrite fmap_app, !fmap_cons. cbn. by rewrite <- app_assoc. }
  split; bfields; [|destruct Ht as [? ? Hu ? [Hj1 Hj2] Hh]; split; bfields|done].
  - rewrite Es. destruct Hs; by split.
  - done.
  - apply list.Forall_app. split; [|apply list.Forall_singleton; right; exists j; set_solver].
    eapply Forall_impl; [done|]. intros b [?|(j' & ? & ->)]; [by left|]. right. exists j'. set_solver.
  - by inversion Hu.
  - done.
  - split; [apply list.Forall_app; split; [done|]; apply list.Forall_singleton; by inversion Hu|].
    rewrite fmap_app. apply NoDup_app. split_and!; [done| |apply NoDup_singleton].
    intros h Hh1 Hh2. apply list_elem_of_singleton in Hh2. subst h. apply list_elem_of_fmap in Hh1 as (j' & Ej & Hj').
    pose proof (s_nodup _ _ _ _ _ _ Hs) as Hn. unfold entries in Hn. rewrite !fmap_app, app_assoc in Hn.
    apply NoDup_app in Hn as (_ & Hn & _).
    assert (Hjr : ub_hash j ∈ b_readySet q).
    { apply (s_ready _ _ _ _ _ _ Hs). unfold entries. rewrite !fmap_app. set_solver. }
    destruct (Hh j' Hj') as [Hp|Hp].
    + apply (Hn (ub_hash j)); [|cbn; set_solver]. apply elem_of_app. right. rewrite Ej.
      by apply (list_elem_of_fmap_2 fst _ (entryW (placeHolder j'))), (list_elem_of_fmap_2 entryW).
    + rewrite <- Ej in Hp. destruct (s_disj _ _ _ _ _ _ Hs (ub_hash j)) as [Hd _]. by apply Hd.
  - intros j'. rewrite elem_of_app, list_elem_of_singleton. intros [Hj'| ->]; [destruct (Hh j' Hj')|]; set_solver.
Qed.

(** ** Importing *)

Lemma Inv_same r bc q q' :
  seen q' = seen q -> stagesOf q' = stagesOf q -> b_unknown q' = b_unknown q -> Inv r bc q -> Inv r bc q'.
Proof.
  intros Es Et Eu [Hs Ht Hg]. injection Et as E1 E2 E3.
  split; rewrite ?E1, ?E2, ?E3, ?Eu; [by eapply Sets_seen, Hs|by eapply Stages_seen, Ht|].
  unfold goodParents in *. injection Es as _ _ _ E4 _. by rewrite E4.
Qed.

(** A hash that the queue and the chain do not know *)
Definition fresh (bc : BC) (h : bytes) (q : BlockQueue) : Prop :=
  h ∉ b_readySet q /\ h ∉ b_drainingSet q /\ h ∉ b_unknownSet q /\ h ∉ b_knownBad q /\ isKnown bc h = false.

(** A new block with a bad parent *)
Lemma Inv_import_bad r bc h q : Inv r bc q -> fresh bc h q ->
  let q1 := set_sets (b_drainingSet q) (b_readySet q) (b_unknownSet q) (b_knownBad q ∪ {[h]}) q in
  Inv r bc (updateBad sha3 h q1) /\ swept (updateBad sha3 h q1).
Proof.
  intros [Hs Ht Hg] (F1 & F2 & F3 & F4 & F5). cbn zeta.
  edestruct (updateBad_spec r bc h {[h]}) as [[Hc1 Hc2] Hw]; [| | |split; [|exact Hw]].
  - destruct Hs. split; bfields; try done.
    + intros x. specialize (s_disj0 x). set_solver.
    + intros e He. specialize (s_wait0 e He). set_solver.
    + intros x Hx. specialize (s_chain0 x Hx). assert (x <> h) by congruence. set_solver.
    + intros Hr. eapply linked_mono, s_order0, Hr. unfold settledHash. bfields. set_solver.
  - done.
  - destruct Ht. split; bfields; try done. intros j Hj. destruct (i_held0 j Hj); set_solver.
  - split; [done..|]. intros _. by apply swept_good.
Qed.

(** A new block whose parent is unknown *)
Lemma Inv_import_unknown r bc h p block q q' :
  Inv r bc q -> fresh bc h q -> genuine h p block ->
  p ∉ b_readySet q -> p ∉ b_drainingSet q -> p ∉ b_knownBad q ->
  seen q' = (b_readySet q, b_drainingSet q, b_unknownSet q ∪ {[h]}, b_knownBad q, b_jobs q) ->
  stagesOf q' = stagesOf q -> b_unknown q' = b_unknown q ++ [(p, (h, block))] -> Inv r bc q'.
Proof.
  intros [Hs Ht Hg] (F1 & F2 & F3 & F4 & F5) Hgen Hp1 Hp2 Hp3 Es Et Eu.
  injection Es as E1 E2 E3 E4 E5. injection Et as E6 E7 E8.
  split; rewrite ?E6, ?E7, ?E8, ?Eu.
  - destruct Hs. split; rewrite ?E1, ?E2, ?E3, ?E4, ?E5, ?fmap_app; cbn; try done.
    + apply NoDup_app. split_and!; [done| |apply NoDup_singleton].
      intros x Hx Hx'. apply list_elem_of_singleton in Hx'. subst x. by apply s_unknown0 in Hx.
    + intros x. rewrite elem_of_union, elem_of_app, s_unknown0. set_solver.
    + intros x. specialize (s_disj0 x). set_solver.
    + intros e. rewrite elem_of_app, list_elem_of_singleton. intros [He| ->]; [by apply s_wait0|]. cbn. done.
    + intros x Hx. specialize (s_chain0 x Hx). assert (x <> h) by congruence. set_solver.
    + intros Hr. eapply linked_mono, s_order0, Hr. unfold settledHash. by rewrite E2, E4.
  - destruct Ht. split; rewrite ?E4, ?E5; try done. apply list.Forall_app. split; [done|]. by apply list.Forall_singleton.
  - unfold goodParents in *. by rewrite E4.
Qed.

(** The sequence grows by a block and the blocks that waited for it. *)
Lemma Sets_ready r bc s k q h p rem k' q' :
  Sets r bc s k ∅ q -> fresh bc h q -> (isKnown bc p = true \/ p ∈ b_drainingSet q \/ p ∈ b_readySet q) ->
  searched h k rem k' ->
  b_readySet q' = b_readySet q ∪ {[h]} ∪ list_to_set rem.*2.*1 -> b_drainingSet q' = b_drainingSet q ->
  b_unknownSet q' = b_unknownSet q ∖ list_to_set rem.*2.*1 -> b_knownBad q' = b_knownBad q ->
  Sets r bc (s ++ (h, p) :: children rem) k' ∅ q'.
Proof.
  intros Hs (F1 & F2 & F3 & F4 & F5) Hp (Hk & Hl & Hc) E1 E2 E3 E4.
  apply (Sets_perm _ _ _ _ _ _ _ Hk) in Hs. destruct Hs. rewrite !fmap_app in *.
  apply NoDup_app in s_unodup0 as (N1 & N2 & N3).
  assert (Hrem : forall x, x ∈ rem.*2.*1 -> x ∈ b_unknownSet q) by (intros x Hx; apply s_unknown0; set_solver).
  split; rewrite ?E1, ?E2, ?E3, ?E4, ?fmap_app, ?fmap_cons, ?children_hashes; cbn [fst]; try done.
  - apply NoDup_app. split_and!; [done| |apply list.NoDup_cons; split; [|done]].
    + intros x Hx Hx0. apply s_ready0 in Hx. destruct (s_disj0 x) as (Hd & _). apply Hd in Hx as Hd2. apply elem_of_cons in Hx0 as [->|Hx0]; [done|]. apply Hrem in Hx0. tauto.
    + intros Hx. by apply Hrem in Hx.
  - intros x. rewrite elem_of_app, elem_of_cons, <- s_ready0. rsets. tauto.
  - intros x. specialize (s_unknown0 x). specialize (N2 x). rewrite elem_of_app in s_unknown0. rsets. tauto.
  - intros x. specialize (s_disj0 x). specialize (Hrem x). rsets. destruct (decide (x = h)) as [->|]; tauto.
  - intros e He. destruct (Hc e He). specialize (s_wait0 e). rewrite elem_of_app in s_wait0. rsets. specialize (s_wait0 ltac:(tauto)). rewrite elem_of_empty in s_wait0. tauto.
  - intros x Hx. specialize (s_chain0 x Hx). specialize (Hrem x). assert (x <> h) by congruence. rsets. tauto.
  - intros Hr. specialize (s_order0 Hr). apply linked_app. unfold settledHash in *. rewrite E2, E4. split; [done|].
    cbn. split; [rewrite <- s_ready0; tauto|]. eapply linked_mono, Hl. auto.
Qed.

Lemma Inv_ready r bc h p block q q' :
  Inv r bc q -> fresh bc h q -> genuine h p block ->
  (isKnown bc p = true \/ p ∈ b_drainingSet q \/ p ∈ b_readySet q) ->
  seen q' = (b_readySet q ∪ {[h]}, b_drainingSet q, b_unknownSet q, b_knownBad q, b_jobs q) ->
  stagesOf q' = (b_verified q, b_verifying q, b_unverified q ++ [mkUnverified h p block]) ->
  b_unknown q' = b_unknown q -> Inv r bc (noteReady h q').
Proof.
  intros [Hs Ht Hg] Hfr Hgen Hp Es Et Eu.
  injection Es as E1 E2 E3 E4 E5. injection Et as E6 E7 E8.
  destruct (noteReady_spec h q') as (rem & k' & Hse & Ek & A1 & A2 & A3 & A4 & A5 & A6 & A7 & A8).
  rewrite Eu in Hse. rewrite E1 in A1. rewrite E2 in A2. rewrite E3 in A3. rewrite E4 in A4. rewrite E5 in A5.
  rewrite E6 in A6. rewrite E7 in A7. rewrite E8 in A8. split; rewrite ?Ek, ?A6, ?A7, ?A8.
  - assert (Ee : entries (b_verified q) (b_verifying q)
      ((b_unverified q ++ [mkUnverified h p block]) ++ ((fun e => mkUnverified e.2.1 e.1 e.2.2) <$> rem)) =
      entries (b_verified q) (b_verifying q) (b_unverified q) ++ (h, p) :: children rem).
    { unfold entries, children. rewrite !fmap_app, <- !app_assoc. cbn. by rewrite <- list_fmap_compose. }
    rewrite Ee. eapply Sets_ready; eauto.
  - destruct Hse as (Hk & _). destruct Ht. split; rewrite ?A4, ?A5; try done.
    + rewrite !list.Forall_app, list.Forall_singleton. split_and!; [done|done|].
      rewrite Hk in i_k0. apply list.Forall_app in i_k0 as [Hr _].
      apply list.Forall_fmap. eapply Forall_impl; [exact Hr|]. done.
    + rewrite Hk in i_k0. by apply list.Forall_app in i_k0 as [_ ?].
  - unfold goodParents in *. by rewrite A4.
Qed.

Lemma importNew_Inv r bc now h bi block ours q res q' :
  Inv r bc q -> fresh bc h q -> hashOf bi = h -> genuine h (h_parentHash bi) block ->
  importNew sha3 bc now h bi block ours q = (res, q') -> Inv r bc q'.
Proof.
  intros Hi Hf Eh Hg. unfold importNew. destruct ((now <? h_timestamp bi) && negb ours).
  { intros E. injection E as _ <-. by eapply Inv_same, Hi. }
  destruct (decide (h_parentHash bi ∈ b_knownBad q)) as [Hp|Hp].
  { intros E. injection E as _ <-. rewrite Eh. by apply Inv_import_bad. }
  destruct (unknownParent bc (h_parentHash bi) q) eqn:Eu; unfold unknownParent in Eu; intros E; injection E as _ <-.
  - apply andb_true_iff in Eu as [Eu E3]. apply andb_true_iff in Eu as [E1 E2]. apply negb_true_iff in E1, E2, E3.
    apply bool_decide_eq_false in E1, E2. by eapply Inv_import_unknown.
  - apply (Inv_ready r bc h (h_parentHash bi) block q); try done.
    apply andb_false_iff in Eu as [Eu|Eu]; [apply andb_false_iff in Eu as [Eu|Eu]|];
      apply negb_false_iff in Eu; [apply bool_decide_eq_true in Eu..|]; auto.
Qed.

Lemma import_block_Inv r bc now block ours q res q' :
  Inv r bc q -> import_block sha3 bc now block ours q = Ok (res, q') -> Inv r bc q'.
Proof.
  intros Hi. unfold import_block. intros E. apply bind_Ok in E as (h & Eh & E).
  destruct (decide _) as [|Hn]; [by injection E as _ <-|].
  destruct (verifyBlock bc block IR_PostGenesis) as [r'|[]] eqn:Ev; try discriminate E; try (by injection E as _ <-).
  destruct (isKnown bc h) eqn:Ek; [by injection E as _ <-|].
  injection E as E. assert (Hh : hashOf (vr_info r') = h) by by eapply verify_hash.
  eapply (importNew_Inv r bc now h (vr_info r') block ours q res q'); [done| |done| |done].
  - unfold fresh. split_and!; [tauto..|done].
  - by exists bc, IR_PostGenesis, r'.
Qed.

Lemma takeFuture_fold (l : list (Z * (bytes * bytes))) : forall q,
  let q' := foldl (fun q e => add_unknown (- sizeZ e.2.2) (-1) q) q l in
  seen q' = seen q /\ stagesOf q' = stagesOf q /\ b_unknown q' = b_unknown q.
Proof.
  induction l as [|e l IH]; intros q; cbn; [done|].
  destruct (IH (add_unknown (- sizeZ e.2.2) (-1) q)) as (-> & -> & ->). done.
Qed.

Lemma tick_Inv r bc now q q' : Inv r bc q -> tick sha3 bc now q = Ok q' -> Inv r bc q'.
Proof.
  unfold tick. destruct (b_future q) as [|e f]; [by intros ? [= <-]|]. destruct (now <? e.1); [by intros ? [= <-]|].
  destruct (takeFuture now q) as [todo q1] eqn:Et. intros Hi.
  assert (Hi1 : Inv r bc q1).
  { unfold takeFuture in Et. injection Et as _ <-.
    destruct (takeFuture_fold (filter (fun e => e.1 <= u32 now) (b_future q)) q) as (F1 & F2 & F3).
    eapply Inv_same, Hi; bfields; [by rewrite <- F1|by rewrite <- F2|done]. }
  clear Et Hi. revert q1 Hi1. induction todo as [|b todo IH]; intros q1 Hi1; cbn; [by intros [= <-]|].
  intros E. apply bind_Ok in E as ([res q2] & E1 & E2). eapply IH, E2. by eapply import_block_Inv.
Qed.

(** ** Draining *)

Lemma drainOne_fold (out : list VerifiedBlock) : forall q,
  let q' := foldl (fun q b => drainOne sha3 b q) q out in
  let hs := list_to_set (entryV <$> out).*1 in
  seen q' = (b_readySet q ∖ hs, b_drainingSet q ∪ hs, b_unknownSet q, b_knownBad q, b_jobs q) /\
  stagesOf q' = stagesOf q /\ b_unknown q' = b_unknown q.
Proof.
  induction out as [|b out IH]; intros q; cbn zeta.
  - cbn. unfold seen. split_and!; [|done..]. by rewrite difference_empty_L, union_empty_r_L.
  - cbn. destruct (IH (drainOne sha3 b q)) as (E1 & E2 & E3). rewrite E1, E2, E3.
    unfold drainOne. bfields. rewrite difference_difference_l_L, union_assoc_L || idtac. done.
Qed.

Lemma entries_app out v w u : entries (out ++ v) w u = (entryV <$> out) ++ entries v w u.
Proof. unfold entries. by rewrite fmap_app, <- app_assoc. Qed.

(** The front of [m_verified] is taken out to be imported. *)
Lemma Inv_drain r bc out v q q' :
  Inv r bc q -> b_verified q = out ++ v -> b_drainingSet q = ∅ ->
  seen q' = (b_readySet q ∖ list_to_set (entryV <$> out).*1, list_to_set (entryV <$> out).*1, b_unknownSet q, b_knownBad q, b_jobs q) ->
  stagesOf q' = (v, b_verifying q, b_unverified q) -> b_unknown q' = b_unknown q -> Inv r bc q'.
Proof.
  intros [Hs Ht Hg] Ev Ed Es Et Eu. injection Es as E1 E2 E3 E4 E5. injection Et as E6 E7 E8.
  rewrite Ev in Hs, Ht, Hg. split; rewrite ?E6, ?E7, ?E8, ?Eu.
  - rewrite entries_app in Hs. destruct Hs. rewrite fmap_app in s_nodup0. setoid_rewrite fmap_app in s_ready0.
    apply NoDup_app in s_nodup0 as (N1 & N2 & N3).
    assert (Ho : forall x, x ∈ (entryV <$> out).*1 -> x ∈ b_readySet q) by (intros x Hx; apply s_ready0, elem_of_app; by left).
    split; rewrite ?E1, ?E2, ?E3, ?E4; try done.
    + intros x. specialize (s_ready0 x). specialize (N2 x). rewrite elem_of_app in s_ready0. rsets. tauto.
    + intros x. specialize (s_disj0 x). specialize (Ho x). rsets. tauto.
    + intros e He. specialize (s_wait0 e He). specialize (Ho e.1). rsets. rewrite elem_of_empty in s_wait0. tauto.
    + intros x Hx. specialize (s_chain0 x Hx). rsets. tauto.
    + intros Hr. specialize (s_order0 Hr). apply linked_app in s_order0 as [_ Ho2]. eapply linked_mono, Ho2.
      unfold settledHash. rewrite Ed, E2, E4. intros x. rsets. tauto.
  - destruct Ht. split; rewrite ?E4, ?E5; try done. by apply list.Forall_app in i_v0 as [_ ?].
  - intros Hr b Hb. rewrite E4. apply (Hg Hr). set_solver.
Qed.

Lemma drain_Inv r bc max q : Inv r bc q -> Inv r bc (drain sha3 max q).2.
Proof.
  intros Hi. unfold drain. destruct (decide (b_drainingSet q = ∅)) as [Ed|Ed].
  2:{ cbn. destruct (_ && _); [by apply Inv_notify|done]. }
  bfields. set (n := Z.to_nat _). cbn [snd].
  match goal with |- context [foldl ?f ?a ?b] => pose proof (drainOne_fold b a) as (F1 & F2 & F3); set (q' := foldl f a b) in * end.
  assert (Inv r bc q') by (eapply (Inv_drain _ _ (take n (b_verified q)) (drop n (b_verified q)) q);
    [done|by rewrite take_drop|done|rewrite F1; bfields; by rewrite Ed, union_empty_l_L|exact F2|exact F3]).
  destruct (_ && _); [by apply Inv_notify|done].
Qed.

(** The drained blocks have been imported into the chain, except the bad ones. *)
Lemma Inv_doneDrain r bc bad q q' :
  Inv r bc q -> (forall h, h ∈ bad -> h ∈ b_drainingSet q /\ isKnown bc h = false) ->
  (forall h, h ∈ b_drainingSet q -> h ∈ bad \/ isKnown bc h = true) ->
  seen q' = (b_readySet q, ∅, b_unknownSet q, b_knownBad q ∪ list_to_set bad, b_jobs q) ->
  stagesOf q' = stagesOf q -> b_unknown q' = b_unknown q -> Core r bc q'.
Proof.
  intros [Hs Ht Hg] Hbad Hdr Es Et Eu. injection Es as E1 E2 E3 E4 E5. injection Et as E6 E7 E8.
  split; rewrite ?E6, ?E7, ?E8, ?Eu.
  - destruct Hs. split; rewrite ?E1, ?E2, ?E3, ?E4; try done.
    + intros x. specialize (s_disj0 x). specialize (Hbad x). rsets. tauto.
    + intros e He. specialize (s_wait0 e He). specialize (Hbad e.1). rsets. rewrite elem_of_empty in s_wait0. tauto.
    + intros x Hx. specialize (s_chain0 x Hx). specialize (Hbad x). rewrite Hx in Hbad. rsets. intuition congruence.
    + intros Hr. eapply linked_mono, s_order0, Hr. unfold settledHash. rewrite E2, E4. intros x. specialize (Hdr x).
      rsets. tauto.
  - destruct Ht. split; rewrite ?E4, ?E5; try done. intros j Hj. rsets. destruct (i_held0 j Hj); auto.
Qed.

Lemma updateBad_fold r bc bad : forall q, Core r bc q ->
  let q' := foldl (fun q b => updateBad sha3 b q) q bad in Core r bc q' /\ (bad <> [] -> swept q').
Proof.
  induction bad as [|b bad IH]; intros q Hc; cbn; [done|].
  destruct (updateBad_spec r bc b ∅ q) as [Hc1 Hw1]; [apply Hc|set_solver|apply Hc|].
  destruct (IH _ Hc1) as [Hc2 Hw2]. split; [done|]. intros _. destruct bad as [|b' bad]; [done|]. by apply Hw2.
Qed.

Lemma doneDrain_Inv r bc bad q :
  Inv r bc q -> (forall h, h ∈ bad -> h ∈ b_drainingSet q /\ isKnown bc h = false) ->
  (forall h, h ∈ b_drainingSet q -> h ∈ bad \/ isKnown bc h = true) ->
  Inv r bc (doneDrain sha3 bad q).2 /\ (bad <> [] -> swept (doneDrain sha3 bad q).2).
Proof.
  intros Hi Hbad Hdr. unfold doneDrain. cbn [snd]. destruct (decide (bad = [])) as [->|Hb].
  - split; [|done].
    assert (Hc : Core r bc (set_difficulties (u256 (b_difficulty q - b_drainingDifficulty q)) 0
      (set_sets ∅ (b_readySet q) (b_unknownSet q) (b_knownBad q) q))).
    { eapply (Inv_doneDrain r bc [] q); try done. unfold seen. bfields. cbn. by rewrite union_empty_r_L. }
    destruct Hc as [Hc1 Hc2]. split; [done|done|]. apply (inv_good _ _ _ Hi).
  - match goal with |- context [foldl _ ?a _] => destruct (updateBad_fold r bc bad a) as [[Hc1 Hc2] Hw] end.
    { eapply (Inv_doneDrain r bc bad q); done. }
    split; [|done]. split; [done..|]. intros _. by apply swept_good, Hw.
Qed.
End Theory.
