(* ===== verification/BlockQueueSafety.v ===== *)
(** * The block queue: reachable states, properties and counterexamples

    [reachable] closes the empty queue under the operations of the queue, the steps
    of its verifier threads and the growth of the chain.  The theorems hold of all
    reachable states; the counterexamples at the end show where the code leaves
    them. *)

From Stdlib Require Import ZArith Lia.
From stdpp Require Import base list list_numbers option gmap.
From S2P Require Import Prelude CommonData RLP FixedHash Transaction BlockHeader Elhash HeaderTheory ElhashTheory TransactionQueue BlockQueue BlockQueueTheory.

Section Safety.
Context (sha3 : bytes -> bytes) {BC : Type} `{HBV : !BlockVerifier BC} `{HBL : !BlockVerifierLaws sha3 BC}.

(** ** The remaining operations *)

Lemma retryUnknown_fold rem : forall q,
  let q' := foldl (fun q e => retryUnknown e q) q rem in
  b_readySet q' = b_readySet q ∪ list_to_set rem.*2.*1 /\ b_drainingSet q' = b_drainingSet q /\
  b_unknownSet q' = b_unknownSet q ∖ list_to_set rem.*2.*1 /\ b_knownBad q' = b_knownBad q /\
  b_jobs q' = b_jobs q /\ b_verified q' = b_verified q /\ b_verifying q' = b_verifying q /\
  b_unverified q' = b_unverified q ++ ((fun e => mkUnverified e.2.1 e.1 e.2.2) <$> rem).
Proof.
  induction rem as [|e rem IH]; intros q; cbn; [rewrite app_nil_r; split_and!; try done; set_solver|].
  destruct (IH (retryUnknown e q)) as (E1 & E2 & E3 & E4 & E5 & E6 & E7 & E8).
  rewrite E1, E2, E3, E4, E5, E6, E7, E8. unfold retryUnknown. bfields. rewrite <- app_assoc.
  split_and!; try done; apply set_eq; intros x; rsets; rewrite ?elem_of_cons; tauto.
Qed.

Lemma retryAllUnknown_Inv r bc q : Inv sha3 r bc q -> Inv sha3 true bc (retryAllUnknown q).
Proof.
  intros [Hs Ht Hg]. unfold retryAllUnknown.
  destruct (retryUnknown_fold (b_unknown q) q) as (A1 & A2 & A3 & A4 & A5 & A6 & A7 & A8).
  set (q1 := foldl _ _ _) in *. clearbody q1. split; [| |done]; bfields; rewrite A6, A7, A8.
  - assert (Ee : entries sha3 (b_verified q) (b_verifying q)
      (b_unverified q ++ ((fun e => mkUnverified e.2.1 e.1 e.2.2) <$> b_unknown q)) =
      entries sha3 (b_verified q) (b_verifying q) (b_unverified q) ++ children (b_unknown q)).
    { unfold entries, children. rewrite !fmap_app, <- !app_assoc. by rewrite <- list_fmap_compose. }
    rewrite Ee. destruct Hs.
    split; bfields; rewrite ?A1, ?A2, ?A3, ?A4, ?fmap_app, ?children_hashes; try done.
    + apply NoDup_app. split_and!; [done| |done]. intros x Hx Hx'. apply s_ready in Hx. apply s_unknown in Hx'.
      by apply (s_disj x) in Hx as (_ & ? & _).
    + intros x. rewrite elem_of_app, <- s_ready. rsets. done.
    + apply NoDup_nil_2.
    + intros x. specialize (s_unknown x). rewrite elem_of_nil. rsets. tauto.
    + intros x. specialize (s_disj x). specialize (s_unknown x). rsets. tauto.
    + intros e He. by apply elem_of_nil in He.
    + intros x Hx. specialize (s_chain x Hx). specialize (s_unknown x). rsets. tauto.
  - destruct Ht as [Hv Hw Hu Hk Hj Hh]. split; bfields; rewrite ?A4, ?A5; try done.
    apply list.Forall_app. split; [done|]. apply list.Forall_fmap. by eapply Forall_impl; [exact Hk|].
Qed.

Lemma bq_clear_Inv r bc q : Inv sha3 r bc q -> b_jobs q = [] -> Inv sha3 false bc (bq_clear q).
Proof.
  intros [Hs _ _] Hj. pose proof (s_chain _ _ _ _ _ _ Hs) as Hc. clear Hs. split; [split|split|]; cbn; rewrite ?Hj.
  - constructor.
  - intros h. rewrite elem_of_empty, elem_of_nil. done.
  - constructor.
  - intros h. rewrite elem_of_empty, elem_of_nil. done.
  - intros h. rewrite elem_of_empty. tauto.
  - intros e He. by apply elem_of_nil in He.
  - intros h Hh. rewrite elem_of_empty. split_and!; [tauto..|]. by apply Hc.
  - done.
  - constructor.
  - constructor.
  - constructor.
  - constructor.
  - split; constructor.
  - intros j Hin. by apply elem_of_nil in Hin.
  - intros _ b Hb. by apply elem_of_nil in Hb.
Qed.

Lemma chain_Inv r bc bc' q : Inv sha3 r bc q ->
  (forall h, isKnown bc h = true -> isKnown bc' h = true) ->
  (forall h, isKnown bc' h = true -> isKnown bc h = true \/ h ∈ b_drainingSet q) -> Inv sha3 r bc' q.
Proof.
  intros [Hs Ht Hg] Hm Hn. split; [|done|done]. destruct Hs. split; try done.
  - intros x Hx. specialize (s_disj x). destruct (Hn x Hx) as [Hk|Hd]; [by apply s_chain|]. tauto.
  - intros Hr. eapply linked_mono, s_order, Hr. unfold settledHash. intros x [?|?]; auto.
Qed.

(** ** Reachable states

    [r] is whether [retryAllUnknown] was called since the queue was last empty.
    Between [drain] and [doneDrain] the chain takes in blocks of the batch; the
    blocks that it refuses are reported as bad.  [clear] runs while no block is with
    a verifier and no batch is out. *)
Inductive reachable : bool -> BC -> BlockQueue -> Prop :=
| reach_new bc : reachable false bc newBlockQueue
| reach_import r bc q now block ours res q' :
    reachable r bc q -> import_block sha3 bc now block ours q = Ok (res, q') -> reachable r bc q'
| reach_tick r bc q now q' : reachable r bc q -> tick sha3 bc now q = Ok q' -> reachable r bc q'
| reach_take r bc q : reachable r bc q -> reachable r bc (verifierTake q)
| reach_done r bc q i : reachable r bc q -> reachable r bc (verifierDone sha3 bc i q)
| reach_drain r bc q max : reachable r bc q -> reachable r bc (drain sha3 max q).2
| reach_chain r bc bc' q :
    reachable r bc q -> (forall h, isKnown bc h = true -> isKnown bc' h = true) ->
    (forall h, isKnown bc' h = true -> isKnown bc h = true \/ h ∈ b_drainingSet q) -> reachable r bc' q
| reach_doneDrain r bc q bad :
    reachable r bc q -> (forall h, h ∈ bad -> h ∈ b_drainingSet q /\ isKnown bc h = false) ->
    (forall h, h ∈ b_drainingSet q -> h ∈ bad \/ isKnown bc h = true) -> reachable r bc (doneDrain sha3 bad q).2
| reach_retry r bc q : reachable r bc q -> reachable true bc (retryAllUnknown q)
| reach_clear r bc q : reachable r bc q -> b_jobs q = [] -> b_drainingSet q = ∅ -> reachable false bc (bq_clear q).

Lemma reachable_Inv r bc q : reachable r bc q -> Inv sha3 r bc q.
Proof.
  induction 1.
  - by apply Inv_new.
  - by eapply import_block_Inv.
  - by eapply tick_Inv.
  - by apply verifierTake_Inv.
  - by apply verifierDone_Inv.
  - by apply drain_Inv.
  - by eapply chain_Inv.
  - by apply doneDrain_Inv.
  - by eapply retryAllUnknown_Inv.
  - by eapply bq_clear_Inv.
Qed.
(** ** The status of a hash *)

Lemma status_ready h q : blockStatus h q = QS_Ready <-> h ∈ b_readySet q.
Proof. unfold blockStatus. repeat destruct (decide _); split; done. Qed.

Lemma status_unknownParent r bc s k X q h : Sets r bc s k X q -> blockStatus h q = QS_UnknownParent <-> h ∈ b_unknownSet q.
Proof. intros []. specialize (s_disj h). unfold blockStatus. repeat destruct (decide _); split; (done || tauto). Qed.

Lemma status_bad r bc s k X q h : Sets r bc s k X q -> blockStatus h q = QS_Bad <-> h ∈ b_knownBad q.
Proof. intros []. specialize (s_disj h). unfold blockStatus. repeat destruct (decide _); split; (done || tauto). Qed.

Lemma status_importing r bc s k X q h : Sets r bc s k X q -> blockStatus h q = QS_Importing <-> h ∈ b_drainingSet q.
Proof. intros []. specialize (s_disj h). unfold blockStatus. repeat destruct (decide _); split; (done || tauto). Qed.

(** The hashes in the three stages, in order *)
Definition stageHashes (q : BlockQueue) : list bytes :=
  (entries sha3 (b_verified q) (b_verifying q) (b_unverified q)).*1.



(** [updateBad] does not forget bad hashes and leaves the batch alone. *)
Definition grew (q q' : BlockQueue) : Prop := b_knownBad q ⊆ b_knownBad q' /\ b_drainingSet q' = b_drainingSet q.

Lemma grew_collect h q : grew q (collectUnknownBad h q).
Proof.
  destruct (collectUnknownBad_spec sha3 h q) as (rem & k' & _ & _ & _ & E2 & _ & E4 & _). unfold grew. rewrite E2, E4. set_solver.
Qed.
Lemma grew_sweep {A} (isBad : A -> gset bytes -> bool) (h : A -> bytes) l keep m q q0 :
  grew q0 q -> grew q0 (sweep isBad h l keep m q).2.
Proof.
  revert keep m q. induction l as [|b l IH]; intros keep m q Hq; cbn [sweep]; [done|].
  destruct (isBad b (b_knownBad q)); apply IH; [|done]. destruct (grew_collect (h b) (condemn (h b) q)) as [G1 G2].
  destruct Hq as [H1 H2]. split; [|rewrite G2; exact H2]. etrans; [exact H1|]. etrans; [|exact G1].
  apply union_subseteq_l.
Qed.
Lemma grew_updateBad_loop fuel : forall q q0, grew q0 q -> grew q0 (updateBad_loop sha3 fuel q).
Proof.
  induction fuel as [|f IH]; intros q q0 Hq; cbn; [done|].
  assert (Hr : grew q0 (updateBad_round sha3 q).2).
  { unfold updateBad_round.
    pose proof (grew_sweep (verifiedBad sha3) (fun b => hashOf sha3 (vb_info b)) (b_verified q) [] false q q0 Hq) as H1.
    destruct (sweep _ _ _ _ _ _) as [[v m1] q1]. set (q1' := set_stages _ _ _ _).
    pose proof (grew_sweep unverifiedBad ub_hash (b_unverified q1') [] m1 q1' q0 H1) as H2.
    destruct (sweep _ _ _ _ _ _) as [[u m2] q2]. set (q2' := set_stages _ _ _ q2).
    pose proof (grew_sweep verifyingBad (verifyingHash sha3) (b_verifying q2') [] m2 q2' q0 H2) as H3.
    destruct (sweep _ _ _ _ _ _) as [[w m3] q3]. exact H3. }
  destruct (updateBad_round sha3 q) as [[] q']; auto.
Qed.
Lemma grew_updateBad h q : grew q (updateBad sha3 h q).
Proof. apply grew_updateBad_loop, grew_collect. Qed.

Lemma doneDrain_bad bad q :
  b_knownBad q ∪ list_to_set bad ⊆ b_knownBad (doneDrain sha3 bad q).2 /\ b_drainingSet (doneDrain sha3 bad q).2 = ∅.
Proof.
  unfold doneDrain. cbn [snd]. destruct (decide (bad = [])) as [->|Hb]; [bfields; set_solver|].
  assert (Hf : forall l q q0, grew q0 q -> grew q0 (foldl (fun q b => updateBad sha3 b q) q l)).
  { induction l as [|b l IH]; intros q1 q0 Hq; cbn [foldl]; [done|]. apply IH. destruct (grew_updateBad b q1) as [G1 G2], Hq as [H1 H2].
    unfold grew. rewrite G2. split; [by etrans|done]. }
  match goal with |- context [foldl _ ?a _] => apply (Hf bad a a); by split end.
Qed.


Lemma insertFuture_elem t x l e : e ∈ insertFuture t x l <-> e = (t, x) \/ e ∈ l.
Proof.
  induction l as [|y l IH]; cbn [insertFuture]; [by rewrite elem_of_cons|].
  destruct (t <? y.1); rewrite ?elem_of_cons, ?IH; tauto.
Qed.

Lemma noteReady_ready h q x : x ∈ b_readySet q -> x ∈ b_readySet (noteReady h q).
Proof. intros Hx. destruct (noteReady_spec sha3 h q) as (rem & k' & _ & _ & -> & _). set_solver. Qed.

End Safety.

(** ** Example blocks

    A counter in place of the hash, and a chain that accepts a few blocks; the block
    with the hash [badOne] fails in the verifier thread. *)

Definition exHeader (n p t : Z) : BlockHeader :=
  mkHeader (ofArith 32 p) (ofArith 32 999) (zeroHash 32) (zeroHash 32) (zeroHash 32) (zeroHash 256) n 0 0
    (ofArith 32 (n - 1)) t (zeroHash 20) 7 [] (zeroHash 32) (zeroHash 32).
Definition exBlock (n p t : Z) : bytes := encode (Lst (blockItems (exHeader n p t) [] [] [])).
Definition exId (n : Z) : bytes := ofArith 32 n.

Definition exFirst : bytes := exBlock 2 1 0.
Definition exSecond : bytes := exBlock 3 2 0.
Definition exOther : bytes := exBlock 4 1 0.
Definition exAnother : bytes := exBlock 5 1 0.
Definition exLater : bytes := exBlock 6 1 50.
Definition exBad : bytes := exBlock 7 1 0.
Definition exBlocks : list bytes := [exFirst; exSecond; exOther; exAnother; exLater; exBad].

#[local] Instance exVerifier : BlockVerifier (list bytes) := {
  verifyBlock _ b ir :=
    if decide (b ∈ exBlocks) then
      if decide (b = exBad /\ ir = IR_OutOfOrderChecks) then Throw InvalidBlockFormat
      else bi ← parseHeader countHash b BlockData (zeroHash 32); Ok (mkVerifiedRef b bi [])
    else Throw InvalidBlockFormat;
  isKnown bc h := bool_decide (h ∈ bc)
}.

Lemma exVerifier_ok (bc : list bytes) b ir r : verifyBlock bc b ir = Ok r ->
  b ∈ exBlocks /\ vr_block r = b /\ parseHeader countHash b BlockData (zeroHash 32) = Ok (vr_info r).
Proof.
  unfold verifyBlock, exVerifier. destruct (decide (b ∈ exBlocks)) as [Hb|]; [|intros E; discriminate E].
  destruct (decide _) as [|]; intros E; [discriminate E|].
  apply bind_Ok in E as (bi & Eb & E). injection E as <-. split_and!; [exact Hb|reflexivity|exact Eb].
Qed.

Definition exOk (b : bytes) : bool :=
  match parseHeader countHash b BlockData (zeroHash 32), headerHashFromBlock countHash b with
  | Ok bi, Ok h =>
      bool_decide (b <> []) && bool_decide (hashOf countHash bi = h) && bool_decide (h <> exId 999) &&
      bool_decide (h_sha3Uncles bi = exId 999)
  | _, _ => false
  end.
Lemma exOk_all b bi : b ∈ exBlocks -> parseHeader countHash b BlockData (zeroHash 32) = Ok bi ->
  exists h, headerHashFromBlock countHash b = Ok h /\ b <> [] /\ hashOf countHash bi = h /\ h <> exId 999 /\
    h_sha3Uncles bi = exId 999.
Proof.
  assert (Forall (fun b => exOk b = true) exBlocks) as Ha by decide_closed.
  intros Hb Ep. eapply list.Forall_forall in Hb; [|exact Ha]. unfold exOk in Hb. rewrite Ep in Hb.
  destruct (headerHashFromBlock countHash b) as [h|]; [|discriminate Hb]. exists h.
  rewrite !andb_true_iff, !bool_decide_eq_true in Hb. tauto.
Qed.

#[local] Instance exVerifier_laws : BlockVerifierLaws countHash (list bytes).
Proof.
  split.
  - intros bc b ir r E. apply exVerifier_ok in E as (Hb & Eb & Ep). split; [exact Eb|].
    by destruct (exOk_all b _ Hb Ep) as (h & _ & Hn & _).
  - intros bc bc' b ir ir' r r' E E'. apply exVerifier_ok in E as (_ & _ & E), E' as (_ & _ & E'). congruence.
  - intros bc b ir r h E Eh. apply exVerifier_ok in E as (Hb & _ & Ep).
    destruct (exOk_all b _ Hb Ep) as (h' & Eh' & _ & Hh & _). congruence.
  - intros bc bc' b b' ir ir' r r' E E'. apply exVerifier_ok in E as (Hb & _ & Ep), E' as (Hb' & _ & Ep').
    destruct (exOk_all b _ Hb Ep) as (h & _ & _ & _ & _ & ->), (exOk_all b' _ Hb' Ep') as (h' & _ & _ & -> & Hn & _).
    congruence.
Qed.

Definition exChain : list bytes := [exId 1].
Definition exImport (now : Z) (b : bytes) (q : BlockQueue) : BlockQueue :=
  match import_block countHash exChain now b false q with Ok (_, q') => q' | Throw _ => q end.
Definition exDone (i : nat) (q : BlockQueue) : BlockQueue := verifierDone countHash exChain i q.
Definition exTick (now : Z) (q : BlockQueue) : BlockQueue :=
  match tick countHash exChain now q with Ok q' => q' | Throw _ => q end.

Lemma reach_exImport r now b q : reachable countHash r exChain q -> reachable countHash r exChain (exImport now b q).
Proof.
  intros Hr. unfold exImport. destruct (import_block _ _ _ _ _ _) as [[res q']|] eqn:E; [|done].
  by eapply reach_import.
Qed.

(** The second block arrives before the first; both are verified, in reverse. *)
Definition exState : BlockQueue :=
  exDone 0 (exDone 1 (verifierTake (verifierTake (exImport 9 exFirst (exImport 9 exSecond newBlockQueue))))).

Lemma exState_reachable : reachable countHash false exChain exState.
Proof. do 2 apply reach_done. do 2 apply reach_take. do 2 apply reach_exImport. apply reach_new. Qed.


Definition exOut : list VerifiedBlock := (drain countHash 10 exState).1.
Definition exLast : VerifiedBlock := default (headerOnly newHeader) (exOut !! 1%nat).


(** The first block is handed out and refused by the chain while the second is in verification. *)
Definition exRefused : BlockQueue :=
  verifierTake (exImport 9 exSecond (drain countHash 10 (exDone 0 (verifierTake (exImport 9 exFirst newBlockQueue)))).2).

Lemma exRefused_reachable : reachable countHash false exChain exRefused.
Proof.
  apply reach_take, reach_exImport, reach_drain, reach_done, reach_take, reach_exImport. apply reach_new.
Qed.

Lemma exRefused_draining h : h ∈ [exId 2] <-> h ∈ b_drainingSet exRefused.
Proof.
  assert (b_drainingSet exRefused = {[exId 2]}) as -> by decide_closed. by rewrite list_elem_of_singleton, elem_of_singleton.
Qed.



(** ** Where the code leaves the invariants *)

(** [clear] does not stop the verifier threads.  A block that is imported again after
    [clear], while a thread still holds it from before, is struck from the ready set
    when that thread fails, but stays among the unverified blocks: the check
    [invariants] then fails. *)
Lemma clear_keeps_jobs :
  let q := exDone 0 (exImport 9 exBad (bq_clear (verifierTake (exImport 9 exBad newBlockQueue)))) in
  bq_invariants q = false /\ b_readySet q = ∅ /\ ub_hash <$> b_unverified q = [exId 7].
Proof. cbv zeta. split_and!; decide_closed. Qed.

(** [updateBad] can remove the unfinished front of [m_verifying] and leave finished
    blocks there; when the thread with the removed block succeeds, it does not find
    its place holder and does not look at the front.  The finished block stays in
    [m_verifying] although no verification is under way, and holds up every block
    behind it. *)
Definition exStuck : BlockQueue :=
  let q := exDone 0 (verifierTake (exImport 9 exFirst newBlockQueue)) in
  let q := verifierTake (verifierTake (exImport 9 exOther (exImport 9 exSecond (drain countHash 10 q).2))) in
  exDone 0 (doneDrain countHash [exId 2] (exDone 1 q)).2.
Lemma updateBad_strands_finished :
  b_jobs exStuck = [] /\ b_unverified exStuck = [] /\ b_readySet exStuck = {[exId 4]} /\ (drain countHash 10 exStuck).1 = [] /\
  let q := exDone 0 (verifierTake (exImport 9 exAnother exStuck)) in
  b_jobs q = [] /\ b_readySet q = {[exId 4; exId 5]} /\ (drain countHash 10 q).1 = [].
Proof. cbv zeta. split_and!; try decide_closed; by vm_compute. Qed.

(** The batch that made the front bad was reported as [doneDrain] expects. *)
Lemma exStuck_reachable : reachable countHash false exChain exStuck.
Proof.
  unfold exStuck. apply reach_done. apply reach_doneDrain.
  - apply reach_done, reach_take, reach_take, reach_exImport, reach_exImport, reach_drain, reach_done, reach_take, reach_exImport.
    apply reach_new.
  - intros h Hh. apply list_elem_of_singleton in Hh. subst h. split; decide_closed.
  - match goal with |- forall h, h ∈ ?s -> _ => assert (s = {[exId 2]}) as -> by decide_closed end.
    intros h Hh. left. apply elem_of_singleton in Hh. subst h. by left.
Qed.

(** [retryAllUnknown] resets the counters of the unknown blocks, which also count the
    future blocks; when these are due, the counters wrap and the queue is full for
    good. *)
Lemma retry_wraps_counters :
  let q := exTick 60 (retryAllUnknown (exImport 9 exSecond (exImport 9 exLater newBlockQueue))) in
  b_unknown q = [] /\ b_future q = [] /\ b_unknownCount q = 2 ^ 64 - 1 /\ unknownFull q = true.
Proof. cbv zeta. split_and!; by vm_compute. Qed.

(** A block that fails in the verifier thread is never taken off the counters of the
    known blocks. *)
Lemma failed_block_counts :
  let q := exDone 0 (verifierTake (exImport 9 exBad newBlockQueue)) in
  queued q = 0%nat /\ b_readySet q = ∅ /\ b_knownCount q = 1 /\ b_knownSize q = sizeZ exBad.
Proof. cbv zeta. split_and!; try decide_closed; by vm_compute. Qed.

(** A future block can be queued any number of times, and its difficulty is counted
    again when it is due. *)
Lemma future_block_twice :
  let q := exImport 9 exLater (exImport 9 exLater newBlockQueue) in
  length (b_future q) = 2%nat /\ b_difficulty q = 14 /\ queued (exTick 60 q) = 1%nat /\ b_difficulty (exTick 60 q) = 21.
Proof. cbv zeta. split_and!; by vm_compute. Qed.
