(* ===== verification/BlockDetails.v ===== *)
(** * libelementrem/BlockDetails.{h,cpp} and the parsers of receipts

    The records that the chain keeps about blocks and transactions beside the blocks
    themselves ("extras"), and how they are written and read.  The class [Extra] is
    what [BlockChain::queryExtras] uses of such a record.  The member [size], which
    only serves the statistics, is left out. *)

From Stdlib Require Import ZArith Lia.
From stdpp Require Import base list list_numbers option.
From S2P Require Import Prelude CommonData RLP RLPTheory FixedHash ExtVMFace Transaction BlockHeader.

Definition c_bloomIndexSize : Z := 16.
Definition c_bloomIndexLevels : Z := 2.

(** [(unsigned)-1] *)
Definition InvalidBlockNumber : Z := 2 ^ 32 - 1.

Record BlockDetails := mkDetails {
  bd_number : Z;
  bd_totalDifficulty : Z;
  bd_parent : bytes;
  bd_children : list bytes
}.
#[export] Instance BlockDetails_eq_dec : EqDecision BlockDetails.
Proof. solve_decision. Defined.

(** [BlockDetails()] *)
Definition NullBlockDetails : BlockDetails := mkDetails InvalidBlockNumber Invalid256 (zeroHash 32) [].
Definition details_isNull (d : BlockDetails) : bool := bd_number d =? InvalidBlockNumber.

Record BlockLogBlooms := mkLogBlooms { lb_blooms : list bytes }.
#[export] Instance BlockLogBlooms_eq_dec : EqDecision BlockLogBlooms.
Proof. solve_decision. Defined.

(** An array of [c_bloomIndexSize] blooms *)
Record BlocksBlooms := mkBlocksBlooms { bb_blooms : list bytes }.
#[export] Instance BlocksBlooms_eq_dec : EqDecision BlocksBlooms.
Proof. solve_decision. Defined.
Definition NullBlocksBlooms : BlocksBlooms := mkBlocksBlooms (replicate 16 (zeroHash 256)).

Record BlockReceipts := mkBlockReceipts { br_receipts : list TransactionReceipt }.

Record BlockHash := mkBlockHash { bh_value : bytes }.
#[export] Instance BlockHash_eq_dec : EqDecision BlockHash.
Proof. solve_decision. Defined.

Record TransactionAddress := mkTxAddress { ta_blockHash : bytes; ta_index : Z }.
#[export] Instance TransactionAddress_eq_dec : EqDecision TransactionAddress.
Proof. solve_decision. Defined.
Definition NullTransactionAddress : TransactionAddress := mkTxAddress (zeroHash 32) 0.
Definition txAddress_bool (t : TransactionAddress) : bool := nonzero (ta_blockHash t).

(** ** Writing *)

Definition appendHashes (s : RLPStream.t) (l : list bytes) : result rlp_error RLPStream.t :=
  RLPStream.appendVector (fun s h => RLPStream.appendHash s h false false) s l.

(** [BlockDetails::rlp] *)
Definition details_rlp (d : BlockDetails) : result rlp_error bytes :=
  s0 ← RLPStream.appendList RLPStream.empty 4;
  s1 ← RLPStream.appendInt s0 (bd_number d);
  s2 ← RLPStream.appendInt s1 (bd_totalDifficulty d);
  s3 ← RLPStream.appendHash s2 (bd_parent d) false false;
  s4 ← appendHashes s3 (bd_children d);
  RLPStream.out s4.

Definition logBlooms_rlp (b : BlockLogBlooms) : result rlp_error bytes :=
  s ← appendHashes RLPStream.empty (lb_blooms b); RLPStream.out s.

Definition blocksBlooms_rlp (b : BlocksBlooms) : result rlp_error bytes :=
  s ← appendHashes RLPStream.empty (bb_blooms b); RLPStream.out s.

Definition receipts_rlp (b : BlockReceipts) : result rlp_error bytes :=
  s0 ← RLPStream.appendList RLPStream.empty (sizeZ (br_receipts b));
  s1 ← RLPStream.appendEach (fun s r => receipt_streamRLP r s) s0 (br_receipts b);
  RLPStream.out s1.

Definition blockHash_rlp (b : BlockHash) : result rlp_error bytes :=
  s ← RLPStream.appendHash RLPStream.empty (bh_value b) false false; RLPStream.out s.

Definition txAddress_rlp (t : TransactionAddress) : result rlp_error bytes :=
  s0 ← RLPStream.appendList RLPStream.empty 2;
  s1 ← RLPStream.appendHash s0 (ta_blockHash t) false false;
  s2 ← RLPStream.appendInt s1 (ta_index t);
  RLPStream.out s2.

(** ** Reading *)

(** A loop over the items of a list, and [itemCountStrict], which may not return *)
Definition hloop {A} (r : option (result rlp_error A)) : hres A :=
  match r with Some r => hrlp r | None => Throw HdrNoReturn end.

(** [toVector<FixedHash<n>>()] *)
Definition toHashes (n : Z) (d : bytes) : hres (list bytes) := hloop (RLP.toVector (RLP.toHash n) d LaissezFaire).

(** [BlockDetails(RLP)] *)
Definition details_of (r : bytes) : hres BlockDetails :=
  x0 ← item_ r 0; number ← hrlp (RLP.toInt (Some 32) x0 Strict);
  x1 ← item_ r 1; totalDifficulty ← hrlp (RLP.toInt (Some 256) x1 Strict);
  x2 ← item_ r 2; parent ← hrlp (RLP.toHash 32 x2 Strict);
  x3 ← item_ r 3; children ← toHashes 32 x3;
  Ok (mkDetails number totalDifficulty parent children).

Definition logBlooms_of (r : bytes) : hres BlockLogBlooms := l ← toHashes 256 r; Ok (mkLogBlooms l).

(** [toArray<LogBloom, c_bloomIndexSize>()] *)
Fixpoint toArray_loop (r : bytes) (is_ : list Z) : hres (list bytes) :=
  match is_ with
  | [] => Ok []
  | i :: is' => x ← item_ r i; b ← hrlp (RLP.toHash 256 x LaissezFaire); l ← toArray_loop r is'; Ok (b :: l)
  end.
Definition blocksBlooms_of (r : bytes) : hres BlocksBlooms :=
  n ← hloop (RLP.itemCountStrict r);
  if negb (n =? c_bloomIndexSize) then Ok NullBlocksBlooms
  else l ← toArray_loop r (seqZ 0 c_bloomIndexSize); Ok (mkBlocksBlooms l).

Definition blockHash_of (r : bytes) : hres BlockHash := h ← hrlp (RLP.toHash 32 r Strict); Ok (mkBlockHash h).

Definition txAddress_of (r : bytes) : hres TransactionAddress :=
  x0 ← item_ r 0; h ← hrlp (RLP.toHash 32 x0 Strict);
  x1 ← item_ r 1; i ← hrlp (RLP.toInt (Some 32) x1 Strict);
  Ok (mkTxAddress h i).

(** A loop whose body can throw more than the reader *)
Fixpoint each {A} (f : bytes -> hres A) (l : list bytes) : hres (list A) :=
  match l with [] => Ok [] | x :: l' => a ← f x; r ← each f l'; Ok (a :: r) end.
Definition hforeach {A} (f : bytes -> hres A) (d : bytes) : hres (list A) := l ← hloop (RLP.for_range Ok d); each f l.

(** [LogEntry(RLP)], [TransactionReceipt(bytesConstRef)] *)
Definition LogEntry_of (r : bytes) : hres LogEntry :=
  x0 ← item_ r 0; a ← hrlp (RLP.toHash 20 x0 Strict);
  x1 ← item_ r 1; ts ← toHashes 32 x1;
  x2 ← item_ r 2; d ← hrlp (RLP.toBytes x2 LaissezFaire);
  Ok (mkLogEntry (be_value a) (be_value <$> ts) d).
Definition receipt_of (d : bytes) : hres TransactionReceipt :=
  r ← hrlp (RLP.construct d VeryStrict);
  x0 ← item_ r 0; root ← hrlp (RLP.toHash 32 x0 Strict);
  x1 ← item_ r 1; used ← hrlp (RLP.toInt (Some 256) x1 Strict);
  x2 ← item_ r 2; bl ← hrlp (RLP.toHash 256 x2 Strict);
  x3 ← item_ r 3; log ← hforeach LogEntry_of x3;
  Ok (mkReceipt (be_value root) used bl log).
Definition receipts_of (r : bytes) : hres BlockReceipts := l ← hforeach receipt_of r; Ok (mkBlockReceipts l).

(** ** What [queryExtras] uses: the default and the two forms *)
Class Extra (T : Type) := {
  extra_null : T;
  extra_rlp : T -> result rlp_error bytes;
  extra_of : bytes -> hres T
}.
#[export] Instance Extra_details : Extra BlockDetails :=
  {| extra_null := NullBlockDetails; extra_rlp := details_rlp; extra_of := details_of |}.
#[export] Instance Extra_blockHash : Extra BlockHash :=
  {| extra_null := mkBlockHash (zeroHash 32); extra_rlp := blockHash_rlp; extra_of := blockHash_of |}.
#[export] Instance Extra_txAddress : Extra TransactionAddress :=
  {| extra_null := NullTransactionAddress; extra_rlp := txAddress_rlp; extra_of := txAddress_of |}.
#[export] Instance Extra_logBlooms : Extra BlockLogBlooms :=
  {| extra_null := mkLogBlooms []; extra_rlp := logBlooms_rlp; extra_of := logBlooms_of |}.
#[export] Instance Extra_receipts : Extra BlockReceipts :=
  {| extra_null := mkBlockReceipts []; extra_rlp := receipts_rlp; extra_of := receipts_of |}.
#[export] Instance Extra_blocksBlooms : Extra BlocksBlooms :=
  {| extra_null := NullBlocksBlooms; extra_rlp := blocksBlooms_rlp; extra_of := blocksBlooms_of |}.
