(* ===== verification/BlockDetailsTheory.v ===== *)
(** * Records about blocks survive writing and reading

    Each kind of record has a reference encoding by items; what [extra_rlp] writes is
    that encoding, and [extra_of] reads the record back.  The class [ExtraLaws] is
    what the database layer relies on. *)

From Stdlib Require Import ZArith Lia.
From stdpp Require Import base list list_numbers option.
From S2P Require Import Prelude CommonData RLP RLPTheory FixedHash ExtVMFace Transaction TrieCommon Trie TrieDB TrieDBTheory TrieDBInsert BlockHeader HeaderTheory BlockDetails.

(** A record that is within its widths is written, and read back as it was. *)
Class ExtraLaws (T : Type) `{Extra T} := {
  wfExtra : T -> Prop;
  extra_written x : wfExtra x -> exists d, extra_rlp x = Ok d /\ d <> [] /\
    (r ← hrlp (RLP.construct d VeryStrict); extra_of r) = Ok x
}.

(** ** Items *)

Lemma goodItem_small l : Forall smallItem l -> sizeZ l < 2 ^ 20 -> goodItem (Lst l).
Proof. intros Hl Hn. by apply small_items. Qed.

Lemma construct_good i : goodItem i -> hrlp (RLP.construct (encode i) VeryStrict) = Ok (encode i).
Proof. intros [Hw Hf]. by rewrite construct_exact. Qed.

(** A record written as a list of items *)
Lemma written_items l (w : result rlp_error bytes) :
  l <> [] -> goodItem (Lst l) ->
  w = (s ← RLPStream.appendList RLPStream.empty (sizeZ l); s' ← appendItems s l; RLPStream.out s') ->
  w = Ok (encode (Lst l)).
Proof. intros Hl [_ Hf] ->. by apply stream_items. Qed.

Lemma written_item i : goodItem i -> (s ← appendItem RLPStream.empty i; RLPStream.out s) = Ok (encode i).
Proof.
  intros [_ Hf]. unfold fitsItem in Hf. rewrite appendItem_writes by lia. done.
Qed.

(** ** Lists of hashes *)

Definition hashesOk (n : Z) (l : list bytes) : Prop := Forall (hashOk n) l /\ sizeZ l < 2 ^ 16.
Definition hashItems (l : list bytes) : item := Lst (map Str l).

Lemma hashItems_size n l : 0 <= n <= 256 -> Forall (hashOk n) l -> sizeZ (flat_map encode (map Str l)) <= 265 * sizeZ l.
Proof.
  intros Hn. induction 1 as [|h l [Hw Hh] Hl IH]; [done|]. cbn [map].
  rewrite sizeZ_flat_map_cons, sizeZ_cons. pose proof (encode_Str_size h ltac:(lia)). lia.
Qed.

Lemma hashItems_small n l : 0 <= n <= 256 -> hashesOk n l -> smallItem (hashItems l) /\ goodItem (hashItems l).
Proof.
  intros Hn [Hl Hs]. pose proof (hashItems_size n l Hn Hl) as Hz. pose proof (sizeZ_nonneg (flat_map encode (map Str l))).
  assert (Hw : wf_item (hashItems l)).
  { apply wf_item_Lst, list.Forall_fmap. eapply Forall_impl; [|exact Hl]. by intros h [Hw _]. }
  assert (Hsz : sizeZ (encode (hashItems l)) <= 2 ^ 30).
  { unfold hashItems. cbn [encode]. rewrite sizeZ_app. pose proof (header_size 192 (sizeZ (flat_map encode (map Str l)))). lia. }
  split; (split; [done|]); [lia|]. unfold fitsItem. lia.
Qed.

Lemma appendHashes_item s l : appendHashes s l = appendItem s (hashItems l).
Proof.
  unfold appendHashes, RLPStream.appendVector, hashItems. cbn [appendItem]. fold appendItems.
  assert (sizeZ (map Str l) = sizeZ l) as -> by (unfold sizeZ; by rewrite length_map).
  apply bind_ext; [done|]. intros s1. revert s1. induction l as [|h l IH]; intros s1; [done|].
  cbn [map RLPStream.appendEach appendItems]. apply bind_ext; [done|]. apply IH.
Qed.

Lemma toHashes_ok n l : 0 <= n <= 256 -> hashesOk n l -> toHashes n (encode (hashItems l)) = Ok l.
Proof.
  intros Hn Hl. destruct (hashItems_small n l Hn Hl) as [_ [Hw Hf]]. destruct Hl as [Hl _].
  unfold toHashes, RLP.toVector. unfold hashItems in *. destruct (reads_exact _ Hw Hf) as [_ _ HL _ _ _ _].
  rewrite HL. cbn [is_Lst]. unfold RLP.itemCount. rewrite HL. cbn [is_Lst].
  rewrite items_encode by done. rewrite for_range_encode by done. cbn [hloop hrlp]. clear Hw Hf HL.
  assert (mapR (fun i => RLP.toHash n (encode i) LaissezFaire) (map Str l) = Ok l) as ->; [|done].
  induction Hl as [|h l [Hw Hh] Hl IH]; [done|]. cbn [map mapR]. rewrite toHash_encode by (done || lia). by rewrite IH.
Qed.

Lemma hhash_ok n h flags : hashOk n h -> n < 2 ^ 32 -> hrlp (RLP.toHash n (encode (Str h)) flags) = Ok h.
Proof. intros [Hw Hn] Hl. by rewrite toHash_encode. Qed.
Lemma hint32_ok v : fits 32 v -> hrlp (RLP.toInt (Some 32) (encode (int_item v)) Strict) = Ok v.
Proof. intros Hv. by rewrite (toInt_encode v 4) by (done || lia). Qed.
Lemma hint256_ok v : fits 256 v -> hrlp (RLP.toInt (Some 256) (encode (int_item v)) Strict) = Ok v.
Proof. intros Hv. by rewrite (toInt_encode v 32) by done. Qed.

(** ** Details *)

Definition wfDetails (d : BlockDetails) : Prop :=
  fits 32 (bd_number d) /\ fits 256 (bd_totalDifficulty d) /\ hashOk 32 (bd_parent d) /\ hashesOk 32 (bd_children d).

Definition detailItems (d : BlockDetails) : list item :=
  [int_item (bd_number d); int_item (bd_totalDifficulty d); Str (bd_parent d); hashItems (bd_children d)].

Lemma fits_32_256 v : fits 32 v -> fits 256 v.
Proof. unfold fits. lia. Qed.

Lemma detailItems_good d : wfDetails d -> goodItem (Lst (detailItems d)).
Proof.
  intros (Hn & Ht & Hp & Hc). apply goodItem_small; [|done].
  repeat apply Forall_cons_2; [| | | |apply Forall_nil_2].
  - by apply small_int, fits_32_256.
  - by apply small_int.
  - by apply (hash_small 32).
  - by apply (hashItems_small 32).
Qed.

Lemma details_rlp_ok d : wfDetails d -> details_rlp d = Ok (encode (Lst (detailItems d))).
Proof.
  intros Hd. apply written_items; [done|by apply detailItems_good|]. destruct Hd as (Hn & Ht & Hp & Hc).
  unfold details_rlp, detailItems. apply bind_ext; [done|]. intros s0. cbn [appendItems]. rewrite !bind_assoc.
  apply bind_ext; [apply (appendInt_item _ _ 4); [lia|done]|]. intros s1. rewrite !bind_assoc.
  apply bind_ext; [by apply (appendInt_item _ _ 32)|]. intros s2. rewrite !bind_assoc.
  apply bind_ext; [done|]. intros s3. rewrite !bind_assoc. apply bind_ext; [apply appendHashes_item|]. done.
Qed.

#[export] Instance ExtraLaws_details : ExtraLaws BlockDetails.
Proof.
  refine {| wfExtra := wfDetails |}. intros d Hd. exists (encode (Lst (detailItems d))).
  split; [by apply details_rlp_ok|]. split; [apply encode_not_nil|]. pose proof (detailItems_good d Hd) as Hg.
  rewrite construct_good, bind_Ok_l by done. destruct Hd as (Hn & Ht & Hp & Hc). cbn [extra_of Extra_details]. unfold details_of.
  rewrite (item_ok _ 0 (int_item (bd_number d))), bind_Ok_l by done. rewrite hint32_ok, bind_Ok_l by done.
  rewrite (item_ok _ 1 (int_item (bd_totalDifficulty d))), bind_Ok_l by done. rewrite hint256_ok, bind_Ok_l by done.
  rewrite (item_ok _ 2 (Str (bd_parent d))), bind_Ok_l by done. rewrite hhash_ok, bind_Ok_l by done.
  rewrite (item_ok _ 3 (hashItems (bd_children d))), bind_Ok_l by done. rewrite toHashes_ok, bind_Ok_l by done. by destruct d.
Defined.

(** ** Hashes by number, addresses of transactions, blooms *)

#[export] Instance ExtraLaws_blockHash : ExtraLaws BlockHash.
Proof.
  refine {| wfExtra b := hashOk 32 (bh_value b) |}. intros b Hb. exists (encode (Str (bh_value b))).
  assert (Hg : goodItem (Str (bh_value b))).
  { destruct (hash_small 32 _ Hb ltac:(lia)) as [Hw Hs]. split; [done|]. unfold fitsItem. lia. }
  split; [by apply (written_item (Str (bh_value b)))|]. split; [apply encode_not_nil|].
  rewrite construct_good, bind_Ok_l by done. cbn [extra_of Extra_blockHash]. unfold blockHash_of.
  rewrite hhash_ok, bind_Ok_l by done. by destruct b.
Defined.

Definition wfTxAddress (t : TransactionAddress) : Prop := hashOk 32 (ta_blockHash t) /\ fits 32 (ta_index t).

#[export] Instance ExtraLaws_txAddress : ExtraLaws TransactionAddress.
Proof.
  refine {| wfExtra := wfTxAddress |}. intros t [Hh Hi]. set (l := [Str (ta_blockHash t); int_item (ta_index t)]).
  exists (encode (Lst l)).
  assert (Hg : goodItem (Lst l)).
  { apply goodItem_small; [|done]. repeat apply Forall_cons_2; [by apply (hash_small 32)|by apply small_int, fits_32_256|apply Forall_nil_2]. }
  split; [|split; [apply encode_not_nil|]].
  - apply written_items; [done|done|]. cbn [extra_rlp Extra_txAddress]. unfold txAddress_rlp, l.
    apply bind_ext; [done|]. intros s0. cbn [appendItems]. rewrite !bind_assoc.
    apply bind_ext; [done|]. intros s1. rewrite !bind_assoc.
    apply bind_ext; [apply (appendInt_item _ _ 4); [lia|done]|]. done.
  - rewrite construct_good, bind_Ok_l by done. cbn [extra_of Extra_txAddress]. unfold txAddress_of.
    rewrite (item_ok _ 0 (Str (ta_blockHash t))), bind_Ok_l by done. rewrite hhash_ok, bind_Ok_l by done.
    rewrite (item_ok _ 1 (int_item (ta_index t))), bind_Ok_l by done. rewrite hint32_ok, bind_Ok_l by done. by destruct t.
Defined.

Lemma hashes_written l : goodItem (hashItems l) -> (s ← appendHashes RLPStream.empty l; RLPStream.out s) = Ok (encode (hashItems l)).
Proof. intros Hg. rewrite appendHashes_item. by apply written_item. Qed.

#[export] Instance ExtraLaws_logBlooms : ExtraLaws BlockLogBlooms.
Proof.
  refine {| wfExtra b := hashesOk 256 (lb_blooms b) |}. intros b Hb. exists (encode (hashItems (lb_blooms b))).
  destruct (hashItems_small 256 _ ltac:(lia) Hb) as [_ Hg].
  split; [by apply hashes_written|]. split; [apply encode_not_nil|]. rewrite construct_good, bind_Ok_l by done.
  cbn [extra_of Extra_logBlooms]. unfold logBlooms_of. rewrite toHashes_ok, bind_Ok_l by done. by destruct b.
Defined.

Definition wfBlocksBlooms (b : BlocksBlooms) : Prop := Forall (hashOk 256) (bb_blooms b) /\ length (bb_blooms b) = 16%nat.

Lemma toArray_loop_ok pre l : goodItem (Lst (map Str (pre ++ l))) -> sizeZ (pre ++ l) < 2 ^ 16 -> Forall (hashOk 256) l ->
  toArray_loop (encode (Lst (map Str (pre ++ l)))) (seqZ (sizeZ pre) (sizeZ l)) = Ok l.
Proof.
  intros Hg Hn Hl. revert pre Hg Hn. induction Hl as [|h l Hh Hl IH]; intros pre Hg Hn; [done|].
  pose proof (sizeZ_nonneg pre). pose proof (sizeZ_nonneg l). rewrite sizeZ_app, sizeZ_cons in Hn.
  rewrite sizeZ_cons, seqZ_cons by lia. cbn [toArray_loop]. rewrite (item_ok _ _ (Str h)), bind_Ok_l; [|done| |lia].
  - rewrite hhash_ok, bind_Ok_l by (done || lia). replace (Z.pred (1 + sizeZ l)) with (sizeZ l) by lia.
    replace (pre ++ h :: l) with ((pre ++ [h]) ++ l) in * by by rewrite <-app_assoc.
    replace (Z.succ (sizeZ pre)) with (sizeZ (pre ++ [h])) by (rewrite sizeZ_app; change (sizeZ [h]) with 1; lia).
    rewrite IH; [done|done|]. rewrite !sizeZ_app. change (sizeZ [h]) with 1. lia.
  - unfold sizeZ. rewrite Nat2Z.id, map_app. cbn [map]. rewrite <- (length_map Str pre). by apply list_lookup_middle.
Qed.

#[export] Instance ExtraLaws_blocksBlooms : ExtraLaws BlocksBlooms.
Proof.
  refine {| wfExtra := wfBlocksBlooms |}. intros b [Hb Hn]. exists (encode (hashItems (bb_blooms b))).
  assert (Hz : sizeZ (bb_blooms b) = 16) by (unfold sizeZ; rewrite Hn; done).
  destruct (hashItems_small 256 (bb_blooms b) ltac:(lia)) as [_ Hg]; [split; [done|lia]|].
  split; [by apply hashes_written|]. split; [apply encode_not_nil|]. rewrite construct_good, bind_Ok_l by done.
  cbn [extra_of Extra_blocksBlooms]. unfold blocksBlooms_of. pose proof Hg as [Hw Hf]. unfold hashItems in *.
  assert (hloop (RLP.itemCountStrict (encode (Lst (map Str (bb_blooms b))))) = Ok 16) as ->.
  { unfold RLP.itemCountStrict. destruct (reads_exact _ Hw Hf) as [_ _ -> _ _ _ _]. cbn [is_Lst]. rewrite items_encode by done.
    cbn. unfold sizeZ. rewrite length_map. by rewrite Hn. }
  rewrite bind_Ok_l. change (negb (16 =? c_bloomIndexSize)) with false. cbn match.
  pose proof (toArray_loop_ok [] (bb_blooms b) Hg) as E. cbn [app] in E. rewrite Hz in E. change (sizeZ []) with 0 in E.
  change c_bloomIndexSize with 16. rewrite E by (done || lia). by destruct b.
Defined.
