(* ===== verification/BlockChain.v ===== *)
(** * libelementrem/BlockChain.{h,cpp}: the databases and their caches

    A chain keeps the blocks and the records about them in two databases, with a
    cache in front of each kind of record.  Reading a record through [queryExtras]
    leaves a copy in the cache; the collector drops copies that have not been used
    for a while.  The operations of the chain that use these are in [ChainOps].

    The databases are maps; failures of the disk, on which the code ends the process,
    are not modelled.  Locks are not modelled. *)

From Stdlib Require Import ZArith Lia.
From stdpp Require Import base list list_numbers option gmap.
From S2P Require Import Prelude CommonData RLP FixedHash Transaction BlockHeader Elhash BlockDetails.

(** Identifies an entry of a cache: the key and the kind, [(unsigned)-1] for blocks *)
Definition CacheID : Type := bytes * Z.
Definition BlockKind : Z := 2 ^ 32 - 1.

Record BlockChain := mkChain {
  c_blocksDB : gmap bytes bytes;
  c_extrasDB : gmap bytes bytes;
  c_blocks : gmap bytes bytes;
  c_details : gmap bytes BlockDetails;
  c_logBlooms : gmap bytes BlockLogBlooms;
  c_receipts : gmap bytes BlockReceipts;
  c_transactionAddresses : gmap bytes TransactionAddress;
  c_blockHashes : gmap Z BlockHash;
  c_blocksBlooms : gmap bytes BlocksBlooms;
  c_cacheUsage : list (gset CacheID);
  c_inUse : gset CacheID;
  c_lastLastHashes : list bytes;
  c_lastBlockHash : bytes;
  c_lastBlockNumber : Z;
  c_genesisBlock : bytes;
  c_genesisHash : bytes;
  c_genesisHeaderBytes : bytes;
  c_params : ChainOperationParams
}.

(** The setters *)
Definition set_dbs (blocks extras : gmap bytes bytes) (c : BlockChain) : BlockChain :=
  mkChain blocks extras (c_blocks c) (c_details c) (c_logBlooms c) (c_receipts c) (c_transactionAddresses c)
    (c_blockHashes c) (c_blocksBlooms c) (c_cacheUsage c) (c_inUse c) (c_lastLastHashes c) (c_lastBlockHash c)
    (c_lastBlockNumber c) (c_genesisBlock c) (c_genesisHash c) (c_genesisHeaderBytes c) (c_params c).
Definition set_blocks (x : gmap bytes bytes) (c : BlockChain) : BlockChain :=
  mkChain (c_blocksDB c) (c_extrasDB c) x (c_details c) (c_logBlooms c) (c_receipts c) (c_transactionAddresses c)
    (c_blockHashes c) (c_blocksBlooms c) (c_cacheUsage c) (c_inUse c) (c_lastLastHashes c) (c_lastBlockHash c)
    (c_lastBlockNumber c) (c_genesisBlock c) (c_genesisHash c) (c_genesisHeaderBytes c) (c_params c).
Definition set_details (x : gmap bytes BlockDetails) (c : BlockChain) : BlockChain :=
  mkChain (c_blocksDB c) (c_extrasDB c) (c_blocks c) x (c_logBlooms c) (c_receipts c) (c_transactionAddresses c)
    (c_blockHashes c) (c_blocksBlooms c) (c_cacheUsage c) (c_inUse c) (c_lastLastHashes c) (c_lastBlockHash c)
    (c_lastBlockNumber c) (c_genesisBlock c) (c_genesisHash c) (c_genesisHeaderBytes c) (c_params c).
Definition set_logBlooms (x : gmap bytes BlockLogBlooms) (c : BlockChain) : BlockChain :=
  mkChain (c_blocksDB c) (c_extrasDB c) (c_blocks c) (c_details c) x (c_receipts c) (c_transactionAddresses c)
    (c_blockHashes c) (c_blocksBlooms c) (c_cacheUsage c) (c_inUse c) (c_lastLastHashes c) (c_lastBlockHash c)
    (c_lastBlockNumber c) (c_genesisBlock c) (c_genesisHash c) (c_genesisHeaderBytes c) (c_params c).
Definition set_receipts (x : gmap bytes BlockReceipts) (c : BlockChain) : BlockChain :=
  mkChain (c_blocksDB c) (c_extrasDB c) (c_blocks c) (c_details c) (c_logBlooms c) x (c_transactionAddresses c)
    (c_blockHashes c) (c_blocksBlooms c) (c_cacheUsage c) (c_inUse c) (c_lastLastHashes c) (c_lastBlockHash c)
    (c_lastBlockNumber c) (c_genesisBlock c) (c_genesisHash c) (c_genesisHeaderBytes c) (c_params c).
Definition set_transactionAddresses (x : gmap bytes TransactionAddress) (c : BlockChain) : BlockChain :=
  mkChain (c_blocksDB c) (c_extrasDB c) (c_blocks c) (c_details c) (c_logBlooms c) (c_receipts c) x
    (c_blockHashes c) (c_blocksBlooms c) (c_cacheUsage c) (c_inUse c) (c_lastLastHashes c) (c_lastBlockHash c)
    (c_lastBlockNumber c) (c_genesisBlock c) (c_genesisHash c) (c_genesisHeaderBytes c) (c_params c).
Definition set_blockHashes (x : gmap Z BlockHash) (c : BlockChain) : BlockChain :=
  mkChain (c_blocksDB c) (c_extrasDB c) (c_blocks c) (c_details c) (c_logBlooms c) (c_receipts c)
    (c_transactionAddresses c) x (c_blocksBlooms c) (c_cacheUsage c) (c_inUse c) (c_lastLastHashes c)
    (c_lastBlockHash c) (c_lastBlockNumber c) (c_genesisBlock c) (c_genesisHash c) (c_genesisHeaderBytes c) (c_params c).
Definition set_blocksBlooms (x : gmap bytes BlocksBlooms) (c : BlockChain) : BlockChain :=
  mkChain (c_blocksDB c) (c_extrasDB c) (c_blocks c) (c_details c) (c_logBlooms c) (c_receipts c)
    (c_transactionAddresses c) (c_blockHashes c) x (c_cacheUsage c) (c_inUse c) (c_lastLastHashes c)
    (c_lastBlockHash c) (c_lastBlockNumber c) (c_genesisBlock c) (c_genesisHash c) (c_genesisHeaderBytes c) (c_params c).
Definition set_usage (usage : list (gset CacheID)) (inUse : gset CacheID) (c : BlockChain) : BlockChain :=
  mkChain (c_blocksDB c) (c_extrasDB c) (c_blocks c) (c_details c) (c_logBlooms c) (c_receipts c)
    (c_transactionAddresses c) (c_blockHashes c) (c_blocksBlooms c) usage inUse (c_lastLastHashes c)
    (c_lastBlockHash c) (c_lastBlockNumber c) (c_genesisBlock c) (c_genesisHash c) (c_genesisHeaderBytes c) (c_params c).
Definition set_lastLastHashes (x : list bytes) (c : BlockChain) : BlockChain :=
  mkChain (c_blocksDB c) (c_extrasDB c) (c_blocks c) (c_details c) (c_logBlooms c) (c_receipts c)
    (c_transactionAddresses c) (c_blockHashes c) (c_blocksBlooms c) (c_cacheUsage c) (c_inUse c) x
    (c_lastBlockHash c) (c_lastBlockNumber c) (c_genesisBlock c) (c_genesisHash c) (c_genesisHeaderBytes c) (c_params c).
Definition set_last (hash : bytes) (number : Z) (c : BlockChain) : BlockChain :=
  mkChain (c_blocksDB c) (c_extrasDB c) (c_blocks c) (c_details c) (c_logBlooms c) (c_receipts c)
    (c_transactionAddresses c) (c_blockHashes c) (c_blocksBlooms c) (c_cacheUsage c) (c_inUse c) (c_lastLastHashes c)
    hash number (c_genesisBlock c) (c_genesisHash c) (c_genesisHeaderBytes c) (c_params c).

(** ** Keys *)

(** [toSlice(h256, sub)], [toSlice(uint64_t, sub)] *)
Definition toSlice (h : bytes) (sub : Z) : bytes := h ++ [u8 sub].
Definition toSlice_number (n : Z) (sub : Z) : bytes := zeroHash 24 ++ toBigEndian 8 n ++ [u8 sub].

(** [ldb::Slice("best")] *)
Definition bestKey : bytes := [98; 101; 115; 116].

(** A missing entry reads as the empty string. *)
Definition db_get (db : gmap bytes bytes) (k : bytes) : bytes := default [] (db !! k).

(** ** Reading through the caches *)

(** [noteUsed]: the first row of death row takes the entry, from the second if it is there *)
Definition noteUsed (id : CacheID) (c : BlockChain) : BlockChain :=
  match c_cacheUsage c with
  | r0 :: r1 :: rows =>
      if decide (id ∈ r1) then set_usage (({[id]} ∪ r0) :: (r1 ∖ {[id]}) :: rows) (c_inUse c) c
      else set_usage (({[id]} ∪ r0) :: r1 :: rows) ({[id]} ∪ c_inUse c) c
  | _ => c
  end.

(** [queryExtras]: the value, and the cache afterwards if a copy was made *)
Definition queryExtras {K T} `{Countable K} `{Extra T} (key : bytes) (h : K) (m : gmap K T) (db : gmap bytes bytes)
  : hres (T * option (gmap K T)) :=
  match m !! h with
  | Some v => Ok (v, None)
  | None =>
      let s := db_get db key in
      if decide (s = []) then Ok (extra_null, None)
      else r ← hrlp (RLP.construct s VeryStrict); v ← extra_of r; Ok (v, Some (<[h := v]> m))
  end.

Definition queryDetails (h : bytes) (c : BlockChain) : hres (BlockDetails * BlockChain) :=
  '(v, m) ← queryExtras (toSlice h 0) h (c_details c) (c_extrasDB c);
  Ok (v, match m with Some m => set_details m (noteUsed (h, 0) c) | None => c end).
Definition queryLogBlooms (h : bytes) (c : BlockChain) : hres (BlockLogBlooms * BlockChain) :=
  '(v, m) ← queryExtras (toSlice h 3) h (c_logBlooms c) (c_extrasDB c);
  Ok (v, match m with Some m => set_logBlooms m (noteUsed (h, 3) c) | None => c end).
Definition queryReceipts (h : bytes) (c : BlockChain) : hres (BlockReceipts * BlockChain) :=
  '(v, m) ← queryExtras (toSlice h 4) h (c_receipts c) (c_extrasDB c);
  Ok (v, match m with Some m => set_receipts m (noteUsed (h, 4) c) | None => c end).
Definition queryTransactionAddress (h : bytes) (c : BlockChain) : hres (TransactionAddress * BlockChain) :=
  '(v, m) ← queryExtras (toSlice h 2) h (c_transactionAddresses c) (c_extrasDB c);
  Ok (v, match m with Some m => set_transactionAddresses m (noteUsed (h, 2) c) | None => c end).
(** A number is not noted as used. *)
Definition queryBlockHash (n : Z) (c : BlockChain) : hres (BlockHash * BlockChain) :=
  '(v, m) ← queryExtras (toSlice_number n 1) n (c_blockHashes c) (c_extrasDB c);
  Ok (v, match m with Some m => set_blockHashes m c | None => c end).
Definition queryBlocksBlooms (id : bytes) (c : BlockChain) : hres (BlocksBlooms * BlockChain) :=
  '(v, m) ← queryExtras (toSlice id 5) id (c_blocksBlooms c) (c_extrasDB c);
  Ok (v, match m with Some m => set_blocksBlooms m (noteUsed (id, 5) c) | None => c end).

(** [block] *)
Definition queryBlock (h : bytes) (c : BlockChain) : bytes * BlockChain :=
  if decide (h = c_genesisHash c) then (c_genesisBlock c, c)
  else
    match c_blocks c !! h with
    | Some b => (b, c)
    | None =>
        let d := db_get (c_blocksDB c) (toSlice h 0) in
        if decide (d = []) then ([], c) else (d, set_blocks (<[h := d]> (c_blocks c)) (noteUsed (h, BlockKind) c))
    end.

(** [headerData] *)
Definition queryHeaderData (h : bytes) (c : BlockChain) : hres (bytes * BlockChain) :=
  if decide (h = c_genesisHash c) then Ok (c_genesisHeaderBytes c, c)
  else
    match c_blocks c !! h with
    | Some b => r ← extractHeader b; Ok (r, c)
    | None =>
        let d := db_get (c_blocksDB c) (toSlice h 0) in
        if decide (d = []) then Ok ([], c)
        else r ← extractHeader d; Ok (r, set_blocks (<[h := d]> (c_blocks c)) (noteUsed (h, BlockKind) c))
    end.

(** ** Collecting *)

(** One entry of death row's last row, in [garbageCollect] *)
Definition dropCached (id : CacheID) (c : BlockChain) : BlockChain :=
  let c := set_usage (c_cacheUsage c) (c_inUse c ∖ {[id]}) c in
  if id.2 =? BlockKind then set_blocks (delete id.1 (c_blocks c)) c
  else if id.2 =? 0 then set_details (delete id.1 (c_details c)) c
  else if id.2 =? 4 then set_receipts (delete id.1 (c_receipts c)) c
  else if id.2 =? 3 then set_logBlooms (delete id.1 (c_logBlooms c)) c
  else if id.2 =? 2 then set_transactionAddresses (delete id.1 (c_transactionAddresses c)) c
  else if id.2 =? 5 then set_blocksBlooms (delete id.1 (c_blocksBlooms c)) c
  else c.

(** [garbageCollect] once it has decided to collect *)
Definition collect (c : BlockChain) : BlockChain :=
  let c1 := foldr dropCached c (elements (List.last (c_cacheUsage c) ∅)) in
  set_usage (∅ :: removelast (c_cacheUsage c1)) (c_inUse c1) c1.
