(* ===== verification/ChainOps.v ===== *)
(** * libelementrem/BlockChain.{h,cpp}: the operations on the chain

    The operations that read and reorganise a chain, in a monad that carries the chain
    with its caches and keeps them when an exception leaves: headers and hashes of a
    chain, the route between two blocks, the bloom index, kin of a block, verification
    of a block, and moving the head back.  Importing is in [ChainImport].

    The seal engine is the one of [Elhash].  The handler [m_onBad] only reports and is
    not modelled, nor are the annotations of exceptions.  The items of a list in a
    [for] over RLP are collected before the body runs on them. *)

From Stdlib Require Import ZArith Lia.
From stdpp Require Import base list list_numbers option gmap.
From S2P Require Import Prelude CommonData RLP FixedHash ExtVMFace State Transaction Executive BlockHeader Elhash BlockQueue BlockDetails BlockChain.

(** ** The monad *)

(** The exceptions of [Block] *)
Inductive block_error :=
| BkSealed
| BkState (e : state_error)
| BkExecution (e : exec_error)
| BkInvalidReceiptsStateRoot
| BkInvalidLogBloom
| BkTooManyUncles
| BkUncleInChain
| BkUncleTooOld
| BkUncleIsBrother
| BkUncleParentNotInChain
| BkInvalidStateRoot
| BkInvalidGasUsed
| BkBlockNotFound.

Inductive chain_error :=
| ChHeader (e : hdr_error)
| ChTransaction (e : txcheck_error)
| ChInvalidUncleParentHash
| ChUnknownParent
| ChAlreadyHaveBlock
| ChFutureTime
| ChTransientError
| ChInvalidReceiptsStateRoot
| ChBlock (e : block_error)
| ChAssert
| ChExit
| ChNoReturn
| ChUndefined.

Definition cm (A : Type) : Type := BlockChain -> result chain_error A * BlockChain.
#[export] Instance cm_ret : MRet cm := fun A a c => (Ok a, c).
#[export] Instance cm_bind : MBind cm := fun A B f m c =>
  match m c with (Ok a, c1) => f a c1 | (Throw e, c1) => (Throw e, c1) end.

Definition cthrow {A} (e : chain_error) : cm A := fun c => (Throw e, c).
Definition cget : cm BlockChain := fun c => (Ok c, c).
Definition cmodify (f : BlockChain -> BlockChain) : cm unit := fun c => (Ok tt, f c).
Definition cguard (b : bool) (e : chain_error) : cm unit := if b then mret tt else cthrow e.
Definition chdr {A} (r : hres A) : cm A := match r with Ok a => mret a | Throw e => cthrow (ChHeader e) end.
Definition crlp {A} (r : result rlp_error A) : cm A := chdr (hrlp r).

(** A function that reads through a cache *)
Definition cquery {A} (q : BlockChain -> hres (A * BlockChain)) : cm A := fun c =>
  match q c with Ok (a, c1) => (Ok a, c1) | Throw e => (Throw (ChHeader e), c) end.

Fixpoint cfor {A B} (l : list A) (f : A -> cm B) : cm (list B) :=
  match l with [] => mret [] | x :: l' => y ← f x; ys ← cfor l' f; mret (y :: ys) end.

Definition getDetails (h : bytes) : cm BlockDetails := cquery (queryDetails h).
Definition getLogBlooms (h : bytes) : cm BlockLogBlooms := cquery (queryLogBlooms h).
Definition getReceipts (h : bytes) : cm BlockReceipts := cquery (queryReceipts h).
Definition getTransactionAddress (h : bytes) : cm TransactionAddress := cquery (queryTransactionAddress h).
Definition getBlocksBlooms (id : bytes) : cm BlocksBlooms := cquery (queryBlocksBlooms id).
Definition getBlock (h : bytes) : cm bytes := fun c => let '(b, c1) := queryBlock h c in (Ok b, c1).
Definition getHeaderData (h : bytes) : cm bytes := cquery (queryHeaderData h).

(** [numberHash(unsigned)], [number(h256)] *)
Definition getNumberHash (n : Z) : cm bytes := fun c =>
  if n =? 0 then (Ok (c_genesisHash c), c) else (v ← cquery (queryBlockHash n); mret (bh_value v)) c.
Definition getNumber (h : bytes) : cm Z := d ← getDetails h; mret (bd_number d).

(** [isKnown] *)
Definition getKnown (h : bytes) (isCurrent : bool) : cm bool := fun c =>
  if decide (h = c_genesisHash c) then (Ok true, c)
  else if negb (bool_decide (is_Some (c_blocks c !! h))) && bool_decide (db_get (c_blocksDB c) (toSlice h 0) = []) then (Ok false, c)
  else if negb (bool_decide (is_Some (c_details c !! h))) && bool_decide (db_get (c_extrasDB c) (toSlice h 0) = []) then (Ok false, c)
  else if negb isCurrent then (Ok true, c)
  else (d ← getDetails h; mret (bd_number d <=? c_lastBlockNumber c)) c.

(** [for (auto i: RLP(b)[n])] over the views of the items *)
Definition cellsOf (b : bytes) (n : Z) : cm (list bytes) :=
  r ← crlp (RLP.construct b VeryStrict); x ← chdr (item_ r n); chdr (hloop (RLP.for_range Ok x)).

(** [transactions(h256)], [transaction(h256, unsigned)], [transactionReceipt(h256, unsigned)] *)
Definition transactions (h : bytes) : cm (list bytes) := b ← getBlock h; cellsOf b 1.
Definition transaction (h : bytes) (i : Z) : cm bytes :=
  b ← getBlock h; r ← crlp (RLP.construct b VeryStrict); x ← chdr (item_ r 1); chdr (item_ x i).
(** [isKnownTransaction], [transactionLocation] *)
Definition isKnownTransaction (th : bytes) : cm bool := ta ← getTransactionAddress th; mret (txAddress_bool ta).
Definition transactionLocation (th : bytes) : cm (bytes * Z) :=
  ta ← getTransactionAddress th; mret (if txAddress_bool ta then (ta_blockHash ta, ta_index ta) else (zeroHash 32, 0)).
Definition transactionByHash (th : bytes) : cm bytes :=
  ta ← getTransactionAddress th; if negb (txAddress_bool ta) then mret [] else transaction (ta_blockHash ta) (ta_index ta).

Section Chain.
Context (sha3 : bytes -> bytes).

(** [transactionHashes], [uncleHashes] *)
Definition transactionHashes (h : bytes) : cm (list bytes) := l ← transactions h; mret (sha3 <$> l).
Definition uncleHashes (h : bytes) : cm (list bytes) := b ← getBlock h; l ← cellsOf b 2; mret (sha3 <$> l).

(** [info] *)
Definition info (h : bytes) : cm BlockHeader := d ← getHeaderData h; chdr (parseHeader sha3 d HeaderData (zeroHash 32)).

(** ** [lastHashes] *)

(** [m_lastLastHashes[i + 1] = ...] for each [i] of a list *)
Fixpoint lastHashes_loop (is_ : list nat) : cm unit :=
  match is_ with
  | [] => mret tt
  | i :: is' =>
      c ← cget;
      let h := default [] (c_lastLastHashes c !! i) in
      p ← (if nonzero h then bi ← info h; mret (h_parentHash bi) else mret (zeroHash 32));
      _ ← cmodify (fun c => set_lastLastHashes (<[S i := p]> (c_lastLastHashes c)) c);
      lastHashes_loop is'
  end.

Definition lastHashes (parent : bytes) : cm (list bytes) :=
  c ← cget;
  _ ← (if decide (c_lastLastHashes c = [] \/ last (c_lastLastHashes c) <> Some parent) then
         _ ← cmodify (fun c => set_lastLastHashes (<[0%nat := parent]> (resize 256 (zeroHash 32) (c_lastLastHashes c))) c);
         lastHashes_loop (seq 0 255)
       else mret tt);
  c ← cget; mret (c_lastLastHashes c).

(** ** [treeRoute] *)

(** [while (fn > tn)]: the rounds are counted by the difference of the numbers *)
Fixpoint climb (n : nat) (push : bool) (h : bytes) (acc : list bytes) : cm (bytes * list bytes) :=
  match n with
  | O => mret (h, acc)
  | S n' =>
      d ← getDetails h;
      climb n' push (bd_parent d) (if push then acc ++ [h] else acc)
  end.

(** [for (;; from = details(from).parent, to = details(to).parent)] *)
Fixpoint meet (fuel : nat) (common pre post : bool) (from to : bytes) (ret back : list bytes)
  : cm (bytes * list bytes * list bytes) :=
  match fuel with
  | O => cthrow ChNoReturn
  | S fuel' =>
      let ret := if pre && (negb (bool_decide (from = to)) || common) then ret ++ [from] else ret in
      let back := if post && (negb (bool_decide (from = to)) || (negb pre && common)) then back ++ [to] else back in
      if decide (from = to) then mret (from, ret, back)
      else
        _ ← cguard (nonzero from) ChAssert;
        _ ← cguard (nonzero to) ChAssert;
        df ← getDetails from;
        dt ← getDetails to;
        meet fuel' common pre post (bd_parent df) (bd_parent dt) ret back
  end.

Definition treeRoute (from to : bytes) (common pre post : bool) : cm (list bytes * bytes * Z) :=
  if negb (nonzero from) || negb (nonzero to) then mret ([], zeroHash 32, 0)
  else
    fn ← getNumber from;
    tn ← getNumber to;
    '(from, ret) ← climb (Z.to_nat (fn - tn)) pre from [];
    '(to, back) ← climb (Z.to_nat (tn - fn)) post to [];
    '(meeting, ret, back) ← meet (S (Z.to_nat (Z.min fn tn))) common pre post from to ret back;
    let i := sizeZ ret - (if common && bool_decide (ret <> []) && bool_decide (back <> []) then 1 else 0) in
    mret (ret ++ reverse back, meeting, u32 i).

(** ** The index of blooms *)

(** [while (--b > 0) a *= a] *)
Fixpoint upow_loop (n : nat) (a : Z) : Z := match n with O => a | S n' => upow_loop n' (u32 (a * a)) end.
Definition upow (a b : Z) : Z := if b =? 0 then 1 else upow_loop (Z.to_nat (b - 1)) a.
Definition ceilDiv (n d : Z) : Z := u32 (u32 (n + d) - 1) / d.

Definition chunkId (level index : Z) : bytes := ofArith 32 (u32 (u32 (index * 255) + level)).

(** [blooms[o]] of an array of 16 *)
Definition bloomAt (b : BlocksBlooms) (o : Z) : bytes := nth (Z.to_nat o) (bb_blooms b) [].
Definition setBloom (o : Z) (x : bytes) (b : BlocksBlooms) : BlocksBlooms := mkBlocksBlooms (<[Z.to_nat o := x]> (bb_blooms b)).

Definition blockBloom (n : Z) : cm bytes :=
  b ← getBlocksBlooms (chunkId 0 (n / c_bloomIndexSize)); mret (bloomAt b (n mod c_bloomIndexSize)).

Fixpoint withBlockBloom_level (b : bytes) (earliest latest : Z) (level : nat) (index : Z) : cm (list Z) :=
  let l := Z.of_nat level in
  let uCourse := upow c_bloomIndexSize (l + 1) in
  let uFine := upow c_bloomIndexSize l in
  let obegin := if index =? earliest / uCourse then (earliest / uFine) mod c_bloomIndexSize else 0 in
  let oend := if index =? latest / uCourse then (latest / uFine) mod c_bloomIndexSize + 1 else c_bloomIndexSize in
  bb ← getBlocksBlooms (chunkId l index);
  ls ← cfor (seqZ obegin (oend - obegin)) (fun o =>
    if contains (bloomAt bb o) b then
      match level with
      | S level' => withBlockBloom_level b earliest latest level' (u32 (o + index * c_bloomIndexSize))
      | O => mret [u32 (o + index * c_bloomIndexSize)]
      end
    else mret []);
  mret (concat ls).

Definition withBlockBloom (b : bytes) (earliest latest : Z) : cm (list Z) :=
  let u := upow c_bloomIndexSize c_bloomIndexLevels in
  ls ← cfor (seqZ (earliest / u) (ceilDiv latest u - earliest / u + 1))
         (withBlockBloom_level b earliest latest (Z.to_nat (c_bloomIndexLevels - 1)));
  mret (concat ls).

(** [m_blocksBlooms[id].blooms[o] = f (...)] after [blocksBlooms(id)] *)
Definition updateBloom (id : bytes) (o : Z) (f : bytes -> bytes) : cm unit :=
  bb ← getBlocksBlooms id;
  cmodify (fun c => set_blocksBlooms (<[id := setBloom o (f (bloomAt bb o)) bb]> (c_blocksBlooms c)) c).

Definition clearOne (level item : Z) : cm unit :=
  acc ← (if negb (level =? 0) then
           lower ← getBlocksBlooms (chunkId (level - 1) item); mret (foldl or_ (zeroHash 256) (bb_blooms lower))
         else mret (zeroHash 256));
  updateBloom (chunkId level (item / c_bloomIndexSize)) (item mod c_bloomIndexSize) (fun _ => acc).

(** The items from [b] to [e], where [++item] wraps *)
Definition itemsBetween (b e : Z) : list Z := (fun i => u32 i) <$> seqZ b (u32 (e - b)).

Fixpoint clear_levels (levels : list Z) (beginDirty endDirty : Z) : cm unit :=
  match levels with
  | [] => mret tt
  | level :: levels' =>
      _ ← cfor (itemsBetween beginDirty endDirty) (clearOne level);
      clear_levels levels' (beginDirty / c_bloomIndexSize) (u32 (u32 (endDirty - 1) / c_bloomIndexSize + 1))
  end.
Definition clearBlockBlooms (begin_ end_ : Z) : cm unit := clear_levels (seqZ 0 c_bloomIndexLevels) begin_ end_.

(** In [import], the blooms of a block into the index: the chunks that changed *)
Fixpoint addBlooms (levels : list Z) (index : Z) (blockBloom : bytes) : cm (list bytes) :=
  match levels with
  | [] => mret []
  | level :: levels' =>
      let id := chunkId level (index / c_bloomIndexSize) in
      _ ← updateBloom id (index mod c_bloomIndexSize) (fun x => or_ x blockBloom);
      ids ← addBlooms levels' (index / c_bloomIndexSize) blockBloom;
      mret (id :: ids)
  end.

(** ** [allKinFrom] *)

Fixpoint allKin_loop (generations : nat) (p : bytes) (ret : gset bytes) : cm (gset bytes) :=
  match generations with
  | O => mret ret
  | S n =>
      c ← cget;
      if decide (p = c_genesisHash c) then mret ret
      else
        d ← getDetails p;
        b ← getBlock p;
        us ← cellsOf b 2;
        let ret := foldl (fun r u => {[sha3 u]} ∪ r) ({[bd_parent d]} ∪ ret) us in
        allKin_loop n (bd_parent d) ret
  end.
Definition allKinFrom (parent : bytes) (generations : Z) : cm (gset bytes) :=
  allKin_loop (Z.to_nat generations) parent {[parent]}.

(** ** [rewind] and [rescue] *)

(** [m_extrasDB->Put("best", m_lastBlockHash)] *)
Definition putBest (c : BlockChain) : BlockChain := set_dbs (c_blocksDB c) (<[bestKey := c_lastBlockHash c]> (c_extrasDB c)) c.

Definition rewind (newHead : Z) : cm unit :=
  c ← cget;
  if c_lastBlockNumber c <=? newHead then mret tt
  else h ← getNumberHash newHead; cmodify (fun c => putBest (set_last h newHead c)).

(** An exception is caught *)
Definition ctry {A} (m : cm A) (a : A) : cm A := fun c => match m c with (Ok x, c1) => (Ok x, c1) | (Throw _, c1) => (Ok a, c1) end.

(** [while (true)] the next power of two; after 32 rounds [u] is zero, whose block is the genesis, and stays zero *)
Fixpoint doubling (fuel : nat) (u : Z) : cm Z :=
  match fuel with
  | O => cthrow ChNoReturn
  | S fuel' =>
      k ← ctry (h ← getNumberHash u; getKnown h true) false;
      if k : bool then doubling fuel' (u32 (u * 2)) else mret u
  end.
(** [while (u - l > 1)] *)
Fixpoint bisect (fuel : nat) (l u : Z) : cm Z :=
  match fuel with
  | O => cthrow ChNoReturn
  | S fuel' =>
      if u32 (u - l) <=? 1 then mret l
      else
        let m := u32 (u + l) / 2 in
        h ← getNumberHash m;
        k ← getKnown h true;
        if k : bool then bisect fuel' m u else bisect fuel' l m
  end.
(** [for (; l > 0; --l)] *)
Fixpoint findState (exists_ : bytes -> bool) (l : nat) : cm Z :=
  match l with
  | O => mret 0
  | S l' =>
      h ← getNumberHash (Z.of_nat l);
      found ← ctry (b ← getBlock h; bi ← chdr (parseHeader sha3 b BlockData (zeroHash 32)); _ ← getDetails h;
                    mret (exists_ (h_stateRoot bi))) false;
      if found : bool then mret (Z.of_nat l) else findState exists_ l'
  end.
Definition rescue (exists_ : bytes -> bool) : cm unit :=
  u ← doubling 33 1;
  l ← bisect 33 (u / 2) u;
  l ← findState exists_ (Z.to_nat l);
  rewind l.

(** ** [verifyBlock] *)

Context (sha3_512 : bytes -> bytes) (eval : bytes -> bytes -> bytes -> bytes * bytes).
Context (recover : SignatureStruct -> bytes -> option bytes).

(** The header of a parent; [None] if there is no such block *)
Definition parentHeader (ph : bytes) (missing : chain_error) : cm BlockHeader :=
  d ← getHeaderData ph;
  if decide (d = []) then cthrow missing else chdr (parseHeader sha3 d HeaderData ph).

Definition verifyUncle (ir : Z) (uncle : bytes) : cm unit :=
  uh ← chdr (parseHeader sha3 uncle HeaderData (zeroHash 32));
  parent ← (if requires ir IR_UncleParent then parentHeader (h_parentHash uh) ChInvalidUncleParentHash else mret newHeader);
  c ← cget;
  chdr (elhash_verify sha3 sha3_512 eval (c_params c)
          (if requires ir IR_UncleSeals then Strictness.CheckEverything else Strictness.IgnoreSeal) uh parent []).

Definition verifyTransaction (ir : Z) (h : BlockHeader) (d : bytes) : cm Transaction :=
  c ← cget;
  match fromRLP sha3 recover d (if requires ir IR_TransactionSignatures then CheckEverything else CheckNone) with
  | Throw e => cthrow (ChTransaction (CheckTx e))
  | Ok t =>
      match elhash_verifyTransaction (c_params c) ir t h with
      | Throw e => cthrow (ChTransaction e)
      | Ok _ => mret t
      end
  end.

(** [_ir && !!(...)]: the conjunction is the logical one *)
Definition chain_verifyBlock (block : bytes) (ir : Z) : cm VerifiedBlockRef :=
  h ← chdr (parseHeader sha3 block BlockData (zeroHash 32));
  _ ← cguard (negb (requires ir IR_PostGenesis && (negb (nonzero (h_parentHash h)) || (h_number h =? 0))))
        (ChHeader InvalidParentHash);
  parent ← (if requires ir IR_Parent then parentHeader (h_parentHash h) (ChHeader InvalidParentHash) else mret newHeader);
  c ← cget;
  _ ← chdr (elhash_verify sha3 sha3_512 eval (c_params c)
              (if requires ir IR_ValidSeal then Strictness.CheckEverything else Strictness.QuickNonce) h parent block);
  _ ← (if negb (ir =? 0) then us ← cellsOf block 2; cfor us (verifyUncle ir) else mret []);
  ts ← (if negb (ir =? 0) then ds ← cellsOf block 1; cfor ds (verifyTransaction ir h) else mret []);
  mret (mkVerifiedRef block h ts).

End Chain.
