(* ===== verification/Block.v ===== *)
(** * libelementrem/Block.{h,cpp}: executing and building a block

    A [Block] is a state with the transactions executed on it: it is brought to the
    state of a block of the chain ([blockSync]), executes the transactions of the next
    block and checks what its header claims ([enactOn]), or executes transactions and
    fills in the header of a new block ([commitToSeal], [sealBlock]).

    Operations run in the monad of the chain.  A block that throws is thrown away by its
    only user that matters here, [BlockChain::import], so that an operation gives the
    block after it only if it returns.  The assertions of debugging builds are left out.
    [now] is the clock; [lhsFirst] is an order of evaluation (see [Executive]). *)

From Stdlib Require Import ZArith Lia.
From stdpp Require Import base list list_numbers option gmap.
From S2P Require Import Prelude CommonData RLP FixedHash TrieHash Instruction ExtVMFace Account State Transaction Executive BlockHeader Elhash TransactionQueue BlockQueue BlockDetails BlockChain ChainOps.

(** What a block uses of its database besides the trie: [OverlayDB::commit], [OverlayDB::rollback] *)
Class BlockDB (DB : Type) := {
  db_commit : DB -> DB;
  db_rollback : DB -> DB
}.

Record Block (DB : Type) := mkBlock {
  b_state : State DB;
  b_transactions : list Transaction;
  b_receipts : list TransactionReceipt;
  b_transactionSet : gset bytes;
  b_precommit : State DB;
  b_previousBlock : BlockHeader;
  b_currentBlock : BlockHeader;
  b_currentBytes : bytes;
  b_committedToSeal : bool;
  b_currentTxs : bytes;
  b_currentUncles : bytes;
  b_author : bytes
}.
Arguments mkBlock {DB}.
Arguments b_state {DB}.
Arguments b_transactions {DB}.
Arguments b_receipts {DB}.
Arguments b_transactionSet {DB}.
Arguments b_precommit {DB}.
Arguments b_previousBlock {DB}.
Arguments b_currentBlock {DB}.
Arguments b_currentBytes {DB}.
Arguments b_committedToSeal {DB}.
Arguments b_currentTxs {DB}.
Arguments b_currentUncles {DB}.
Arguments b_author {DB}.

Definition set_bstate {DB} (s : State DB) (b : Block DB) : Block DB :=
  mkBlock s (b_transactions b) (b_receipts b) (b_transactionSet b) (b_precommit b) (b_previousBlock b)
    (b_currentBlock b) (b_currentBytes b) (b_committedToSeal b) (b_currentTxs b) (b_currentUncles b) (b_author b).
Definition set_seal {DB} (s precommit : State DB) (committed : bool) (b : Block DB) : Block DB :=
  mkBlock s (b_transactions b) (b_receipts b) (b_transactionSet b) precommit (b_previousBlock b)
    (b_currentBlock b) (b_currentBytes b) committed (b_currentTxs b) (b_currentUncles b) (b_author b).
Definition set_headers {DB} (previous current : BlockHeader) (b : Block DB) : Block DB :=
  mkBlock (b_state b) (b_transactions b) (b_receipts b) (b_transactionSet b) (b_precommit b) previous
    current (b_currentBytes b) (b_committedToSeal b) (b_currentTxs b) (b_currentUncles b) (b_author b).
Definition set_body {DB} (txs uncles whole : bytes) (b : Block DB) : Block DB :=
  mkBlock (b_state b) (b_transactions b) (b_receipts b) (b_transactionSet b) (b_precommit b) (b_previousBlock b)
    (b_currentBlock b) whole (b_committedToSeal b) txs uncles (b_author b).
Definition set_author {DB} (author : bytes) (b : Block DB) : Block DB :=
  mkBlock (b_state b) (b_transactions b) (b_receipts b) (b_transactionSet b) (b_precommit b) (b_previousBlock b)
    (b_currentBlock b) (b_currentBytes b) (b_committedToSeal b) (b_currentTxs b) (b_currentUncles b) author.

Definition cblock {A} (r : result state_error A) : cm A :=
  match r with Ok a => mret a | Throw e => cthrow (ChBlock (BkState e)) end.

Section Block.
Context {DB : Type} `{TrieStore DB} `{BlockDB DB}.
Context (sha3 sha3_512 : bytes -> bytes) (eval : bytes -> bytes -> bytes -> bytes * bytes).
Context (recover : SignatureStruct -> bytes -> option bytes) (lhsFirst : bool) (now : Z).

(** [Block(bc, db)]: the start nonce is noted at once *)
Definition newBlock (p : ChainOperationParams) (db : DB) : Block DB :=
  let s := mkState db 0 ∅ ∅ (accountStartNonce p) in
  mkBlock s [] [] ∅ s (header_clear sha3 newHeader) (header_clear sha3 newHeader) [] false [] [] (zeroHash 20).

Definition isSealed (b : Block DB) : bool := bool_decide (b_currentBytes b <> []).
Definition block_gasUsed (b : Block DB) : Z := match last (b_receipts b) with Some r => rc_gasUsed r | None => 0 end.
Definition block_logBloom (b : Block DB) : bytes := foldl (fun x r => or_ x (rc_bloom r)) (zeroHash 256) (b_receipts b).
Definition rootHash (b : Block DB) : bytes := ofArith 32 (m_state (b_state b)).

(** [resetCurrent] *)
Definition resetCurrent (b : Block DB) : cm (Block DB) :=
  c ← cget;
  let fresh := setTimestamp (Z.max (u256 (h_timestamp (b_previousBlock b) + 1)) now) (setAuthor (b_author b) newHeader) in
  cur ← chdr (elhash_populateFromParent (c_params c) fresh (b_previousBlock b));
  let s := setRoot (be_value (h_stateRoot (b_previousBlock b))) (b_state b) in
  mret (mkBlock s [] [] ∅ s (b_previousBlock b) cur [] false (b_currentTxs b) (b_currentUncles b) (b_author b)).

(** [setAuthor] *)
Definition block_setAuthor (id : bytes) (b : Block DB) : cm (Block DB) := resetCurrent (set_author id b).

(** [sync(bc, block, bi)] *)
Definition blockSync (h : bytes) (bi0 : BlockHeader) (b : Block DB) : cm (bool * Block DB) :=
  bi ← (if isHeader bi0 then mret bi0 else info sha3 h);
  if header_eqb bi (b_currentBlock b) then
    b1 ← resetCurrent (set_headers (b_currentBlock b) (b_currentBlock b) b); mret (true, b1)
  else if header_eqb bi (b_previousBlock b) then mret (false, b)
  else
    _ ← cguard (bool_decide (db_lookup (m_db (b_state b)) (be_value (h_stateRoot bi)) <> [])) (ChBlock BkInvalidStateRoot);
    b1 ← resetCurrent (set_headers bi (b_currentBlock b) b); mret (true, b1).

(** [uncommitToSeal] *)
Definition uncommitToSeal (b : Block DB) : Block DB :=
  if b_committedToSeal b then set_seal (b_precommit b) (b_precommit b) false b else b.

(** [EnvInfo(info(), lh, gasUsed())] *)
Definition blockEnv (b : Block DB) (lh : list bytes) : EnvInfo :=
  let h := b_currentBlock b in
  mkEnvInfo (h_number h) (be_value (h_author h)) (h_timestamp h) (h_difficulty h) (h_gasLimit h) (be_value <$> lh)
    (block_gasUsed b).

(** [execute] *)
Definition block_execute (lh : list bytes) (t : Transaction) (p : Permanence) (b0 : Block DB)
  : cm (ExecutionResult * Block DB) :=
  if isSealed b0 then cthrow (ChBlock BkSealed)
  else
    c ← cget;
    let b := uncommitToSeal b0 in
    match State_execute sha3 (cp_precompiled (c_params c)) (elhash_evmSchedule (c_params c) (h_number (b_currentBlock b)))
            (blockEnv b lh) lhsFirst recover t p (b_state b) with
    | Throw e => cthrow (ChBlock (BkExecution e))
    | Ok (res, receipt, s) =>
        mret (res,
          match p with
          | Committed =>
              mkBlock s (b_transactions b ++ [t]) (b_receipts b ++ [receipt]) ({[tx_sha3 sha3 t]} ∪ b_transactionSet b)
                (b_precommit b) (b_previousBlock b) (b_currentBlock b) (b_currentBytes b) (b_committedToSeal b)
                (b_currentTxs b) (b_currentUncles b) (b_author b)
          | Reverted => set_bstate s b
          end)
    end.

(** The loop of [enact] over the transactions: the receipts as they are written *)
Fixpoint enactTransactions (lh : list bytes) (ts : list Transaction) (b : Block DB) (receipts : list bytes)
  : cm (Block DB * list bytes) :=
  match ts with
  | [] => mret (b, receipts)
  | t :: ts' =>
      '(_, b1) ← block_execute lh t Committed b;
      r ← match last (b_receipts b1) with
          | Some rc => crlp (s ← receipt_streamRLP rc RLPStream.empty; RLPStream.out s)
          | None => cthrow ChAssert
          end;
      enactTransactions lh ts' b1 (receipts ++ [r])
  end.

(** [applyRewards] *)
Definition uncleReward (reward n current : Z) : Z := u256 (reward * u256 (u256 (8 + n) - current)) / 8.
Fixpoint rewardUncles (reward : Z) (uncles : list BlockHeader) (current : Z) (r : Z) (s : State DB)
  : result state_error (Z * State DB) :=
  match uncles with
  | [] => Ok (r, s)
  | u :: us =>
      s1 ← State_addBalance sha3 (be_value (h_author u)) (uncleReward reward (h_number u) current) s;
      rewardUncles reward us current (u256 (r + reward / 32)) s1
  end.
Definition applyRewards (uncles : list BlockHeader) (reward : Z) (b : Block DB) : cm (Block DB) :=
  '(r, s) ← cblock (rewardUncles reward uncles (h_number (b_currentBlock b)) reward (b_state b));
  s1 ← cblock (State_addBalance sha3 (be_value (h_author (b_currentBlock b))) r s);
  mret (set_bstate s1 b).

(** [for (unsigned i = 1; i < depth; expectedUncleParent = details(...).parent, ++i) {}] *)
Fixpoint ancestorOf (n : nat) (h : bytes) : cm bytes :=
  match n with O => mret h | S n' => d ← getDetails h; ancestorOf n' (bd_parent d) end.

(** One uncle: [depth] is the distance of the numbers *)
Definition checkUncle (current : BlockHeader) (excluded : gset bytes) (u : bytes) : cm (gset bytes * BlockHeader) :=
  let h := sha3 u in
  _ ← cguard (bool_decide (h ∉ excluded)) (ChBlock BkUncleInChain);
  uncle ← chdr (parseHeader sha3 u HeaderData h);
  known ← getKnown (h_parentHash uncle) true;
  _ ← cguard known ChUnknownParent;
  pb ← getBlock (h_parentHash uncle);
  uncleParent ← chdr (parseHeader sha3 pb BlockData (zeroHash 32));
  let depth := h_number current - h_number uncle in
  _ ← cguard (depth <=? 6) (ChBlock BkUncleTooOld);
  _ ← cguard (1 <=? depth) (ChBlock BkUncleIsBrother);
  d ← getDetails (h_parentHash current);
  expected ← ancestorOf (Z.to_nat (depth - 1)) (bd_parent d);
  _ ← cguard (bool_decide (expected = hashOf sha3 uncleParent)) (ChBlock BkUncleParentNotInChain);
  _ ← chdr (header_verify sha3 Strictness.CheckNothingNew uncle uncleParent []);
  mret ({[h]} ∪ excluded, uncle).

Fixpoint checkUncles (current : BlockHeader) (us : list bytes) (excluded : gset bytes) : cm (list BlockHeader) :=
  match us with
  | [] => mret []
  | u :: us' =>
      '(excluded, uncle) ← checkUncle current excluded u;
      rest ← checkUncles current us' excluded;
      mret (uncle :: rest)
  end.

(** [enact] *)
Definition enact (vb : VerifiedBlockRef) (b0 : Block DB) : cm (Z * Block DB) :=
  _ ← cguard (bool_decide (h_parentHash (b_currentBlock b0) = hashOf sha3 (b_previousBlock b0))) (ChHeader InvalidParentHash);
  let cur := vr_info vb in
  let b1 := set_headers (b_previousBlock b0) cur b0 in
  lh ← lastHashes sha3 (h_parentHash cur);
  rlp ← crlp (RLP.construct (vr_block vb) VeryStrict);
  '(b2, receipts) ← enactTransactions lh (vr_transactions vb) b1 [];
  receiptsRoot ← crlp (orderedTrieRoot sha3 receipts);
  _ ← cguard (bool_decide (receiptsRoot = h_receiptsRoot cur)) (ChBlock BkInvalidReceiptsStateRoot);
  _ ← cguard (bool_decide (h_logBloom cur = block_logBloom b2)) (ChBlock BkInvalidLogBloom);
  uncles ← chdr (item_ rlp 2);
  n ← chdr (items_ uncles);
  _ ← cguard (n <=? 2) (ChBlock BkTooManyUncles);
  excluded ← allKinFrom sha3 (h_parentHash cur) 6;
  us ← chdr (hloop (RLP.for_range Ok uncles));
  rewarded ← checkUncles cur us ({[hashOf sha3 cur]} ∪ excluded);
  c ← cget;
  b3 ← applyRewards rewarded (blockReward (c_params c)) b2;
  s ← cblock (commit sha3 (b_state b3));
  let b4 := set_bstate s b3 in
  _ ← cguard (negb (negb (bool_decide (h_stateRoot cur = h_stateRoot (b_previousBlock b4))) &&
                    negb (bool_decide (h_stateRoot cur = rootHash b4)))) (ChBlock BkInvalidStateRoot);
  _ ← cguard (h_gasUsed cur =? block_gasUsed b4) (ChBlock BkInvalidGasUsed);
  mret (h_difficulty cur, b4).

(** [enactOn] *)
Definition enactOn (vb : VerifiedBlockRef) (b0 : Block DB) : cm (Z * Block DB) :=
  biParent ← info sha3 (h_parentHash (vr_info vb));
  _ ← chdr (header_verify sha3 Strictness.CheckNothingNew (vr_info vb) biParent []);
  _ ← (if negb (h_number biParent =? 0) then info sha3 (h_parentHash biParent) else mret newHeader);
  '(_, b1) ← blockSync (h_parentHash (vr_info vb)) newHeader b0;
  b2 ← resetCurrent b1;
  enact vb (set_headers biParent (b_currentBlock b2) b2).

(** [cleanup] *)
Definition cleanup (fullCommit : bool) (b : Block DB) : cm (Block DB) :=
  let s := b_state b in
  let with_db db := mkState db (m_state s) (m_cache s) (m_touched s) (m_accountStartNonce s) in
  if fullCommit then
    c ← cget;
    cur ← chdr (elhash_populateFromParent (c_params c) (b_currentBlock b) (b_currentBlock b));
    resetCurrent (set_headers (b_currentBlock b) cur (set_bstate (with_db (db_commit (m_db s))) b))
  else resetCurrent (set_bstate (with_db (db_rollback (m_db s))) b).

(** [populateFromChain] *)
Definition populateFromChain (h : bytes) (ir : Z) (b : Block DB) : cm (Block DB) :=
  known ← getKnown h true;
  _ ← cguard known (ChBlock BkBlockNotFound);
  d ← getBlock h;
  bi ← chdr (parseHeader sha3 d BlockData (zeroHash 32));
  if negb (h_number bi =? 0) then
    pd ← getBlock (h_parentHash bi);
    bip ← chdr (parseHeader sha3 pd BlockData (zeroHash 32));
    '(_, b1) ← blockSync (h_parentHash bi) bip b;
    vb ← chain_verifyBlock sha3 sha3_512 eval recover d (Z.lor ir IR_TransactionBasic);
    '(_, b2) ← enact vb (set_author (h_author bi) b1);
    mret b2
  else
    let s := b_state b in
    '(_, b1) ← blockSync h bi (set_bstate (mkState (m_db s) (EmptyTrie sha3) ∅ ∅ (m_accountStartNonce s)) b);
    mret b1.

(** ** Building a block *)

(** The children of [p] that may be uncles *)
Fixpoint pickUncles (us : list bytes) (excluded : gset bytes) (headers : list BlockHeader) (data : bytes)
  : cm (list BlockHeader * bytes) :=
  match us with
  | [] => mret (headers, data)
  | u :: us' =>
      if decide (u ∈ excluded) then pickUncles us' excluded headers data
      else
        bi ← info sha3 u;
        d ← getHeaderData u;
        let headers := headers ++ [bi] in
        if decide (length headers = 2%nat) then mret (headers, data ++ d) else pickUncles us' excluded headers (data ++ d)
  end.

(** [for (unsigned gen = 0; gen < 6 && p != genesisHash && unclesCount < 2; ...)] *)
Fixpoint findUncles (gen : nat) (p : bytes) (excluded : gset bytes) (headers : list BlockHeader) (data : bytes)
  : cm (list BlockHeader * bytes) :=
  match gen with
  | O => mret (headers, data)
  | S gen' =>
      c ← cget;
      if bool_decide (p = c_genesisHash c) || (2 <=? sizeZ headers) then mret (headers, data)
      else
        d ← getDetails p;
        _ ← cguard (bool_decide (bd_children d <> [])) ChAssert;
        '(headers, data) ← pickUncles (bd_children d) excluded headers data;
        findUncles gen' (bd_parent d) excluded headers data
  end.

(** The maps of transactions and receipts by their index, and the transactions as written *)
Fixpoint bodyMaps (i : Z) (l : list (Transaction * TransactionReceipt)) (txs receipts : BytesMap) (s : RLPStream.t)
  : result rlp_error (BytesMap * BytesMap * RLPStream.t) :=
  match l with
  | [] => Ok (txs, receipts, s)
  | (t, r) :: l' =>
      k ← rlpUnsigned i;
      rs ← receipt_streamRLP r RLPStream.empty;
      ro ← RLPStream.out rs;
      ts ← streamRLP t WithSignature RLPStream.empty;
      to ← RLPStream.out ts;
      s1 ← RLPStream.appendRaw s to 1;
      bodyMaps (u32 (i + 1)) l' (mapAssign k to txs) (mapAssign k ro receipts) s1
  end.

(** [RLPStream(unclesCount).appendRaw(unclesData.out(), unclesCount)] *)
Definition unclesList (n : Z) (data : bytes) : result rlp_error bytes :=
  s ← RLPStream.appendList RLPStream.empty n; s1 ← RLPStream.appendRaw s data n; RLPStream.out s1.

(** [commitToSeal] *)
Definition commitToSeal (extraData : bytes) (b0 : Block DB) : cm (Block DB) :=
  if isSealed b0 then cthrow (ChBlock BkSealed)
  else
    let b := if b_committedToSeal b0 then uncommitToSeal b0 else set_seal (b_state b0) (b_state b0) false b0 in
    '(headers, data) ← (if negb (h_number (b_previousBlock b) =? 0) then
                          excluded ← allKinFrom sha3 (h_parentHash (b_currentBlock b)) 6;
                          findUncles 6 (h_parentHash (b_previousBlock b)) excluded [] []
                        else mret ([], []));
    s0 ← crlp (RLPStream.appendList RLPStream.empty (sizeZ (b_transactions b)));
    '(txsMap, receiptsMap, s1) ← crlp (bodyMaps 0 (zip (b_transactions b) (b_receipts b)) [] [] s0);
    txs ← crlp (RLPStream.out s1);
    uncles ← crlp (unclesList (sizeZ headers) data);
    c ← cget;
    b1 ← applyRewards headers (blockReward (c_params c)) b;
    s ← cblock (commit sha3 (b_state b1));
    let b2 := set_bstate s b1 in
    tr ← crlp (hash256 sha3 txsMap);
    rr ← crlp (hash256 sha3 receiptsMap);
    let cur := setExtraData (take 32 extraData)
                 (setParentHash (hashOf sha3 (b_previousBlock b2))
                    (setRoots tr rr (sha3 uncles) (rootHash b2)
                       (setGasUsed (block_gasUsed b2) (setLogBloom (block_logBloom b2) (b_currentBlock b2))))) in
    mret (set_seal (b_state b2) (b_precommit b2) true
            (set_body txs uncles (b_currentBytes b2) (set_headers (b_previousBlock b2) cur b2))).

(** [sealBlock] *)
Definition sealBlock (header : bytes) (b : Block DB) : cm (bool * Block DB) :=
  if negb (b_committedToSeal b) then mret (false, b)
  else
    h ← chdr (parseHeader sha3 header HeaderData (zeroHash 32));
    '(w, _) ← crlp (header_hash sha3 h WithoutSeal);
    '(w', _) ← crlp (header_hash sha3 (b_currentBlock b) WithoutSeal);
    if negb (bool_decide (w = w')) then mret (false, b)
    else
      s0 ← crlp (RLPStream.appendList RLPStream.empty 3);
      s1 ← crlp (RLPStream.appendRaw s0 header 1);
      s2 ← crlp (RLPStream.appendRaw s1 (b_currentTxs b) 1);
      s3 ← crlp (RLPStream.appendRaw s2 (b_currentUncles b) 1);
      whole ← crlp (RLPStream.out s3);
      mret (true, set_seal (b_precommit b) (b_precommit b) (b_committedToSeal b)
                    (set_body (b_currentTxs b) (b_currentUncles b) whole (set_headers (b_previousBlock b) h b))).

(** [fromPending] *)
Definition fromPending (i : Z) (b : Block DB) : option (State DB) :=
  let i := Z.min i (sizeZ (b_transactions b)) in
  if i =? 0 then Some (setRoot (be_value (h_stateRoot (b_previousBlock b))) (b_state b))
  else r ← b_receipts b !! Z.to_nat (i - 1); Some (setRoot (rc_stateRoot r) (b_state b)).

End Block.
