(* ===== verification/ChainImport.v ===== *)
(** * libelementrem/BlockChain.{h,cpp}: importing blocks

    [import] checks and executes a block, stores it and, if its chain is now the best,
    makes it the head and updates the indexes by number, by transaction and by bloom;
    [insert] stores a block without executing it; [sync] imports what a queue has ready.
    [open], [close] and [rebuild] are here too, up to the files that hold the databases.

    The two write batches are lists of entries, written at the end.  Nodes of the state
    that an import has committed to the state database before it fails are left out of
    the result of [sync]: nothing refers to them. *)

From Stdlib Require Import ZArith Lia String.
From stdpp Require Import base list list_numbers option gmap strings.
From S2P Require Import Prelude CommonData RLP FixedHash TrieHash ExtVMFace State Transaction Executive BlockHeader Elhash TransactionQueue BlockQueue BlockDetails BlockChain ChainOps Block.

Record ImportRoute := mkRoute {
  deadBlocks : list bytes;
  liveBlocks : list bytes;
  goodTransactions : list Transaction
}.

(** [WriteBatch] and [Write] *)
Definition WriteBatch : Type := list (bytes * bytes).
Definition db_write (batch : WriteBatch) (db : gmap bytes bytes) : gmap bytes bytes :=
  foldl (fun db kv => <[kv.1 := kv.2]> db) db batch.

Definition allowFutureBlocks (p : ChainOperationParams) : bool :=
  bool_decide (is_Some (otherParams p !! "allowFutureBlocks"%string)).

(** The elements before the first that is [x] *)
Fixpoint before (x : bytes) (l : list bytes) : list bytes :=
  match l with [] => [] | y :: l' => if decide (y = x) then [] else y :: before x l' end.
Fixpoint after (x : bytes) (l : list bytes) : list bytes :=
  match l with [] => [] | y :: l' => if decide (y = x) then l' else after x l' end.

(** [m_blockHashes.erase(n)] along a route, [--n] *)
Fixpoint eraseHashes (l : list bytes) (n : Z) (m : gmap Z BlockHash) : gmap Z BlockHash :=
  match l with [] => m | _ :: l' => eraseHashes l' (u32 (n - 1)) (delete n m) end.

(** [m_details[p].children.push_back(h)] after [details(p)]: the details as they are then *)
Definition addChild (p h : bytes) : cm BlockDetails :=
  d ← getDetails p;
  let d := mkDetails (bd_number d) (bd_totalDifficulty d) (bd_parent d) (bd_children d ++ [h]) in
  _ ← cmodify (fun c => set_details (<[p := d]> (c_details c)) c);
  mret d.

(** The entries about a block and its parent *)
Definition familyBatch (h p : bytes) (pd d : BlockDetails) (blb : BlockLogBlooms) (receipts : bytes) : cm WriteBatch :=
  e1 ← crlp (details_rlp pd);
  e2 ← crlp (details_rlp d);
  e3 ← crlp (logBlooms_rlp blb);
  mret [(toSlice p 0, e1); (toSlice h 0, e2); (toSlice h 3, e3); (toSlice h 4, receipts)].

Section Importing.
Context {DB : Type} `{TrieStore DB} `{BlockDB DB}.
Context (sha3 sha3_512 : bytes -> bytes) (eval : bytes -> bytes -> bytes -> bytes * bytes).
Context (recover : SignatureStruct -> bytes -> option bytes) (lhsFirst : bool) (now : Z).

(** The checks that [import] and [insert] begin with: the details of the parent *)
Definition checkNew (vb : VerifiedBlockRef) (mustBeNew : bool) : cm unit :=
  k ← getKnown (hashOf sha3 (vr_info vb)) true;
  _ ← cguard (negb (k && mustBeNew)) ChAlreadyHaveBlock;
  k ← getKnown (h_parentHash (vr_info vb)) false;
  cguard k ChUnknownParent.
Definition checkParent (vb : VerifiedBlockRef) : cm BlockDetails :=
  pd ← getDetails (h_parentHash (vr_info vb));
  _ ← cguard (negb (details_isNull pd)) ChExit;
  c ← cget;
  _ ← cguard (negb ((now <? h_timestamp (vr_info vb)) && negb (allowFutureBlocks (c_params c)))) ChFutureTime;
  _ ← chain_verifyBlock sha3 sha3_512 eval recover (vr_block vb) IR_InOrderChecks;
  mret pd.

(** The entries for the transactions of a block *)
Fixpoint addressBatch (list_ : bytes) (h : bytes) (is_ : list Z) : cm WriteBatch :=
  match is_ with
  | [] => mret []
  | i :: is' =>
      t ← chdr (item_ list_ i);
      e ← crlp (txAddress_rlp (mkTxAddress h i));
      rest ← addressBatch list_ h is';
      mret ((toSlice (sha3 t) 2, e) :: rest)
  end.

(** The entries for the chunks of blooms that changed *)
Definition bloomsBatch (ids : list bytes) : cm WriteBatch :=
  c ← cget;
  cfor ids (fun id => e ← crlp (blocksBlooms_rlp (default NullBlocksBlooms (c_blocksBlooms c !! id))); mret (toSlice id 5, e)).

(** One block of the new branch: its blooms, transactions and number *)
Definition indexBlock (vb : VerifiedBlockRef) (i : bytes) : cm WriteBatch :=
  let h := hashOf sha3 (vr_info vb) in
  tbi ← (if decide (i = h) then mret (vr_info vb) else b ← getBlock i; chdr (parseHeader sha3 b BlockData (zeroHash 32)));
  let blockBloom := shiftBloom 3 (h_logBloom tbi) (sha3 (h_author tbi)) in
  let index := u32 (h_number tbi) in
  _ ← cfor [chunkId 0 (index / c_bloomIndexSize); chunkId 1 (index / c_bloomIndexSize / c_bloomIndexSize)] getBlocksBlooms;
  altered ← addBlooms (seqZ 0 c_bloomIndexLevels) index blockBloom;
  b ← (if decide (i = h) then mret (vr_block vb) else getBlock i);
  r ← crlp (RLP.construct b VeryStrict);
  txs ← chdr (item_ r 1);
  n ← chdr (items_ txs);
  addresses ← addressBatch txs (hashOf sha3 tbi) (seqZ 0 (u32 n));
  blooms ← bloomsBatch altered;
  e ← crlp (blockHash_rlp (mkBlockHash (hashOf sha3 tbi)));
  mret (addresses ++ blooms ++ [(toSlice (ofArith 32 (h_number tbi)) 1, e)]).

(** The blocks that leave the chain: numbers, transactions and blooms *)
Definition forget (route : list bytes) (common last : bytes) : cm unit :=
  n ← getNumber (default [] (head route));
  _ ← cmodify (fun c => set_transactionAddresses ∅ (set_blockHashes (eraseHashes (before common route) n (c_blockHashes c)) c));
  nc ← getNumber common;
  nl ← getNumber last;
  clearBlockBlooms (u32 (nc + 1)) (u32 (nl + 1)).

(** The test for the new best block *)
Definition isBest (vb : VerifiedBlockRef) (td : Z) (last : bytes) : cm bool :=
  c ← cget;
  ld ← getDetails last;
  if bd_totalDifficulty ld <? td then mret true
  else if tieBreakingGas (c_params c) then
    ld ← getDetails last;
    if td =? bd_totalDifficulty ld then bi ← info sha3 last; mret (h_gasUsed bi <? h_gasUsed (vr_info vb)) else mret false
  else mret false.

(** The route to the new head and the entries of the blocks on it *)
Definition newHead (vb : VerifiedBlockRef) (last : bytes) : cm (list bytes * bytes * WriteBatch) :=
  '(route0, common, _) ← treeRoute last (h_parentHash (vr_info vb)) true true true;
  let route := route0 ++ [hashOf sha3 (vr_info vb)] in
  _ ← (if decide (common = last) then mret tt else forget route common last);
  batches ← cfor (before common (reverse route)) (indexBlock vb);
  mret (route, common, concat batches).

Definition writeDBs (blocks extras : WriteBatch) (c : BlockChain) : BlockChain :=
  set_dbs (db_write blocks (c_blocksDB c)) (db_write extras (c_extrasDB c)) c.

(** [if (m_lastBlockHash != newLastBlockHash)] *)
Definition setBest (h : bytes) (n : Z) (c : BlockChain) : BlockChain :=
  if decide (c_lastBlockHash c = h) then c else putBest (set_last h n c).

(** [import(VerifiedBlockRef)] *)
Definition import_verified (vb : VerifiedBlockRef) (db : DB) (mustBeNew : bool) : cm (ImportRoute * DB) :=
  let h := hashOf sha3 (vr_info vb) in
  let p := h_parentHash (vr_info vb) in
  _ ← checkNew vb mustBeNew;
  pd ← checkParent vb;
  c ← cget;
  '(tdIncrease, s) ← enactOn sha3 recover lhsFirst now vb (newBlock sha3 (c_params c) db);
  let blb := mkLogBlooms (rc_bloom <$> b_receipts s) in
  let br := mkBlockReceipts (b_receipts s) in
  s1 ← cleanup now true s;
  let td := u256 (bd_totalDifficulty pd + tdIncrease) in
  pd1 ← addChild p h;
  er ← crlp (receipts_rlp br);
  family ← familyBatch h p pd1 (mkDetails (u32 (bd_number pd + 1)) td p []) blb er;
  c ← cget;
  let last := c_lastBlockHash c in
  best ← isBest vb td last;
  '(route, common, index) ← (if best : bool then newHead vb last else mret ([], zeroHash 32, []));
  _ ← cmodify (writeDBs [(toSlice h 0, vr_block vb)] (family ++ index));
  _ ← cmodify (if best : bool then setBest h (u32 (h_number (vr_info vb))) else id);
  _ ← cmodify (if bool_decide (route <> []) then set_lastLastHashes [] else id);
  mret (mkRoute (before common route) (after common route) (b_transactions s), m_db (b_state s1)).

(** [import(bytes)] *)
Definition import_bytes (block : bytes) (db : DB) (mustBeNew : bool) : cm (ImportRoute * DB) :=
  vb ← chain_verifyBlock sha3 sha3_512 eval recover block IR_OutOfOrderChecks; import_verified vb db mustBeNew.

(** [insert(VerifiedBlockRef, receipts)], [insert(bytes, receipts)] *)
Definition insert_verified (vb : VerifiedBlockRef) (receipts : bytes) (mustBeNew : bool) : cm unit :=
  let h := hashOf sha3 (vr_info vb) in
  let p := h_parentHash (vr_info vb) in
  _ ← checkNew vb mustBeNew;
  r ← crlp (RLP.construct receipts VeryStrict);
  rs ← chdr (hloop (RLP.for_range Ok r));
  root ← crlp (orderedTrieRoot sha3 rs);
  _ ← cguard (bool_decide (h_receiptsRoot (vr_info vb) = root)) ChInvalidReceiptsStateRoot;
  pd ← checkParent vb;
  blooms ← chdr (each receipt_of rs);
  pd1 ← addChild p h;
  family ← familyBatch h p pd1
             (mkDetails (u32 (bd_number pd + 1)) (u256 (bd_totalDifficulty pd + h_difficulty (vr_info vb))) p [])
             (mkLogBlooms (rc_bloom <$> blooms)) receipts;
  cmodify (writeDBs [(toSlice h 0, vr_block vb)] family).
Definition insert_bytes (block receipts : bytes) (mustBeNew : bool) : cm unit :=
  vb ← chain_verifyBlock sha3 sha3_512 eval recover block IR_OutOfOrderChecks; insert_verified vb receipts mustBeNew.

(** ** [attemptImport] and [sync] *)

(** What is no exception of the code: the process ends, an assertion fails, or nothing is returned *)
Definition fatal (e : chain_error) : bool :=
  match e with ChExit | ChAssert | ChNoReturn | ChUndefined | ChHeader HdrNoReturn => true | _ => false end.

Definition attemptImport (block : bytes) (db : DB) (mustBeNew : bool) : cm (ImportResult * ImportRoute * DB) := fun c =>
  match import_bytes block db mustBeNew c with
  | (Ok (r, db1), c1) => (Ok (Success, r, db1), c1)
  | (Throw e, c1) =>
      if fatal e then (Throw e, c1)
      else (Ok (match e with
                | ChUnknownParent => UnknownParent
                | ChAlreadyHaveBlock => AlreadyKnown
                | ChFutureTime => FutureTimeKnown
                | _ => Malformed
                end, mkRoute [] [] [], db), c1)
  end.

Record sync_state := mkSync { ss_route : ImportRoute; ss_bad : list bytes; ss_count : Z; ss_db : DB }.

(** One round of the loop of [sync]; the [continue] of the handlers for blocks in the future and for transient errors
    ends the round, since the loop around it is [do ... while (false)] *)
Definition syncOne (b : VerifiedBlock) (ss : sync_state) : cm sync_state := fun c =>
  match import_verified (vb_verified b) (ss_db ss) true c with
  | (Ok (r, db1), c1) =>
      (Ok (mkSync (mkRoute (deadBlocks (ss_route ss) ++ deadBlocks r) (liveBlocks (ss_route ss) ++ liveBlocks r)
                     (goodTransactions (ss_route ss) ++ goodTransactions r)) (ss_bad ss) (u32 (ss_count ss + 1)) db1), c1)
  | (Throw e, c1) =>
      if fatal e then (Throw e, c1)
      else match e with
           | ChFutureTime | ChTransientError => (Ok ss, c1)
           | _ => (Ok (mkSync (ss_route ss) (ss_bad ss ++ [hashOf sha3 (vr_info (vb_verified b))]) (ss_count ss) (ss_db ss)), c1)
           end
  end.
Fixpoint syncAll (l : list VerifiedBlock) (ss : sync_state) : cm sync_state :=
  match l with [] => mret ss | b :: l' => ss1 ← syncOne b ss; syncAll l' ss1 end.

Definition sync (max : Z) (db : DB) (q : BlockQueue) : cm (ImportRoute * bool * Z * DB * BlockQueue) :=
  let '(blocks, q1) := drain sha3 max q in
  ss ← syncAll blocks (mkSync (mkRoute [] [] []) [] 0 db);
  let '(more, q2) := doneDrain sha3 (ss_bad ss) q1 in
  mret (ss_route ss, more, ss_count ss, ss_db ss, q2).

(** ** Opening and closing *)

Definition c_collectionQueueSize : nat := 20.

(** [init] with [genesis()] *)
Definition init_chain (p : ChainOperationParams) (genesisBlock : bytes) (c : BlockChain) : hres BlockChain :=
  bi ← parseHeader sha3 genesisBlock BlockData (zeroHash 32);
  d ← extractHeader genesisBlock;
  Ok (mkChain (c_blocksDB c) (c_extrasDB c) (c_blocks c) (c_details c) (c_logBlooms c) (c_receipts c)
        (c_transactionAddresses c) (c_blockHashes c) (c_blocksBlooms c)
        (take c_collectionQueueSize (c_cacheUsage c) ++ replicate (c_collectionQueueSize - length (c_cacheUsage c)) ∅)
        (c_inUse c) (c_lastLastHashes c) (c_lastBlockHash c) (c_lastBlockNumber c) genesisBlock (hashOf sha3 bi) d p).

(** [m_details[m_genesisHash] = d], with the entry of the database *)
Definition putGenesis (d : BlockDetails) : cm unit :=
  e ← crlp (details_rlp d);
  cmodify (fun c => set_details (<[c_genesisHash c := d]> (c_details c))
                      (set_dbs (c_blocksDB c) (<[toSlice (c_genesisHash c) 0 := e]> (c_extrasDB c)) c)).

(** [open] once the databases are there *)
Definition open_chain (verify : bool) : cm unit :=
  c ← cget;
  _ ← (if verify then mret tt
       else
         d ← getDetails (c_genesisHash c);
         if details_isNull d then
           gb ← chdr (parseHeader sha3 (c_genesisBlock c) BlockData (zeroHash 32));
           _ ← putGenesis (mkDetails 0 (h_difficulty gb) (zeroHash 32) []);
           k ← getKnown (hashOf sha3 gb) true;
           cguard k ChAssert
         else mret tt);
  c ← cget;
  let l := db_get (c_extrasDB c) bestKey in
  let h := if decide (l = []) then c_genesisHash c else take 32 l in
  _ ← cmodify (fun c => set_last h (c_lastBlockNumber c) c);
  n ← getNumber h;
  cmodify (fun c => set_last h n c).

(** [close] *)
Definition close_chain (c : BlockChain) : BlockChain :=
  mkChain (c_blocksDB c) (c_extrasDB c) ∅ ∅ ∅ ∅ ∅ ∅ ∅ [] ∅ [] (c_genesisHash c) 0 (c_genesisBlock c) (c_genesisHash c)
    (c_genesisHeaderBytes c) (c_params c).

(** [rebuild] up to its loop: the extras database is a new one *)
Definition rebuild_start (c : BlockChain) : BlockChain :=
  mkChain (c_blocksDB c) ∅ (c_blocks c) ∅ ∅ ∅ ∅ ∅ ∅ (c_cacheUsage c) (c_inUse c) [] (c_genesisHash c) 0 (c_genesisBlock c)
    (c_genesisHash c) (c_genesisHeaderBytes c) (c_params c).

(** [queryExtras(d, m_blockHashes, ..., oldExtrasDB)] *)
Definition oldNumberHash (old : gmap bytes bytes) (n : Z) : cm bytes := fun c =>
  match queryExtras (T := BlockHash) (toSlice_number n 1) n (c_blockHashes c) old with
  | Ok (v, m) => (Ok (bh_value v), match m with Some m => set_blockHashes m c | None => c end)
  | Throw e => (Throw (ChHeader e), c)
  end.

(** [for (unsigned d = 1; d <= originalNumber; ++d)]; an exception of a round ends the loop *)
Fixpoint rebuild_loop (old : gmap bytes bytes) (ds : list Z) (lastHash : bytes) (db : DB) : cm unit :=
  match ds with
  | [] => mret tt
  | d :: ds' => fun c =>
      match (h ← oldNumberHash old d;
             b ← getBlock h;
             bi ← chdr (parseHeader sha3 b BlockData (zeroHash 32));
             if negb (bool_decide (h_parentHash bi = lastHash)) then mret None
             else '(_, db1) ← import_bytes b db false; mret (Some (hashOf sha3 bi, db1))) c with
      | (Ok (Some (h, db1)), c1) => rebuild_loop old ds' h db1 c1
      | (Ok None, c1) => (Ok tt, c1)
      | (Throw e, c1) => if fatal e then (Throw e, c1) else (Ok tt, c1)
      end
  end.

Definition rebuild (difficulty : Z) (db : DB) : cm unit :=
  c ← cget;
  _ ← cmodify rebuild_start;
  _ ← putGenesis (mkDetails InvalidBlockNumber difficulty (zeroHash 32) []);
  rebuild_loop (c_extrasDB c) (seqZ 1 (c_lastBlockNumber c)) (c_genesisHash c) db.

End Importing.
