(* ===== verification/ChainDBTheory.v ===== *)
(** * The caches of the chain are transparent

    Reading through the caches gives what the databases hold and only makes copies:
    [copies c c'] says that [c'] differs from [c] in copies alone.  [reads] is the
    specification of an operation that reads, [quiet] says that an operation only makes
    copies whatever it returns. *)

From Stdlib Require Import ZArith Lia.
From stdpp Require Import base list list_numbers option gmap.
From S2P Require Import Prelude CommonData RLP FixedHash State Transaction Executive BlockHeader Elhash BlockQueue BlockDetails BlockDetailsTheory BlockChain ChainOps.

(** ** Keys *)

Lemma toSlice_inj h h' s s' : toSlice h s = toSlice h' s' -> h = h' /\ u8 s = u8 s'.
Proof. unfold toSlice. intros [-> E]%app_inj_tail. done. Qed.

Lemma toSlice_kind h h' s s' : u8 s <> u8 s' -> toSlice h s <> toSlice h' s'.
Proof. intros Hs [_ E]%toSlice_inj. done. Qed.

Lemma toSlice_number_eq n s : toSlice_number n s = toSlice (zeroHash 24 ++ toBigEndian 8 n) s.
Proof. unfold toSlice_number, toSlice. by rewrite app_assoc. Qed.

Lemma bestKey_slice h s : u8 s <> 116 -> bestKey <> toSlice h s.
Proof.
  intros Hs E. unfold bestKey, toSlice in E. change [98; 101; 115; 116] with ([98; 101; 115] ++ [116]) in E.
  apply app_inj_tail in E as [_ E]. done.
Qed.

(** ** What the databases hold *)

Definition readExtras {T} `{Extra T} (db : gmap bytes bytes) (key : bytes) : hres T :=
  let s := db_get db key in
  if decide (s = []) then Ok extra_null else r ← hrlp (RLP.construct s VeryStrict); extra_of r.

Definition dbDetails (db : gmap bytes bytes) (h : bytes) : hres BlockDetails := readExtras db (toSlice h 0).
Definition dbBlockHash (db : gmap bytes bytes) (n : Z) : hres BlockHash := readExtras db (toSlice_number n 1).

(** What a reader of details, of blooms or of the place of a transaction is told *)
Definition detailsOf (c : BlockChain) (h : bytes) : hres BlockDetails :=
  match c_details c !! h with Some d => Ok d | None => dbDetails (c_extrasDB c) h end.
Definition bloomsOf (c : BlockChain) (id : bytes) : hres BlocksBlooms :=
  match c_blocksBlooms c !! id with Some b => Ok b | None => readExtras (c_extrasDB c) (toSlice id 5) end.
Definition addressOf (c : BlockChain) (h : bytes) : hres TransactionAddress :=
  match c_transactionAddresses c !! h with Some t => Ok t | None => readExtras (c_extrasDB c) (toSlice h 2) end.

(** The block with a hash, and its header *)
Definition blockOf (c : BlockChain) (h : bytes) : bytes :=
  if decide (h = c_genesisHash c) then c_genesisBlock c else db_get (c_blocksDB c) (toSlice h 0).
Definition headerOf (c : BlockChain) (h : bytes) : hres bytes :=
  if decide (h = c_genesisHash c) then Ok (c_genesisHeaderBytes c)
  else let d := db_get (c_blocksDB c) (toSlice h 0) in if decide (d = []) then Ok [] else extractHeader d.

(** ** Coherent caches *)

Definition cachedFrom {K T} `{Countable K} `{Extra T} (key : K -> bytes) (m : gmap K T) (db : gmap bytes bytes) : Prop :=
  forall k v, m !! k = Some v -> db_get db (key k) <> [] /\ readExtras db (key k) = Ok v.

(** The caches that agree with the databases at all times; that of the numbers also holds nothing above the head. *)
Record coherent (c : BlockChain) : Prop := mkCoherent {
  co_logBlooms : cachedFrom (fun h => toSlice h 3) (c_logBlooms c) (c_extrasDB c);
  co_receipts : cachedFrom (fun h => toSlice h 4) (c_receipts c) (c_extrasDB c);
  co_blockHashes : cachedFrom (fun n => toSlice_number n 1) (c_blockHashes c) (c_extrasDB c);
  co_below : forall n v, c_blockHashes c !! n = Some v -> 0 <= n <= c_lastBlockNumber c;
  co_blocks : forall h b, c_blocks c !! h = Some b -> b <> [] /\ db_get (c_blocksDB c) (toSlice h 0) = b
}.

(** The cached details agree with the database, as they do unless a block is being imported. *)
Definition detailsCached (c : BlockChain) : Prop := cachedFrom (fun h => toSlice h 0) (c_details c) (c_extrasDB c).

(** [c'] is [c] with more copies, and perhaps other blooms and places of transactions. *)
Record grows (c c' : BlockChain) : Prop := mkGrows {
  gr_blocksDB : c_blocksDB c' = c_blocksDB c;
  gr_extrasDB : c_extrasDB c' = c_extrasDB c;
  gr_last : c_lastBlockHash c' = c_lastBlockHash c;
  gr_number : c_lastBlockNumber c' = c_lastBlockNumber c;
  gr_genesisBlock : c_genesisBlock c' = c_genesisBlock c;
  gr_genesisHash : c_genesisHash c' = c_genesisHash c;
  gr_genesisHeader : c_genesisHeaderBytes c' = c_genesisHeaderBytes c;
  gr_params : c_params c' = c_params c;
  gr_keep : forall h d, c_details c !! h = Some d -> c_details c' !! h = Some d;
  gr_new : forall h d, c_details c' !! h = Some d -> c_details c !! h = Some d \/
    (c_details c !! h = None /\ db_get (c_extrasDB c) (toSlice h 0) <> [] /\ dbDetails (c_extrasDB c) h = Ok d);
  gr_coherent : coherent c -> coherent c'
}.
#[export] Instance grows_preorder : PreOrder grows.
Proof.
  split; [intros c; split; auto|]. intros c1 c2 c3 H12 H23. destruct H12, H23. split; try congruence; auto.
  intros h d [Hd|(Hn & H2)]%gr_new1; [by apply gr_new0|]. right. rewrite <-gr_extrasDB0. split; [|done].
  destruct (c_details c1 !! h) eqn:E; [|done]. apply gr_keep0 in E. congruence.
Qed.

(** Nothing but copies has been added. *)
Definition copies (c c' : BlockChain) : Prop :=
  grows c c' /\ (forall id, bloomsOf c' id = bloomsOf c id) /\ (forall h, addressOf c' h = addressOf c h).
#[export] Instance copies_preorder : PreOrder copies.
Proof.
  split; [by intros c|]. intros c1 c2 c3 (H1 & H2 & H3) (H1' & H2' & H3'). split; [by etrans|].
  split; intros; [by rewrite H2'|by rewrite H3'].
Qed.
Lemma copies_grows c c' : copies c c' -> grows c c'.
Proof. by intros []. Qed.
Lemma cp_blooms c c' id : copies c c' -> bloomsOf c' id = bloomsOf c id.
Proof. intros (_ & H & _). apply H. Qed.
Lemma cp_address c c' h : copies c c' -> addressOf c' h = addressOf c h.
Proof. intros (_ & _ & H). apply H. Qed.
Lemma cp_extrasDB c c' : copies c c' -> c_extrasDB c' = c_extrasDB c.
Proof. intros H. apply gr_extrasDB, H. Qed.
Lemma cp_coherent c c' : copies c c' -> coherent c -> coherent c'.
Proof. intros H. apply gr_coherent, H. Qed.

Lemma grows_details c c' h : grows c c' -> detailsOf c' h = detailsOf c h.
Proof.
  intros H. unfold detailsOf. destruct (c_details c !! h) as [d|] eqn:E.
  - by rewrite (gr_keep _ _ H _ _ E).
  - destruct (c_details c' !! h) as [d|] eqn:E'.
    + destruct (gr_new _ _ H _ _ E') as [|(_ & _ & Hd)]; [congruence|]. by rewrite <-Hd.
    + by rewrite (gr_extrasDB _ _ H).
Qed.
Lemma cp_details c c' h : copies c c' -> detailsOf c' h = detailsOf c h.
Proof. intros H. by apply grows_details, copies_grows. Qed.
Lemma grows_detailsCached c c' : grows c c' -> detailsCached c -> detailsCached c'.
Proof.
  intros H Hd h d E. rewrite (gr_extrasDB _ _ H). destruct (gr_new _ _ H _ _ E) as [E'|(_ & Hn & Hr)]; [by apply Hd|done].
Qed.
Lemma grows_block c c' h : grows c c' -> blockOf c' h = blockOf c h.
Proof. intros H. destruct H. unfold blockOf. by rewrite gr_genesisHash0, gr_genesisBlock0, gr_blocksDB0. Qed.
Lemma grows_header c c' h : grows c c' -> headerOf c' h = headerOf c h.
Proof. intros H. destruct H. unfold headerOf. by rewrite gr_genesisHash0, gr_genesisHeader0, gr_blocksDB0. Qed.

(** What stays the same when copies are made and dropped *)
Definition sameBase (c c' : BlockChain) : Prop :=
  c_blocksDB c' = c_blocksDB c /\ c_extrasDB c' = c_extrasDB c /\ c_lastBlockHash c' = c_lastBlockHash c /\
  c_lastBlockNumber c' = c_lastBlockNumber c /\ c_genesisBlock c' = c_genesisBlock c /\
  c_genesisHash c' = c_genesisHash c /\ c_genesisHeaderBytes c' = c_genesisHeaderBytes c /\ c_params c' = c_params c.

#[export] Instance sameBase_preorder : PreOrder sameBase.
Proof. split; [by intros c|]. intros c1 c2 c3 H12 H23. unfold sameBase in *. intuition congruence. Qed.

Lemma grows_base c c' : grows c c' -> sameBase c c'.
Proof. intros []. by split_and!. Qed.
Lemma copies_base c c' : copies c c' -> sameBase c c'.
Proof. intros H. by apply grows_base, copies_grows. Qed.

(** ** Operations that read *)

Definition reads {A} (m : cm A) (c : BlockChain) (r : result chain_error A) : Prop := exists c', m c = (r, c') /\ copies c c'.
Definition quiet {A} (m : cm A) : Prop := forall c, coherent c -> copies c (m c).2.

Definition liftH {A} (r : hres A) : result chain_error A := match r with Ok a => Ok a | Throw e => Throw (ChHeader e) end.

Lemma reads_ret {A} (a : A) c : reads (mret a) c (Ok a).
Proof. by exists c. Qed.
Lemma reads_throw {A} e c : reads (cthrow e : cm A) c (Throw e).
Proof. by exists c. Qed.
Lemma reads_bind {A B} (m : cm A) (f : A -> cm B) c a r :
  reads m c (Ok a) -> (forall c', copies c c' -> reads (f a) c' r) -> reads (m ≫= f) c r.
Proof.
  intros (c1 & E & H1) Hf. destruct (Hf c1 H1) as (c2 & E2 & H2). exists c2. split; [|by etrans].
  unfold mbind, cm_bind. by rewrite E.
Qed.
Lemma reads_bind_throw {A B} (m : cm A) (f : A -> cm B) c e : reads m c (Throw e) -> reads (m ≫= f) c (Throw e).
Proof. intros (c1 & E & H1). exists c1. split; [|done]. unfold mbind, cm_bind. by rewrite E. Qed.
Lemma reads_chdr {A} (r : hres A) c : reads (chdr r) c (liftH r).
Proof. destruct r; [apply reads_ret|apply reads_throw]. Qed.
Lemma reads_result {A} (m : cm A) c r : reads m c r -> (m c).1 = r.
Proof. intros (c' & E & _). by rewrite E. Qed.

Lemma quiet_ret {A} (a : A) : quiet (mret a).
Proof. by intros c _. Qed.
Lemma quiet_throw {A} e : quiet (cthrow e : cm A).
Proof. by intros c _. Qed.
Lemma quiet_cget : quiet cget.
Proof. by intros c _. Qed.
Lemma quiet_bind {A B} (m : cm A) (f : A -> cm B) : quiet m -> (forall a, quiet (f a)) -> quiet (m ≫= f).
Proof.
  intros Hm Hf c Hc. specialize (Hm c Hc). unfold mbind, cm_bind. destruct (m c) as [[a|e] c1]; [|done]. cbn in Hm.
  etrans; [exact Hm|]. apply Hf. by eapply cp_coherent.
Qed.
Lemma quiet_cguard b e : quiet (cguard b e).
Proof. destruct b; [apply quiet_ret|apply quiet_throw]. Qed.
Lemma quiet_chdr {A} (r : hres A) : quiet (chdr r).
Proof. destruct r; [apply quiet_ret|apply quiet_throw]. Qed.
Lemma quiet_crlp {A} (r : result rlp_error A) : quiet (crlp r).
Proof. apply quiet_chdr. Qed.
Lemma quiet_reads {A} (m : cm A) (f : BlockChain -> result chain_error A) :
  (forall c, coherent c -> reads m c (f c)) -> quiet m.
Proof. intros H c Hc. destruct (H c Hc) as (c' & E & Hcc). by rewrite E. Qed.
Lemma quiet_cfor {A B} (l : list A) (f : A -> cm B) : (forall a, quiet (f a)) -> quiet (cfor l f).
Proof.
  intros Hf. induction l as [|x l IH]; [apply quiet_ret|]. cbn [cfor]. apply quiet_bind; [apply Hf|]. intros y.
  apply quiet_bind; [apply IH|]. intros ys. apply quiet_ret.
Qed.

Create HintDb chain.
#[export] Hint Resolve quiet_ret quiet_throw quiet_cget quiet_cguard quiet_chdr quiet_crlp quiet_cfor : chain.

(** Splits an operation into its parts. *)
Ltac quiet :=
  repeat match goal with
  | |- quiet (_ ≫= _) => apply quiet_bind; [|intros]
  | |- quiet (match ?x with _ => _ end) => destruct x
  | |- quiet (if ?x then _ else _) => destruct x
  | |- quiet (cfor _ _) => apply quiet_cfor; intros
  | |- quiet _ => solve [eauto with chain]
  end.

(** ** The readers *)

Lemma noteUsed_usage id c : exists u i, noteUsed id c = set_usage u i c.
Proof.
  unfold noteUsed. destruct (c_cacheUsage c) as [|r0 [|r1 rows]]; [by exists (c_cacheUsage c), (c_inUse c); destruct c..|].
  destruct (decide _); by do 2 eexists.
Qed.

(** What a query tells and the copy it makes *)
Lemma queryExtras_cases {K T} `{Countable K} `{Extra T} (key : K -> bytes) k (m : gmap K T) db :
  (exists v, m !! k = Some v /\ queryExtras (key k) k m db = Ok (v, None)) \/
  (m !! k = None /\ exists e, readExtras (T := T) db (key k) = Throw e /\ queryExtras (key k) k m db = Throw e) \/
  (m !! k = None /\ readExtras db (key k) = Ok extra_null /\ queryExtras (key k) k m db = Ok (extra_null, None)) \/
  (exists v, m !! k = None /\ db_get db (key k) <> [] /\ readExtras db (key k) = Ok v /\
     queryExtras (key k) k m db = Ok (v, Some (<[k := v]> m))).
Proof.
  unfold queryExtras, readExtras. destruct (m !! k) as [v|] eqn:Em; [by left; exists v|]. right.
  destruct (decide (db_get db (key k) = [])) as [E|E]; [by right; left|].
  destruct (hrlp (RLP.construct (db_get db (key k)) VeryStrict)) as [r|e]; cbn; [|by left; split; [done|exists e]].
  destruct (extra_of r) as [v|e]; cbn; [|by left; split; [done|exists e]]. right. right. by exists v.
Qed.

Lemma cachedFrom_insert {K T} `{Countable K} `{Extra T} (key : K -> bytes) (m : gmap K T) db k v :
  cachedFrom key m db -> db_get db (key k) <> [] -> readExtras db (key k) = Ok v -> cachedFrom key (<[k := v]> m) db.
Proof. intros Hm H1 H2 k' v' [[<- <-]|[_ E]]%lookup_insert_Some; [done|]. by apply Hm. Qed.

Lemma cachedFrom_lookup {K T} `{Countable K} `{Extra T} (key : K -> bytes) (m : gmap K T) db k v :
  cachedFrom key m db -> m !! k = Some v -> readExtras db (key k) = Ok v.
Proof. intros Hm E. by apply Hm in E as [_ E]. Qed.

(** A copy of a record of another kind than details *)
Lemma copy_grows c c' : sameBase c c' -> c_details c' = c_details c -> (coherent c -> coherent c') -> grows c c'.
Proof. intros (? & ? & ? & ? & ? & ? & ? & ?) E Hc. split; try done; rewrite E; auto. Qed.

Lemma getDetails_reads h c : reads (getDetails h) c (liftH (detailsOf c h)).
Proof.
  unfold reads, getDetails, cquery, queryDetails, detailsOf, dbDetails.
  destruct (queryExtras_cases (fun h => toSlice h 0) h (c_details c) (c_extrasDB c))
    as [(v & Em & E)|[(Em & e & Er & E)|[(Em & Er & E)|(v & Em & Hn & Er & E)]]]; cbn in *; rewrite E, Em; cbn.
  - by exists c.
  - exists c. by rewrite Er.
  - exists c. by rewrite Er.
  - eexists. rewrite Er. split; [done|]. destruct (noteUsed_usage (h, 0) c) as (us & iu & ->).
    split; [|by split]. split; try done; cbn.
    + intros h' d' E'. rewrite lookup_insert_ne by congruence. done.
    + intros h' d' [[<- <-]|[_ E']]%lookup_insert_Some; [|by left]. by right.
    + by intros [].
Qed.

Lemma getNumber_reads h c d : detailsOf c h = Ok d -> reads (getNumber h) c (Ok (bd_number d)).
Proof.
  intros Hd. unfold getNumber. eapply reads_bind; [|intros; apply reads_ret].
  pose proof (getDetails_reads h c) as Hr. by rewrite Hd in Hr.
Qed.

Lemma getLogBlooms_quiet h : quiet (getLogBlooms h).
Proof.
  intros c Hc. unfold getLogBlooms, cquery, queryLogBlooms.
  destruct (queryExtras_cases (fun h => toSlice h 3) h (c_logBlooms c) (c_extrasDB c))
    as [(v & Em & E)|[(Em & e & Er & E)|[(Em & Er & E)|(v & Em & Hn & Er & E)]]]; cbn in *; rewrite E; cbn; try done.
  destruct (noteUsed_usage (h, 3) c) as (us & iu & ->). split; [|by split]. apply copy_grows; [done..|].
  intros []. split; try done. cbn. by apply (cachedFrom_insert (fun h => toSlice h 3)).
Qed.
Lemma getReceipts_quiet h : quiet (getReceipts h).
Proof.
  intros c Hc. unfold getReceipts, cquery, queryReceipts.
  destruct (queryExtras_cases (fun h => toSlice h 4) h (c_receipts c) (c_extrasDB c))
    as [(v & Em & E)|[(Em & e & Er & E)|[(Em & Er & E)|(v & Em & Hn & Er & E)]]]; cbn in *; rewrite E; cbn; try done.
  destruct (noteUsed_usage (h, 4) c) as (us & iu & ->). split; [|by split]. apply copy_grows; [done..|].
  intros []. split; try done. cbn. by apply (cachedFrom_insert (fun h => toSlice h 4)).
Qed.

Lemma getTransactionAddress_reads h c : reads (getTransactionAddress h) c (liftH (addressOf c h)).
Proof.
  unfold reads, getTransactionAddress, cquery, queryTransactionAddress, addressOf.
  destruct (queryExtras_cases (fun h => toSlice h 2) h (c_transactionAddresses c) (c_extrasDB c))
    as [(v & Em & E)|[(Em & e & Er & E)|[(Em & Er & E)|(v & Em & Hn & Er & E)]]]; cbn in *; rewrite E, Em; cbn;
    [by exists c|by exists c; rewrite Er|by exists c; rewrite Er|].
  eexists. rewrite Er. split; [done|]. destruct (noteUsed_usage (h, 2) c) as (us & iu & ->).
  split; [apply copy_grows; [done..|by intros []]|]. split; [done|].
  intros h'. unfold addressOf at 1. cbn [set_transactionAddresses c_transactionAddresses c_extrasDB].
  destruct (decide (h' = h)) as [->|Hne].
  - rewrite lookup_insert_eq. unfold addressOf. by rewrite Em.
  - by rewrite lookup_insert_ne by done.
Qed.

Lemma getBlocksBlooms_reads id c : reads (getBlocksBlooms id) c (liftH (bloomsOf c id)).
Proof.
  unfold reads, getBlocksBlooms, cquery, queryBlocksBlooms, bloomsOf.
  destruct (queryExtras_cases (fun h => toSlice h 5) id (c_blocksBlooms c) (c_extrasDB c))
    as [(v & Em & E)|[(Em & e & Er & E)|[(Em & Er & E)|(v & Em & Hn & Er & E)]]]; cbn in *; rewrite E, Em; cbn;
    [by exists c|by exists c; rewrite Er|by exists c; rewrite Er|].
  eexists. rewrite Er. split; [done|]. destruct (noteUsed_usage (id, 5) c) as (us & iu & ->).
  split; [apply copy_grows; [done..|by intros []]|]. split; [|done].
  intros h'. unfold bloomsOf at 1. cbn [set_blocksBlooms c_blocksBlooms c_extrasDB].
  destruct (decide (h' = id)) as [->|Hne].
  - rewrite lookup_insert_eq. unfold bloomsOf. by rewrite Em.
  - by rewrite lookup_insert_ne by done.
Qed.

Lemma cacheBlock_copies h d c : d = db_get (c_blocksDB c) (toSlice h 0) -> d <> [] ->
  copies c (set_blocks (<[h := d]> (c_blocks c)) (noteUsed (h, BlockKind) c)).
Proof.
  intros -> Hd. destruct (noteUsed_usage (h, BlockKind) c) as (us & iu & ->). split; [|by split].
  apply copy_grows; [done..|]. intros []. split; try done. cbn.
  intros h' b [[<- <-]|[_ Eb]]%lookup_insert_Some; [done|]. by apply co_blocks0.
Qed.

Lemma getBlock_reads h c : coherent c -> reads (getBlock h) c (Ok (blockOf c h)).
Proof.
  intros Hc. unfold reads, getBlock, queryBlock, blockOf. destruct (decide (h = c_genesisHash c)); [by exists c|].
  destruct (c_blocks c !! h) as [b|] eqn:Eb.
  - exists c. by destruct (co_blocks c Hc h b Eb) as [_ ->].
  - destruct (decide (db_get (c_blocksDB c) (toSlice h 0) = [])) as [E|E]; [exists c; by rewrite E|].
    eexists. split; [done|]. by apply cacheBlock_copies.
Qed.

Lemma getHeaderData_reads h c : coherent c -> reads (getHeaderData h) c (liftH (headerOf c h)).
Proof.
  intros Hc. unfold reads, getHeaderData, cquery, queryHeaderData, headerOf.
  destruct (decide (h = c_genesisHash c)); [by exists c|]. destruct (c_blocks c !! h) as [b|] eqn:Eb.
  - exists c. destruct (co_blocks c Hc h b Eb) as [Hb ->]. rewrite decide_False by done.
    by destruct (extractHeader b).
  - destruct (decide (db_get (c_blocksDB c) (toSlice h 0) = [])) as [E|E]; [by exists c|].
    destruct (extractHeader _) as [r|e]; cbn; [|by exists c].
    eexists. split; [done|]. by apply cacheBlock_copies.
Qed.

(** A number is asked for at or below the head. *)
Lemma queryBlockHash_reads n c : coherent c -> 0 <= n <= c_lastBlockNumber c ->
  reads (cquery (queryBlockHash n)) c (liftH (dbBlockHash (c_extrasDB c) n)).
Proof.
  intros Hc Hn. unfold reads, cquery, queryBlockHash, dbBlockHash.
  destruct (queryExtras_cases (fun n => toSlice_number n 1) n (c_blockHashes c) (c_extrasDB c))
    as [(v & Em & E)|[(Em & e & Er & E)|[(Em & Er & E)|(v & Em & Hd & Er & E)]]]; cbn in *; rewrite E; cbn.
  - exists c. apply (cachedFrom_lookup _ _ _ _ _ (co_blockHashes c Hc)) in Em. cbn in Em. by rewrite Em.
  - exists c. by rewrite Er.
  - exists c. by rewrite Er.
  - eexists. rewrite Er. split; [done|]. split; [|by split]. apply copy_grows; [done..|]. intros []. split; try done; cbn.
    + by apply (cachedFrom_insert (fun n => toSlice_number n 1)).
    + intros n' v' [[<- <-]|[_ E']]%lookup_insert_Some; [done|]. by eapply co_below0.
Qed.

Definition numberHashOf (c : BlockChain) (n : Z) : hres bytes :=
  if n =? 0 then Ok (c_genesisHash c) else v ← dbBlockHash (c_extrasDB c) n; Ok (bh_value v).

Lemma getNumberHash_reads n c : coherent c -> 0 <= n <= c_lastBlockNumber c ->
  reads (getNumberHash n) c (liftH (numberHashOf c n)).
Proof.
  intros Hc Hn. unfold getNumberHash, numberHashOf. destruct (n =? 0).
  - exists c. split; [|done]. done.
  - destruct (queryBlockHash_reads n c Hc Hn) as (c' & E & Hcc). exists c'. split; [|done]. cbn beta.
    unfold mbind, cm_bind. rewrite E. by destruct (dbBlockHash (c_extrasDB c) n).
Qed.

Definition knownOf (c : BlockChain) (h : bytes) (isCurrent : bool) : hres bool :=
  if decide (h = c_genesisHash c) then Ok true
  else if bool_decide (db_get (c_blocksDB c) (toSlice h 0) = []) || bool_decide (db_get (c_extrasDB c) (toSlice h 0) = []) then Ok false
  else if negb isCurrent then Ok true
  else d ← detailsOf c h; Ok (bd_number d <=? c_lastBlockNumber c).

Lemma getKnown_reads h isCurrent c : coherent c -> detailsCached c -> reads (getKnown h isCurrent) c (liftH (knownOf c h isCurrent)).
Proof.
  intros Hc Hdc. unfold knownOf, reads, getKnown. destruct (decide (h = c_genesisHash c)); [by exists c|].
  assert (E1 : negb (bool_decide (is_Some (c_blocks c !! h))) && bool_decide (db_get (c_blocksDB c) (toSlice h 0) = [])
             = bool_decide (db_get (c_blocksDB c) (toSlice h 0) = [])).
  { destruct (c_blocks c !! h) as [b|] eqn:E; [|by rewrite (bool_decide_false (is_Some None)) by by intros []].
    destruct (co_blocks c Hc h b E) as [Hb ->]. rewrite (bool_decide_false (b = [])) by done. by rewrite andb_false_r. }
  assert (E2 : negb (bool_decide (is_Some (c_details c !! h))) && bool_decide (db_get (c_extrasDB c) (toSlice h 0) = [])
             = bool_decide (db_get (c_extrasDB c) (toSlice h 0) = [])).
  { destruct (c_details c !! h) as [b|] eqn:E; [|by rewrite (bool_decide_false (is_Some None)) by by intros []].
    destruct (Hdc h b E) as [Hb _]. rewrite (bool_decide_false (db_get _ _ = [])) by done. by rewrite andb_false_r. }
  rewrite E1, E2. destruct (bool_decide (db_get (c_blocksDB c) _ = [])); [by exists c|]. cbn [orb].
  destruct (bool_decide (db_get (c_extrasDB c) _ = [])); [by exists c|]. destruct isCurrent; cbn [negb]; [|by exists c].
  destruct (getDetails_reads h c) as (c' & E & Hcc). exists c'. split; [|done]. unfold mbind, cm_bind. rewrite E.
  by destruct (detailsOf _ h).
Qed.

(** *** The readers only make copies *)

Lemma getDetails_quiet h : quiet (getDetails h).
Proof. eapply quiet_reads. intros c Hc. apply getDetails_reads. Qed.
Lemma getNumber_quiet h : quiet (getNumber h).
Proof. apply quiet_bind; [apply getDetails_quiet|intros; apply quiet_ret]. Qed.
Lemma getTransactionAddress_quiet h : quiet (getTransactionAddress h).
Proof. eapply quiet_reads. intros c Hc. apply getTransactionAddress_reads. Qed.
Lemma getBlocksBlooms_quiet id : quiet (getBlocksBlooms id).
Proof. eapply quiet_reads. intros c Hc. apply getBlocksBlooms_reads. Qed.
Lemma getBlock_quiet h : quiet (getBlock h).
Proof. apply (quiet_reads _ (fun c => Ok (blockOf c h))). intros c Hc. by apply getBlock_reads. Qed.
Lemma getHeaderData_quiet h : quiet (getHeaderData h).
Proof. eapply quiet_reads. intros c Hc. by apply getHeaderData_reads. Qed.
Lemma getKnown_quiet h b : quiet (getKnown h b).
Proof.
  intros c Hc. unfold getKnown. destruct (decide (h = c_genesisHash c)); [done|]. do 2 (destruct (_ && _); [done|]).
  destruct (negb b); [done|].
  pose proof (getDetails_quiet h c Hc) as Hq. unfold mbind, cm_bind. by destruct (getDetails h c) as [[d|e] c1].
Qed.
#[export] Hint Resolve getDetails_quiet getNumber_quiet getTransactionAddress_quiet getBlocksBlooms_quiet getBlock_quiet
  getHeaderData_quiet getKnown_quiet getLogBlooms_quiet getReceipts_quiet : chain.

(** ** Reading and collecting change no answer *)

(** All caches agree with the databases. *)
Definition settled (c : BlockChain) : Prop :=
  coherent c /\ detailsCached c /\
  (forall id, bloomsOf c id = readExtras (c_extrasDB c) (toSlice id 5)) /\
  (forall h, addressOf c h = readExtras (c_extrasDB c) (toSlice h 2)).

Lemma copies_settled c c' : copies c c' -> settled c -> settled c'.
Proof.
  intros H (Hc & Hd & Hb & Ha). split; [by eapply cp_coherent|]. split; [by eapply grows_detailsCached; [apply H|]|].
  split; intros; [rewrite (cp_blooms _ _ _ H)|rewrite (cp_address _ _ _ H)]; rewrite (cp_extrasDB _ _ H); auto.
Qed.

Lemma cachedFrom_delete {K T} `{Countable K} `{Extra T} (key : K -> bytes) (m : gmap K T) db k :
  cachedFrom key m db -> cachedFrom key (delete k m) db.
Proof. intros Hm k' v' [_ E]%lookup_delete_Some. by apply Hm. Qed.

Lemma view_delete {K T} `{Countable K} (m : gmap K T) (f : K -> hres T) i :
  (forall k, match m !! k with Some v => Ok v | None => f k end = f k) ->
  forall k, match delete i m !! k with Some v => Ok v | None => f k end = f k.
Proof.
  intros Hf k. destruct (decide (k = i)) as [->|Hne]; [by rewrite lookup_delete_eq|]. rewrite lookup_delete_ne by done. apply Hf.
Qed.

Lemma dropCached_coherent id c : coherent c -> detailsCached c ->
  coherent (dropCached id c) /\ detailsCached (dropCached id c) /\ sameBase c (dropCached id c).
Proof.
  intros [C1 C2 C3 C4 C5] Hd. unfold dropCached.
  destruct (id.2 =? BlockKind); [split; [|done]; split; try done; cbn; intros h b [_ E]%lookup_delete_Some; by apply C5|].
  destruct (id.2 =? 0); [split; [done|]; split; [by apply (cachedFrom_delete (fun h => toSlice h 0))|done]|].
  destruct (id.2 =? 4); [split; [|done]; split; try done; by apply (cachedFrom_delete (fun h => toSlice h 4))|].
  destruct (id.2 =? 3); [split; [|done]; split; try done; by apply (cachedFrom_delete (fun h => toSlice h 3))|].
  by destruct (id.2 =? 2), (id.2 =? 5).
Qed.
Lemma dropCached_settled id c : settled c -> settled (dropCached id c).
Proof.
  intros (Hc & Hd & Hb & Ha). destruct (dropCached_coherent id c Hc Hd) as (Hc' & Hd' & _). split; [done|]. split; [done|].
  clear Hc Hd Hc' Hd'. unfold dropCached. do 4 (destruct (_ =? _); [done|]).
  destruct (id.2 =? 2); [split; [done|apply view_delete, Ha]|]. destruct (id.2 =? 5); [|done]. split; [apply view_delete, Hb|done].
Qed.

(** What each drop keeps, the collector keeps. *)
Lemma collect_keeps (P : BlockChain -> Prop) c : (forall id c, P c -> P (dropCached id c)) -> P c ->
  exists c1, P c1 /\ collect c = set_usage (∅ :: removelast (c_cacheUsage c1)) (c_inUse c1) c1.
Proof.
  intros Hd Hc. unfold collect. set (l := elements _). exists (foldr dropCached c l). split; [|done].
  induction l as [|id l IH]; [done|]. by apply Hd.
Qed.
Lemma collect_coherent c : coherent c -> detailsCached c -> coherent (collect c) /\ detailsCached (collect c) /\ sameBase c (collect c).
Proof.
  intros Hc Hd. destruct (collect_keeps (fun x => coherent x /\ detailsCached x /\ sameBase c x) c) as (c1 & (Hc1 & Hd1 & Hs1) & ->); [|done|].
  - intros id x (H1 & H2 & H3). destruct (dropCached_coherent id x H1 H2) as (H1' & H2' & H3'). split; [done|]. split; [done|by etrans].
  - split; [by destruct Hc1|]. by split.
Qed.
Lemma collect_settled c : settled c -> settled (collect c) /\ sameBase c (collect c).
Proof.
  intros Hs. split; [|by apply collect_coherent; apply Hs].
  destruct (collect_keeps settled c) as (c1 & (Hc & Hd & Hb & Ha) & ->); [apply dropCached_settled|done|].
  split; [by destruct Hc|by split_and!].
Qed.

(** A reader, or the collector, has run. *)
Inductive reading : BlockChain -> BlockChain -> Prop :=
| rd_details c h : reading c (getDetails h c).2
| rd_logBlooms c h : reading c (getLogBlooms h c).2
| rd_receipts c h : reading c (getReceipts h c).2
| rd_address c h : reading c (getTransactionAddress h c).2
| rd_blooms c id : reading c (getBlocksBlooms id c).2
| rd_block c h : reading c (getBlock h c).2
| rd_header c h : reading c (getHeaderData h c).2
| rd_known c h b : reading c (getKnown h b c).2
| rd_number c n : 0 <= n <= c_lastBlockNumber c -> reading c (getNumberHash n c).2
| rd_collect c : reading c (collect c).

Lemma reading_settled c c' : reading c c' -> settled c -> settled c' /\ sameBase c c'.
Proof.
  intros Hr Hs. assert (Hq : forall A (m : cm A), quiet m -> settled (m c).2 /\ sameBase c (m c).2).
  { intros A m Hm. specialize (Hm c (proj1 Hs)). split; [by eapply copies_settled|by apply copies_base]. }
  destruct Hr as [c h|c h|c h|c h|c id|c h|c h|c h b|c n Hn|c]; try (apply Hq; solve [eauto with chain]); [|by apply collect_settled].
  destruct (getNumberHash_reads n c (proj1 Hs) Hn) as (c1 & E & Hcc). rewrite E.
  split; [by eapply copies_settled|by apply copies_base].
Qed.

Lemma readings_settled c c' : rtc reading c c' -> settled c -> settled c' /\ sameBase c c'.
Proof.
  induction 1 as [c|c c1 c' H1 _ IH]; intros Hs; [done|]. destruct (reading_settled c c1 H1 Hs) as [Hs1 Hb1].
  destruct (IH Hs1) as [Hs' Hb']. split; [done|by etrans].
Qed.

(** What every reader tells about a chain with these databases *)
Definition answers (blocks extras : gmap bytes bytes) (c : BlockChain) : Prop :=
  (forall h, (getDetails h c).1 = liftH (readExtras extras (toSlice h 0))) /\
  (forall id, (getBlocksBlooms id c).1 = liftH (readExtras extras (toSlice id 5))) /\
  (forall h, (getTransactionAddress h c).1 = liftH (readExtras extras (toSlice h 2))) /\
  (forall n, 1 <= n <= c_lastBlockNumber c ->
     (getNumberHash n c).1 = liftH (v ← readExtras extras (toSlice_number n 1); Ok (bh_value v))) /\
  (forall h, h <> c_genesisHash c -> (getBlock h c).1 = Ok (db_get blocks (toSlice h 0))).

Lemma settled_answers c : settled c -> answers (c_blocksDB c) (c_extrasDB c) c.
Proof.
  intros (Hc & Hd & Hb & Ha). split_and!.
  - intros h. rewrite (reads_result _ _ _ (getDetails_reads h c)). unfold detailsOf. destruct (c_details c !! h) as [d|] eqn:E; [|done].
    by destruct (Hd h d E) as [_ ->].
  - intros id. rewrite <-Hb. apply reads_result, getBlocksBlooms_reads.
  - intros h. rewrite <-Ha. apply reads_result, getTransactionAddress_reads.
  - intros n Hn. rewrite (reads_result _ _ _ (getNumberHash_reads n c Hc ltac:(lia))). unfold numberHashOf.
    by rewrite (proj2 (Z.eqb_neq n 0)) by lia.
  - intros h Hh. rewrite (reads_result _ _ _ (getBlock_reads h c Hc)). unfold blockOf. by rewrite decide_False.
Qed.


(** A chain with one block after the genesis, on disk only *)
Definition exDetails : BlockDetails := mkDetails 1 300 (replicate 32 7) [].
Definition exHash : bytes := replicate 32 9.
Definition exDiskChain : BlockChain :=
  mkChain {[toSlice exHash 0 := [193; 128]]}
    (match details_rlp exDetails with Ok d => {[toSlice exHash 0 := d]} | Throw _ => ∅ end)
    ∅ ∅ ∅ ∅ ∅ ∅ ∅ (replicate 20 ∅) ∅ [] exHash 1 [] (replicate 32 7) [] newParams.

Lemma exDiskChain_settled : settled exDiskChain.
Proof. split; [by split|by split_and!]. Qed.

