(* ===== verification/TreeRouteTheory.v ===== *)
(** * The tree of blocks and the route between two of them

    The details that a chain tells describe a tree: each block but the genesis has its
    parent there, with a number smaller by one.  [treeRoute] finds the latest common
    ancestor of two blocks and lists the blocks on the way. *)

From Stdlib Require Import ZArith Lia.
From stdpp Require Import base list list_numbers option gmap.
From S2P Require Import Prelude CommonData RLP FixedHash State Transaction Executive BlockHeader Elhash BlockQueue BlockDetails BlockDetailsTheory BlockChain ChainOps ChainDBTheory.

(** ** The tree *)

(** The block [h] has the details [d]. *)
Definition stored (D : bytes -> hres BlockDetails) (h : bytes) (d : BlockDetails) : Prop :=
  D h = Ok d /\ bd_number d <> InvalidBlockNumber.

Record treeOk (g : bytes) (D : bytes -> hres BlockDetails) : Prop := mkTreeOk {
  tr_genesis : exists d, stored D g d /\ bd_number d = 0;
  tr_number h d : stored D h d -> 0 <= bd_number d < InvalidBlockNumber;
  tr_nonzero h d : stored D h d -> nonzero h = true;
  tr_parent h d : stored D h d -> h <> g -> exists pd, stored D (bd_parent d) pd /\ bd_number d = bd_number pd + 1
}.

Definition parentOf (D : bytes -> hres BlockDetails) (h : bytes) : bytes := match D h with Ok d => bd_parent d | Throw _ => [] end.

(** The ancestor [n] generations up, and the blocks before it from [h] on *)
Fixpoint anc (D : bytes -> hres BlockDetails) (n : nat) (h : bytes) : bytes :=
  match n with O => h | S n' => anc D n' (parentOf D h) end.
Fixpoint upTo (D : bytes -> hres BlockDetails) (n : nat) (h : bytes) : list bytes :=
  match n with O => [] | S n' => h :: upTo D n' (parentOf D h) end.

Lemma length_upTo D n h : length (upTo D n h) = n.
Proof. revert h. induction n as [|n IH]; intros h; [done|]. cbn. by rewrite IH. Qed.
Lemma anc_add D n m h : anc D (n + m) h = anc D m (anc D n h).
Proof. revert h. induction n as [|n IH]; intros h; [done|]. apply IH. Qed.
Lemma upTo_add D n m h : upTo D (n + m) h = upTo D n h ++ upTo D m (anc D n h).
Proof. revert h. induction n as [|n IH]; intros h; [done|]. cbn. by rewrite IH. Qed.
Lemma upTo_lookup D n h i : (i < n)%nat -> upTo D n h !! i = Some (anc D i h).
Proof. revert h i. induction n as [|n IH]; intros h [|i] Hi; [lia..|done|]. apply (IH (parentOf D h)). lia. Qed.
Lemma elem_of_upTo D n h x : x ∈ upTo D n h <-> exists i, (i < n)%nat /\ x = anc D i h.
Proof.
  split.
  - intros [i Hi]%list_elem_of_lookup. pose proof (lookup_lt_Some _ _ _ Hi) as Hl. rewrite length_upTo in Hl.
    rewrite upTo_lookup in Hi by done. exists i. by simplify_eq.
  - intros (i & Hi & ->). apply list_elem_of_lookup. exists i. by apply upTo_lookup.
Qed.

Lemma stored_fun D h d d' : stored D h d -> stored D h d' -> d = d'.
Proof. intros [E _] [E' _]. congruence. Qed.
Lemma stored_parent D h d : stored D h d -> parentOf D h = bd_parent d.
Proof. intros [E _]. unfold parentOf. by rewrite E. Qed.

Section Tree.
Context (g : bytes) (D : bytes -> hres BlockDetails) (Htree : treeOk g D).

Lemma stored_genesis h d : stored D h d -> bd_number d = 0 -> h = g.
Proof.
  intros Hd Hn. destruct (decide (h = g)) as [|Hne]; [done|].
  destruct (tr_parent _ _ Htree h d Hd Hne) as (pd & Hp & E). pose proof (tr_number _ _ Htree _ _ Hp). lia.
Qed.

Lemma stored_up h d : stored D h d -> 0 < bd_number d ->
  exists pd, stored D (parentOf D h) pd /\ bd_number pd = bd_number d - 1.
Proof.
  intros Hd Hn. rewrite (stored_parent _ _ _ Hd). destruct (tr_parent _ _ Htree h d Hd) as (pd & Hp & E).
  - intros ->. destruct (tr_genesis _ _ Htree) as (d0 & H0 & E0). rewrite (stored_fun _ _ _ _ Hd H0) in Hn. lia.
  - exists pd. split; [done|]. lia.
Qed.

Lemma stored_anc n h d : stored D h d -> Z.of_nat n <= bd_number d ->
  exists a, stored D (anc D n h) a /\ bd_number a = bd_number d - Z.of_nat n.
Proof.
  revert h d. induction n as [|n IH]; intros h d Hd Hn; [exists d; split; [done|lia]|].
  destruct (stored_up h d Hd ltac:(lia)) as (pd & Hp & E). destruct (IH _ _ Hp ltac:(lia)) as (a & Ha & Ea).
  exists a. split; [done|]. lia.
Qed.

(** Ancestors of one block at different distances differ. *)
Lemma anc_inj n m h d : stored D h d -> Z.of_nat n <= bd_number d -> Z.of_nat m <= bd_number d -> anc D n h = anc D m h -> n = m.
Proof.
  intros Hd Hn Hm E. destruct (stored_anc n h d Hd Hn) as (a & Ha & Ea). destruct (stored_anc m h d Hd Hm) as (b & Hb & Eb).
  rewrite E in Ha. rewrite (stored_fun _ _ _ _ Ha Hb) in Ea. lia.
Qed.

Lemma NoDup_upTo n h d : stored D h d -> Z.of_nat n <= bd_number d + 1 -> NoDup (upTo D n h).
Proof.
  intros Hd Hn. apply NoDup_alt. intros i j x Hi Hj.
  pose proof (lookup_lt_Some _ _ _ Hi) as Li. pose proof (lookup_lt_Some _ _ _ Hj) as Lj. rewrite length_upTo in Li, Lj.
  rewrite upTo_lookup in Hi, Hj by done. apply (anc_inj i j h d Hd); [lia..|congruence].
Qed.

(** ** The loops *)

Lemma climb_reads n push h d acc c : (forall h, detailsOf c h = D h) -> stored D h d -> Z.of_nat n <= bd_number d ->
  reads (climb n push h acc) c (Ok (anc D n h, if push then acc ++ upTo D n h else acc)).
Proof.
  revert h d acc c. induction n as [|n IH]; intros h d acc c Edb Hd Hn; cbn [climb anc upTo].
  { rewrite app_nil_r. destruct push; apply reads_ret. }
  pose proof (getDetails_reads h c) as Hr. rewrite Edb, (proj1 Hd) in Hr. eapply reads_bind; [exact Hr|].
  intros c' Hcc. rewrite <-(stored_parent _ _ _ Hd). destruct (stored_up h d Hd ltac:(lia)) as (pd & Hp & E).
  specialize (IH (parentOf D h) pd (if push then acc ++ [h] else acc) c').
  replace (if push then acc ++ h :: upTo D n (parentOf D h) else acc)
    with (if push then (if push then acc ++ [h] else acc) ++ upTo D n (parentOf D h) else (if push then acc ++ [h] else acc))
    by (destruct push; [by rewrite <-app_assoc|done]).
  apply IH; [intros h'; by rewrite (cp_details _ _ _ Hcc)|done|lia].
Qed.

(** Two blocks of one number meet at their latest common ancestor. *)
Definition meetsAt (j : nat) (from to : bytes) : Prop :=
  anc D j from = anc D j to /\ forall i, (i < j)%nat -> anc D i from <> anc D i to.

Lemma meet_reads fuel common pre post from to df dt ret back c : (forall h, detailsOf c h = D h) ->
  stored D from df -> stored D to dt -> bd_number df = bd_number dt -> bd_number df < Z.of_nat fuel ->
  exists j, Z.of_nat j <= bd_number df /\ meetsAt j from to /\
    reads (meet fuel common pre post from to ret back) c
      (Ok (anc D j from,
           ret ++ (if pre then upTo D j from ++ (if common then [anc D j from] else []) else []),
           back ++ (if post then upTo D j to ++ (if negb pre && common then [anc D j from] else []) else []))).
Proof.
  revert from to df dt ret back c. induction fuel as [|fuel IH]; intros from to df dt ret back c Edb Hf Ht En Hfuel.
  { pose proof (tr_number _ _ Htree _ _ Hf). lia. }
  cbn [meet]. destruct (decide (from = to)) as [->|Hne].
  - exists 0%nat. split; [pose proof (tr_number _ _ Htree _ _ Hf); lia|]. split; [split; [done|lia]|].
    rewrite !bool_decide_true by done. cbn [negb orb anc upTo].
    replace (if pre && common then ret ++ [to] else ret) with (ret ++ (if pre then [] ++ (if common then [to] else []) else []))
      by (destruct pre, common; cbn; by rewrite ?app_nil_r).
    replace (if post && (negb pre && common) then back ++ [to] else back)
      with (back ++ (if post then [] ++ (if negb pre && common then [to] else []) else []))
      by (destruct post, pre, common; cbn; by rewrite ?app_nil_r).
    apply reads_ret.
  - assert (Hpos : 0 < bd_number df).
    { pose proof (tr_number _ _ Htree _ _ Hf). destruct (decide (bd_number df = 0)) as [E|]; [|lia]. exfalso. apply Hne.
      rewrite (stored_genesis _ _ Hf E), (stored_genesis _ _ Ht ltac:(congruence)). done. }
    destruct (stored_up _ _ Hf Hpos) as (pf & Hpf & Epf). destruct (stored_up _ _ Ht ltac:(lia)) as (pt & Hpt & Ept).
    rewrite !bool_decide_false by done. cbn [negb orb].
    set (ret1 := if pre && true then ret ++ [from] else ret). set (back1 := if post && true then back ++ [to] else back).
    rewrite (tr_nonzero _ _ Htree _ _ Hf), (tr_nonzero _ _ Htree _ _ Ht).
    destruct (IH (parentOf D from) (parentOf D to) pf pt ret1 back1 c Edb Hpf Hpt ltac:(lia) ltac:(lia)) as (j & Hj & [Em Hl] & _).
    exists (S j). split; [lia|]. split.
    { split; [done|]. intros [|i] Hi; [done|]. apply Hl. lia. }
    eapply reads_bind; [apply reads_ret|]. intros c1 H1. eapply reads_bind; [apply reads_ret|]. intros c2 H2.
    assert (H02 : copies c c2) by (by etrans).
    pose proof (getDetails_reads from c2) as Hr. rewrite (cp_details _ _ _ H02), Edb, (proj1 Hf) in Hr.
    eapply reads_bind; [exact Hr|]. intros c3 H3. assert (H03 : copies c c3) by (by etrans).
    pose proof (getDetails_reads to c3) as Hr'. rewrite (cp_details _ _ _ H03), Edb, (proj1 Ht) in Hr'.
    eapply reads_bind; [exact Hr'|]. intros c4 H4. assert (H04 : copies c c4) by (by etrans).
    rewrite <-(stored_parent _ _ _ Hf), <-(stored_parent _ _ _ Ht).
    destruct (IH (parentOf D from) (parentOf D to) pf pt ret1 back1 c4
                ltac:(intros h'; by rewrite (cp_details _ _ _ H04)) Hpf Hpt ltac:(lia) ltac:(lia)) as (j' & Hj' & [Em' Hl'] & Hr'').
    assert (j' = j) as ->.
    { destruct (Nat.lt_trichotomy j j') as [Hlt|[->|Hlt]]; [by destruct (Hl' j Hlt)|done|by destruct (Hl j' Hlt)]. }
    cbn [anc upTo]. unfold ret1, back1 in Hr''.
    replace (ret ++ (if pre then (from :: upTo D j (parentOf D from)) ++ (if common then [anc D j (parentOf D from)] else []) else []))
      with ((if pre && true then ret ++ [from] else ret) ++
            (if pre then upTo D j (parentOf D from) ++ (if common then [anc D j (parentOf D from)] else []) else []))
      by (destruct pre; cbn; by rewrite ?app_nil_r, <-?app_assoc).
    replace (back ++ (if post then (to :: upTo D j (parentOf D to)) ++ (if negb pre && common then [anc D j (parentOf D from)] else []) else []))
      with ((if post && true then back ++ [to] else back) ++
            (if post then upTo D j (parentOf D to) ++ (if negb pre && common then [anc D j (parentOf D from)] else []) else []))
      by (destruct post; cbn; by rewrite ?app_nil_r, <-?app_assoc).
    exact Hr''.
Qed.
End Tree.

(** ** The route *)

(** The blocks up to the common ancestor, and those down from it, in the order of the climb *)
Definition routePre (D : bytes -> hres BlockDetails) (common pre : bool) (i : nat) (from : bytes) : list bytes :=
  if pre then upTo D i from ++ (if common then [anc D i from] else []) else [].
Definition routePost (D : bytes -> hres BlockDetails) (common pre post : bool) (j : nat) (to : bytes) : list bytes :=
  if post then upTo D j to ++ (if negb pre && common then [anc D j to] else []) else [].
Definition routeIndex (common : bool) (ret back : list bytes) : Z :=
  sizeZ ret - (if common && bool_decide (ret <> []) && bool_decide (back <> []) then 1 else 0).

Lemma routeIndex_fits common ret back : sizeZ ret < 2 ^ 32 -> fits 32 (routeIndex common ret back).
Proof.
  intros Hr. unfold fits, routeIndex. pose proof (sizeZ_nonneg ret). destruct ret as [|x ret].
  - rewrite (bool_decide_false ([] <> [])), andb_false_r by (by intros []). cbn [andb]. lia.
  - rewrite sizeZ_cons in *. pose proof (sizeZ_nonneg ret). destruct (_ && _ && _); lia.
Qed.

(** The latest common ancestor is [i] generations above [from] and [j] above [to]. *)
Definition latestCommon (D : bytes -> hres BlockDetails) (i j : nat) (from : bytes) (df : BlockDetails) (to : bytes) (dt : BlockDetails) : Prop :=
  anc D i from = anc D j to /\ Z.of_nat i <= bd_number df /\ Z.of_nat j <= bd_number dt /\
  forall a b, Z.of_nat a <= bd_number df -> Z.of_nat b <= bd_number dt -> anc D a from = anc D b to -> (i <= a /\ j <= b)%nat.

Lemma latestCommon_meets g D from to df dt j : treeOk g D -> stored D from df -> stored D to dt ->
  let n := Z.to_nat (bd_number df - bd_number dt) in
  let m := Z.to_nat (bd_number dt - bd_number df) in
  Z.of_nat j <= Z.min (bd_number df) (bd_number dt) -> meetsAt D j (anc D n from) (anc D m to) ->
  latestCommon D (n + j) (m + j) from df to dt.
Proof.
  intros Ht Hf Hto n m Hj [Em Hl]. pose proof (tr_number _ _ Ht _ _ Hf). pose proof (tr_number _ _ Ht _ _ Hto).
  split; [by rewrite !anc_add|]. split; [lia|]. split; [lia|]. intros a b Ha Hb E.
  destruct (stored_anc g D Ht a from df Hf Ha) as (x & Hx & Ex). destruct (stored_anc g D Ht b to dt Hto Hb) as (y & Hy & Ey).
  rewrite E in Hx. rewrite (stored_fun _ _ _ _ Hx Hy) in Ex.
  destruct (decide (a - n < j)%nat) as [Hlt|]; [|lia]. exfalso. apply (Hl (a - n)%nat Hlt). rewrite <-!anc_add.
  replace (n + (a - n))%nat with a by lia. replace (m + (a - n))%nat with b by lia. done.
Qed.

Lemma treeRoute_reads g c from to df dt common pre post :
  treeOk g (detailsOf c) -> stored (detailsOf c) from df -> stored (detailsOf c) to dt ->
  exists i j, latestCommon (detailsOf c) i j from df to dt /\
    reads (treeRoute from to common pre post) c
      (let ret := routePre (detailsOf c) common pre i from in
       let back := routePost (detailsOf c) common pre post j to in
       Ok (ret ++ reverse back, anc (detailsOf c) i from, routeIndex common ret back)).
Proof.
  set (D := detailsOf c). intros Ht Hf Hto. unfold treeRoute.
  rewrite (tr_nonzero _ _ Ht _ _ Hf), (tr_nonzero _ _ Ht _ _ Hto). cbn [negb orb].
  pose proof (tr_number _ _ Ht _ _ Hf). pose proof (tr_number _ _ Ht _ _ Hto).
  set (n := Z.to_nat (bd_number df - bd_number dt)). set (m := Z.to_nat (bd_number dt - bd_number df)).
  destruct (stored_anc g D Ht n from df Hf ltac:(lia)) as (df' & Hf' & Ef).
  destruct (stored_anc g D Ht m to dt Hto ltac:(lia)) as (dt' & Ht' & Et).
  destruct (meet_reads g D Ht (S (Z.to_nat (Z.min (bd_number df) (bd_number dt)))) common pre post (anc D n from) (anc D m to)
              df' dt' [] [] c (fun h => eq_refl) Hf' Ht' ltac:(lia) ltac:(lia)) as (j & Hj & Hm & _).
  exists (n + j)%nat, (m + j)%nat. split; [apply (latestCommon_meets g); [done..|lia|done]|].
  eapply reads_bind; [apply getNumber_reads, Hf|]. intros c1 H1.
  eapply reads_bind; [apply getNumber_reads; rewrite (cp_details _ _ _ H1); apply Hto|]. intros c2 H2.
  assert (H02 : copies c c2) by (by etrans).
  eapply reads_bind; [by apply (climb_reads g D Ht n pre from df [] c2); [intros; apply (cp_details _ _ _ H02)| |lia]|].
  intros c3 H3. assert (H03 : copies c c3) by (by etrans).
  eapply reads_bind; [by apply (climb_reads g D Ht m post to dt [] c3); [intros; apply (cp_details _ _ _ H03)| |lia]|].
  intros c4 H4. assert (H04 : copies c c4) by (by etrans). cbn beta iota. rewrite !app_nil_l.
  destruct (meet_reads g D Ht (S (Z.to_nat (Z.min (bd_number df) (bd_number dt)))) common pre post (anc D n from) (anc D m to) df' dt'
              (if pre then upTo D n from else []) (if post then upTo D m to else []) c4 (fun h => cp_details _ _ h H04)
              Hf' Ht' ltac:(lia) ltac:(lia)) as (j' & Hj' & Hm' & Hr).
  assert (j' = j) as ->.
  { destruct Hm as [Em Hl], Hm' as [Em' Hl'].
    destruct (Nat.lt_trichotomy j j') as [Hlt|[->|Hlt]]; [by destruct (Hl' j Hlt)|done|by destruct (Hl j' Hlt)]. }
  eapply reads_bind; [exact Hr|]. intros c5 H5. cbn beta iota zeta.
  replace ((if pre then upTo D n from else []) ++ (if pre then upTo D j (anc D n from) ++ (if common then [anc D j (anc D n from)] else []) else []))
    with (routePre D common pre (n + j) from)
    by (unfold routePre; destruct pre; [by rewrite upTo_add, anc_add, <-app_assoc|done]).
  replace ((if post then upTo D m to else []) ++ (if post then upTo D j (anc D m to) ++ (if negb pre && common then [anc D j (anc D n from)] else []) else []))
    with (routePost D common pre post (m + j) to)
    by (unfold routePost; destruct post; [rewrite upTo_add, anc_add, <-app_assoc, (proj1 Hm); done|done]).
  rewrite <-anc_add. fold (routeIndex common (routePre D common pre (n + j) from) (routePost D common pre post (m + j) to)).
  rewrite wrap_id; [apply reads_ret|]. apply routeIndex_fits. unfold routePre, InvalidBlockNumber in *.
  destruct pre; [|done]. unfold sizeZ. rewrite length_app, length_upTo. destruct common; cbn [length]; lia.
Qed.

(** C28: The route between two blocks of a tree ends always, at their latest common ancestor: it
    lists, as the flags ask, the blocks from the first one up to the ancestor and from the
    ancestor down to the second, and gives the index of the ancestor, which is too large by one
    when nothing follows it.  The databases are not changed. *)
Theorem treeRoute_correct g c from to df dt common pre post :
  treeOk g (detailsOf c) -> stored (detailsOf c) from df -> stored (detailsOf c) to dt ->
  exists i j c', latestCommon (detailsOf c) i j from df to dt /\ copies c c' /\
    treeRoute from to common pre post c =
      (let ret := routePre (detailsOf c) common pre i from in
       let back := routePost (detailsOf c) common pre post j to in
       Ok (ret ++ reverse back, anc (detailsOf c) i from, routeIndex common ret back), c').
Proof.
  intros Ht Hf Hto. destruct (treeRoute_reads g c from to df dt common pre post Ht Hf Hto) as (i & j & Hl & c' & E & Hcc).
  by exists i, j, c'.
Qed.

(** ** An example: 1a and 1b on the genesis, 2a on 1a *)

Definition exHashOf (k : Z) : bytes := replicate 32 k.
Definition exTree : list (bytes * BlockDetails) :=
  [(exHashOf 1, mkDetails 0 10 (zeroHash 32) [exHashOf 2; exHashOf 4]);
   (exHashOf 2, mkDetails 1 20 (exHashOf 1) [exHashOf 3]);
   (exHashOf 3, mkDetails 2 30 (exHashOf 2) []);
   (exHashOf 4, mkDetails 1 25 (exHashOf 1) [])].
Definition treeDB (l : list (bytes * BlockDetails)) : gmap bytes bytes :=
  list_to_map ((fun e => (toSlice e.1 0, match details_rlp e.2 with Ok d => d | Throw _ => [] end)) <$> l).
Definition exTreeChain : BlockChain :=
  mkChain ∅ (treeDB exTree) ∅ ∅ ∅ ∅ ∅ ∅ ∅ (replicate 20 ∅) ∅ [] (exHashOf 3) 2 [] (exHashOf 1) [] newParams.

Lemma treeDB_stored l h d : stored (dbDetails (treeDB l)) h d -> exists d', (h, d') ∈ l.
Proof.
  intros [Hr Hn]. unfold dbDetails, readExtras, db_get, treeDB in Hr. destruct (list_to_map _ !! toSlice h 0) as [v|] eqn:E.
  2: { cbn [default] in Hr. rewrite decide_True in Hr by done. injection Hr as <-. by destruct Hn. }
  apply elem_of_list_to_map_2, list_elem_of_fmap in E as ([h' d'] & E & Hin). simplify_eq/=. exists d'.
  apply app_inj_tail in H as [-> _]. done.
Qed.

Definition exD : bytes -> hres BlockDetails := detailsOf exTreeChain.
Lemma exTree_stored : Forall (fun e => stored exD e.1 e.2) exTree.
Proof. repeat (apply Forall_cons_2; [split; [vm_compute; reflexivity|vm_compute; discriminate]|]). apply Forall_nil_2. Qed.

Lemma exTree_cases h d : stored exD h d -> (h, d) ∈ exTree.
Proof.
  intros Hd. destruct (treeDB_stored _ _ _ Hd) as [d' Hin]. pose proof exTree_stored as Ha. rewrite list.Forall_forall in Ha.
  specialize (Ha _ Hin). cbn in Ha. by rewrite (stored_fun _ _ _ _ Hd Ha).
Qed.

Lemma exTree_ok : treeOk (exHashOf 1) exD.
Proof.
  pose proof exTree_stored as Ha. rewrite list.Forall_forall in Ha.
  assert (Hs : forall h d, (h, d) ∈ exTree -> stored exD h d) by (intros h d Hin; apply (Ha (h, d) Hin)). split.
  - eexists. split; [apply Hs; left|done].
  - intros h d Hd%exTree_cases. unfold InvalidBlockNumber.
    repeat (apply elem_of_cons in Hd as [E|Hd]; [simplify_eq; cbn; lia|]). by apply elem_of_nil in Hd.
  - intros h d Hd%exTree_cases. repeat (apply elem_of_cons in Hd as [E|Hd]; [simplify_eq; done|]). by apply elem_of_nil in Hd.
  - intros h d Hd%exTree_cases Hne.
    repeat (apply elem_of_cons in Hd as [E|Hd];
      [simplify_eq; try done; (eexists; split; [apply Hs; cbn [bd_parent]; unfold exTree; rewrite !elem_of_cons; eauto 6|done])|]).
    by apply elem_of_nil in Hd.
Qed.

Lemma treeRoute_correct_witness :
  exists i j c', latestCommon exD i j (exHashOf 3) (mkDetails 2 30 (exHashOf 2) []) (exHashOf 4) (mkDetails 1 25 (exHashOf 1) []) /\
    copies exTreeChain c' /\ (treeRoute (exHashOf 3) (exHashOf 4) true true true exTreeChain).2 = c'.
Proof.
  destruct (treeRoute_correct (exHashOf 1) exTreeChain (exHashOf 3) (exHashOf 4) (mkDetails 2 30 (exHashOf 2) [])
              (mkDetails 1 25 (exHashOf 1) []) true true true exTree_ok) as (i & j & c' & Hl & Hc & E).
  - split; [vm_compute; reflexivity|vm_compute; discriminate].
  - split; [vm_compute; reflexivity|vm_compute; discriminate].
  - exists i, j, c'. split; [exact Hl|]. split; [exact Hc|]. rewrite E. reflexivity.
Defined.

(** The documentation of [treeRoute] lists the common ancestor although it is not asked for, and gives its index. *)
Example treeRoute_across : (treeRoute (exHashOf 3) (exHashOf 4) true true true exTreeChain).1 =
  Ok ([exHashOf 3; exHashOf 2; exHashOf 1; exHashOf 4], exHashOf 1, 2).
Proof. vm_compute. reflexivity. Qed.
Example treeRoute_up_without_common : (treeRoute (exHashOf 3) (exHashOf 2) false true true exTreeChain).1 =
  Ok ([exHashOf 3], exHashOf 2, 1).
Proof. vm_compute. reflexivity. Qed.
Example treeRoute_up_index : (treeRoute (exHashOf 3) (exHashOf 2) true true true exTreeChain).1 =
  Ok ([exHashOf 3; exHashOf 2], exHashOf 2, 2).
Proof. vm_compute. reflexivity. Qed.
