(* ===== verification/BloomTheory.v ===== *)
(** * The index of blooms

    Level 0 of the index has a bloom for each block, level 1 one for each group of
    sixteen blocks.  [withBlockBloom] finds exactly the blocks whose two blooms contain
    what is searched; adding a block and clearing a range of blocks keep the index
    sound, so that a search misses no block. *)

From Stdlib Require Import ZArith Lia.
From stdpp Require Import base list list_numbers option gmap.
From S2P Require Import Prelude CommonData RLP FixedHash State Transaction TrieCommon TrieDBTheory Executive BlockHeader HeaderTheory Elhash BlockQueue BlockDetails BlockDetailsTheory BlockChain ChainOps ChainDBTheory.

(** ** Containment *)

Lemma contains_trans a b c : contains a b = true -> contains b c = true -> contains a c = true.
Proof.
  unfold contains, eqb. rewrite !bool_decide_eq_true. unfold and_.
  revert b c. induction a as [|x a IH]; intros [|y b] [|z c] H1 H2; simpl in *; try done.
  injection H1 as Ex H1. injection H2 as Ey H2. f_equal; [|by eapply IH].
  apply Z.bits_inj'. intros n Hn. apply (f_equal (fun v => Z.testbit v n)) in Ex, Ey. rewrite Z.land_spec in *.
  destruct (Z.testbit x n), (Z.testbit y n), (Z.testbit z n); done.
Qed.
Lemma contains_refl a : contains a a = true.
Proof. unfold contains, eqb, and_. rewrite bool_decide_eq_true. induction a as [|x a IH]; [done|]. cbn. by rewrite Z.land_diag, IH. Qed.
Lemma contains_or_right a b c : length a = length b -> contains b c = true -> contains (or_ a b) c = true.
Proof. intros Hl Hb. eapply contains_trans; [by apply contains_or_r|done]. Qed.

Lemma contains_fold_or n acc l x : length acc = n -> Forall (fun b => length b = n) l ->
  contains acc x = true \/ (exists b, b ∈ l /\ contains b x = true) -> contains (foldl or_ acc l) x = true.
Proof.
  revert acc. induction l as [|b l IH]; intros acc Ha Hl Hx; cbn [foldl].
  - destruct Hx as [Hx|(b & Hb & _)]; [done|by apply elem_of_nil in Hb].
  - apply Forall_cons_1 in Hl as [Hb Hl]. apply IH; [by rewrite length_or by congruence|done|].
    destruct Hx as [Hx|(b' & [->|Hb']%elem_of_cons & Hx)].
    + left. apply contains_or_l; [done|congruence].
    + left. apply contains_or_right; [congruence|done].
    + right. by exists b'.
Qed.

(** ** Chunks *)

(** Blocks are below this number: their chunks are named without overflow. *)
Definition indexBound : Z := 2 ^ 28.

Lemma ofArith32_inj v w : fits 256 v -> fits 256 w -> ofArith 32 v = ofArith 32 w -> v = w.
Proof.
  intros Hv Hw E. unfold ofArith in E. rewrite !toBigEndian_spec in E. apply (f_equal be_value) in E.
  rewrite !be_value_be_bytes in E. change (256 ^ Z.of_nat 32) with (2 ^ 256) in E. unfold fits in *. by rewrite !Z.mod_small in E.
Qed.

Lemma chunkId_inj l i l' i' : 0 <= l < 2 -> 0 <= l' < 2 -> 0 <= i < 2 ^ 24 -> 0 <= i' < 2 ^ 24 ->
  chunkId l i = chunkId l' i' -> l = l' /\ i = i'.
Proof.
  intros Hl Hl' Hi Hi' E. unfold chunkId in E.
  apply ofArith32_inj in E; [|(unfold fits, wrap; Z.to_euclidean_division_equations; lia)..].
  rewrite !(wrap_id 32) in E by (rewrite ?(wrap_id 32); unfold fits; lia). lia.
Qed.

(** Every chunk can be read and has its sixteen blooms. *)
Definition wfIndex (c : BlockChain) : Prop :=
  forall id, exists bb, bloomsOf c id = Ok bb /\ wfBlocksBlooms bb.

(** The bloom of the block or group [n] of a level *)
Definition bloomOf (c : BlockChain) (l n : Z) : bytes :=
  match bloomsOf c (chunkId l (n / c_bloomIndexSize)) with Ok bb => bloomAt bb (n mod c_bloomIndexSize) | Throw _ => [] end.

Lemma copies_bloom c c' l n : copies c c' -> bloomOf c' l n = bloomOf c l n.
Proof. intros H. unfold bloomOf. by rewrite (cp_blooms _ _ _ H). Qed.
Lemma copies_index c c' : copies c c' -> wfIndex c -> wfIndex c'.
Proof. intros H Hw id. rewrite (cp_blooms _ _ _ H). apply Hw. Qed.

(** ** Searching *)

Lemma reads_cfor {A B} (l : list A) (f : A -> cm B) (g : A -> B) c :
  (forall x c', x ∈ l -> copies c c' -> reads (f x) c' (Ok (g x))) -> reads (cfor l f) c (Ok (map g l)).
Proof.
  revert c. induction l as [|x l IH]; intros c Hf; cbn [cfor map]; [apply reads_ret|].
  eapply reads_bind; [apply Hf; [left|done]|]. intros c1 H1. eapply reads_bind; [|intros; apply reads_ret].
  apply IH. intros y c2 Hy H2. apply Hf; [by right|]. by etrans.
Qed.

Lemma upow_16_0 : upow 16 0 = 1. Proof. reflexivity. Qed.
Lemma upow_16_1 : upow 16 1 = 16. Proof. reflexivity. Qed.
Lemma upow_16_2 : upow 16 2 = 256. Proof. reflexivity. Qed.

(** The offsets that a call of a level looks at *)
Definition offsets (earliest latest course fine index : Z) : list Z :=
  let obegin := if index =? earliest / course then (earliest / fine) mod c_bloomIndexSize else 0 in
  let oend := if index =? latest / course then (latest / fine) mod c_bloomIndexSize + 1 else c_bloomIndexSize in
  seqZ obegin (oend - obegin).

Lemma elem_of_offsets e l course fine i o : 0 <= e -> 0 <= l -> 0 < fine ->
  o ∈ offsets e l course fine i <->
  0 <= o < 16 /\ (i = e / course -> (e / fine) mod 16 <= o) /\ (i = l / course -> o <= (l / fine) mod 16).
Proof.
  intros He Hl Hf. unfold offsets, c_bloomIndexSize. rewrite elem_of_seqZ.
  pose proof (Z.mod_pos_bound (e / fine) 16). pose proof (Z.mod_pos_bound (l / fine) 16).
  destruct (Z.eqb_spec i (e / course)), (Z.eqb_spec i (l / course)); lia.
Qed.

Section Search.
Context (b : bytes) (earliest latest : Z) (He : 0 <= earliest) (Hl : 0 <= latest < indexBound - 512).

Definition level0 (c : BlockChain) (index : Z) : list Z :=
  concat (map (fun o => if contains (bloomOf c 0 (o + index * 16)) b then [o + index * 16] else [])
            (offsets earliest latest 16 1 index)).
Definition level1 (c : BlockChain) (index : Z) : list Z :=
  concat (map (fun o => if contains (bloomOf c 1 (o + index * 16)) b then level0 c (o + index * 16) else [])
            (offsets earliest latest 256 16 index)).

Lemma bloomOf_chunk c l index o bb : 0 <= o < 16 -> bloomsOf c (chunkId l index) = Ok bb -> bloomOf c l (o + index * 16) = bloomAt bb o.
Proof.
  intros Ho E. unfold bloomOf, c_bloomIndexSize. rewrite Z.div_add, Z.mod_add, Z.div_small, Z.mod_small by lia.
  by rewrite Z.add_0_l, E.
Qed.

Lemma level0_reads c index : wfIndex c -> 0 <= index < 2 ^ 24 ->
  reads (withBlockBloom_level b earliest latest 0 index) c (Ok (level0 c index)).
Proof.
  intros Hw Hi. cbn [withBlockBloom_level]. change (upow c_bloomIndexSize (Z.of_nat 0 + 1)) with 16.
  change (upow c_bloomIndexSize (Z.of_nat 0)) with 1. destruct (Hw (chunkId 0 index)) as (bb & Eb & _).
  pose proof (getBlocksBlooms_reads (chunkId (Z.of_nat 0) index) c) as Hr. change (Z.of_nat 0) with 0 in Hr. rewrite Eb in Hr.
  eapply reads_bind; [exact Hr|]. intros c1 H1. eapply reads_bind; [|intros; apply reads_ret].
  apply (reads_cfor (offsets earliest latest 16 1 index)). intros o c2 Ho H2.
  apply elem_of_offsets in Ho as [Ho _]; [|lia..]. rewrite <-(bloomOf_chunk c 0 index o bb) by done.
  destruct (contains _ _); [|apply reads_ret]. unfold c_bloomIndexSize. rewrite wrap_id by (unfold fits; lia). apply reads_ret.
Qed.

Lemma level1_reads c index : wfIndex c -> 0 <= index < 2 ^ 20 ->
  reads (withBlockBloom_level b earliest latest 1 index) c (Ok (level1 c index)).
Proof.
  intros Hw Hi. cbn [withBlockBloom_level]. fold (withBlockBloom_level b earliest latest 0).
  change (upow c_bloomIndexSize (Z.of_nat 1 + 1)) with 256.
  change (upow c_bloomIndexSize (Z.of_nat 1)) with 16. destruct (Hw (chunkId 1 index)) as (bb & Eb & _).
  pose proof (getBlocksBlooms_reads (chunkId (Z.of_nat 1) index) c) as Hr. change (Z.of_nat 1) with 1 in Hr. rewrite Eb in Hr.
  eapply reads_bind; [exact Hr|]. intros c1 H1. eapply reads_bind; [|intros; apply reads_ret].
  apply (reads_cfor (offsets earliest latest 256 16 index)). intros o c2 Ho H2. assert (H02 : copies c c2) by (by etrans).
  apply elem_of_offsets in Ho as [Ho _]; [|lia..]. rewrite <-(bloomOf_chunk c 1 index o bb) by done.
  destruct (contains _ _); [|apply reads_ret]. unfold c_bloomIndexSize. rewrite wrap_id by (unfold fits; lia).
  replace (level0 c (o + index * 16)) with (level0 c2 (o + index * 16)).
  { apply level0_reads; [by eapply copies_index|lia]. }
  unfold level0. f_equal. apply map_ext. intros o'. by rewrite (copies_bloom _ _ _ _ H02).
Qed.

(** The blocks that are looked at: those asked for, and, unless [latest] begins a group of 256, the 256 after its group *)
Definition searched (n : Z) : Prop :=
  earliest <= n <= latest \/ (latest mod 256 <> 0 /\ 256 * (latest / 256 + 1) <= n < 256 * (latest / 256 + 2)).

Lemma elem_of_level0 c index n : n ∈ level0 c index <->
  exists o, o ∈ offsets earliest latest 16 1 index /\ n = o + index * 16 /\ contains (bloomOf c 0 n) b = true.
Proof.
  unfold level0. rewrite list_elem_of_In, in_concat. split.
  - intros (l & (o & <- & Ho)%in_map_iff & Hn). apply list_elem_of_In in Ho.
    destruct (contains _ _) eqn:E; [|done]. destruct Hn as [<-|[]]. by exists o.
  - intros (o & Ho & -> & E). eexists. split; [apply in_map_iff; exists o; split; [done|by apply list_elem_of_In]|].
    rewrite E. by left.
Qed.
Lemma elem_of_level1 c index n : n ∈ level1 c index <->
  exists o, o ∈ offsets earliest latest 256 16 index /\ contains (bloomOf c 1 (o + index * 16)) b = true /\ n ∈ level0 c (o + index * 16).
Proof.
  unfold level1. rewrite list_elem_of_In, in_concat. split.
  - intros (l & (o & <- & Ho)%in_map_iff & Hn). apply list_elem_of_In in Ho.
    destruct (contains _ _) eqn:E; [|done]. apply list_elem_of_In in Hn. by exists o.
  - intros (o & Ho & E & Hn). eexists. split; [apply in_map_iff; exists o; split; [done|by apply list_elem_of_In]|].
    rewrite E. by apply list_elem_of_In.
Qed.

Lemma searched_indices n : earliest <= latest ->
  searched n <-> exists i o1 o0, (earliest / 256 <= i <= ceilDiv latest 256) /\ o1 ∈ offsets earliest latest 256 16 i /\
    o0 ∈ offsets earliest latest 16 1 (o1 + i * 16) /\ n = o0 + (o1 + i * 16) * 16.
Proof.
  intros Hel. assert (Ec : ceilDiv latest 256 = (latest + 255) / 256).
  { unfold ceilDiv. rewrite !(wrap_id 32) by (rewrite ?(wrap_id 32); unfold fits, indexBound in *; lia). f_equal. lia. }
  rewrite Ec. unfold searched. split.
  - intros Hn. exists (n / 256), (n / 16 mod 16), (n mod 16). rewrite !elem_of_offsets by lia.
    assert (E16 : n / 16 mod 16 + n / 256 * 16 = n / 16) by (Z.to_euclidean_division_equations; lia). rewrite E16.
    Z.to_euclidean_division_equations; lia.
  - intros (i & o1 & o0 & Hi & Ho1 & Ho0 & ->). rewrite elem_of_offsets in Ho1, Ho0 by lia.
    Z.to_euclidean_division_equations; lia.
Qed.

End Search.

Lemma withBlockBloom_reads b earliest latest c : wfIndex c -> 0 <= earliest <= latest -> latest < indexBound - 512 ->
  exists l, reads (withBlockBloom b earliest latest) c (Ok l) /\
    forall n, n ∈ l <-> searched earliest latest n /\ contains (bloomOf c 1 (n / 16)) b = true /\ contains (bloomOf c 0 n) b = true.
Proof.
  intros Hw He Hl. exists (concat (map (level1 b earliest latest c) (seqZ (earliest / 256) (ceilDiv latest 256 - earliest / 256 + 1)))).
  split.
  - unfold withBlockBloom. change (upow c_bloomIndexSize c_bloomIndexLevels) with 256.
    change (Z.to_nat (c_bloomIndexLevels - 1)) with 1%nat. eapply reads_bind; [|intros; apply reads_ret].
    apply reads_cfor. intros i c1 Hi H1. apply elem_of_seqZ in Hi.
    replace (level1 b earliest latest c i) with (level1 b earliest latest c1 i).
    + apply level1_reads; [lia|lia|by eapply copies_index|].
      unfold ceilDiv in Hi. rewrite !(wrap_id 32) in Hi by (rewrite ?(wrap_id 32); unfold fits, indexBound in *; lia).
      unfold indexBound in *. Z.to_euclidean_division_equations; lia.
    + unfold level1, level0. f_equal. apply map_ext. intros o. rewrite (copies_bloom _ _ _ _ H1). destruct (contains _ _); [|done].
      f_equal. apply map_ext. intros o'. by rewrite (copies_bloom _ _ _ _ H1).
  - intros n. rewrite searched_indices by lia. rewrite list_elem_of_In, in_concat. split.
    + intros (l & (i & <- & Hi)%in_map_iff & Hn). apply list_elem_of_In in Hi, Hn. apply elem_of_seqZ in Hi.
      apply elem_of_level1 in Hn as (o1 & Ho1 & E1 & (o0 & Ho0 & -> & E0)%elem_of_level0).
      split; [exists i, o1, o0; split; [lia|by split_and!]|]. split; [|done].
      rewrite elem_of_offsets in Ho0 by lia. rewrite Z.div_add, Z.div_small, Z.add_0_l by lia. done.
    + intros ((i & o1 & o0 & Hi & Ho1 & Ho0 & ->) & E1 & E0).
      exists (level1 b earliest latest c i). split; [apply in_map_iff; exists i; split; [done|apply list_elem_of_In, elem_of_seqZ; lia]|].
      apply list_elem_of_In, elem_of_level1. exists o1. split; [done|].
      assert (Ho : 0 <= o0 < 16) by (rewrite elem_of_offsets in Ho0 by lia; lia).
      rewrite Z.div_add, Z.div_small, Z.add_0_l in E1 by lia. split; [done|]. apply elem_of_level0. by exists o0.
Qed.

(** C30: A search in the index finds exactly the blocks whose own bloom and whose group's bloom
    contain what is searched, among the blocks from [earliest] to [latest] and, unless [latest] is
    a multiple of 256, among the 256 that follow the group of [latest], which were not asked for. *)
Theorem withBlockBloom_exact b earliest latest c : wfIndex c -> 0 <= earliest <= latest -> latest < indexBound - 512 ->
  exists l c', withBlockBloom b earliest latest c = (Ok l, c') /\ copies c c' /\
    forall n, n ∈ l <-> searched earliest latest n /\ contains (bloomOf c 1 (n / 16)) b = true /\ contains (bloomOf c 0 n) b = true.
Proof.
  intros Hw He Hl. destruct (withBlockBloom_reads b earliest latest c Hw He Hl) as (l & (c' & E & Hcc) & Hn). by exists l, c'.
Qed.

(** ** Changing the index *)

(** Only the blooms of the index may differ. *)
Definition bloomsOnly (c c' : BlockChain) : Prop := grows c c' /\ (forall h, addressOf c' h = addressOf c h).
#[export] Instance bloomsOnly_preorder : PreOrder bloomsOnly.
Proof. split; [by intros c|]. intros c1 c2 c3 (H1 & H2) (H1' & H2'). split; [by etrans|]. intros h. by rewrite H2'. Qed.
Lemma copies_bloomsOnly c c' : copies c c' -> bloomsOnly c c'.
Proof. by intros (H1 & _ & H2). Qed.

Lemma updateBloom_ok id o f c bb : bloomsOf c id = Ok bb ->
  exists c', updateBloom id o f c = (Ok tt, c') /\ bloomsOnly c c' /\
    forall id', bloomsOf c' id' = if decide (id' = id) then Ok (setBloom o (f (bloomAt bb o)) bb) else bloomsOf c id'.
Proof.
  intros Eb. destruct (getBlocksBlooms_reads id c) as (c1 & E & H1). rewrite Eb in E. unfold updateBloom, mbind, cm_bind. rewrite E.
  eexists. split; [reflexivity|]. split.
  - transitivity c1; [by apply copies_bloomsOnly|]. split; [|done]. apply copy_grows; [done..|by intros []].
  - intros id'. unfold bloomsOf at 1. cbn [set_blocksBlooms c_blocksBlooms c_extrasDB]. destruct (decide (id' = id)) as [->|Hne].
    + by rewrite lookup_insert_eq.
    + rewrite lookup_insert_ne by done. apply (cp_blooms _ _ _ H1).
Qed.

Lemma setBloom_wf o x bb : wfBlocksBlooms bb -> hashOk 256 x -> wfBlocksBlooms (setBloom o x bb).
Proof. intros [Hb Hn] Hx. split; cbn; [by apply list.Forall_insert|by rewrite length_insert]. Qed.
Lemma bloomAt_set bb o x : wfBlocksBlooms bb -> 0 <= o < 16 -> bloomAt (setBloom o x bb) o = x.
Proof.
  intros [_ Hn] Ho. unfold bloomAt, setBloom. cbn [bb_blooms]. rewrite nth_lookup, list_lookup_insert_eq by lia. done.
Qed.
Lemma bloomAt_set_ne bb o o' x : 0 <= o -> 0 <= o' -> o <> o' -> bloomAt (setBloom o x bb) o' = bloomAt bb o'.
Proof. intros Ho Ho' Hne. unfold bloomAt, setBloom. cbn [bb_blooms]. by rewrite !nth_lookup, list_lookup_insert_ne by lia. Qed.
Lemma bloomAt_ok bb o : wfBlocksBlooms bb -> 0 <= o < 16 -> hashOk 256 (bloomAt bb o) /\ bloomAt bb o ∈ bb_blooms bb.
Proof.
  intros [Hb Hn] Ho. unfold bloomAt. rewrite nth_lookup. destruct (bb_blooms bb !! Z.to_nat o) as [x|] eqn:E.
  - cbn. split; [by eapply list.Forall_lookup_1|by eapply list_elem_of_lookup_2].
  - apply lookup_ge_None in E. lia.
Qed.

(** One bloom is replaced. *)
Lemma updateBloom_spec l n f c : wfIndex c -> 0 <= l < 2 -> 0 <= n < indexBound -> hashOk 256 (f (bloomOf c l n)) ->
  exists c', updateBloom (chunkId l (n / c_bloomIndexSize)) (n mod c_bloomIndexSize) f c = (Ok tt, c') /\ bloomsOnly c c' /\ wfIndex c' /\
    bloomOf c' l n = f (bloomOf c l n) /\
    forall l' n', 0 <= l' < 2 -> 0 <= n' < indexBound -> (l', n') <> (l, n) -> bloomOf c' l' n' = bloomOf c l' n'.
Proof.
  intros Hw Hl Hn Hf. unfold indexBound in *. destruct (Hw (chunkId l (n / c_bloomIndexSize))) as (bb & Eb & Hbb).
  destruct (updateBloom_ok (chunkId l (n / c_bloomIndexSize)) (n mod c_bloomIndexSize) f c bb Eb) as (c' & E & Ho & Hv).
  pose proof (Z.mod_pos_bound n 16 ltac:(lia)) as Hm. unfold c_bloomIndexSize in *.
  assert (Ebl : bloomOf c l n = bloomAt bb (n mod 16)) by (unfold bloomOf, c_bloomIndexSize; by rewrite Eb).
  rewrite Ebl in *. exists c'. split; [done|]. split; [done|]. split_and!.
  - intros id. rewrite Hv. destruct (decide _); [|apply Hw]. eexists. split; [done|]. by apply setBloom_wf.
  - unfold bloomOf, c_bloomIndexSize. rewrite Hv, decide_True by done. by apply bloomAt_set.
  - intros l' n' Hl' Hn' Hne. unfold bloomOf, c_bloomIndexSize. rewrite Hv. destruct (decide _) as [Ec|]; [|done].
    apply chunkId_inj in Ec as [-> Ed]; [|(Z.to_euclidean_division_equations; lia)..].
    rewrite Ed, Eb. apply bloomAt_set_ne; [lia|apply Z.mod_pos_bound; lia|]. intros Em. apply Hne. f_equal.
    rewrite (Z.div_mod n 16), (Z.div_mod n' 16) by lia. lia.
Qed.

Lemma hashOk_or n a b : hashOk n a -> hashOk n b -> hashOk n (or_ a b).
Proof.
  intros [Ha Hs] [Hb Hs']. assert (El : length a = length b) by (unfold sizeZ in *; lia).
  split; [|unfold sizeZ in *; by rewrite length_or]. unfold or_. clear Hs Hs'. revert b Hb El.
  induction Ha as [|x a Hx Ha IH]; intros [|y b] Hb El; try done. apply Forall_cons_1 in Hb as [Hy Hb].
  cbn. constructor; [by apply lor_byte|]. apply IH; [done|]. cbn in El. lia.
Qed.
Lemma hashOk_length n a b : hashOk n a -> hashOk n b -> length a = length b.
Proof. intros [_ Ha] [_ Hb]. unfold sizeZ in *. lia. Qed.
Lemma hashOk_zero n : hashOk (Z.of_nat n) (zeroHash n).
Proof. split; [by apply wf_bytes_replicate|]. unfold sizeZ, zeroHash. by rewrite length_replicate. Qed.

Lemma bloomOf_ok c l n : wfIndex c -> hashOk 256 (bloomOf c l n).
Proof.
  intros Hw. unfold bloomOf. destruct (Hw (chunkId l (n / c_bloomIndexSize))) as (bb & -> & Hb).
  apply bloomAt_ok; [done|]. apply Z.mod_pos_bound. done.
Qed.

(** The index knows that block [n] has the blooms [x]. *)
Definition indexed (c : BlockChain) (n : Z) (x : bytes) : Prop :=
  contains (bloomOf c 0 n) x = true /\ contains (bloomOf c 1 (n / 16)) x = true.

Lemma copies_indexed c c' n x : copies c c' -> indexed c n x -> indexed c' n x.
Proof. intros H. unfold indexed. by rewrite !(copies_bloom _ _ _ _ H). Qed.

(** *** Adding a block *)

Lemma addBlooms_spec n x c : wfIndex c -> 0 <= n < indexBound -> hashOk 256 x ->
  exists c', addBlooms (seqZ 0 c_bloomIndexLevels) n x c =
      (Ok [chunkId 0 (n / c_bloomIndexSize); chunkId 1 (n / c_bloomIndexSize / c_bloomIndexSize)], c') /\
    bloomsOnly c c' /\ wfIndex c' /\ indexed c' n x /\
    (forall n' x', 0 <= n' < indexBound -> indexed c n' x' -> indexed c' n' x') /\
    (forall id, id <> chunkId 0 (n / 16) -> id <> chunkId 1 (n / 16 / 16) -> bloomsOf c' id = bloomsOf c id).
Proof.
  intros Hw Hn Hx. change (seqZ 0 c_bloomIndexLevels) with [0; 1]. cbn [addBlooms].
  destruct (updateBloom_spec 0 n (fun b => or_ b x) c Hw ltac:(lia) Hn ltac:(apply hashOk_or; [by apply bloomOf_ok|done]))
    as (c1 & E1 & Ho1 & Hw1 & Hu1 & Hk1).
  assert (Hn1 : 0 <= n / 16 < indexBound) by (unfold indexBound in *; Z.to_euclidean_division_equations; lia).
  destruct (updateBloom_spec 1 (n / 16) (fun b => or_ b x) c1 Hw1 ltac:(lia) Hn1 ltac:(apply hashOk_or; [by apply bloomOf_ok|done]))
    as (c2 & E2 & Ho2 & Hw2 & Hu2 & Hk2).
  assert (Hor : forall c l k y, wfIndex c -> contains (bloomOf c l k) y = true -> contains (or_ (bloomOf c l k) x) y = true).
  { intros. apply contains_or_l; [done|]. apply (hashOk_length 256); [done|by apply bloomOf_ok]. }
  exists c2. split; [unfold mbind, cm_bind, c_bloomIndexSize in *; rewrite E1, E2; reflexivity|].
  split; [by etrans|]. split; [done|]. split; [split|split].
  - rewrite (Hk2 0 n) by (first [lia|congruence|(intros [= ]; lia)]). rewrite Hu1. apply contains_or_r, (hashOk_length 256); [by apply bloomOf_ok|done].
  - rewrite Hu2. apply contains_or_r, (hashOk_length 256); [by apply bloomOf_ok|done].
  - intros n' x' Hn' [H0 H1]. assert (Hn1' : 0 <= n' / 16 < indexBound) by (unfold indexBound in *; Z.to_euclidean_division_equations; lia).
    split.
    + rewrite (Hk2 0 n') by (first [lia|congruence|(intros [= ]; lia)]). destruct (decide (n' = n)) as [->|]; [rewrite Hu1; by apply Hor|].
      by rewrite (Hk1 0 n') by (first [lia|congruence|(intros [= ]; lia)]).
    + assert (H1' : contains (bloomOf c1 1 (n' / 16)) x' = true) by (by rewrite (Hk1 1 (n' / 16)) by (first [lia|congruence|(intros [= ]; lia)])).
      destruct (decide (n' / 16 = n / 16)) as [En|]; [rewrite En in *; rewrite Hu2; by apply Hor|]. by rewrite (Hk2 1 (n' / 16)) by (first [lia|congruence|(intros [= ]; lia)]).
  - intros id H0 H1. destruct (Hw (chunkId 0 (n / 16))) as (bb & Eb & _). destruct (Hw1 (chunkId 1 (n / 16 / 16))) as (bb1 & Eb1 & _).
    destruct (updateBloom_ok (chunkId 0 (n / 16)) (n mod 16) (fun b => or_ b x) c bb Eb) as (c1' & E1' & _ & Hv1).
    destruct (updateBloom_ok (chunkId 1 (n / 16 / 16)) (n / 16 mod 16) (fun b => or_ b x) c1 bb1 Eb1) as (c2' & E2' & _ & Hv2).
    unfold c_bloomIndexSize in *. rewrite E1 in E1'. rewrite E2 in E2'. simplify_eq. rewrite Hv2, decide_False, Hv1, decide_False by done. done.
Qed.

(** *** Clearing a range *)

Lemma clear_level0 items c : wfIndex c -> Forall (fun n => 0 <= n < indexBound) items ->
  exists c' r, cfor items (clearOne 0) c = (Ok r, c') /\ bloomsOnly c c' /\ wfIndex c' /\
    forall l n, 0 <= l < 2 -> 0 <= n < indexBound -> l <> 0 \/ n ∉ items -> bloomOf c' l n = bloomOf c l n.
Proof.
  revert c. induction items as [|i items IH]; intros c Hw Hi; [by exists c, []|]. apply Forall_cons_1 in Hi as [Hi His].
  destruct (updateBloom_spec 0 i (fun _ => zeroHash 256) c Hw ltac:(lia) Hi (hashOk_zero 256)) as (c1 & E1 & Ho1 & Hw1 & _ & Hk1).
  destruct (IH c1 Hw1 His) as (c2 & r & E2 & Ho2 & Hw2 & Hk2). exists c2, (tt :: r). split.
  - assert (E1' : clearOne 0 i c = (Ok tt, c1)) by exact E1. cbn [cfor]. unfold mbind, cm_bind. by rewrite E1', E2.
  - split; [by etrans|]. split; [done|]. intros l n Hl Hn Hni. rewrite Hk2, Hk1; [done|lia|lia| |lia|lia|].
    + intros [= -> ->]. destruct Hni as [|Hni]; [done|]. apply Hni. left.
    + destruct Hni as [|Hni]; [by left|right]. intros Hin. apply Hni. by right.
Qed.

(** The bloom of a group contains the blooms of its blocks. *)
Definition covers (c : BlockChain) (k : Z) : Prop :=
  forall n, n / 16 = k -> contains (bloomOf c 1 k) (bloomOf c 0 n) = true.

Lemma clearOne_level1 k c : wfIndex c -> 0 <= k < 2 ^ 24 ->
  exists c', clearOne 1 k c = (Ok tt, c') /\ bloomsOnly c c' /\ wfIndex c' /\ covers c' k /\
    (forall n, 0 <= n < indexBound -> bloomOf c' 0 n = bloomOf c 0 n) /\
    (forall k', 0 <= k' < 2 ^ 24 -> k' <> k -> bloomOf c' 1 k' = bloomOf c 1 k').
Proof.
  intros Hw Hk. destruct (Hw (chunkId 0 k)) as (bb & Eb & Hb). set (acc := foldl or_ (zeroHash 256) (bb_blooms bb)).
  assert (Hacc : hashOk 256 acc).
  { destruct Hb as [Hb _]. unfold acc. generalize (hashOk_zero 256). generalize (zeroHash 256). revert Hb.
    induction (bb_blooms bb) as [|x l IH]; intros Hl z Hz; [done|]. apply Forall_cons_1 in Hl as [Hx Hl]. cbn [foldl].
    apply IH; [done|]. by apply hashOk_or. }
  destruct (getBlocksBlooms_reads (chunkId 0 k) c) as (c1 & E1 & H1). rewrite Eb in E1.
  destruct (updateBloom_spec 1 k (fun _ => acc) c1 (copies_index _ _ H1 Hw) ltac:(lia) ltac:(unfold indexBound; lia) Hacc)
    as (c2 & E2 & Ho2 & Hw2 & Hu2 & Hk2).
  exists c2. split.
  { unfold clearOne, mbind, cm_bind. replace (1 - 1) with 0 by lia. cbn [Z.eqb negb]. rewrite E1. exact E2. }
  split; [etrans; [by apply copies_bloomsOnly|done]|]. split; [done|].
  assert (H0 : forall n, 0 <= n < indexBound -> bloomOf c2 0 n = bloomOf c 0 n).
  { intros n Hn. rewrite Hk2 by (first [lia|congruence|(intros [= ]; lia)]). by apply copies_bloom. }
  split_and!; [|done|].
  - intros n Hnk. rewrite Hu2, H0 by (unfold indexBound; Z.to_euclidean_division_equations; lia).
    destruct Hb as [Hb Hlen]. apply (contains_fold_or 256); [done|eapply Forall_impl; [exact Hb|]; intros x [_ Hx]; unfold sizeZ in Hx; lia|].
    right. exists (bloomOf c 0 n). split; [|apply contains_refl]. unfold bloomOf, c_bloomIndexSize. rewrite Hnk, Eb.
    apply bloomAt_ok; [done|]. apply Z.mod_pos_bound. lia.
  - intros k' Hk' Hne. rewrite Hk2 by (unfold indexBound; lia || congruence). by apply copies_bloom.
Qed.

Lemma clear_level1 items c : wfIndex c -> Forall (fun k => 0 <= k < 2 ^ 24) items ->
  exists c' r, cfor items (clearOne 1) c = (Ok r, c') /\ bloomsOnly c c' /\ wfIndex c' /\
    (forall n, 0 <= n < indexBound -> bloomOf c' 0 n = bloomOf c 0 n) /\
    (forall k, 0 <= k < 2 ^ 24 -> k ∈ items -> covers c' k) /\
    (forall k, 0 <= k < 2 ^ 24 -> k ∉ items -> bloomOf c' 1 k = bloomOf c 1 k).
Proof.
  revert c. induction items as [|i items IH]; intros c Hw Hi; [exists c, []; split_and!; try done; by intros k _ Hk%elem_of_nil|].
  apply Forall_cons_1 in Hi as [Hi His]. destruct (clearOne_level1 i c Hw Hi) as (c1 & E1 & Ho1 & Hw1 & Hc1 & H01 & Hk1).
  destruct (IH c1 Hw1 His) as (c2 & r & E2 & Ho2 & Hw2 & H02 & Hc2 & Hk2). exists c2, (tt :: r).
  split; [cbn [cfor]; unfold mbind, cm_bind; by rewrite E1, E2|]. split; [by etrans|]. split; [done|]. split_and!.
  - intros n Hn. by rewrite H02, H01.
  - intros k Hk Hin. destruct (decide (k ∈ items)) as [|Hni]; [by apply Hc2|]. apply elem_of_cons in Hin as [->|]; [|done].
    intros n Hnk. rewrite Hk2, H02 by (done || (unfold indexBound; Z.to_euclidean_division_equations; lia)). by apply Hc1.
  - intros k Hk [Hne Hni]%not_elem_of_cons. by rewrite Hk2, Hk1.
Qed.

Lemma elem_of_itemsBetween b e n : 0 <= b <= e -> e < 2 ^ 32 -> n ∈ itemsBetween b e <-> b <= n < e.
Proof.
  intros Hb He. unfold itemsBetween. rewrite (wrap_id 32 (e - b)) by (unfold fits; lia). rewrite list_elem_of_fmap. split.
  - intros (i & -> & Hi%elem_of_seqZ). rewrite wrap_id by (unfold fits; lia). lia.
  - intros Hn. exists n. rewrite wrap_id by (unfold fits; lia). split; [done|]. apply elem_of_seqZ. lia.
Qed.

Lemma clearBlockBlooms_spec b e c : wfIndex c -> 1 <= b <= e -> e < indexBound ->
  exists c', clearBlockBlooms b e c = (Ok tt, c') /\ bloomsOnly c c' /\ wfIndex c' /\
    forall n x, 0 <= n < indexBound -> ~ b <= n < e -> indexed c n x -> indexed c' n x.
Proof.
  intros Hw Hb He. unfold clearBlockBlooms. change (seqZ 0 c_bloomIndexLevels) with [0; 1]. cbn [clear_levels].
  assert (He32 : e < 2 ^ 32) by (unfold indexBound in *; lia).
  assert (Ee : u32 (u32 (e - 1) / c_bloomIndexSize + 1) = (e - 1) / 16 + 1).
  { unfold c_bloomIndexSize. rewrite (wrap_id 32 (e - 1)) by (unfold fits; lia). rewrite wrap_id; [done|].
    pose proof (Z.div_pos (e - 1) 16 ltac:(lia) ltac:(lia)). pose proof (Z.div_le_upper_bound (e - 1) 16 e ltac:(lia) ltac:(lia)).
    unfold fits, indexBound in *. lia. }
  rewrite Ee. unfold c_bloomIndexSize. set (e1 := (e - 1) / 16 + 1).
  assert (Hb1 : 0 <= b / 16 <= e1 /\ e1 <= 2 ^ 24) by (unfold e1, indexBound in *; Z.to_euclidean_division_equations; lia).
  destruct (clear_level0 (itemsBetween b e) c Hw) as (c1 & r1 & E1 & Ho1 & Hw1 & Hk1).
  { apply list.Forall_forall. intros n Hn%elem_of_itemsBetween; lia. }
  destruct (clear_level1 (itemsBetween (b / 16) e1) c1 Hw1) as (c2 & r2 & E2 & Ho2 & Hw2 & H02 & Hc2 & Hk2).
  { apply list.Forall_forall. intros n Hn%elem_of_itemsBetween; lia. }
  exists c2. split; [unfold mbind, cm_bind; rewrite E1, E2; reflexivity|]. split; [by etrans|]. split; [done|].
  intros n x Hn Hout [H0 H1].
  assert (Hn1 : 0 <= n / 16 < 2 ^ 24) by (unfold indexBound in *; Z.to_euclidean_division_equations; lia).
  assert (H0' : contains (bloomOf c2 0 n) x = true).
  { rewrite H02, Hk1 by (lia || (right; rewrite elem_of_itemsBetween by lia; lia)). done. }
  split; [done|]. destruct (decide (n / 16 ∈ itemsBetween (b / 16) e1)) as [Hin|Hni].
  - eapply contains_trans; [by apply (Hc2 (n / 16))|done].
  - rewrite Hk2, Hk1 by (done || lia || (left; lia) || (unfold indexBound; lia)). done.
Qed.

(** C31: The index of blooms misses no block: after a block has been added, it is indexed with its
    blooms and every other block still is; clearing a range of blocks keeps the blocks outside of
    the range indexed; and a search over a range that has an indexed block finds the block if its
    blooms contain what is searched. *)
Theorem bloom_index_complete c n x : wfIndex c -> 0 <= n < indexBound -> hashOk 256 x ->
  (exists ids c', addBlooms (seqZ 0 c_bloomIndexLevels) n x c = (Ok ids, c') /\ wfIndex c' /\ indexed c' n x /\
     forall n' x', 0 <= n' < indexBound -> indexed c n' x' -> indexed c' n' x') /\
  (forall b e, 1 <= b <= e -> e < indexBound -> exists c', clearBlockBlooms b e c = (Ok tt, c') /\ wfIndex c' /\
     forall n' x', 0 <= n' < indexBound -> ~ b <= n' < e -> indexed c n' x' -> indexed c' n' x') /\
  (forall q earliest latest, indexed c n x -> contains x q = true -> 0 <= earliest <= n -> n <= latest < indexBound - 512 ->
     exists r c', withBlockBloom q earliest latest c = (Ok r, c') /\ n ∈ r).
Proof.
  intros Hw Hn Hx. split; [|split].
  - destruct (addBlooms_spec n x c Hw Hn Hx) as (c' & E & _ & Hw' & Hi & Hk & _). by eexists _, c'.
  - intros b e Hb He. destruct (clearBlockBlooms_spec b e c Hw Hb He) as (c' & E & _ & Hw' & Hk). by exists c'.
  - intros q e l [H0 H1] Hq He Hl. destruct (withBlockBloom_reads q e l c Hw ltac:(lia) ltac:(lia)) as (r & (c' & E & _) & Hr).
    exists r, c'. split; [done|]. apply Hr. split; [left; lia|]. split; eapply contains_trans; eauto.
Qed.

(** ** An example *)

Definition exEmptyChain : BlockChain :=
  mkChain ∅ ∅ ∅ ∅ ∅ ∅ ∅ ∅ ∅ (replicate 20 ∅) ∅ [] (replicate 32 7) 0 [] (replicate 32 7) [] newParams.
Lemma NullBlocksBlooms_wf : wfBlocksBlooms NullBlocksBlooms.
Proof. split; [|done]. apply list.Forall_replicate, (hashOk_zero 256). Qed.
Lemma exEmptyChain_index : wfIndex exEmptyChain.
Proof. intros id. exists NullBlocksBlooms. split; [reflexivity|apply NullBlocksBlooms_wf]. Qed.
Definition exBloom : bytes := replicate 256 1.
Lemma exBloom_ok : hashOk 256 exBloom.
Proof. split; [by apply wf_bytes_replicate|done]. Qed.
Definition exIndexChain : BlockChain := (addBlooms (seqZ 0 c_bloomIndexLevels) 300 exBloom exEmptyChain).2.

Lemma withBlockBloom_exact_witness :
  (withBlockBloom exBloom 0 299 exIndexChain).1 = Ok [] /\ (withBlockBloom exBloom 0 20 exIndexChain).1 = Ok [300] /\
  (exists l c', withBlockBloom exBloom 0 20 exEmptyChain = (Ok l, c') /\ copies exEmptyChain c' /\
     forall n, n ∈ l <-> searched 0 20 n /\ contains (bloomOf exEmptyChain 1 (n / 16)) exBloom = true /\
       contains (bloomOf exEmptyChain 0 n) exBloom = true).
Proof.
  split; [vm_compute; reflexivity|]. split; [vm_compute; reflexivity|].
  apply withBlockBloom_exact; [apply exEmptyChain_index|lia|reflexivity].
Defined.

Lemma bloom_index_complete_witness :
  (withBlockBloom exBloom 290 310 exIndexChain).1 = Ok [300] /\
  (exists ids c', addBlooms (seqZ 0 c_bloomIndexLevels) 300 exBloom exEmptyChain = (Ok ids, c') /\ indexed c' 300 exBloom).
Proof.
  split; [vm_compute; reflexivity|].
  destruct (bloom_index_complete exEmptyChain 300 exBloom exEmptyChain_index) as [(ids & c' & E & _ & Hi & _) _].
  - split; [lia|reflexivity].
  - apply exBloom_ok.
  - exists ids, c'. split; [exact E|exact Hi].
Defined.

(** [upow] squares in each round: it is the power only for exponents up to two. *)
Example upow_is_not_power : upow 2 3 = 16.
Proof. reflexivity. Qed.
