(* ===== verification/BlockTheory.v ===== *)
(** * Executing a block only reads the chain

    Verification of a block and its execution on the state of its parent make copies in
    the caches of the chain and change nothing else, whatever they return. *)

From Stdlib Require Import ZArith Lia.
From stdpp Require Import base list list_numbers option gmap.
From S2P Require Import Prelude CommonData RLP FixedHash TrieHash ExtVMFace State Transaction Executive BlockHeader Elhash BlockQueue BlockDetails BlockChain ChainOps Block ChainDBTheory.

(** ** The monad *)

Lemma cbind_ok {A B} (m : cm A) (f : A -> cm B) c b c' :
  (m ≫= f) c = (Ok b, c') <-> exists a c1, m c = (Ok a, c1) /\ f a c1 = (Ok b, c').
Proof.
  unfold mbind, cm_bind. destruct (m c) as [[a|e] c1]; split.
  - intros H. by exists a, c1.
  - intros (a' & c1' & E & H). by simplify_eq.
  - done.
  - by intros (a' & c1' & E & H).
Qed.
Lemma cret_ok {A} (a b : A) c c' : (mret a : cm A) c = (Ok b, c') <-> a = b /\ c = c'.
Proof. unfold mret, cm_ret. split; [by intros [= -> ->]|by intros [-> ->]]. Qed.
Lemma cget_ok c c1 c' : cget c = (Ok c1, c') <-> c1 = c /\ c' = c.
Proof. unfold cget. split; [by intros [= -> ->]|by intros [-> ->]]. Qed.
Lemma cguard_ok b e c u c' : cguard b e c = (Ok u, c') <-> b = true /\ c = c'.
Proof. destruct b, u; unfold cguard, mret, cm_ret, cthrow; split; [by intros [= ->]|by intros [_ ->]|done|by intros [? _]]. Qed.
Lemma chdr_ok {A} (r : hres A) c a c' : chdr r c = (Ok a, c') <-> r = Ok a /\ c = c'.
Proof. destruct r; unfold chdr, mret, cm_ret, cthrow; split; [by intros [= -> ->]|by intros [[= ->] ->]|done|by intros [? _]]. Qed.
Lemma crlp_ok {A} (r : result rlp_error A) c a c' : crlp r c = (Ok a, c') <-> r = Ok a /\ c = c'.
Proof. unfold crlp. rewrite chdr_ok. destruct r; cbn; split; intros [[= E] ->]; by subst. Qed.
Lemma cmodify_ok f c u c' : cmodify f c = (Ok u, c') <-> c' = f c.
Proof. destruct u. unfold cmodify. split; [by intros [= ->]|by intros ->]. Qed.

(** Takes an operation that returned apart. *)
Ltac cinv :=
  repeat match goal with
  | H : (_ ≫= _) _ = (Ok _, _) |- _ =>
      let a := fresh "a" in let c := fresh "c" in let Hm := fresh "Hm" in apply cbind_ok in H as (a & c & Hm & H)
  | H : mret _ _ = (Ok _, _) |- _ => apply cret_ok in H as [H ?]
  | H : cget _ = (Ok _, _) |- _ => apply cget_ok in H as [? ?]
  | H : cguard _ _ _ = (Ok _, _) |- _ => apply cguard_ok in H as [H ?]
  | H : chdr _ _ = (Ok _, _) |- _ => apply chdr_ok in H as [H ?]
  | H : crlp _ _ = (Ok _, _) |- _ => apply crlp_ok in H as [H ?]
  | H : cmodify _ _ = (Ok _, _) |- _ => apply cmodify_ok in H
  | H : cthrow _ _ = (Ok _, _) |- _ => discriminate H
  | a : _ * _ |- _ => destruct a
  end; simplify_eq.

Lemma quiet_ok {A} (m : cm A) c a c' : quiet m -> coherent c -> m c = (Ok a, c') -> copies c c'.
Proof. intros Hq Hc E. specialize (Hq c Hc). by rewrite E in Hq. Qed.
Lemma reads_ok {A} (m : cm A) c r a c' : reads m c r -> m c = (Ok a, c') -> r = Ok a /\ copies c c'.
Proof. intros (c1 & E & H) E'. rewrite E in E'. by simplify_eq. Qed.

Lemma quiet_lastLast f : quiet (cmodify (fun c => set_lastLastHashes (f c) c)).
Proof. intros c _. cbn. split; [|by split]. apply copy_grows; [done..|by intros []]. Qed.
#[export] Hint Resolve quiet_lastLast : chain.

(** ** Reading and verifying *)

Section Quiet.
Context (sha3 sha3_512 : bytes -> bytes) (eval : bytes -> bytes -> bytes -> bytes * bytes).
Context (recover : SignatureStruct -> bytes -> option bytes) (lhsFirst : bool) (now : Z).

Lemma cellsOf_quiet b n : quiet (cellsOf b n).
Proof. unfold cellsOf. quiet. Qed.
Lemma info_quiet h : quiet (info sha3 h).
Proof. unfold info. quiet. Qed.
Hint Resolve cellsOf_quiet info_quiet : chain.

Lemma lastHashes_quiet p : quiet (lastHashes sha3 p).
Proof.
  assert (Hl : forall is_, quiet (lastHashes_loop sha3 is_)).
  { induction is_ as [|i is_ IH]; cbn [lastHashes_loop]; quiet. }
  unfold lastHashes. quiet.
Qed.
Lemma allKinFrom_quiet p n : quiet (allKinFrom sha3 p n).
Proof.
  unfold allKinFrom. generalize ({[p]} : gset bytes). revert p. induction (Z.to_nat n) as [|k IH]; intros p s; cbn [allKin_loop]; quiet.
Qed.
Lemma parentHeader_quiet p e : quiet (parentHeader sha3 p e).
Proof. unfold parentHeader. quiet. Qed.
Hint Resolve lastHashes_quiet allKinFrom_quiet parentHeader_quiet : chain.
Lemma verifyUncle_quiet ir u : quiet (verifyUncle sha3 sha3_512 eval ir u).
Proof. unfold verifyUncle. quiet. Qed.
Lemma verifyTransaction_quiet ir h d : quiet (verifyTransaction sha3 recover ir h d).
Proof. unfold verifyTransaction. quiet. Qed.
Hint Resolve verifyUncle_quiet verifyTransaction_quiet : chain.
Lemma verifyBlock_quiet b ir : quiet (chain_verifyBlock sha3 sha3_512 eval recover b ir).
Proof. unfold chain_verifyBlock. quiet. Qed.

(** ** Executing *)

Context {DB : Type} `{TrieStore DB} `{BlockDB DB}.

Lemma cblock_quiet {A} (r : result state_error A) : quiet (cblock r).
Proof. unfold cblock. quiet. Qed.
Lemma resetCurrent_quiet (b : Block DB) : quiet (resetCurrent now b).
Proof. unfold resetCurrent. quiet. Qed.
Hint Resolve cblock_quiet resetCurrent_quiet : chain.
Lemma blockSync_quiet h bi (b : Block DB) : quiet (blockSync sha3 now h bi b).
Proof. unfold blockSync. quiet. Qed.
Lemma block_execute_quiet lh t p (b : Block DB) : quiet (block_execute sha3 recover lhsFirst lh t p b).
Proof. unfold block_execute. quiet. Qed.
Hint Resolve blockSync_quiet block_execute_quiet : chain.
Lemma enactTransactions_quiet lh ts (b : Block DB) rs : quiet (enactTransactions sha3 recover lhsFirst lh ts b rs).
Proof. revert b rs. induction ts as [|t ts IH]; intros b rs; cbn [enactTransactions]; quiet. Qed.
Lemma applyRewards_quiet us r (b : Block DB) : quiet (applyRewards sha3 us r b).
Proof. unfold applyRewards. quiet. Qed.
Lemma ancestorOf_quiet n h : quiet (ancestorOf n h).
Proof. revert h. induction n as [|n IH]; intros h; cbn [ancestorOf]; quiet. Qed.
Hint Resolve enactTransactions_quiet applyRewards_quiet ancestorOf_quiet : chain.
Lemma checkUncles_quiet cur us ex : quiet (checkUncles sha3 cur us ex).
Proof. revert ex. induction us as [|u us IH]; intros ex; cbn [checkUncles]; [quiet|]. unfold checkUncle. quiet. Qed.
Hint Resolve checkUncles_quiet : chain.
Lemma enact_quiet vb (b : Block DB) : quiet (enact sha3 recover lhsFirst vb b).
Proof. unfold enact. quiet. Qed.
Hint Resolve enact_quiet : chain.
Lemma enactOn_quiet vb (b : Block DB) : quiet (enactOn sha3 recover lhsFirst now vb b).
Proof. unfold enactOn. quiet. Qed.
Lemma cleanup_quiet full (b : Block DB) : quiet (cleanup now full b).
Proof. unfold cleanup. quiet. Qed.

(** The difficulty that enactment adds is the one of the header. *)
Lemma enact_difficulty vb (b : Block DB) c d b' c' : enact sha3 recover lhsFirst vb b c = (Ok (d, b'), c') -> d = h_difficulty (vr_info vb).
Proof. unfold enact. intros E. by cinv. Qed.
End Quiet.
