(* ===== verification/ChainBatchTheory.v ===== *)
(** * What an import writes

    The entries of the write batches and how they are read back, a tree of details with
    one more block, and the move of the head: [newHead_ok] says which route it reports,
    which numbers it leaves in the cache and which entries it makes. *)

From Stdlib Require Import ZArith Lia.
From stdpp Require Import base list list_numbers option gmap.
From S2P Require Import Prelude CommonData RLP RLPTheory FixedHash TrieHash ExtVMFace State Transaction TrieCommon Trie TrieDBTheory Executive BlockHeader HeaderTheory Elhash BlockQueue BlockDetails BlockDetailsTheory BlockChain ChainOps Block ChainImport ChainDBTheory TreeRouteTheory BlockTheory.

(** ** Write batches *)

Lemma db_write_app b1 b2 db : db_write (b1 ++ b2) db = db_write b2 (db_write b1 db).
Proof. unfold db_write. by rewrite foldl_app. Qed.

Lemma db_write_other b db k : k ∉ b.*1 -> db_write b db !! k = db !! k.
Proof.
  revert db. induction b as [|[k' v'] b IH]; intros db Hk; [done|]. cbn in *. apply not_elem_of_cons in Hk as [Hne Hk].
  etrans; [by apply IH|]. by rewrite lookup_insert_ne.
Qed.

Lemma db_write_same b db k v : (k, v) ∈ b -> (forall v', (k, v') ∈ b -> v' = v) -> db_write b db !! k = Some v.
Proof.
  revert db. induction b as [|[k' v'] b IH]; intros db Hk Hu; [by apply elem_of_nil in Hk|].
  change (db_write ((k', v') :: b) db) with (db_write b (<[k' := v']> db)).
  destruct (decide (k ∈ b.*1)) as [Hin|Hni].
  - apply list_elem_of_fmap in Hin as ([k1 v1] & E & Hin). cbn in E. subst k1.
    assert (v1 = v) as -> by (apply Hu; by right). apply IH; [done|]. intros v2 Hv2. apply Hu. by right.
  - rewrite db_write_other by done. apply elem_of_cons in Hk as [[= -> ->]|Hk]; [by rewrite lookup_insert_eq|].
    destruct Hni. apply list_elem_of_fmap. by exists (k, v).
Qed.

Lemma db_get_other b db k : k ∉ b.*1 -> db_get (db_write b db) k = db_get db k.
Proof. intros Hk. unfold db_get. by rewrite db_write_other. Qed.
Lemma db_get_same b db k v : (k, v) ∈ b -> (forall v', (k, v') ∈ b -> v' = v) -> db_get (db_write b db) k = v.
Proof. intros H1 H2. unfold db_get. by rewrite (db_write_same _ _ _ v). Qed.

(** A record that was just written is read. *)
Lemma readExtras_written {T} `{ExtraLaws T} (x : T) db k e : wfExtra x -> extra_rlp x = Ok e -> db_get db k = e ->
  db_get db k <> [] /\ readExtras db k = Ok x.
Proof.
  intros Hx Ee Ek. destruct (extra_written x Hx) as (d & Ed & Hd & Er). rewrite Ee in Ed. injection Ed as <-.
  unfold readExtras. rewrite Ek. rewrite decide_False by done. done.
Qed.
Lemma readExtras_eq {T} `{Extra T} db db' k k' : db_get db' k' = db_get db k -> readExtras (T := T) db' k' = readExtras db k.
Proof. intros E. unfold readExtras. by rewrite E. Qed.

Lemma toSlice_arith n s : fits 64 n -> toSlice (ofArith 32 n) s = toSlice_number n s.
Proof.
  intros Hn. rewrite toSlice_number_eq. unfold toSlice, ofArith. f_equal. rewrite !toBigEndian_spec.
  rewrite (be_bytes_app 24 8). change (256 ^ Z.of_nat 8) with (2 ^ 64).
  unfold fits in Hn. by rewrite Z.div_small.
Qed.
Lemma toSlice_number_inj n m s : fits 64 n -> fits 64 m -> toSlice_number n s = toSlice_number m s -> n = m.
Proof.
  intros Hn Hm. rewrite !toSlice_number_eq. intros [E _]%toSlice_inj. apply app_inv_head in E.
  rewrite !toBigEndian_spec in E. apply (f_equal be_value) in E. rewrite !be_value_be_bytes in E.
  change (256 ^ Z.of_nat 8) with (2 ^ 64) in E. unfold fits in *. by rewrite !Z.mod_small in E.
Qed.

(** ** Headers *)

Section Headers.
Context (sha3 : bytes -> bytes) (Hsha3 : forall d, wf_bytes (sha3 d) /\ length (sha3 d) = 32%nat).

Lemma sha3_hashOk d : hashOk 32 (sha3 d).
Proof. destruct (Hsha3 d) as [Hw Hl]. split; [done|]. unfold sizeZ. by rewrite Hl. Qed.

(** All the readings of one header differ in the memo alone. *)
Lemma populate_memo d m m' w bi : populate d m w = Ok bi ->
  h_hash bi = m /\ populate d m' w = Ok (set_memos m' (h_hashWithout bi) bi).
Proof.
  unfold populate. intros E. repeat (apply bind_Ok in E as (? & -> & E); rewrite bind_Ok_l). injection E as <-. done.
Qed.

Lemma parse_block_header b d bi bi' w : parseHeader sha3 b BlockData (zeroHash 32) = Ok bi -> extractHeader b = Ok d ->
  parseHeader sha3 d HeaderData w = Ok bi' -> bi' = set_memos (h_hash bi') (h_hashWithout bi) bi.
Proof.
  unfold parseHeader. rewrite decide_True, decide_False by done. intros E Ed E'. rewrite Ed, bind_Ok_l in E.
  apply bind_Ok in E' as (d' & Ed' & E'). destruct (RLP.construct d VeryStrict) as [d1|] eqn:Ec; [|done].
  apply construct_VeryStrict in Ec as [-> _]. injection Ed' as <-.
  destruct (populate_memo _ _ (h_hash bi') _ _ E) as [_ E1]. destruct (populate_memo _ _ (h_hash bi') _ _ E') as [Em _].
  rewrite <-Em in E'. congruence.
Qed.

Lemma hashOf_ok bi d m : populate d (sha3 m) (zeroHash 32) = Ok bi -> hashOk 32 (hashOf sha3 bi).
Proof.
  intros E. destruct (populate_memo _ _ (sha3 m) _ _ E) as [Em _]. unfold hashOf, header_hash. rewrite Em.
  destruct (nonzero (sha3 m)); [apply sha3_hashOk|].
  destruct (header_streamRLP bi WithSeal RLPStream.empty) as [s|]; [|apply sha3_hashOk]. rewrite bind_Ok_l.
  destruct (RLPStream.out s) as [o|]; apply sha3_hashOk.
Qed.
Lemma parse_hashOk b bi : parseHeader sha3 b BlockData (zeroHash 32) = Ok bi -> hashOk 32 (hashOf sha3 bi).
Proof.
  unfold parseHeader. rewrite decide_True by done. intros E. apply bind_Ok in E as (d & _ & E).
  rewrite nonzero_zeroHash in E. by eapply hashOf_ok.
Qed.
Lemma parse_extract b bi w : parseHeader sha3 b BlockData w = Ok bi -> exists d, extractHeader b = Ok d.
Proof. unfold parseHeader. rewrite decide_True by done. intros E. apply bind_Ok in E as (d & E & _). by exists d. Qed.

(** What the check against the parent leaves of the number *)
Lemma header_verify_number s bi parent b : header_verify sha3 s bi parent b = Ok tt -> isHeader parent = true ->
  h_number bi = u256 (h_number parent + 1) /\ h_number bi < 2 ^ 32.
Proof.
  unfold header_verify. rewrite !bind_unit_Ok, !guard_Ok. unfold verify_parent. intros (Hn & _ & Hp & _) Hh. rewrite Hh in Hp.
  rewrite !bind_unit_Ok, !guard_Ok in Hp. destruct Hp as (_ & _ & Hp). lia.
Qed.
End Headers.

(** ** A tree with one more block *)

Definition withChild (h : bytes) (d : BlockDetails) : BlockDetails :=
  mkDetails (bd_number d) (bd_totalDifficulty d) (bd_parent d) (bd_children d ++ [h]).

(** [D'] is [D] with the block [h] under [p]. *)
Definition extends (D D' : bytes -> hres BlockDetails) (p h : bytes) (pd nd : BlockDetails) : Prop :=
  forall x, D' x = if decide (x = h) then Ok nd else if decide (x = p) then Ok (withChild h pd) else D x.

Lemma anc_ext D D' n h : (forall x, parentOf D' x = parentOf D x) -> anc D' n h = anc D n h.
Proof. intros E. revert h. induction n as [|n IH]; intros h; [done|]. cbn. by rewrite E. Qed.
Lemma upTo_ext D D' n h : (forall x, parentOf D' x = parentOf D x) -> upTo D' n h = upTo D n h.
Proof. intros E. revert h. induction n as [|n IH]; intros h; [done|]. cbn. by rewrite E, IH. Qed.

Lemma stored_ext D D' x d : (forall x, D' x = D x) -> stored D' x d <-> stored D x d.
Proof. intros E. unfold stored. by rewrite E. Qed.
Lemma parentOf_ext D D' x : (forall x, D' x = D x) -> parentOf D' x = parentOf D x.
Proof. intros E. unfold parentOf. by rewrite E. Qed.
Lemma treeOk_ext g D D' : (forall x, D' x = D x) -> treeOk g D -> treeOk g D'.
Proof.
  intros E [(d & Hd & Ed) Hn Hz Hp]. pose proof (fun x d => stored_ext D D' x d E) as Es. split.
  - exists d. by rewrite Es.
  - intros x d'. rewrite Es. apply Hn.
  - intros x d'. rewrite Es. apply Hz.
  - intros x d' Hx Hne. rewrite Es in Hx. destruct (Hp x d' Hx Hne) as (pd & Hpd & E'). exists pd. by rewrite Es.
Qed.

Section Extend.
Context (g : bytes) (D D' : bytes -> hres BlockDetails) (p h : bytes) (pd nd : BlockDetails).
Context (Ht : treeOk g D) (Hp : stored D p pd) (Hnew : D h = Ok NullBlockDetails) (Hext : extends D D' p h pd nd).
Context (Hn : bd_number nd = bd_number pd + 1) (Hpar : bd_parent nd = p) (Hnz : nonzero h = true).

Lemma new_not_stored x d : stored D x d -> x <> h.
Proof. intros [E Hd] ->. rewrite E in Hnew. by injection Hnew as ->. Qed.

Lemma extends_cases x d : stored D' x d ->
  (x = h /\ d = nd) \/ (x = p /\ d = withChild h pd) \/ (x <> h /\ x <> p /\ stored D x d).
Proof.
  clear - Hext. intros [E Hd]. rewrite Hext in E. destruct (decide (x = h)); [left; by injection E as <-|]. right.
  destruct (decide (x = p)); [left; by injection E as <-|by right].
Qed.
Lemma extends_old x d : stored D x d -> exists d', stored D' x d' /\ bd_number d' = bd_number d /\
  bd_totalDifficulty d' = bd_totalDifficulty d /\ bd_parent d' = bd_parent d.
Proof.
  intros Hx. pose proof (new_not_stored _ _ Hx) as Hne. pose proof (Hext x) as E. rewrite decide_False in E by done.
  destruct (decide (x = p)) as [->|]; [|exists d; split; [by split; [rewrite E|]; destruct Hx|done]].
  rewrite (stored_fun _ _ _ _ Hx Hp). exists (withChild h pd). split; [|done]. split; [done|by destruct Hp].
Qed.
Lemma extends_parentOf x : x <> h -> parentOf D' x = parentOf D x.
Proof.
  intros Hne. unfold parentOf. rewrite Hext, decide_False by done. destruct (decide (x = p)) as [->|]; [|done].
  by rewrite (proj1 Hp).
Qed.
Lemma extends_parentOf_new : parentOf D' h = p.
Proof. unfold parentOf. by rewrite Hext, decide_True. Qed.

Lemma extends_anc n x d : stored D x d -> Z.of_nat n <= bd_number d -> anc D' n x = anc D n x.
Proof.
  revert x d. induction n as [|n IH]; intros x d Hx Hd; [done|]. cbn.
  rewrite extends_parentOf by (by eapply new_not_stored). destruct (stored_up g D Ht x d Hx ltac:(lia)) as (d' & Hd' & E).
  apply (IH _ d' Hd'). lia.
Qed.

Lemma extends_tree : bd_number nd < InvalidBlockNumber -> treeOk g D'.
Proof.
  intros Hlt. pose proof (tr_number _ _ Ht _ _ Hp) as Hpn. assert (Hh : stored D' h nd) by (split; [by rewrite Hext, decide_True|lia]).
  split.
  - destruct (tr_genesis _ _ Ht) as (d & Hg & E). destruct (extends_old _ _ Hg) as (d' & Hd' & E' & _). exists d'. split; [done|congruence].
  - intros x d [(-> & ->)|[(-> & ->)|(_ & _ & Hx)]]%extends_cases; [lia|done|by eapply tr_number].
  - intros x d [(-> & ->)|[(-> & ->)|(_ & _ & Hx)]]%extends_cases; [done|by eapply tr_nonzero|by eapply tr_nonzero].
  - intros x d Hx Hxg. apply extends_cases in Hx as [(-> & ->)|[(-> & ->)|(_ & _ & Hx)]].
    + rewrite Hpar. destruct (extends_old _ _ Hp) as (d' & Hd' & E' & _). exists d'. split; [done|]. lia.
    + destruct (tr_parent _ _ Ht _ _ Hp Hxg) as (d & Hd & E). destruct (extends_old _ _ Hd) as (d' & Hd' & E' & _).
      exists d'. split; [done|]. cbn. lia.
    + destruct (tr_parent _ _ Ht _ _ Hx Hxg) as (d1 & Hd & E). destruct (extends_old _ _ Hd) as (d' & Hd' & E' & _).
      exists d'. split; [done|]. lia.
Qed.
End Extend.

(** ** Operations that leave the numbers alone *)

(** Copies are made and the index of blooms may change; the cache of the numbers stays. *)
Definition tame {A} (m : cm A) : Prop := forall c, coherent c -> grows c (m c).2 /\ c_blockHashes (m c).2 = c_blockHashes c.

Lemma tame_ok {A} (m : cm A) c a c' : tame m -> coherent c -> m c = (Ok a, c') ->
  grows c c' /\ c_blockHashes c' = c_blockHashes c /\ coherent c'.
Proof. intros Hm Hc E. destruct (Hm c Hc) as [H1 H2]. rewrite E in H1, H2. split; [done|]. split; [done|]. by apply (gr_coherent _ _ H1). Qed.

Lemma tame_quiet {A} (m : cm A) : quiet m -> (forall c, c_blockHashes (m c).2 = c_blockHashes c) -> tame m.
Proof. intros Hq Hb c Hc. split; [apply copies_grows, Hq, Hc|apply Hb]. Qed.
Lemma tame_ret {A} (a : A) : tame (mret a).
Proof. by intros c _. Qed.
Lemma tame_cget : tame cget.
Proof. by intros c _. Qed.
Lemma tame_bind {A B} (m : cm A) (f : A -> cm B) : tame m -> (forall a, tame (f a)) -> tame (m ≫= f).
Proof.
  intros Hm Hf c Hc. destruct (Hm c Hc) as [H1 H2]. unfold mbind, cm_bind. destruct (m c) as [[a|e] c1]; [|done]. cbn in H1, H2.
  destruct (Hf a c1 (gr_coherent _ _ H1 Hc)) as [H3 H4]. split; [by etrans|congruence].
Qed.
Lemma tame_chdr {A} (r : hres A) : tame (chdr r).
Proof. by destruct r; intros c _. Qed.
Lemma tame_crlp {A} (r : result rlp_error A) : tame (crlp r).
Proof. apply tame_chdr. Qed.
Lemma tame_cfor {A B} (l : list A) (f : A -> cm B) : (forall a, tame (f a)) -> tame (cfor l f).
Proof.
  intros Hf. induction l as [|x l IH]; [apply tame_ret|]. cbn [cfor]. apply tame_bind; [apply Hf|]. intros y.
  apply tame_bind; [apply IH|]. intros ys. apply tame_ret.
Qed.
Lemma tame_setBlooms f : tame (cmodify (fun c => set_blocksBlooms (f c) c)).
Proof. intros c _. split; [|done]. apply copy_grows; [done..|by intros []]. Qed.

Lemma getBlocksBlooms_tame id : tame (getBlocksBlooms id).
Proof.
  apply tame_quiet; [apply getBlocksBlooms_quiet|]. intros c. unfold getBlocksBlooms, cquery, queryBlocksBlooms.
  destruct (queryExtras _ _ _ _) as [[v [m|]]|e]; try done. cbn. by destruct (noteUsed_usage (id, 5) c) as (? & ? & ->).
Qed.
Lemma getDetails_tame h : tame (getDetails h).
Proof.
  apply tame_quiet; [apply getDetails_quiet|]. intros c. unfold getDetails, cquery, queryDetails.
  destruct (queryExtras _ _ _ _) as [[v [m|]]|e]; try done. cbn. by destruct (noteUsed_usage (h, 0) c) as (? & ? & ->).
Qed.
Lemma getBlock_tame h : tame (getBlock h).
Proof.
  apply tame_quiet; [apply getBlock_quiet|]. intros c. unfold getBlock, queryBlock.
  destruct (decide _); [done|]. destruct (c_blocks c !! h); [done|]. destruct (decide _); [done|].
  by destruct (noteUsed_usage (h, BlockKind) c) as (? & ? & ->).
Qed.

Create HintDb tame.
#[export] Hint Resolve tame_ret tame_cget tame_chdr tame_crlp tame_cfor tame_setBlooms getBlocksBlooms_tame getDetails_tame
  getBlock_tame : tame.
Ltac tame :=
  repeat match goal with
  | |- tame (_ ≫= _) => apply tame_bind; [|intros]
  | |- tame (match ?x with _ => _ end) => destruct x
  | |- tame (if ?x then _ else _) => destruct x
  | |- tame (cfor _ _) => apply tame_cfor; intros
  | |- tame _ => solve [eauto with tame]
  end.

Lemma getNumber_tame h : tame (getNumber h).
Proof. unfold getNumber. tame. Qed.
Lemma updateBloom_tame id o f : tame (updateBloom id o f).
Proof. unfold updateBloom. tame. Qed.
#[export] Hint Resolve getNumber_tame updateBloom_tame : tame.
Lemma clearBlockBlooms_tame b e : tame (clearBlockBlooms b e).
Proof.
  unfold clearBlockBlooms. generalize (seqZ 0 c_bloomIndexLevels) as l. intros l. revert b e.
  induction l as [|n l IH]; intros b e; cbn [clear_levels]; [tame|]. unfold clearOne. tame.
Qed.
Lemma addBlooms_tame l n x : tame (addBlooms l n x).
Proof. revert n. induction l as [|k l IH]; intros n; cbn [addBlooms]; tame. Qed.
Lemma bloomsBatch_tame ids : tame (bloomsBatch ids).
Proof. unfold bloomsBatch. tame. Qed.
Lemma addressBatch_tame sha3 l h is_ : tame (addressBatch sha3 l h is_).
Proof. induction is_ as [|i is_ IH]; cbn [addressBatch]; tame. Qed.
#[export] Hint Resolve clearBlockBlooms_tame addBlooms_tame bloomsBatch_tame addressBatch_tame : tame.
Lemma indexBlock_tame sha3 vb i : tame (indexBlock sha3 vb i).
Proof. unfold indexBlock. tame. Qed.

(** ** The entries of an import *)

Lemma before_app x l l' : x ∉ l -> before x (l ++ x :: l') = l.
Proof.
  induction l as [|y l IH]; intros Hx; cbn; [by rewrite decide_True|]. apply not_elem_of_cons in Hx as [Hne Hx].
  rewrite decide_False by done. by rewrite IH.
Qed.
Lemma after_app x l l' : x ∉ l -> after x (l ++ x :: l') = l'.
Proof.
  induction l as [|y l IH]; intros Hx; cbn; [by rewrite decide_True|]. apply not_elem_of_cons in Hx as [Hne Hx].
  rewrite decide_False by done. by rewrite IH.
Qed.

Lemma eraseHashes_lookup l n m k v : sizeZ l <= n + 1 -> fits 32 n -> eraseHashes l n m !! k = Some v ->
  m !! k = Some v /\ (k <= n -> k <= n - sizeZ l).
Proof.
  revert n m. induction l as [|x l IH]; intros n m Hn Hf E; cbn in E; [split; [done|]; rewrite sizeZ_nil; lia|].
  rewrite sizeZ_cons in *. pose proof (sizeZ_nonneg l). unfold fits in *. destruct (decide (l = [])) as [->|Hl].
  - cbn in E. apply lookup_delete_Some in E as [Hne E]. rewrite sizeZ_nil in *. split; [done|]. lia.
  - assert (0 < sizeZ l) by (by destruct l).
    rewrite (wrap_id 32) in E by (unfold fits; lia). apply IH in E as [E Hk]; [|lia|unfold fits; lia].
    apply lookup_delete_Some in E as [Hne E]. split; [done|]. lia.
Qed.

Definition keyKind (s : Z) (kv : bytes * bytes) : Prop := exists id, kv.1 = toSlice id s.

Lemma addressBatch_keys sha3 l h is_ c b c' : addressBatch sha3 l h is_ c = (Ok b, c') -> Forall (keyKind 2) b.
Proof.
  revert c b c'. induction is_ as [|i is_ IH]; intros c b c' E; cbn [addressBatch] in E; cinv; [by apply Forall_nil_2|].
  apply Forall_cons_2; [by eexists|by eapply IH].
Qed.
Lemma bloomsBatch_keys ids c b c' : bloomsBatch ids c = (Ok b, c') -> Forall (keyKind 5) b.
Proof.
  unfold bloomsBatch. intros E. apply cbind_ok in E as (c0 & c1 & [-> ->]%cget_ok & E). generalize dependent c. intros c.
  generalize (c_blocksBlooms c). intros m. revert c b c'. induction ids as [|i ids IH]; intros c b c' E; cbn [cfor] in E; cinv; [by apply Forall_nil_2|].
  apply Forall_cons_2; [by eexists|by eapply IH].
Qed.

Section Index.
Context (sha3 : bytes -> bytes) (vb : VerifiedBlockRef).

(** The header that the index is made from *)
Definition indexHeader (c : BlockChain) (i : bytes) (bi : BlockHeader) : Prop :=
  if decide (i = hashOf sha3 (vr_info vb)) then bi = vr_info vb else parseHeader sha3 (blockOf c i) BlockData (zeroHash 32) = Ok bi.
Definition numberEntry (bi : BlockHeader) (kv : bytes * bytes) : Prop :=
  kv.1 = toSlice (ofArith 32 (h_number bi)) 1 /\ blockHash_rlp (mkBlockHash (hashOf sha3 bi)) = Ok kv.2.

Lemma indexBlock_batch i c b c' : coherent c -> indexBlock sha3 vb i c = (Ok b, c') ->
  exists bi kv, indexHeader c i bi /\ numberEntry bi kv /\ kv ∈ b /\
    forall kv', kv' ∈ b -> kv' = kv \/ keyKind 2 kv' \/ keyKind 5 kv'.
Proof.
  unfold indexBlock. intros Hc E. apply cbind_ok in E as (bi & c1 & Ebi & E).
  assert (Hbi : indexHeader c i bi).
  { unfold indexHeader. destruct (decide _); [by cinv|]. apply cbind_ok in Ebi as (b0 & c2 & Eb & Ebi). cinv.
    by destruct (reads_ok _ _ _ _ _ (getBlock_reads i c Hc) Eb) as [[= <-] _]. }
  cinv.
  lazymatch goal with Ha : addressBatch _ _ _ _ _ = (Ok ?a, _), Hb : bloomsBatch _ _ = (Ok ?bl, _), Hr : blockHash_rlp _ = Ok ?e |- _ =>
    exists bi, (toSlice (ofArith 32 (h_number bi)) 1, e); apply addressBatch_keys in Ha; apply bloomsBatch_keys in Hb end.
  split; [done|]. split; [done|]. rewrite !list.Forall_forall in *.
  split; [apply elem_of_app; right; apply elem_of_app; right; by apply list_elem_of_singleton|].
  intros kv' [?|[?|Hin%list_elem_of_singleton]%elem_of_app]%elem_of_app; auto.
Qed.

Lemma indexBlocks_batch path c bs c' : coherent c -> cfor path (indexBlock sha3 vb) c = (Ok bs, c') ->
  grows c c' /\ c_blockHashes c' = c_blockHashes c /\
  (forall i, i ∈ path -> exists bi kv, indexHeader c i bi /\ numberEntry bi kv /\ kv ∈ concat bs) /\
  (forall kv, kv ∈ concat bs -> keyKind 2 kv \/ keyKind 5 kv \/ exists i bi, i ∈ path /\ indexHeader c i bi /\ numberEntry bi kv).
Proof.
  revert c bs. induction path as [|i path IH]; intros c bs Hc E; cbn [cfor] in E.
  { cinv. split; [done|]. split; [done|]. split; [by intros i ?%elem_of_nil|by intros kv ?%elem_of_nil]. }
  apply cbind_ok in E as (b & c1 & Eb & E). cinv. destruct (tame_ok _ _ _ _ (indexBlock_tame sha3 vb i) Hc Eb) as (Hg1 & Hh1 & Hc1).
  destruct (IH _ _ Hc1 Hm) as (Hg & Hh & Hin & Hout).
  assert (Hi : forall j bj, indexHeader c1 j bj -> indexHeader c j bj).
  { intros j bj. unfold indexHeader. by rewrite (grows_block _ _ _ Hg1). }
  destruct (indexBlock_batch _ _ _ _ Hc Eb) as (bi & kv & Hbi & Hkv & Hb & Hb').
  split; [by etrans|]. split; [congruence|]. split.
  - intros j [->|Hj]%elem_of_cons; [exists bi, kv; split; [done|]; split; [done|]; apply elem_of_app; by left|].
    destruct (Hin j Hj) as (bj & kv' & H1 & H2 & H3). exists bj, kv'.
    split; [by apply Hi|]. split; [done|]. apply elem_of_app. by right.
  - intros kv' [Hk|Hk]%elem_of_app.
    + destruct (Hb' _ Hk) as [->|[?|?]]; [|auto..]. right. right. exists i, bi. split; [by left|auto].
    + destruct (Hout _ Hk) as [?|[?|(j & bj & Hj & Hbj & Hkj)]]; [auto..|]. right. right. exists j, bj. split; [by right|auto].
Qed.
End Index.

(** ** Moving the head *)

Lemma eraseHashes_sub l n m k v : eraseHashes l n m !! k = Some v -> m !! k = Some v.
Proof. revert n m. induction l as [|x l IH]; intros n m E; [done|]. cbn in E. by apply IH, lookup_delete_Some in E as [_ E]. Qed.

Lemma erase_grows l n c : grows c (set_transactionAddresses ∅ (set_blockHashes (eraseHashes l n (c_blockHashes c)) c)).
Proof.
  apply copy_grows; [done..|]. intros Hc. split; try apply Hc; cbn; intros k v E%eraseHashes_sub.
  - by apply (co_blockHashes _ Hc).
  - by apply (co_below _ Hc k v).
Qed.

Section Head.
Context (sha3 : bytes -> bytes) (vb : VerifiedBlockRef).
Context (g : bytes) (c : BlockChain) (ld pd : BlockDetails).
Let D := detailsOf c.
Let last := c_lastBlockHash c.
Let p := h_parentHash (vr_info vb).
Let h := hashOf sha3 (vr_info vb).
Context (Hc : coherent c) (Ht : treeOk g D) (Hl : stored D last ld) (Hln : bd_number ld = c_lastBlockNumber c).
Context (Hp : stored D p pd) (Hnew : forall d, ~ stored D h d).

Lemma forget_ok route i c1 c' : copies c c1 -> route !! 0%nat = Some last -> Z.of_nat i <= bd_number ld ->
  sizeZ (before (anc D i last) route) = Z.of_nat i -> forget route (anc D i last) last c1 = (Ok tt, c') ->
  grows c c' /\ coherent c' /\ forall n v, c_blockHashes c' !! n = Some v -> n <= bd_number ld - Z.of_nat i.
Proof.
  intros Hcc Hr Hi Hs E. unfold forget in E. apply cbind_ok in E as (n & c2 & En & E).
  replace (default [] (head route)) with last in En by (destruct route; [done|]; by injection Hr as ->).
  destruct (reads_ok _ _ _ _ _ (getNumber_reads last c1 ld ltac:(by rewrite (cp_details _ _ _ Hcc); apply Hl)) En) as [[= <-] Hcc2].
  apply cbind_ok in E as ([] & c3 & Ec3%cmodify_ok & E). 
  assert (Hc3 : grows c c3) by (subst c3; transitivity c2; [apply copies_grows; by etrans|apply erase_grows]).
  apply (tame_ok (nc ← getNumber (anc D i last); nl ← getNumber last; clearBlockBlooms (u32 (nc + 1)) (u32 (nl + 1)))) in E
    as (Hg & Hb & Hc'); [|tame|by apply (gr_coherent _ _ Hc3)].
  split; [by etrans|]. split; [done|]. intros n v. rewrite Hb, Ec3. cbn. intros En'.
  pose proof (tr_number _ _ Ht _ _ Hl) as Hln'. unfold InvalidBlockNumber in Hln'.
  apply eraseHashes_lookup in En' as [En' Hle]; [|lia|unfold fits; lia]. rewrite Hs in Hle. apply Hle.
  assert (Hc2 : coherent c2) by (eapply cp_coherent; [|exact Hc]; by etrans).
  apply (co_below _ Hc2) in En'. rewrite Hln, <-(gr_number c c2); [lia|]. apply copies_grows. by etrans.
Qed.

(** What [newHead] reports and indexes *)
Record headMoved (i j : nat) (route : list bytes) (common : bytes) (index : WriteBatch) (c' : BlockChain) : Prop := mkHeadMoved {
  hm_common : latestCommon D i j last ld p pd;
  hm_dead : before common route = upTo D i last;
  hm_live : after common route = reverse (h :: upTo D j p);
  hm_route : route <> [];
  hm_grows : grows c c';
  hm_numbers : forall n v, c_blockHashes c' !! n = Some v -> n <= bd_number ld - Z.of_nat i;
  hm_indexed : forall x, x ∈ h :: upTo D j p -> exists bi kv, indexHeader sha3 vb c x bi /\ numberEntry sha3 bi kv /\ kv ∈ index;
  hm_index : forall kv, kv ∈ index -> keyKind 2 kv \/ keyKind 5 kv \/
    exists x bi, x ∈ h :: upTo D j p /\ indexHeader sha3 vb c x bi /\ numberEntry sha3 bi kv
}.

Lemma newHead_ok route common index c' : newHead sha3 vb last c = (Ok (route, common, index), c') ->
  exists i j, headMoved i j route common index c'.
Proof.
  intros E. unfold newHead in E. apply cbind_ok in E as ([[route0 common0] z] & c1 & Er & E).
  destruct (treeRoute_reads g c last p ld pd true true true Ht Hl Hp) as (i & j & Hlc & Hr).
  destruct (reads_ok _ _ _ _ _ Hr Er) as [Ero Hcc1]. fold D in Ero, Hlc. injection Ero as <- <- _.
  destruct Hlc as (Ea & Hi & Hj & Hmin). exists i, j.
  pose proof (NoDup_upTo g D Ht (S i) last ld Hl ltac:(lia)) as Hnd.
  assert (Hi' : anc D i last ∉ upTo D i last).
  { rewrite <-Nat.add_1_r, upTo_add in Hnd. apply NoDup_app in Hnd as (_ & Hnd & _). intros Hin. by apply (Hnd _ Hin), list_elem_of_singleton. }
  assert (Hj' : anc D i last ∉ h :: upTo D j p).
  { intros [E'|(a & Ha & E')%elem_of_upTo]%elem_of_cons.
    - destruct (stored_anc g D Ht i last ld Hl Hi) as (d & Hd & _). rewrite E' in Hd. by apply (Hnew d).
    - destruct (Hmin i a ltac:(lia) ltac:(lia) E') as [_ ?]. lia. }
  unfold routePre, routePost in E. cbn [negb andb] in E. rewrite app_nil_r in E.
  replace (((upTo D i last ++ [anc D i last]) ++ reverse (upTo D j p)) ++ [hashOf sha3 (vr_info vb)])
    with (upTo D i last ++ anc D i last :: reverse (h :: upTo D j p)) in E by (rewrite reverse_cons, <-!app_assoc; done).
  set (rt := upTo D i last ++ anc D i last :: reverse (h :: upTo D j p)) in *.
  assert (Hb : before (anc D i last) rt = upTo D i last) by (by apply before_app).
  assert (Hbr : before (anc D i last) (reverse rt) = h :: upTo D j p).
  { unfold rt. rewrite reverse_app, (reverse_cons _ (anc D i last)), reverse_involutive, <-app_assoc. by apply before_app. }
  rewrite Hbr in E. apply cbind_ok in E as ([] & c2 & Ef & E). apply cbind_ok in E as (bs & c3 & Eix & E).
  apply cret_ok in E as [[= <- <- <-] <-].
  assert (H2 : grows c c2 /\ coherent c2 /\ forall n v, c_blockHashes c2 !! n = Some v -> n <= bd_number ld - Z.of_nat i).
  { destruct (decide (anc D i last = last)) as [El|Hne].
    - apply cret_ok in Ef as [_ <-]. assert (i = 0%nat) as -> by (apply (anc_inj g D Ht i 0 last ld Hl); [lia..|done]).
      pose proof (cp_coherent _ _ Hcc1 Hc) as Hc1. split; [by apply copies_grows|]. split; [done|]. intros n v En.
      apply (co_below _ Hc1) in En. rewrite (gr_number _ _ (copies_grows _ _ Hcc1)) in En. lia.
    - destruct i as [|i]; [done|]. eapply (forget_ok rt); [done|done|lia| |exact Ef]. rewrite Hb. unfold sizeZ. by rewrite length_upTo. }
  destruct H2 as (Hg2 & Hc2 & Hn2). destruct (indexBlocks_batch _ _ _ _ _ _ Hc2 Eix) as (Hg3 & Hh3 & Hin & Hout).
  assert (Hih : forall x bi, indexHeader sha3 vb c2 x bi <-> indexHeader sha3 vb c x bi).
  { intros x bi. unfold indexHeader. by rewrite (grows_block _ _ _ Hg2). }
  split; [by split_and!|done|by apply after_app| |by etrans|by rewrite Hh3| |].
  - unfold rt. intros E'%app_nil. by destruct E'.
  - intros x Hx. destruct (Hin x Hx) as (bi & kv & H1 & H2 & H3). exists bi, kv. by rewrite <-Hih.
  - intros kv Hkv. destruct (Hout kv Hkv) as [?|[?|(x & bi & Hx & H1 & H2)]]; [auto..|]. right. right. exists x, bi. by rewrite <-Hih.
Qed.
End Head.
