(* ===== verification/ChainImportTheory.v ===== *)
(** * Importing a block keeps the chain consistent

    [chainOk] says that the details of the stored blocks form a tree that agrees with
    their headers, that the head is a heaviest block, and that the index by number holds
    the ancestors of the head.  An import that returns keeps all of this, adds the block
    and moves the head along the route that it reports. *)

From Stdlib Require Import ZArith Lia.
From stdpp Require Import base list list_numbers option gmap.
From S2P Require Import Prelude CommonData RLP RLPTheory FixedHash TrieHash ExtVMFace State Transaction TrieCommon Trie TrieDBTheory Executive BlockHeader HeaderTheory Elhash BlockQueue BlockDetails BlockDetailsTheory BlockChain ChainOps Block ChainImport ChainDBTheory TreeRouteTheory BlockTheory ChainBatchTheory.

(** ** Consistent chains *)

Section Chain.
Context (sha3 : bytes -> bytes).

(** The block stored under [h] has that hash, and its header agrees with the details [d]. *)
Definition blockFits (c : BlockChain) (h : bytes) (d : BlockDetails) : Prop :=
  exists bi, parseHeader sha3 (blockOf c h) BlockData (zeroHash 32) = Ok bi /\ hashOf sha3 bi = h /\ h_number bi = bd_number d /\
    isHeader bi = true /\ (h <> c_genesisHash c -> h_parentHash bi = bd_parent d).

(** There are no details under [h], and no block and no receipts. *)
Definition absent (c : BlockChain) (h : bytes) : Prop := db_get (c_extrasDB c) (toSlice h 0) = [].

Record chainOk (c : BlockChain) : Prop := mkChainOk {
  ok_coherent : coherent c;
  ok_details : detailsCached c;
  ok_tree : treeOk (c_genesisHash c) (detailsOf c);
  ok_wf : forall h d, stored (detailsOf c) h d -> wfDetails d;
  ok_genesis : extractHeader (c_genesisBlock c) = Ok (c_genesisHeaderBytes c);
  ok_blocks : forall h d, stored (detailsOf c) h d -> blockFits c h d;
  ok_family : forall h, absent c h -> db_get (c_blocksDB c) (toSlice h 0) = [] /\
    db_get (c_extrasDB c) (toSlice h 3) = [] /\ db_get (c_extrasDB c) (toSlice h 4) = [];
  ok_head : exists d, stored (detailsOf c) (c_lastBlockHash c) d /\ bd_number d = c_lastBlockNumber c /\
    forall h d', stored (detailsOf c) h d' -> bd_totalDifficulty d' <= bd_totalDifficulty d;
  ok_canonical : forall k, Z.of_nat k < c_lastBlockNumber c ->
    dbBlockHash (c_extrasDB c) (c_lastBlockNumber c - Z.of_nat k) = Ok (mkBlockHash (anc (detailsOf c) k (c_lastBlockHash c)));
  ok_best : db_get (c_extrasDB c) bestKey = c_lastBlockHash c \/
    (db_get (c_extrasDB c) bestKey = [] /\ c_lastBlockHash c = c_genesisHash c)
}.

Lemma absent_details c h : chainOk c -> absent c h -> detailsOf c h = Ok NullBlockDetails /\ c_details c !! h = None.
Proof.
  intros Hok Ha. assert (En : c_details c !! h = None).
  { destruct (c_details c !! h) as [d|] eqn:E; [|done]. by destruct (ok_details _ Hok h d E). }
  split; [|done]. unfold detailsOf, dbDetails, readExtras. rewrite En. unfold absent in Ha. by rewrite Ha.
Qed.
Lemma absent_stored c h d : chainOk c -> absent c h -> ~ stored (detailsOf c) h d.
Proof. intros Hok Ha [E Hd]. rewrite (proj1 (absent_details _ _ Hok Ha)) in E. by injection E as <-. Qed.

(** A stored block can be parsed from its header alone. *)
Lemma stored_header c h d hd : chainOk c -> stored (detailsOf c) h d -> headerOf c h = Ok hd ->
  exists bi, parseHeader sha3 (blockOf c h) BlockData (zeroHash 32) = Ok bi /\ extractHeader (blockOf c h) = Ok hd /\
    h_number bi = bd_number d /\ isHeader bi = true.
Proof.
  intros Hok Hd Eh. destruct (ok_blocks _ Hok h d Hd) as (bi & Ep & _ & En & Hh & _). exists bi. split; [done|].
  split; [|done]. unfold headerOf in Eh. unfold blockOf in *. destruct (decide (h = c_genesisHash c)) as [->|Hne].
  - injection Eh as <-. apply (ok_genesis _ Hok).
  - destruct (decide (db_get (c_blocksDB c) (toSlice h 0) = [])) as [E0|]; [|done]. by rewrite E0 in Ep.
Qed.

Section Enact.
Context {DB : Type} `{TrieStore DB} `{BlockDB DB}.
Context (recover : SignatureStruct -> bytes -> option bytes) (lhsFirst : bool) (now : Z).

Lemma info_reads h c : coherent c -> reads (info sha3 h) c (liftH (d ← headerOf c h; parseHeader sha3 d HeaderData (zeroHash 32))).
Proof.
  intros Hc. unfold info. pose proof (getHeaderData_reads h c Hc) as Hr. destruct (headerOf c h) as [hd|e]; cbn [liftH] in *.
  - eapply reads_bind; [exact Hr|]. intros c1 _. rewrite bind_Ok_l. apply reads_chdr.
  - by apply reads_bind_throw.
Qed.

(** Enactment succeeds on a block whose number follows its parent's. *)
Lemma enactOn_ok vb (b0 : Block DB) c d b1 c' pd : chainOk c -> stored (detailsOf c) (h_parentHash (vr_info vb)) pd ->
  enactOn sha3 recover lhsFirst now vb b0 c = (Ok (d, b1), c') ->
  copies c c' /\ d = h_difficulty (vr_info vb) /\ h_number (vr_info vb) = bd_number pd + 1.
Proof.
  intros Hok Hp E. pose proof (ok_coherent _ Hok) as Hc.
  split; [by eapply (quiet_ok _ _ _ _ (enactOn_quiet sha3 recover lhsFirst now vb b0))|].
  unfold enactOn in E. apply cbind_ok in E as (bp & c1 & Ei & E). destruct (reads_ok _ _ _ _ _ (info_reads _ _ Hc) Ei) as [Er _].
  destruct (headerOf c (h_parentHash (vr_info vb))) as [hd|] eqn:Eh; [|done]. rewrite bind_Ok_l in Er.
  destruct (parseHeader sha3 hd HeaderData (zeroHash 32)) as [bp'|] eqn:Ep; [|done]. injection Er as ->.
  destruct (stored_header _ _ _ _ Hok Hp Eh) as (bi & Eb & Ex & En & Hh). pose proof (parse_block_header _ _ _ _ _ _ Eb Ex Ep) as Ebp.
  apply cbind_ok in E as ([] & c2 & [Ev _]%chdr_ok & E). apply header_verify_number in Ev as [Ev _]; [|by rewrite Ebp].
  rewrite Ebp in Ev. cbn [set_memos h_number] in Ev. rewrite En in Ev. pose proof (tr_number _ _ (ok_tree _ Hok) _ _ Hp) as Hb.
  unfold InvalidBlockNumber in Hb. rewrite wrap_id in Ev by (unfold fits; lia). split; [|done].
  cinv. by eapply enact_difficulty.
Qed.
End Enact.

(** The caches do not matter. *)
Lemma detailsCached_view c x : detailsCached c -> detailsOf c x = dbDetails (c_extrasDB c) x.
Proof. intros Hd. unfold detailsOf. destruct (c_details c !! x) as [d|] eqn:E; [|done]. by destruct (Hd x d E). Qed.
Lemma sameBase_chainOk c c' : sameBase c c' -> coherent c' -> detailsCached c' -> chainOk c -> chainOk c'.
Proof.
  intros (B1 & B2 & B3 & B4 & B5 & B6 & B7 & B8) Hc' Hd' Hok.
  assert (ED : forall x, detailsOf c' x = detailsOf c x).
  { intros x. rewrite !detailsCached_view by (done || apply (ok_details _ Hok)). by rewrite B2. }
  pose proof (fun x d => stored_ext _ _ x d ED) as Es. pose proof (fun x => parentOf_ext _ _ x ED) as Ep.
  destruct Hok as [H1 H2 H3 H4 H5 H6 H7 H8 H9 H10]. split; [done|done|..].
  - rewrite B6. by eapply treeOk_ext.
  - intros x d. rewrite Es. apply H4.
  - by rewrite B5, B7.
  - intros x d. rewrite Es. unfold blockFits, blockOf. rewrite B6, B5, B1. apply H6.
  - unfold absent. by rewrite B1, B2.
  - rewrite B3, B4. destruct H8 as (d & Hd & E & Hmax). exists d. rewrite Es. split; [done|]. split; [done|].
    intros x d'. rewrite Es. apply Hmax.
  - intros k. rewrite B2, B3, B4, (anc_ext _ _ _ _ Ep). apply H9.
  - by rewrite B2, B3, B6.
Qed.
Lemma copies_chainOk c c' : copies c c' -> chainOk c -> chainOk c'.
Proof.
  intros Hcc Hok. apply (sameBase_chainOk c); [by apply copies_base| | |done].
  - by eapply cp_coherent, ok_coherent.
  - by eapply grows_detailsCached, ok_details; [apply copies_grows|].
Qed.

(** ** Setting the head *)

Definition atHead (h : bytes) (n : Z) (w : BlockChain) : BlockChain := set_lastLastHashes [] (putBest (set_last h n w)).

Lemma atHead_get h n w x s : u8 s <> 116 -> db_get (c_extrasDB (atHead h n w)) (toSlice x s) = db_get (c_extrasDB w) (toSlice x s).
Proof. intros Hs. unfold db_get. cbn. rewrite lookup_insert_ne; [done|]. by apply bestKey_slice. Qed.
Lemma atHead_read {T} `{Extra T} h n w x s : u8 s <> 116 ->
  readExtras (T := T) (c_extrasDB (atHead h n w)) (toSlice x s) = readExtras (c_extrasDB w) (toSlice x s).
Proof. intros Hs. by apply readExtras_eq, atHead_get. Qed.
Lemma atHead_number h n w m : dbBlockHash (c_extrasDB (atHead h n w)) m = dbBlockHash (c_extrasDB w) m.
Proof. unfold dbBlockHash. rewrite toSlice_number_eq. by apply atHead_read. Qed.
Lemma atHead_details h n w x : detailsOf (atHead h n w) x = detailsOf w x.
Proof. unfold detailsOf, dbDetails. by rewrite atHead_read. Qed.
Lemma atHead_stored h n w x d : stored (detailsOf (atHead h n w)) x d <-> stored (detailsOf w) x d.
Proof. apply stored_ext, atHead_details. Qed.

Lemma atHead_coherent h n w : coherent w -> (forall m v, c_blockHashes w !! m = Some v -> m <= n) -> coherent (atHead h n w).
Proof.
  intros [C1 C2 C3 C4 C5] Hb.
  assert (Hk : forall K T `{Countable K} `{Extra T} (m : gmap K T) key s, u8 s <> 116 ->
    cachedFrom (fun k => toSlice (key k) s) m (c_extrasDB w) -> cachedFrom (fun k => toSlice (key k) s) m (c_extrasDB (atHead h n w))).
  { intros K T EK CK ET m key s Hs Hm k v E. destruct (Hm k v E) as [H1 H2]. by rewrite atHead_get, atHead_read. }
  split; [by apply (Hk _ _ _ _ _ _ id 3)|by apply (Hk _ _ _ _ _ _ id 4)| |intros m v E; split; [by apply (C4 m v)|by eapply Hb]|done].
  intros m v E. destruct (C3 m v E) as [H1 H2]. cbn beta in *. rewrite toSlice_number_eq in *. by rewrite atHead_get, atHead_read.
Qed.

Lemma atHead_ok h n w d : coherent w -> (forall m v, c_blockHashes w !! m = Some v -> m <= n) -> detailsCached w ->
  treeOk (c_genesisHash w) (detailsOf w) -> (forall x d, stored (detailsOf w) x d -> wfDetails d) ->
  extractHeader (c_genesisBlock w) = Ok (c_genesisHeaderBytes w) -> (forall x d, stored (detailsOf w) x d -> blockFits w x d) ->
  (forall x, absent w x -> db_get (c_blocksDB w) (toSlice x 0) = [] /\
    db_get (c_extrasDB w) (toSlice x 3) = [] /\ db_get (c_extrasDB w) (toSlice x 4) = []) ->
  stored (detailsOf w) h d -> bd_number d = n -> (forall x d', stored (detailsOf w) x d' -> bd_totalDifficulty d' <= bd_totalDifficulty d) ->
  (forall k, Z.of_nat k < n -> dbBlockHash (c_extrasDB w) (n - Z.of_nat k) = Ok (mkBlockHash (anc (detailsOf w) k h))) ->
  chainOk (atHead h n w).
Proof.
  intros H1 Hb H2 H3 H4 H5 H6 H7 Hd Hn Hmax H9. split.
  - by apply atHead_coherent.
  - intros x d' E. destruct (H2 x d' E) as [? ?]. cbn beta in *. by rewrite atHead_get, atHead_read.
  - eapply treeOk_ext; [apply atHead_details|done].
  - intros x d'. rewrite atHead_stored. apply H4.
  - done.
  - intros x d'. rewrite atHead_stored. apply H6.
  - intros x. unfold absent. rewrite !atHead_get by done. apply H7.
  - exists d. rewrite atHead_stored. split; [done|]. split; [done|]. intros x d'. rewrite atHead_stored. apply Hmax.
  - intros k Hk. rewrite atHead_number. rewrite (anc_ext (detailsOf w)); [by apply H9|]. intros x. apply parentOf_ext, atHead_details.
  - left. unfold db_get. cbn. by rewrite lookup_insert_eq.
Qed.

(** ** After the writes *)

Section Written.
Context (Hsha3 : forall d, wf_bytes (sha3 d) /\ length (sha3 d) = 32%nat).
Context (vb : VerifiedBlockRef) (c c5 : BlockChain) (pd : BlockDetails) (td : Z) (e1 e2 e3 e4 : bytes) (index : WriteBatch).
Let h := hashOf sha3 (vr_info vb).
Let p := h_parentHash (vr_info vb).
Let nd := mkDetails (bd_number pd + 1) td p [].
Context (Hok : chainOk c) (Hparse : parseHeader sha3 (vr_block vb) BlockData (zeroHash 32) = Ok (vr_info vb)).
Context (Ha : absent c h) (Hnz : nonzero h = true) (Hp : stored (detailsOf c) p pd).
Context (Hnum : h_number (vr_info vb) = bd_number pd + 1) (Hlt : h_number (vr_info vb) < InvalidBlockNumber).
Context (Hhd : isHeader (vr_info vb) = true) (Htd : fits 256 td) (Hch : sizeZ (bd_children pd) < 2 ^ 16 - 1).
Context (Hg : grows (set_details (<[p := withChild h pd]> (c_details c)) c) c5).
Context (E1 : details_rlp (withChild h pd) = Ok e1) (E2 : details_rlp nd = Ok e2).
Context (Hix : forall kv, kv ∈ index -> keyKind 1 kv \/ keyKind 2 kv \/ keyKind 5 kv).
Context (Hnx : forall n v, c_blockHashes c5 !! n = Some v -> toSlice_number n 1 ∉ index.*1).

Definition family : WriteBatch := [(toSlice p 0, e1); (toSlice h 0, e2); (toSlice h 3, e3); (toSlice h 4, e4)].
Definition written : BlockChain := writeDBs [(toSlice h 0, vr_block vb)] (family ++ index) c5.

Lemma p_not_h : p <> h.
Proof. intros E. apply (absent_stored c h pd Hok Ha). by rewrite <-E. Qed.
Lemma h_hashOk : hashOk 32 h.
Proof. by eapply parse_hashOk. Qed.
Lemma p_hashOk : hashOk 32 p.
Proof. destruct (ok_blocks _ Hok p pd Hp) as (bi & Eb & Eh & _). rewrite <-Eh. by eapply parse_hashOk. Qed.

Lemma wf_new : wfDetails nd.
Proof.
  pose proof (tr_number _ _ (ok_tree _ Hok) _ _ Hp). unfold InvalidBlockNumber in *.
  split; [unfold fits; cbn; lia|]. split; [done|]. split; [apply p_hashOk|]. by split.
Qed.
Lemma wf_parent : wfDetails (withChild h pd).
Proof.
  destruct (ok_wf _ Hok p pd Hp) as (W1 & W2 & W3 & W4 & W5). split; [done|]. split; [done|]. split; [done|]. cbn. split.
  - apply Forall_app. split; [done|]. apply Forall_cons_2; [apply h_hashOk|by apply Forall_nil_2].
  - rewrite sizeZ_app, sizeZ_cons, sizeZ_nil. lia.
Qed.

Lemma index_free x s : u8 s <> 1 -> u8 s <> 2 -> u8 s <> 5 -> toSlice x s ∉ index.*1.
Proof.
  intros H1 H2 H5 (kv & Ek & Hkv)%list_elem_of_fmap. destruct (Hix _ Hkv) as [[id Eid]|[[id Eid]|[id Eid]]]; rewrite Eid in Ek;
    by apply toSlice_inj in Ek as [_ Ek].
Qed.

Lemma written_details x : db_get (c_extrasDB written) (toSlice x 0) =
  if decide (x = h) then e2 else if decide (x = p) then e1 else db_get (c_extrasDB c) (toSlice x 0).
Proof.
  cbn [written writeDBs set_dbs c_extrasDB]. rewrite db_write_app, db_get_other by (by apply index_free).
  rewrite (gr_extrasDB _ _ Hg). cbn [set_details c_extrasDB]. unfold family. unfold db_get. cbn.
  rewrite !(lookup_insert_ne _ (toSlice h _) (toSlice x 0)) by (by apply toSlice_kind).
  destruct (decide (x = h)) as [->|Hh]; [by rewrite lookup_insert_eq|].
  rewrite lookup_insert_ne by (by intros [? _]%toSlice_inj).
  destruct (decide (x = p)) as [->|Hpp]; [by rewrite lookup_insert_eq|]. by rewrite lookup_insert_ne by (by intros [? _]%toSlice_inj).
Qed.
Lemma written_other x s : (s = 3 \/ s = 4) -> x <> h -> db_get (c_extrasDB written) (toSlice x s) = db_get (c_extrasDB c) (toSlice x s).
Proof.
  intros Hs Hx. cbn [written writeDBs set_dbs c_extrasDB]. rewrite db_write_app, db_get_other by (apply index_free; destruct Hs as [-> | ->]; done).
  rewrite (gr_extrasDB _ _ Hg). cbn [set_details c_extrasDB]. unfold family. rewrite db_get_other; [done|]. cbn.
  rewrite !not_elem_of_cons. split; [destruct Hs as [-> | ->]; by apply toSlice_kind|].
  split; [destruct Hs as [-> | ->]; by apply toSlice_kind|]. split; [by intros [? _]%toSlice_inj|].
  split; [by intros [? _]%toSlice_inj|apply not_elem_of_nil].
Qed.
Lemma written_number k : k ∉ index.*1 -> (forall x s, s = 0 \/ s = 3 \/ s = 4 -> k <> toSlice x s) ->
  db_get (c_extrasDB written) k = db_get (c_extrasDB c) k.
Proof.
  intros Hk Hs. cbn [written writeDBs set_dbs c_extrasDB]. rewrite db_write_app, db_get_other by done. rewrite (gr_extrasDB _ _ Hg).
  unfold family. rewrite db_get_other; [done|]. cbn. rewrite !not_elem_of_cons.
  split_and!; [auto..|apply not_elem_of_nil].
Qed.
Lemma written_best : db_get (c_extrasDB written) bestKey = db_get (c_extrasDB c) bestKey.
Proof.
  apply written_number.
  - intros (kv & Ek & Hkv)%list_elem_of_fmap. destruct (Hix _ Hkv) as [[id Eid]|[[id Eid]|[id Eid]]]; rewrite Eid in Ek;
      by apply (bestKey_slice _ _) in Ek.
  - intros x s [-> |[-> | ->]]; by apply bestKey_slice.
Qed.
Lemma written_block x : db_get (c_blocksDB written) (toSlice x 0) = if decide (x = h) then vr_block vb else db_get (c_blocksDB c) (toSlice x 0).
Proof.
  cbn [written writeDBs set_dbs c_blocksDB]. rewrite (gr_blocksDB _ _ Hg). unfold db_get. cbn.
  destruct (decide (x = h)) as [->|Hh]; [by rewrite lookup_insert_eq|]. by rewrite lookup_insert_ne by (by intros [? _]%toSlice_inj).
Qed.

(** Which details are cached *)
Lemma cached_details x d : c_details c5 !! x = Some d ->
  x <> h /\ ((x = p /\ d = withChild h pd) \/ (x <> p /\ db_get (c_extrasDB c) (toSlice x 0) <> [] /\ dbDetails (c_extrasDB c) x = Ok d)).
Proof.
  intros E. assert (Hcases : (x = p /\ d = withChild h pd) \/ (x <> p /\ db_get (c_extrasDB c) (toSlice x 0) <> [] /\ dbDetails (c_extrasDB c) x = Ok d)).
  { apply (gr_new _ _ Hg) in E as [E|(En & E)]; cbn [set_details c_details c_extrasDB] in *.
    - apply lookup_insert_Some in E as [[<- <-]|[Hne E]]; [by left|]. right. split; [done|]. by apply (ok_details _ Hok).
    - apply lookup_insert_None in En as [_ Hne]. by right. }
  split; [|done]. intros ->. destruct Hcases as [[E' _]|(_ & Hn & _)]; [by apply p_not_h|done].
Qed.

Lemma written_extends : extends (detailsOf c) (detailsOf written) p h pd nd.
Proof.
  intros x. unfold detailsOf at 1. change (c_details written) with (c_details c5).
  destruct (c_details c5 !! x) as [d|] eqn:E.
  - apply cached_details in E as [Hx [(-> & ->)|(Hxp & Hd)]]; (rewrite (decide_False (P := _ = h)); [|done]).
    + by rewrite decide_True.
    + rewrite decide_False by done. unfold detailsOf. destruct (c_details c !! x) as [d'|] eqn:E'; [|by rewrite (proj2 Hd)].
      destruct (ok_details _ Hok _ _ E') as [_ Hd']. cbn in Hd'. unfold dbDetails in Hd. destruct Hd as [_ Hd]. congruence.
  - unfold dbDetails. destruct (decide (x = h)) as [->|Hh].
    { eapply (readExtras_written nd); [apply wf_new|exact E2|]. by rewrite written_details, decide_True. }
    destruct (decide (x = p)) as [->|Hpp].
    { exfalso. pose proof (gr_keep _ _ Hg p (withChild h pd) (lookup_insert_eq _ _ _)). congruence. }
    rewrite (readExtras_eq (c_extrasDB c) _ (toSlice x 0)) by (by rewrite written_details, !decide_False).
    unfold detailsOf. destruct (c_details c !! x) as [d'|] eqn:E'; [|done].
    pose proof (gr_keep _ _ Hg x d') as Hk. cbn [set_details c_details] in Hk. rewrite lookup_insert_ne in Hk by congruence.
    specialize (Hk E'). congruence.
Qed.

Lemma written_cached : detailsCached written.
Proof.
  intros x d E. apply cached_details in E as [Hx [(-> & ->)|(Hxp & Hn & Hd)]].
  - apply (readExtras_written (withChild h pd) _ _ e1); [apply wf_parent|exact E1|].
    by rewrite written_details, decide_False, decide_True.
  - assert (E0 : db_get (c_extrasDB written) (toSlice x 0) = db_get (c_extrasDB c) (toSlice x 0)) by (by rewrite written_details, !decide_False).
    rewrite E0. split; [done|]. by rewrite (readExtras_eq _ _ _ _ E0).
Qed.

Lemma coherent_before : coherent c5.
Proof. apply (gr_coherent _ _ Hg). by destruct (ok_coherent _ Hok). Qed.

Lemma number_not_index n : toSlice_number n 1 ∉ index.*1 -> db_get (c_extrasDB written) (toSlice_number n 1) = db_get (c_extrasDB c) (toSlice_number n 1).
Proof.
  intros Hn. apply written_number; [done|]. intros x s Hs. rewrite toSlice_number_eq.
  apply toSlice_kind. by destruct Hs as [-> |[-> | ->]].
Qed.

Lemma written_coherent : coherent written.
Proof.
  destruct coherent_before as [C1 C2 C3 C4 C5]. destruct (ok_family _ Hok h Ha) as (F0 & F3 & F4).
  rewrite (gr_extrasDB _ _ Hg) in C1, C2, C3. rewrite (gr_blocksDB _ _ Hg) in C5. split; cbn [written writeDBs set_dbs c_logBlooms c_receipts c_blockHashes c_blocks c_lastBlockNumber].
  - intros x v E. destruct (C1 x v E) as [Hn Hr]. cbn in Hn, Hr. assert (Hx : x <> h) by (by intros ->).
    fold written. pose proof (written_other x 3 ltac:(by left) Hx) as E0. cbn beta. rewrite E0. split; [done|]. by rewrite (readExtras_eq _ _ _ _ E0).
  - intros x v E. destruct (C2 x v E) as [Hn Hr]. cbn in Hn, Hr. assert (Hx : x <> h) by (by intros ->).
    fold written. pose proof (written_other x 4 ltac:(by right) Hx) as E0. cbn beta. rewrite E0. split; [done|]. by rewrite (readExtras_eq _ _ _ _ E0).
  - intros n v E. destruct (C3 n v E) as [Hn Hr]. cbn in Hn, Hr.
    fold written. pose proof (number_not_index n (Hnx n v E)) as E0. cbn beta. rewrite E0. split; [done|]. by rewrite (readExtras_eq _ _ _ _ E0).
  - done.
  - intros x b E. destruct (C5 x b E) as [Hb E0]. cbn in E0. split; [done|]. assert (Hx : x <> h) by (intros ->; congruence).
    fold written. by rewrite written_block, decide_False.
Qed.

Lemma written_tree : treeOk (c_genesisHash written) (detailsOf written).
Proof.
  change (c_genesisHash written) with (c_genesisHash c5). rewrite (gr_genesisHash _ _ Hg).
  eapply (extends_tree _ _ _ p h pd nd); [apply (ok_tree _ Hok)|done|by apply absent_details|apply written_extends|done|done|done|].
  cbn. lia.
Qed.

Lemma h_not_genesis : h <> c_genesisHash c.
Proof.
  intros E. destruct (tr_genesis _ _ (ok_tree _ Hok)) as (d & Hd & _). rewrite <-E in Hd. by eapply absent_stored.
Qed.
Lemma written_blockOf x : blockOf written x = if decide (x = h) then vr_block vb else blockOf c x.
Proof.
  unfold blockOf. change (c_genesisHash written) with (c_genesisHash c5). change (c_genesisBlock written) with (c_genesisBlock c5).
  rewrite (gr_genesisHash _ _ Hg), (gr_genesisBlock _ _ Hg), written_block. cbn [set_details c_genesisHash c_genesisBlock].
  destruct (decide (x = h)) as [->|]; [|done]. by rewrite decide_False by apply h_not_genesis.
Qed.

Lemma written_stored x d : stored (detailsOf written) x d ->
  (x = h /\ d = nd) \/ (x <> h /\ exists d0, stored (detailsOf c) x d0 /\ bd_number d0 = bd_number d /\
     bd_totalDifficulty d0 = bd_totalDifficulty d /\ bd_parent d0 = bd_parent d).
Proof.
  intros Hx. destruct (extends_cases _ _ p h pd nd written_extends x d Hx) as [?|[(-> & ->)|(Hh & _ & Hd)]]; [by left|right..].
  - split; [apply p_not_h|]. by exists pd.
  - split; [done|]. by exists d.
Qed.

Lemma written_blocks x d : stored (detailsOf written) x d -> blockFits written x d.
Proof.
  intros Hx. unfold blockFits. rewrite written_blockOf. change (c_genesisHash written) with (c_genesisHash c5). rewrite (gr_genesisHash _ _ Hg).
  apply written_stored in Hx as [(-> & ->)|(Hh & d0 & Hd & En & _ & Ep)].
  - exists (vr_info vb). rewrite decide_True by done. by split_and!.
  - rewrite decide_False by done. destruct (ok_blocks _ Hok _ _ Hd) as (bi & B1 & B2 & B3 & B4 & B5). exists bi.
    split_and!; [done|done|congruence|done|]. rewrite <-Ep. apply B5.
Qed.

Lemma written_wf x d : stored (detailsOf written) x d -> wfDetails d.
Proof.
  intros Hx. destruct (extends_cases _ _ p h pd nd written_extends x d Hx) as [(_ & ->)|[(_ & ->)|(_ & _ & Hd)]].
  - apply wf_new.
  - apply wf_parent.
  - by apply (ok_wf _ Hok x).
Qed.

Lemma e_nonempty : e1 <> [] /\ e2 <> [].
Proof.
  pose proof (extra_written (withChild h pd)) as W1. pose proof (extra_written nd) as W2.
  destruct (W1 wf_parent) as (d1 & Ed1 & Hd1 & _). destruct (W2 wf_new) as (d2 & Ed2 & Hd2 & _).
  change (details_rlp (withChild h pd) = Ok d1) in Ed1. change (details_rlp nd = Ok d2) in Ed2. split; congruence.
Qed.
Lemma written_family x : absent written x -> db_get (c_blocksDB written) (toSlice x 0) = [] /\
    db_get (c_extrasDB written) (toSlice x 3) = [] /\ db_get (c_extrasDB written) (toSlice x 4) = [].
Proof.
  unfold absent. rewrite written_details. destruct e_nonempty as [N1 N2].
  destruct (decide (x = h)) as [->|Hx]; [done|]. destruct (decide (x = p)) as [->|Hxp]; [done|]. intros Hax.
  rewrite written_block, decide_False, (written_other x 3), (written_other x 4) by auto. by apply (ok_family _ Hok).
Qed.

(** *** The head stays *)

Lemma written_heaviest d : stored (detailsOf c) (c_lastBlockHash c) d ->
  (forall x d', stored (detailsOf c) x d' -> bd_totalDifficulty d' <= bd_totalDifficulty d) -> td <= bd_totalDifficulty d ->
  forall x d', stored (detailsOf written) x d' -> bd_totalDifficulty d' <= bd_totalDifficulty d.
Proof.
  intros Hd Hmax Hle x d' [(-> & ->)|(_ & d0 & Hd0 & _ & E & _)]%written_stored; [done|]. rewrite <-E. by apply (Hmax x).
Qed.

Lemma written_side d : index = [] -> stored (detailsOf c) (c_lastBlockHash c) d -> td <= bd_totalDifficulty d -> chainOk written.
Proof.
  intros Ei Hd Hle. destruct (ok_head _ Hok) as (d0 & Hd0 & En & Hmax). rewrite (stored_fun _ _ _ _ Hd0 Hd) in *.
  assert (Elast : c_lastBlockHash written = c_lastBlockHash c) by apply (gr_last _ _ Hg).
  assert (Enum : c_lastBlockNumber written = c_lastBlockNumber c) by apply (gr_number _ _ Hg).
  split; [apply written_coherent|apply written_cached|apply written_tree|apply written_wf| |apply written_blocks|apply written_family|..].
  - change (extractHeader (c_genesisBlock c5) = Ok (c_genesisHeaderBytes c5)).
    rewrite (gr_genesisBlock _ _ Hg), (gr_genesisHeader _ _ Hg). apply (ok_genesis _ Hok).
  - rewrite Elast, Enum. destruct (extends_old _ _ p h pd nd Hp (proj1 (absent_details _ _ Hok Ha)) written_extends _ _ Hd) as (d' & Hd' & E1' & E2' & _).
    exists d'. split; [done|]. split; [congruence|]. rewrite E2'. by apply written_heaviest.
  - intros k Hk. rewrite Elast, Enum in *. unfold dbBlockHash. rewrite (readExtras_eq (c_extrasDB c) _ (toSlice_number (c_lastBlockNumber c - Z.of_nat k) 1)).
    2:{ apply number_not_index. rewrite Ei. apply not_elem_of_nil. }
    rewrite (extends_anc (c_genesisHash c) (detailsOf c) _ p h pd nd (ok_tree _ Hok) Hp (proj1 (absent_details _ _ Hok Ha)) written_extends k _ d Hd) by lia.
    by apply (ok_canonical _ Hok).
  - rewrite written_best, Elast. change (c_genesisHash written) with (c_genesisHash c5). rewrite (gr_genesisHash _ _ Hg). apply (ok_best _ Hok).
Qed.

(** *** The head moves *)

Section Moved.
Context (i j : nat) (ld : BlockDetails).
Let last := c_lastBlockHash c.
Let D := detailsOf c.
Context (Hl : stored D last ld) (Hlc : latestCommon D i j last ld p pd) (Hbest : bd_totalDifficulty ld <= td).
Context (Hnums : forall n v, c_blockHashes c5 !! n = Some v -> n <= bd_number ld - Z.of_nat i).
Context (Hin : forall x, x ∈ h :: upTo D j p -> exists bi kv, indexHeader sha3 vb c x bi /\ numberEntry sha3 bi kv /\ kv ∈ index).
Context (Hout : forall kv, kv ∈ index -> keyKind 2 kv \/ keyKind 5 kv \/
  exists x bi, x ∈ h :: upTo D j p /\ indexHeader sha3 vb c x bi /\ numberEntry sha3 bi kv).

Lemma common_number : bd_number ld - Z.of_nat i = bd_number pd - Z.of_nat j.
Proof.
  destruct Hlc as (E & Hi & Hj & _). pose proof (ok_tree _ Hok) as Ht.
  destruct (stored_anc _ D Ht i last ld Hl Hi) as (a & Hx & Ea). destruct (stored_anc _ D Ht j p pd Hp Hj) as (b & Hy & Eb).
  rewrite E in Hx. rewrite (stored_fun _ _ _ _ Hx Hy) in Ea. lia.
Qed.

(** The blocks of the new branch, with their numbers *)
Lemma branch_up a : Z.of_nat a <= bd_number pd -> anc (detailsOf written) (S a) h = anc D a p.
Proof.
  intros Hle. cbn [anc]. rewrite (extends_parentOf_new D _ p h pd nd written_extends eq_refl).
  by apply (extends_anc _ D _ p h pd nd (ok_tree _ Hok) Hp (proj1 (absent_details _ _ Hok Ha)) written_extends a p pd Hp).
Qed.
Lemma elem_of_branch x : x ∈ h :: upTo D j p <-> exists a, (a <= j)%nat /\ x = anc (detailsOf written) a h.
Proof.
  destruct Hlc as (_ & _ & Hj & _). rewrite elem_of_cons, elem_of_upTo. split.
  - intros [->|(a & Haj & ->)]; [by exists 0%nat; split; [lia|]|]. exists (S a). split; [lia|]. rewrite branch_up by lia. done.
  - intros ([|a] & Haj & ->); [by left|right]. exists a. split; [lia|]. apply branch_up. lia.
Qed.
Lemma branch_header a bi : (a <= j)%nat -> indexHeader sha3 vb c (anc (detailsOf written) a h) bi ->
  hashOf sha3 bi = anc (detailsOf written) a h /\ h_number bi = bd_number pd + 1 - Z.of_nat a /\ hashOk 32 (hashOf sha3 bi).
Proof.
  destruct Hlc as (_ & _ & Hj & _). unfold indexHeader. fold h. destruct a as [|a]; intros Haj.
  - rewrite decide_True by done. intros ->. split; [done|]. split; [lia|apply h_hashOk].
  - rewrite branch_up by lia. destruct (stored_anc _ D (ok_tree _ Hok) a p pd Hp ltac:(lia)) as (d & Hd & En).
    rewrite decide_False by (intros E; rewrite E in Hd; by eapply absent_stored). intros Hx.
    destruct (ok_blocks _ Hok _ _ Hd) as (bi' & E & Eh & En' & _). rewrite Hx in E. injection E as <-.
    split; [done|]. split; [lia|by eapply parse_hashOk].
Qed.

Lemma branch_number bi kv a : h_number bi = bd_number pd + 1 - Z.of_nat a -> (a <= j)%nat -> numberEntry sha3 bi kv ->
  kv.1 = toSlice_number (bd_number pd + 1 - Z.of_nat a) 1.
Proof.
  intros En Haj [Ek _]. destruct Hlc as (_ & _ & Hj & _). pose proof (tr_number _ _ (ok_tree _ Hok) _ _ Hp). unfold InvalidBlockNumber in *.
  rewrite Ek, En. apply toSlice_arith. unfold fits. lia.
Qed.

(** A number is in the index if and only if the new branch has a block with it. *)
Lemma index_number n v : (toSlice_number n 1, v) ∈ index -> fits 64 n ->
  exists a, (a <= j)%nat /\ n = bd_number pd + 1 - Z.of_nat a /\ blockHash_rlp (mkBlockHash (anc (detailsOf written) a h)) = Ok v.
Proof.
  intros Hkv Hf. rewrite toSlice_number_eq in Hkv.
  destruct (Hout _ Hkv) as [[id Eid]|[[id Eid]|(x & bi & Hx & Hbi & Hne)]]; [by apply toSlice_inj in Eid as [_ Eid]..|].
  apply elem_of_branch in Hx as (a & Haj & ->). destruct (branch_header a bi Haj Hbi) as (Eh & En & _). exists a. split; [done|].
  pose proof (branch_number _ _ _ En Haj Hne) as Ek. cbn [fst] in Ek. rewrite <-toSlice_number_eq in Ek.
  destruct Hlc as (_ & _ & Hj & _). pose proof (tr_number _ _ (ok_tree _ Hok) _ _ Hp). unfold InvalidBlockNumber in *.
  apply toSlice_number_inj in Ek; [|done|unfold fits; lia]. split; [done|]. destruct Hne as [_ Hv]. by rewrite Eh in Hv.
Qed.

Lemma numbers_not_index n v : c_blockHashes c5 !! n = Some v -> toSlice_number n 1 ∉ index.*1.
Proof.
  intros En ([k v'] & Ek & Hkv)%list_elem_of_fmap. cbn [fst] in Ek. subst k. pose proof (Hnums _ _ En) as Hn.
  pose proof (co_below _ coherent_before _ _ En) as Hb. rewrite (gr_number _ _ Hg) in Hb. cbn in Hb.
  destruct (ok_head _ Hok) as (d & Hd & Ed & _). pose proof (tr_number _ _ (ok_tree _ Hok) _ _ Hd). unfold InvalidBlockNumber in *.
  apply index_number in Hkv as (a & Haj & -> & _); [|unfold fits; lia].
  pose proof common_number. lia.
Qed.

(** The index by number holds the new branch, and below it what it held. *)
Lemma moved_canonical k : Z.of_nat k < bd_number pd + 1 ->
  dbBlockHash (c_extrasDB written) (bd_number pd + 1 - Z.of_nat k) = Ok (mkBlockHash (anc (detailsOf written) k h)).
Proof.
  intros Hk. pose proof (tr_number _ _ (ok_tree _ Hok) _ _ Hp) as Hpn. unfold InvalidBlockNumber in Hpn.
  assert (Hf : fits 64 (bd_number pd + 1 - Z.of_nat k)) by (unfold fits; lia).
  destruct (decide (k <= j)%nat) as [Hkj|Hkj].
  - destruct (Hin (anc (detailsOf written) k h)) as (bi & [k' v] & Hbi & Hkv & Hv); [apply elem_of_branch; by exists k|].
    destruct (branch_header k bi Hkj Hbi) as (Eh & En & Hh). rewrite Eh in Hh.
    pose proof (branch_number bi _ k En Hkj Hkv) as Ek. cbn [fst] in Ek. subst k'.
    apply (readExtras_written (mkBlockHash (anc (detailsOf written) k h)) _ _ v); [done|rewrite <-Eh; by destruct Hkv|].
    cbn [written writeDBs set_dbs c_extrasDB]. rewrite db_write_app. apply db_get_same; [done|].
    intros v' Hv'. apply index_number in Hv' as (a & _ & Ea & Er); [|done]. assert (a = k) as -> by lia.
    destruct Hkv as [_ Hkv]. cbn [snd] in Hkv. rewrite Eh in Hkv. congruence.
  - assert (Hni : toSlice_number (bd_number pd + 1 - Z.of_nat k) 1 ∉ index.*1).
    { intros ([k' v] & Ek & Hkv)%list_elem_of_fmap. cbn [fst] in Ek. subst k'. apply index_number in Hkv as (a & Haj & Ea & _); [lia|done]. }
    unfold dbBlockHash. rewrite (readExtras_eq _ _ _ _ (number_not_index _ Hni)).
    pose proof common_number as Hcn. destruct Hlc as (E & Hi & Hj & _). destruct (ok_head _ Hok) as (d & Hd & Ed & _).
    rewrite (stored_fun _ _ _ _ Hd Hl) in Ed. pose proof (ok_canonical _ Hok (i + (k - j - 1))%nat ltac:(lia)) as Hcan.
    replace (c_lastBlockNumber c - Z.of_nat (i + (k - j - 1))) with (bd_number pd + 1 - Z.of_nat k) in Hcan by lia.
    unfold dbBlockHash in Hcan. rewrite Hcan, anc_add. fold D last. rewrite E, <-anc_add, <-branch_up by lia. do 3 f_equal. lia.
Qed.

Lemma moved_ok : chainOk (atHead h (bd_number pd + 1) written).
Proof.
  pose proof (tr_number _ _ (ok_tree _ Hok) _ _ Hp). 
  apply (atHead_ok _ _ _ nd); [apply written_coherent| |apply written_cached|apply written_tree|apply written_wf| |
    apply written_blocks|apply written_family| |done| |apply moved_canonical].
  - intros m v E. apply Hnums in E. pose proof common_number. lia.
  - change (extractHeader (c_genesisBlock c5) = Ok (c_genesisHeaderBytes c5)).
    rewrite (gr_genesisBlock _ _ Hg), (gr_genesisHeader _ _ Hg). apply (ok_genesis _ Hok).
  - split; [by rewrite written_extends, decide_True|]. cbn. lia.
  - intros x d' [(-> & ->)|(_ & d0 & Hd0 & _ & E & _)]%written_stored; [done|]. rewrite <-E.
    destruct (ok_head _ Hok) as (d & Hd & _ & Hmax). rewrite (stored_fun _ _ _ _ Hd Hl) in Hmax. etrans; [by apply (Hmax x)|done].
Qed.
End Moved.
End Written.

(** ** The steps of an import *)

Lemma isBest_ok vb td last c b c' d : coherent c -> stored (detailsOf c) last d -> isBest sha3 vb td last c = (Ok b, c') ->
  copies c c' /\ if b then bd_totalDifficulty d <= td else td <= bd_totalDifficulty d.
Proof.
  intros Hc Hd E. split.
  { eapply (quiet_ok (isBest sha3 vb td last)); [|done|exact E]. unfold isBest. pose proof (info_quiet sha3). quiet. }
  unfold isBest in E. apply cbind_ok in E as (c0 & c1 & [-> ->]%cget_ok & E). apply cbind_ok in E as (d1 & c1 & Ed & E).
  pose proof (getDetails_reads last c) as Hr. rewrite (proj1 Hd) in Hr. destruct (reads_ok _ _ _ _ _ Hr Ed) as [[= <-] Hcc].
  destruct (Z.ltb_spec (bd_totalDifficulty d) td); [apply cret_ok in E as [<- _]; lia|].
  destruct (tieBreakingGas _); [|by apply cret_ok in E as [<- _]].
  apply cbind_ok in E as (d2 & c2 & Ed2 & E). pose proof (getDetails_reads last c1) as Hr2.
  rewrite (cp_details _ _ _ Hcc), (proj1 Hd) in Hr2. destruct (reads_ok _ _ _ _ _ Hr2 Ed2) as [[= <-] _].
  destruct (Z.eqb_spec td (bd_totalDifficulty d)); [|by apply cret_ok in E as [<- _]]. destruct b; lia.
Qed.

(** The chain after [addChild], while the databases do not have the child *)
Definition inProgress (p h : bytes) (pd : BlockDetails) (c : BlockChain) : BlockChain :=
  set_details (<[p := withChild h pd]> (c_details c)) c.

Lemma addChild_ok p h c pd d c' : stored (detailsOf c) p pd -> addChild p h c = (Ok d, c') ->
  d = withChild h pd /\ exists c1, copies c c1 /\ c' = inProgress p h pd c1.
Proof.
  intros Hp E. unfold addChild in E. apply cbind_ok in E as (d0 & c1 & Ed & E).
  pose proof (getDetails_reads p c) as Hr. rewrite (proj1 Hp) in Hr. destruct (reads_ok _ _ _ _ _ Hr Ed) as [[= <-] Hcc].
  apply cbind_ok in E as ([] & c2 & Ec2%cmodify_ok & E). apply cret_ok in E as [<- <-]. split; [done|]. by exists c1.
Qed.

Section InProgress.
Context (p h : bytes) (pd : BlockDetails) (c : BlockChain) (Hok : chainOk c) (Hp : stored (detailsOf c) p pd).
Context (c4 : BlockChain) (Hcp : copies (inProgress p h pd c) c4).

Lemma progress_details x : detailsOf c4 x = if decide (x = p) then Ok (withChild h pd) else detailsOf c x.
Proof.
  rewrite (cp_details _ _ _ Hcp). unfold detailsOf. cbn.
  destruct (decide (x = p)) as [->|Hne]; [by rewrite lookup_insert_eq|]. by rewrite lookup_insert_ne.
Qed.
Lemma progress_stored x d : stored (detailsOf c) x d -> exists d', stored (detailsOf c4) x d' /\ bd_number d' = bd_number d /\
  bd_totalDifficulty d' = bd_totalDifficulty d.
Proof.
  intros Hd. unfold stored at 1. pose proof (progress_details x) as E. destruct (decide (x = p)) as [->|].
  - rewrite (stored_fun _ _ _ _ Hd Hp). exists (withChild h pd). split; [|done]. split; [done|by destruct Hp].
  - exists d. split; [|done]. split; [rewrite E|]; by destruct Hd.
Qed.
Lemma progress_before x d : stored (detailsOf c4) x d -> exists d0, stored (detailsOf c) x d0 /\ bd_number d0 = bd_number d /\ bd_parent d0 = bd_parent d.
Proof.
  intros [E Hn]. rewrite progress_details in E. destruct (decide (x = p)) as [->|]; [injection E as <-; by exists pd|by exists d].
Qed.
Lemma progress_parent x : parentOf (detailsOf c4) x = parentOf (detailsOf c) x.
Proof. unfold parentOf. rewrite progress_details. destruct (decide (x = p)) as [->|]; [|done]. by rewrite (proj1 Hp). Qed.
Lemma progress_coherent : coherent c4.
Proof. apply (cp_coherent _ _ Hcp). by destruct (ok_coherent _ Hok). Qed.
Lemma progress_tree : treeOk (c_genesisHash c) (detailsOf c4).
Proof.
  pose proof (ok_tree _ Hok) as Ht. split.
  - destruct (tr_genesis _ _ Ht) as (d & Hd & E). destruct (progress_stored _ _ Hd) as (d' & Hd' & E' & _). exists d'. split; [done|congruence].
  - intros x d (d0 & Hd & <- & _)%progress_before. by eapply tr_number.
  - intros x d (d0 & Hd & _)%progress_before. by eapply tr_nonzero.
  - intros x d (d0 & Hd & <- & <-)%progress_before Hne. destruct (tr_parent _ _ Ht _ _ Hd Hne) as (d1 & Hd1 & E).
    destruct (progress_stored _ _ Hd1) as (d' & Hd' & E' & _). exists d'. split; [done|congruence].
Qed.
End InProgress.

Lemma latestCommon_ext D D' i j from df df' to dt dt' : (forall x, parentOf D' x = parentOf D x) ->
  bd_number df' = bd_number df -> bd_number dt' = bd_number dt -> latestCommon D' i j from df' to dt' -> latestCommon D i j from df to dt.
Proof.
  intros Ep Ef Et (E & Hi & Hj & Hm). unfold latestCommon. rewrite <-!(anc_ext D D') by done. rewrite <-Ef, <-Et.
  split; [done|]. split; [done|]. split; [done|]. intros a b Ha Hb. rewrite <-!(anc_ext D D') by done. by apply Hm.
Qed.

Section Steps.
Context (Hsha3 : forall d, wf_bytes (sha3 d) /\ length (sha3 d) = 32%nat).
Context {DB : Type} `{TrieStore DB} `{BlockDB DB}.
Context (sha3_512 : bytes -> bytes) (eval : bytes -> bytes -> bytes -> bytes * bytes).
Context (recover : SignatureStruct -> bytes -> option bytes) (lhsFirst : bool) (now : Z).
Context (vb : VerifiedBlockRef).
Let h := hashOf sha3 (vr_info vb).
Let p := h_parentHash (vr_info vb).

(** The total difficulty of the block on a parent with the details [pd] *)
Definition newDetails (pd : BlockDetails) : BlockDetails :=
  mkDetails (bd_number pd + 1) (u256 (bd_totalDifficulty pd + h_difficulty (vr_info vb))) p [].

(** The head is the new block if it is heavier or as heavy, and the route is that from the old head to it. *)
Definition headAfter (c c' : BlockChain) (pd : BlockDetails) (dead live : list bytes) : Prop :=
  exists ld, stored (detailsOf c) (c_lastBlockHash c) ld /\
  ((c_lastBlockHash c' = h /\ c_lastBlockNumber c' = bd_number pd + 1 /\ bd_totalDifficulty ld <= bd_totalDifficulty (newDetails pd) /\
    exists i j, latestCommon (detailsOf c) i j (c_lastBlockHash c) ld p pd /\
      dead = upTo (detailsOf c) i (c_lastBlockHash c) /\ live = reverse (h :: upTo (detailsOf c) j p)) \/
   (c_lastBlockHash c' = c_lastBlockHash c /\ c_lastBlockNumber c' = c_lastBlockNumber c /\
    bd_totalDifficulty (newDetails pd) <= bd_totalDifficulty ld /\ dead = [] /\ live = [])).

Definition imported (c c' : BlockChain) (r : ImportRoute) : Prop :=
  chainOk c' /\ exists pd, stored (detailsOf c) p pd /\ extends (detailsOf c) (detailsOf c') p h pd (newDetails pd) /\
    (forall x, blockOf c' x = if decide (x = h) then vr_block vb else blockOf c x) /\
    headAfter c c' pd (deadBlocks r) (liveBlocks r).

Context (Hparse : parseHeader sha3 (vr_block vb) BlockData (zeroHash 32) = Ok (vr_info vb)).
Context (Hnz : nonzero h = true) (Hlt : h_number (vr_info vb) < InvalidBlockNumber) (Hhd : isHeader (vr_info vb) = true).

(** The steps from [addChild] on *)
Definition importTail (pd : BlockDetails) (blb : BlockLogBlooms) (br : BlockReceipts) (txs : list Transaction) : cm ImportRoute :=
  let td := u256 (bd_totalDifficulty pd + h_difficulty (vr_info vb)) in
  pd1 ← addChild p h;
  er ← crlp (receipts_rlp br);
  family ← familyBatch h p pd1 (mkDetails (u32 (bd_number pd + 1)) td p []) blb er;
  c ← cget;
  let last := c_lastBlockHash c in
  best ← isBest sha3 vb td last;
  '(route, common, index) ← (if best : bool then newHead sha3 vb last else mret ([], zeroHash 32, []));
  _ ← cmodify (writeDBs [(toSlice h 0, vr_block vb)] (family ++ index));
  _ ← cmodify (if best : bool then setBest h (u32 (h_number (vr_info vb))) else id);
  _ ← cmodify (if bool_decide (route <> []) then set_lastLastHashes [] else id);
  mret (mkRoute (before common route) (after common route) txs).

Lemma imported_copies c c1 c' r : copies c c1 -> imported c1 c' r -> imported c c' r.
Proof.
  intros Hcc (Hok & pd & Hp & Hx & Hb & ld & Hl & Hh). pose proof (copies_grows _ _ Hcc) as Hg.
  assert (ED : forall x, detailsOf c1 x = detailsOf c x) by (intros; by apply cp_details).
  pose proof (fun x => parentOf_ext _ _ x ED) as Ep.
  unfold stored in Hp, Hl. rewrite ED in Hp, Hl. rewrite (gr_last _ _ Hg), (gr_number _ _ Hg) in *.
  split; [done|]. exists pd. split; [done|]. split; [intros x; rewrite <-ED; apply Hx|].
  split; [intros x; rewrite <-(grows_block _ _ _ Hg); apply Hb|]. exists ld. split; [done|].
  destruct Hh as [(H1 & H2 & H3 & i & j & H4 & H5 & H6)|?]; [|by right]. left. split; [done|]. split; [done|]. split; [done|].
  exists i, j. rewrite <-!(upTo_ext (detailsOf c) (detailsOf c1)) by done. split; [|done]. by eapply latestCommon_ext.
Qed.

Lemma tail_side pd c c5 txs e1 e2 e3 e4 ld : chainOk c -> absent c h -> stored (detailsOf c) p pd ->
  h_number (vr_info vb) = bd_number pd + 1 -> sizeZ (bd_children pd) < 2 ^ 16 - 1 ->
  details_rlp (withChild h pd) = Ok e1 -> details_rlp (newDetails pd) = Ok e2 ->
  grows (inProgress p h pd c) c5 -> stored (detailsOf c) (c_lastBlockHash c) ld -> bd_totalDifficulty (newDetails pd) <= bd_totalDifficulty ld ->
  imported c (written vb c5 e1 e2 e3 e4 []) (mkRoute [] [] txs).
Proof.
  intros Hok Ha Hp Hn Hch E1 E2 Hg Hl Hle. assert (Htd : fits 256 (u256 (bd_totalDifficulty pd + h_difficulty (vr_info vb)))) by (apply wrap_fits; lia).
  assert (Hi : forall kv, kv ∈ ([] : WriteBatch) -> keyKind 1 kv \/ keyKind 2 kv \/ keyKind 5 kv) by (by intros kv ?%elem_of_nil).
  split.
  - eapply (written_side Hsha3 vb c c5 pd); try done. intros. apply not_elem_of_nil.
  - exists pd. split; [done|]. split; [by eapply (written_extends Hsha3 vb c c5 pd)|]. split; [by eapply (written_blockOf vb c c5 pd)|].
    exists ld. split; [done|]. right. split; [apply (gr_last _ _ Hg)|]. split; [apply (gr_number _ _ Hg)|]. done.
Qed.

Lemma tail_best pd c c4 c5 txs e1 e2 e3 e4 ld ld' route common index i j : chainOk c -> absent c h -> stored (detailsOf c) p pd ->
  h_number (vr_info vb) = bd_number pd + 1 -> sizeZ (bd_children pd) < 2 ^ 16 - 1 ->
  details_rlp (withChild h pd) = Ok e1 -> details_rlp (newDetails pd) = Ok e2 ->
  copies (inProgress p h pd c) c4 -> stored (detailsOf c) (c_lastBlockHash c) ld -> bd_totalDifficulty ld <= bd_totalDifficulty (newDetails pd) ->
  bd_number ld' = bd_number ld -> c_lastBlockHash c4 = c_lastBlockHash c ->
  headMoved sha3 vb c4 ld' (withChild h pd) i j route common index c5 ->
  imported c (atHead h (bd_number pd + 1) (written vb c5 e1 e2 e3 e4 index)) (mkRoute (before common route) (after common route) txs).
Proof.
  intros Hok Ha Hp Hn Hch E1 E2 Hcp Hl Hle Eld El [H1 H2 H3 H4 H5 H6 H7 H8].
  assert (Htd : fits 256 (u256 (bd_totalDifficulty pd + h_difficulty (vr_info vb)))) by (apply wrap_fits; lia).
  pose proof (progress_parent p h pd c Hp c4 Hcp) as Epar. rewrite El in H1, H2. rewrite (upTo_ext _ _ _ _ Epar) in H2.
  rewrite (upTo_ext _ _ _ _ Epar) in H3.  setoid_rewrite (upTo_ext _ _ _ _ Epar) in H7. setoid_rewrite (upTo_ext _ _ _ _ Epar) in H8.
  assert (Hg : grows (inProgress p h pd c) c5) by (transitivity c4; [by apply copies_grows|done]).
  assert (Hlc : latestCommon (detailsOf c) i j (c_lastBlockHash c) ld p pd) by (eapply (latestCommon_ext _ (detailsOf c4)); [done| | |exact H1]; done).
  assert (Hih : forall x bi, indexHeader sha3 vb c4 x bi <-> indexHeader sha3 vb c x bi).
  { intros x bi. unfold indexHeader. by rewrite (grows_block _ _ _ (copies_grows _ _ Hcp)). }
  assert (Hin : forall x, x ∈ h :: upTo (detailsOf c) j p -> exists bi kv, indexHeader sha3 vb c x bi /\ numberEntry sha3 bi kv /\ kv ∈ index).
  { intros x Hx. destruct (H7 x Hx) as (bi & kv & Hbi & Hr). exists bi, kv. by rewrite <-Hih. }
  assert (Hout : forall kv, kv ∈ index -> keyKind 2 kv \/ keyKind 5 kv \/
    exists x bi, x ∈ h :: upTo (detailsOf c) j p /\ indexHeader sha3 vb c x bi /\ numberEntry sha3 bi kv).
  { intros kv Hkv. destruct (H8 kv Hkv) as [?|[?|(x & bi & Hx & Hbi & Hr)]]; [auto..|]. right. right. exists x, bi. by rewrite <-Hih. }
  assert (Hix : forall kv, kv ∈ index -> keyKind 1 kv \/ keyKind 2 kv \/ keyKind 5 kv).
  { intros kv Hkv. destruct (Hout kv Hkv) as [?|[?|(x & bi & _ & _ & Ek & _)]]; [auto..|]. left. by eexists. }
  rewrite Eld in H6.
  assert (Hnx : forall n v, c_blockHashes c5 !! n = Some v -> toSlice_number n 1 ∉ index.*1).
  { by eapply (numbers_not_index Hsha3 vb c c5 pd). }
  split; [by eapply (moved_ok Hsha3 vb c c5 pd)|]. exists pd. split; [done|].
  split; [intros x; rewrite atHead_details; by eapply (written_extends Hsha3 vb c c5 pd)|].
  split; [intros x; by eapply (written_blockOf vb c c5 pd)|]. exists ld. split; [done|]. left. split; [done|]. split; [done|]. split; [done|].
  exists i, j. done.
Qed.

Lemma importTail_ok pd blb br txs c r c' : chainOk c -> absent c h -> stored (detailsOf c) p pd ->
  h_number (vr_info vb) = bd_number pd + 1 -> sizeZ (bd_children pd) < 2 ^ 16 - 1 ->
  importTail pd blb br txs c = (Ok r, c') -> imported c c' r.
Proof.
  intros Hok0 Ha0 Hp0 Hn Hch E. unfold importTail in E. apply cbind_ok in E as (pd1 & c1 & Ea & E).
  destruct (addChild_ok _ _ _ _ _ _ Hp0 Ea) as (-> & c2 & Hcc & ->). apply (imported_copies c c2); [done|].
  pose proof (copies_chainOk _ _ Hcc Hok0) as Hok.
  assert (Ha : absent c2 h) by (unfold absent; by rewrite (cp_extrasDB _ _ Hcc)).
  assert (Hp : stored (detailsOf c2) p pd) by (unfold stored; by rewrite (cp_details _ _ _ Hcc)). clear c Hok0 Ha0 Hp0 Hcc Ea.
  apply cbind_ok in E as (er & c3 & [_ <-]%crlp_ok & E). unfold familyBatch in E.
  apply cbind_ok in E as (fam & c3 & Ef & E). cinv.
  pose proof (tr_number _ _ (ok_tree _ Hok) _ _ Hp) as Hpn. unfold InvalidBlockNumber in Hpn.
  rewrite (wrap_id 32) in Hm3 by (unfold fits; lia). rename Hm2 into E1, Hm3 into E2, Hm0 into Eb, Hm1 into Eh.
  destruct (ok_head _ Hok) as (ld & Hl & Eln & _). assert (Hr : copies (inProgress p h pd c2) (inProgress p h pd c2)) by done.
  destruct (progress_stored p h pd c2 Hp _ Hr _ _ Hl) as (ld1 & Hl1 & En1 & Etd1).
  destruct (isBest_ok _ _ _ _ _ _ ld1 (progress_coherent p h pd c2 Hok _ Hr) Hl1 Eb) as [Hcp Hbest]. rewrite Etd1 in Hbest.
  pose proof (gr_last _ _ (copies_grows _ _ Hcp)) as El. pose proof (gr_number _ _ (copies_grows _ _ Hcp)) as Eln'.
  destruct a0.
  - rewrite <-El in Eh. destruct (progress_stored p h pd c2 Hp _ Hcp _ _ Hl) as (ld' & Hl' & En' & _).
    destruct (progress_stored p h pd c2 Hp _ Hcp _ _ Hp) as (pd' & Hp' & _).
    assert (pd' = withChild h pd) as -> by (destruct Hp' as [E _]; rewrite (progress_details p h pd c2 _ Hcp), decide_True in E by done; by injection E).
    assert (Hnew : forall d, ~ stored (detailsOf c0) h d).
    { intros d (d0 & Hd0 & _)%(progress_before p h pd c2 Hp _ Hcp). by eapply absent_stored. }
    assert (Hl0 : stored (detailsOf c0) (c_lastBlockHash c0) ld') by (by rewrite El).
    assert (Eln0 : bd_number ld' = c_lastBlockNumber c0) by (rewrite Eln'; cbn; congruence).
    destruct (newHead_ok sha3 vb (c_genesisHash c2) c0 ld' (withChild h pd) (progress_coherent p h pd c2 Hok _ Hcp)
      (progress_tree p h pd c2 Hok Hp _ Hcp) Hl0 Eln0 Hp' Hnew _ _ _ _ Eh) as (i & j & Hmv).
    rewrite bool_decide_true by apply (hm_route _ _ _ _ _ _ _ _ _ _ _ Hmv).
    assert (Hne : c_lastBlockHash c1 <> h).
    { rewrite (gr_last _ _ (hm_grows _ _ _ _ _ _ _ _ _ _ _ Hmv)), El. intros E. cbn in E. rewrite E in Hl. by eapply absent_stored. }
    unfold setBest. cbn [writeDBs set_dbs c_lastBlockHash]. rewrite decide_False by done.
    rewrite (wrap_id 32), Hn by (unfold fits, InvalidBlockNumber in *; lia).
    by eapply (tail_best pd c2 c0 c1 txs a2 a3 a4 er ld ld').
  - apply cret_ok in Eh as [[= <- <- <-] <-]. rewrite (bool_decide_false ([] <> [])) by (by intros []).
    eapply (tail_side pd c2 c0 txs a2 a3 a4 er ld); try done. by apply copies_grows.
Qed.

Lemma import_split db mustBeNew c r db' c' : import_verified sha3 sha3_512 eval recover lhsFirst now vb db mustBeNew c = (Ok (r, db'), c') ->
  exists c1 pd c2 c3 d (s s1 : Block DB) c4, checkNew sha3 vb mustBeNew c = (Ok tt, c1) /\
    checkParent sha3 sha3_512 eval recover now vb c1 = (Ok pd, c2) /\
    enactOn sha3 recover lhsFirst now vb (newBlock sha3 (c_params c2) db) c2 = (Ok (d, s), c3) /\ cleanup now true s c3 = (Ok s1, c4) /\
    (d = h_difficulty (vr_info vb) ->
     importTail pd (mkLogBlooms (rc_bloom <$> b_receipts s)) (mkBlockReceipts (b_receipts s)) (b_transactions s) c4 = (Ok r, c')).
Proof.
  unfold import_verified. intros E. apply cbind_ok in E as ([] & c1 & E1 & E). apply cbind_ok in E as (pd & c2 & E2 & E).
  apply cbind_ok in E as (c2' & c2'' & [-> ->]%cget_ok & E). apply cbind_ok in E as ([d s] & c3 & E3 & E).
  apply cbind_ok in E as (s1 & c4 & E4 & E). exists c1, pd, c2, c3, d, s, s1, c4. do 4 (split; [done|]). intros ->. unfold importTail.
  repeat match goal with
  | E : (_ ≫= _) _ = (Ok _, _) |- _ =>
      apply cbind_ok in E as (? & ? & ? & E); apply cbind_ok; do 2 eexists; split; [eassumption|]
  | a : _ * _ |- _ => destruct a
  end.
  apply cret_ok in E as [[= <- _] <-]. by apply cret_ok.
Qed.

Lemma checkNew_copies mustBeNew c u c' : coherent c -> checkNew sha3 vb mustBeNew c = (Ok u, c') -> copies c c'.
Proof. apply quiet_ok. unfold checkNew. quiet. Qed.

Lemma checkParent_ok c pd c' : coherent c -> checkParent sha3 sha3_512 eval recover now vb c = (Ok pd, c') ->
  copies c c' /\ stored (detailsOf c) p pd.
Proof.
  intros Hc E. split.
  { eapply (quiet_ok (checkParent sha3 sha3_512 eval recover now vb)); [|done|exact E]. unfold checkParent.
    pose proof (verifyBlock_quiet sha3 sha3_512 eval recover). quiet. }
  unfold checkParent in E. apply cbind_ok in E as (pd0 & c1 & Ed & E). destruct (reads_ok _ _ _ _ _ (getDetails_reads p c) Ed) as [Er _].
  apply cbind_ok in E as ([] & c2 & [Hn _]%cguard_ok & E).
  assert (pd0 = pd) as -> by (repeat (apply cbind_ok in E as (? & ? & _ & E)); by apply cret_ok in E as [-> _]).
  unfold stored. destruct (detailsOf c p) as [d|] eqn:Ep; [|done]. injection Er as ->. split; [done|].
  unfold details_isNull in Hn. lia.
Qed.

(** An import that returns keeps the chain consistent and adds the block. *)
Lemma importBlock_ok db mustBeNew c r db' c' : chainOk c -> absent c h ->
  (forall pd, stored (detailsOf c) p pd -> sizeZ (bd_children pd) < 2 ^ 16 - 1) ->
  import_verified sha3 sha3_512 eval recover lhsFirst now vb db mustBeNew c = (Ok (r, db'), c') -> imported c c' r.
Proof.
  intros Hok Ha Hch E. destruct (import_split _ _ _ _ _ _ E) as (c1 & pd & c2 & c3 & d & s & s1 & c4 & E1 & E2 & E3 & E4 & E5).
  pose proof (checkNew_copies _ _ _ _ (ok_coherent _ Hok) E1) as H1. pose proof (copies_chainOk _ _ H1 Hok) as Hok1.
  destruct (checkParent_ok _ _ _ (ok_coherent _ Hok1) E2) as [H2 Hp1]. pose proof (copies_chainOk _ _ H2 Hok1) as Hok2.
  assert (Hp : stored (detailsOf c) p pd) by (unfold stored; by rewrite <-(cp_details _ _ _ H1)).
  assert (Hp2 : stored (detailsOf c2) p pd) by (unfold stored; by rewrite (cp_details _ _ _ H2)).
  destruct (enactOn_ok recover lhsFirst now vb _ _ _ _ _ pd Hok2 Hp2 E3) as (H3 & Ed & Hn). pose proof (copies_chainOk _ _ H3 Hok2) as Hok3.
  pose proof (quiet_ok _ _ _ _ (cleanup_quiet now true s) (ok_coherent _ Hok3) E4) as H4.
  assert (Hcc : copies c c4) by (do 3 (etrans; [eassumption|]); done). apply (imported_copies c c4); [done|].
  eapply importTail_ok; [by eapply copies_chainOk|by unfold absent; rewrite (cp_extrasDB _ _ Hcc)| |exact Hn|by apply Hch|by apply E5].
  unfold stored. by rewrite (cp_details _ _ _ Hcc).
Qed.

(** The part of an import before anything is stored: checks and execution *)
Definition importHead (db : DB) (mustBeNew : bool) : cm (Block DB) :=
  _ ← checkNew sha3 vb mustBeNew;
  _ ← checkParent sha3 sha3_512 eval recover now vb;
  c ← cget;
  '(_, s) ← enactOn sha3 recover lhsFirst now vb (newBlock sha3 (c_params c) db);
  cleanup now true s.

Lemma importHead_quiet db mustBeNew : quiet (importHead db mustBeNew).
Proof.
  unfold importHead, checkNew, checkParent. pose proof (verifyBlock_quiet sha3 sha3_512 eval recover).
  pose proof (enactOn_quiet (DB := DB) sha3 recover lhsFirst now). pose proof (cleanup_quiet (DB := DB) now). quiet.
Qed.

(** What the checks or the execution throw, the import throws. *)
Lemma import_rejects db mustBeNew c e c' : importHead db mustBeNew c = (Throw e, c') ->
  import_verified sha3 sha3_512 eval recover lhsFirst now vb db mustBeNew c = (Throw e, c').
Proof.
  unfold importHead, import_verified, cget. unfold mbind, cm_bind. destruct (checkNew sha3 vb mustBeNew c) as [[u|e1] c1]; [|by intros [= -> ->]].
  destruct (checkParent sha3 sha3_512 eval recover now vb c1) as [[pd|e2] c2]; [|by intros [= -> ->]].
  destruct (enactOn sha3 recover lhsFirst now vb (newBlock sha3 (c_params c2) db) c2) as [[[d s]|e3] c3]; [|by intros [= -> ->]].
  destruct (cleanup now true s c3) as [[s1|e4] c4]; [|by intros [= -> ->]]. intros E. discriminate E.
Qed.
End Steps.
End Chain.
