(* ===== verification/ChainSafety.v ===== *)
(** * The chain: reachable states and the theorems about imports

    A chain is opened on new databases or on those of a chain that was closed; it imports
    blocks, is read and collects its caches.  In every state it is consistent in the sense
    of [chainOk], and an import does what [imported] says. *)

From Stdlib Require Import ZArith Lia.
From stdpp Require Import base list list_numbers option gmap.
From S2P Require Import Prelude CommonData RLP RLPTheory FixedHash TrieHash ExtVMFace State StateTheory Transaction TrieCommon Trie TrieDBTheory Executive BlockHeader HeaderTheory Elhash ElhashTheory BlockQueue BlockDetails BlockDetailsTheory BlockChain ChainOps Block ChainImport ChainDBTheory TreeRouteTheory BlockTheory ChainBatchTheory ChainImportTheory.

(** ** Opening *)

Lemma fromBigEndian_fits w l : 0 <= w -> fits w (fromBigEndian w l).
Proof.
  intros Hw. unfold fromBigEndian. destruct l as [|b l' _] using rev_ind.
  - split; [done|]. by apply Z.pow_pos_nonneg.
  - rewrite fold_left_app. by apply wrap_fits.
Qed.
Lemma toInt_fits d f v : RLP.toInt (Some 256) d f = Ok v -> fits 256 v.
Proof.
  unfold RLP.toInt. intros E. inv_ok. assert (H0 : fits 256 0) by done. destruct (_ || _ || _).
  - destruct (hasFlag f ThrowOnFail); [done|]. by injection E as <-.
  - inv_ok. destruct (_ && _); [destruct (hasFlag f ThrowOnFail); [done|by injection E as <-]|].
    injection E as <-. by apply fromBigEndian_fits.
Qed.
Lemma populate_difficulty d m w bi : populate d m w = Ok bi -> fits 256 (h_difficulty bi).
Proof.
  unfold populate. intros E. do 7 (apply bind_Ok in E as (? & _ & E)). apply bind_Ok in E as (v & Ev & E).
  do 8 (apply bind_Ok in E as (? & _ & E)). injection E as <-. cbn. unfold intField in Ev. apply bind_Ok in Ev as (i & _ & Ev).
  destruct (RLP.toInt (Some 256) i Strict) as [v'|] eqn:Et; [|done]. injection Ev as ->. by eapply toInt_fits.
Qed.
Lemma parse_difficulty sha3 b t w bi : parseHeader sha3 b t w = Ok bi -> fits 256 (h_difficulty bi).
Proof. unfold parseHeader. intros E. apply bind_Ok in E as (d & _ & E). by eapply populate_difficulty. Qed.

Lemma getDetails_none h c : c_details c !! h = None -> db_get (c_extrasDB c) (toSlice h 0) = [] -> getDetails h c = (Ok NullBlockDetails, c).
Proof. intros E1 E2. unfold getDetails, cquery, queryDetails, queryExtras. by rewrite E1, E2. Qed.
Lemma getDetails_cached h c d : c_details c !! h = Some d -> getDetails h c = (Ok d, c).
Proof. intros E. unfold getDetails, cquery, queryDetails, queryExtras. by rewrite E. Qed.

(** A chain before any database is there *)
Definition blankChain (p : ChainOperationParams) : BlockChain :=
  mkChain ∅ ∅ ∅ ∅ ∅ ∅ ∅ ∅ ∅ [] ∅ [] (zeroHash 32) 0 [] (zeroHash 32) [] p.

Lemma set_last_coherent h n c : coherent c -> (forall m v, c_blockHashes c !! m = Some v -> m <= n) -> coherent (set_last h n c).
Proof. intros [C1 C2 C3 C4 C5] Hb. split; try done. cbn. intros m v E. split; [by apply (C4 m v)|by eapply Hb]. Qed.

Section Open.
Context (sha3 : bytes -> bytes) (Hsha3 : forall d, wf_bytes (sha3 d) /\ length (sha3 d) = 32%nat).

(** A genesis block: it has the number zero, a time stamp and a hash other than zero. *)
Definition genesisOk (block : bytes) : Prop :=
  exists bi, parseHeader sha3 block BlockData (zeroHash 32) = Ok bi /\ h_number bi = 0 /\ isHeader bi = true /\
    nonzero (hashOf sha3 bi) = true.

(** The chain that [open] makes of the genesis block *)
Definition genesisChain (p : ChainOperationParams) (block hd : bytes) (bi : BlockHeader) (e : bytes) : BlockChain :=
  let g := hashOf sha3 bi in
  mkChain ∅ {[toSlice g 0 := e]} ∅ {[g := mkDetails 0 (h_difficulty bi) (zeroHash 32) []]} ∅ ∅ ∅ ∅ ∅ (replicate c_collectionQueueSize ∅) ∅ []
    g 0 block g hd p.

Lemma open_genesis p block c0 c1 bi : parseHeader sha3 block BlockData (zeroHash 32) = Ok bi ->
  init_chain sha3 p block (blankChain p) = Ok c0 -> open_chain sha3 false c0 = (Ok tt, c1) ->
  exists hd e, extractHeader block = Ok hd /\ details_rlp (mkDetails 0 (h_difficulty bi) (zeroHash 32) []) = Ok e /\
    c1 = genesisChain p block hd bi e.
Proof.
  intros Ep Ei Eo. unfold init_chain in Ei. rewrite Ep, bind_Ok_l in Ei. apply bind_Ok in Ei as (hd & Eh & Ei). injection Ei as <-.
  exists hd. set (c0 := mkChain _ _ _ _ _ _ _ _ _ _ _ _ _ _ _ _ _ _) in Eo. unfold open_chain in Eo.
  apply cbind_ok in Eo as (c & c2 & [-> ->]%cget_ok & Eo). apply cbind_ok in Eo as ([] & c3 & Eg & Eo).
  apply cbind_ok in Eg as (d & c2 & Ed & Eg). rewrite getDetails_none in Ed by done. injection Ed as <- <-.
  cbn [details_isNull NullBlockDetails bd_number] in Eg. change (InvalidBlockNumber =? InvalidBlockNumber) with true in Eg. cbn iota in Eg.
  apply cbind_ok in Eg as (bi' & c2 & [Ebi <-]%chdr_ok & Eg). change (c_genesisBlock c0) with block in Ebi. rewrite Ep in Ebi. injection Ebi as <-.
  apply cbind_ok in Eg as ([] & c2 & Epg & Eg). unfold putGenesis in Epg. apply cbind_ok in Epg as (e & c4 & [Ee <-]%crlp_ok & Epg%cmodify_ok).
  exists e. split; [done|]. split; [done|]. apply cbind_ok in Eg as (k & c5 & Ek & [_ <-]%cguard_ok).
  assert (c5 = c2) as ->.
  { unfold getKnown in Ek. rewrite decide_True in Ek by (by rewrite Epg). by injection Ek as _ <-. }
  apply cbind_ok in Eo as (c & c3 & [-> ->]%cget_ok & Eo).
  assert (El : db_get (c_extrasDB c2) bestKey = []).
  { rewrite Epg. unfold db_get. cbn [set_details set_dbs c_extrasDB]. rewrite lookup_insert_ne; [done|]. by apply not_eq_sym, bestKey_slice. }
  rewrite El, decide_True in Eo by done. apply cbind_ok in Eo as ([] & c3 & Ec3%cmodify_ok & Eo).
  apply cbind_ok in Eo as (n & c4 & En & Ec4%cmodify_ok). unfold getNumber in En. apply cbind_ok in En as (d & c5 & Ed & [<- <-]%cret_ok).
  rewrite (getDetails_cached _ _ (mkDetails 0 (h_difficulty bi) (zeroHash 32) [])) in Ed.
  2:{ rewrite Ec3, Epg. cbn. by rewrite lookup_insert_eq. }
  injection Ed as <- <-. rewrite Ec4, Ec3, Epg. unfold genesisChain. done.
Qed.

Lemma genesis_ok p block hd bi e : parseHeader sha3 block BlockData (zeroHash 32) = Ok bi -> h_number bi = 0 -> isHeader bi = true ->
  nonzero (hashOf sha3 bi) = true -> extractHeader block = Ok hd -> details_rlp (mkDetails 0 (h_difficulty bi) (zeroHash 32) []) = Ok e ->
  chainOk sha3 (genesisChain p block hd bi e).
Proof.
  intros Ep Hn Hh Hz Eh Ee. set (c := genesisChain p block hd bi e). set (g := hashOf sha3 bi) in *.
  set (d := mkDetails 0 (h_difficulty bi) (zeroHash 32) []) in *.
  assert (Hw : wfDetails d).
  { split; [unfold fits; cbn; lia|]. split; [by eapply parse_difficulty|]. split; [split; [by apply wf_bytes_replicate|done]|by split]. }
  assert (Hg : db_get (c_extrasDB c) (toSlice g 0) = e) by (unfold db_get; cbn; by rewrite lookup_singleton_eq).
  assert (Ho : forall k, k <> toSlice g 0 -> db_get (c_extrasDB c) k = []) by (intros k Hk; unfold db_get; cbn; by rewrite lookup_singleton_ne).
  assert (HD : forall x, detailsOf c x = if decide (x = g) then Ok d else Ok NullBlockDetails).
  { intros x. unfold detailsOf. cbn. destruct (decide (x = g)) as [->|Hne]; [by rewrite lookup_singleton_eq|].
    rewrite lookup_singleton_ne by done. unfold dbDetails, readExtras.
    rewrite Ho; [done|]. by intros [? _]%toSlice_inj. }
  assert (Hs : forall x d', stored (detailsOf c) x d' -> x = g /\ d' = d).
  { intros x d' [E Hd']. rewrite HD in E. destruct (decide (x = g)); [by injection E as <-|]. by injection E as <-. }
  assert (Hgs : stored (detailsOf c) g d) by (split; [by rewrite HD, decide_True|done]).
  split.
  - split; try done.
  - intros x d' E. cbn in E. apply lookup_singleton_Some in E as [<- <-]. apply (readExtras_written d _ _ e); done.
  - split.
    + exists d. done.
    + by intros x d' [-> ->]%Hs.
    + by intros x d' [-> ->]%Hs.
    + by intros x d' [-> ->]%Hs.
  - by intros x d' [-> ->]%Hs.
  - done.
  - intros x d' [-> ->]%Hs. exists bi. unfold blockOf. rewrite decide_True by done. by split_and!.
  - intros x _. split; [done|]. rewrite !Ho by (by apply toSlice_kind). done.
  - exists d. split; [done|]. split; [done|]. by intros x d' [-> ->]%Hs.
  - intros k Hk. cbn in Hk. lia.
  - right. split; [|done]. apply Ho. by apply bestKey_slice.
Qed.

(** [reopen] with the parameters as they are *)
Definition reopened (c c1 : BlockChain) : Prop :=
  exists c0, init_chain sha3 (c_params c) (c_genesisBlock c) (close_chain c) = Ok c0 /\ open_chain sha3 false c0 = (Ok tt, c1).

(** Setting the head again on empty caches of numbers *)
Lemma set_last_blank h n c : coherent c -> detailsCached c -> c_blockHashes c = ∅ -> coherent (set_last h n c) /\ detailsCached (set_last h n c).
Proof. intros Hc Hd E. split; [|done]. apply set_last_coherent; [done|]. intros m v. by rewrite E, lookup_empty. Qed.

Lemma init_closed c c0 : chainOk sha3 c -> init_chain sha3 (c_params c) (c_genesisBlock c) (close_chain c) = Ok c0 ->
  coherent c0 /\ detailsCached c0 /\ c_blockHashes c0 = ∅ /\ c_genesisHash c0 = c_genesisHash c /\ sameBase c (set_last (c_lastBlockHash c) (c_lastBlockNumber c) c0).
Proof.
  intros Hok Ei. unfold init_chain in Ei. destruct (tr_genesis _ _ (ok_tree _ _ Hok)) as (d & Hd & _).
  destruct (ok_blocks _ _ Hok _ _ Hd) as (bi & Ep & Eh & _). unfold blockOf in Ep. rewrite decide_True in Ep by done.
  rewrite Ep, bind_Ok_l, (ok_genesis _ _ Hok), bind_Ok_l in Ei. injection Ei as <-. rewrite Eh. by split_and!.
Qed.

Lemma reopened_ok c c1 : chainOk sha3 c -> reopened c c1 -> chainOk sha3 c1 /\ sameBase c c1.
Proof.
  intros Hok (c0 & Ei & Eo). destruct (init_closed _ _ Hok Ei) as (Hc0 & Hd0 & Hb0 & Eg0 & Hs0).
  assert (EDB : c_extrasDB c0 = c_extrasDB c) by apply Hs0.
  assert (ED : forall x, detailsOf c0 x = detailsOf c x).
  { intros x. rewrite !detailsCached_view by (done || apply (ok_details _ _ Hok)). by rewrite EDB. }
  unfold open_chain in Eo. apply cbind_ok in Eo as (c' & c'' & [-> ->]%cget_ok & Eo). apply cbind_ok in Eo as ([] & c2 & Eg & Eo).
  destruct (tr_genesis _ _ (ok_tree _ _ Hok)) as (d & Hd & Ed0).
  assert (H2 : copies c0 c2 /\ c_blockHashes c2 = ∅).
  { apply cbind_ok in Eg as (d' & c3 & Ed & Eg). destruct (reads_ok _ _ _ _ _ (getDetails_reads _ c0) Ed) as [Er Hcc].
    destruct (tame_ok _ _ _ _ (getDetails_tame _) Hc0 Ed) as (_ & Hb & _). rewrite Eg0, ED, (proj1 Hd) in Er. injection Er as <-.
    unfold details_isNull in Eg. rewrite Ed0 in Eg. apply cret_ok in Eg as [_ <-]. split; [done|congruence]. }
  destruct H2 as [Hcc2 Hb2]. pose proof (cp_coherent _ _ Hcc2 Hc0) as Hc2. pose proof (grows_detailsCached _ _ (copies_grows _ _ Hcc2) Hd0) as Hd2.
  apply cbind_ok in Eo as (c' & c'' & [-> ->]%cget_ok & Eo).
  destruct (ok_head _ _ Hok) as (ld & Hl & Eln & _).
  assert (Eh : (if decide (db_get (c_extrasDB c2) bestKey = []) then c_genesisHash c2 else take 32 (db_get (c_extrasDB c2) bestKey)) = c_lastBlockHash c).
  { rewrite (cp_extrasDB _ _ Hcc2), EDB, (gr_genesisHash _ _ (copies_grows _ _ Hcc2)), Eg0.
    destruct (ok_blocks _ _ Hok _ _ Hl) as (bi & Ep & Eh & _). destruct (parse_hashOk sha3 Hsha3 _ _ Ep) as [_ Hsz]. rewrite Eh in Hsz.
    unfold sizeZ in Hsz. destruct (ok_best _ _ Hok) as [-> |[-> ->]]; [|done].
    destruct (decide (c_lastBlockHash c = [])) as [E0|_]; [by rewrite E0 in Hsz|]. apply take_ge. lia. }
  rewrite Eh in Eo. apply cbind_ok in Eo as ([] & c3 & Ec3%cmodify_ok & Eo).
  destruct (set_last_blank (c_lastBlockHash c) (c_lastBlockNumber c2) c2 Hc2 Hd2 Hb2) as [Hc3 Hd3]. rewrite <-Ec3 in Hc3, Hd3.
  apply cbind_ok in Eo as (n & c4 & En & Ec4%cmodify_ok).
  assert (ED3 : detailsOf c3 (c_lastBlockHash c) = Ok ld).
  { rewrite detailsCached_view by done. rewrite Ec3. cbn [set_last c_extrasDB]. rewrite (cp_extrasDB _ _ Hcc2), EDB.
    rewrite <-detailsCached_view by apply (ok_details _ _ Hok). apply Hl. }
  destruct (reads_ok _ _ _ _ _ (getNumber_reads _ c3 ld ED3) En) as [[= <-] Hcc4].
  destruct (tame_ok _ _ _ _ (getNumber_tame _) Hc3 En) as (Hg4 & Hb4 & Hc4). rewrite Ec3 in Hb4. cbn in Hb4. rewrite Hb2 in Hb4.
  destruct (set_last_blank (c_lastBlockHash c) (bd_number ld) c4 Hc4 (grows_detailsCached _ _ Hg4 Hd3) Hb4) as [Hc5 Hd5].
  rewrite <-Ec4 in Hc5, Hd5.
  assert (Hs : sameBase c c1).
  { pose proof (copies_base _ _ Hcc2) as S2. pose proof (grows_base _ _ Hg4) as S4. rewrite Ec3 in S4.
    rewrite Ec4. rewrite Eln. unfold sameBase in *. cbn in *. intuition congruence. }
  split; [|done]. by apply (sameBase_chainOk sha3 c).
Qed.
End Open.

(** ** Reachable chains *)

Section Reachable.
Context (sha3 : bytes -> bytes) (Hsha3 : forall d, wf_bytes (sha3 d) /\ length (sha3 d) = 32%nat).
Context {DB : Type} `{TrieStore DB} `{BlockDB DB}.
Context (sha3_512 : bytes -> bytes) (eval : bytes -> bytes -> bytes -> bytes * bytes).
Context (recover : SignatureStruct -> bytes -> option bytes) (lhsFirst : bool).

(** A block with the header [bi] that is not there yet, within the widths of the records *)
Record importable (c : BlockChain) (block : bytes) (bi : BlockHeader) : Prop := mkImportable {
  ia_parse : parseHeader sha3 block BlockData (zeroHash 32) = Ok bi;
  ia_hash : nonzero (hashOf sha3 bi) = true;
  ia_absent : absent c (hashOf sha3 bi);
  ia_number : h_number bi < InvalidBlockNumber;
  ia_time : isHeader bi = true;
  ia_children : forall pd, stored (detailsOf c) (h_parentHash bi) pd -> sizeZ (bd_children pd) < 2 ^ 16 - 1
}.

(** The checks and the execution of [import(bytes)] *)
Definition tryBlock (now : Z) (block : bytes) (db : DB) (mustBeNew : bool) : cm (Block DB) :=
  vb ← chain_verifyBlock sha3 sha3_512 eval recover block IR_OutOfOrderChecks;
  importHead sha3 sha3_512 eval recover lhsFirst now vb db mustBeNew.

Lemma verified_ref block ir c vb c' : chain_verifyBlock sha3 sha3_512 eval recover block ir c = (Ok vb, c') ->
  vr_block vb = block /\ parseHeader sha3 block BlockData (zeroHash 32) = Ok (vr_info vb).
Proof.
  unfold chain_verifyBlock. intros E. apply cbind_ok in E as (bi & c1 & [Ep _]%chdr_ok & E).
  do 6 (apply cbind_ok in E as (? & ? & _ & E)). apply cret_ok in E as [<- _]. done.
Qed.

Lemma import_bytes_ok now block bi db mustBeNew c r db' c' : chainOk sha3 c -> importable c block bi ->
  import_bytes sha3 sha3_512 eval recover lhsFirst now block db mustBeNew c = (Ok (r, db'), c') ->
  imported sha3 (mkVerifiedRef block bi []) c c' r.
Proof.
  intros Hok [I1 I2 I3 I4 I5 I6] E. unfold import_bytes in E. apply cbind_ok in E as (vb & c1 & Ev & E).
  pose proof (quiet_ok _ _ _ _ (verifyBlock_quiet sha3 sha3_512 eval recover block _) (ok_coherent _ _ Hok) Ev) as Hcc.
  destruct (verified_ref _ _ _ _ _ Ev) as [Eb Ep]. rewrite I1 in Ep. injection Ep as ->.
  destruct vb as [b i ts]. cbn in Eb, I2, I3, I4, I5, I6. subst b.
  assert (Hi : imported sha3 (mkVerifiedRef block i ts) c1 c' r).
  { eapply (importBlock_ok sha3 Hsha3 sha3_512 eval recover lhsFirst now (mkVerifiedRef block i ts)); [done..| | | |exact E].
    - by eapply copies_chainOk.
    - unfold absent. by rewrite (cp_extrasDB _ _ Hcc).
    - intros pd Hp. apply I6. unfold stored in *. by rewrite <-(cp_details _ _ _ Hcc). }
  apply (imported_copies sha3 (mkVerifiedRef block i []) c c1); [done|]. exact Hi.
Qed.

Lemma import_bytes_rejects now block db mustBeNew c e c' : chainOk sha3 c -> tryBlock now block db mustBeNew c = (Throw e, c') ->
  import_bytes sha3 sha3_512 eval recover lhsFirst now block db mustBeNew c = (Throw e, c') /\ copies c c'.
Proof.
  intros Hok E. split.
  - revert E. unfold tryBlock, import_bytes, mbind, cm_bind. destruct (chain_verifyBlock _ _ _ _ _ _ c) as [[vb|e1] c1]; [|by intros [= -> ->]].
    apply import_rejects.
  - assert (Hq : quiet (tryBlock now block db mustBeNew)).
    { unfold tryBlock. pose proof (verifyBlock_quiet sha3 sha3_512 eval recover block).
      pose proof (importHead_quiet (DB := DB) sha3). quiet. }
    specialize (Hq c (ok_coherent _ _ Hok)). by rewrite E in Hq.
Qed.

Lemma reading_chainOk c c' : reading c c' -> chainOk sha3 c -> chainOk sha3 c' /\ sameBase c c'.
Proof.
  intros Hr Hok. assert (Hq : forall A (m : cm A), quiet m -> chainOk sha3 (m c).2 /\ sameBase c (m c).2).
  { intros A m Hm. specialize (Hm c (ok_coherent _ _ Hok)). split; [by eapply copies_chainOk|by apply copies_base]. }
  destruct Hr as [c h|c h|c h|c h|c id|c h|c h|c h b|c n Hn|c]; try (apply Hq; solve [eauto with chain]).
  - destruct (getNumberHash_reads n c (ok_coherent _ _ Hok) Hn) as (c1 & E & Hcc). rewrite E.
    split; [by eapply copies_chainOk|by apply copies_base].
  - destruct (collect_coherent c (ok_coherent _ _ Hok) (ok_details _ _ Hok)) as (H1 & H2 & H3). split; [|done].
    by apply (sameBase_chainOk sha3 c).
Qed.

Inductive reachable : BlockChain -> Prop :=
| rc_open p block c0 c1 : genesisOk sha3 block -> init_chain sha3 p block (blankChain p) = Ok c0 ->
    open_chain sha3 false c0 = (Ok tt, c1) -> reachable c1
| rc_import now block bi db mustBeNew c r db' c' : reachable c -> importable c block bi ->
    import_bytes sha3 sha3_512 eval recover lhsFirst now block db mustBeNew c = (Ok (r, db'), c') -> reachable c'
| rc_reject now block db mustBeNew c e c' : reachable c -> tryBlock now block db mustBeNew c = (Throw e, c') -> reachable c'
| rc_read c c' : reachable c -> reading c c' -> reachable c'
| rc_reopen c c' : reachable c -> reopened sha3 c c' -> reachable c'.

Lemma reachable_ok c : reachable c -> chainOk sha3 c.
Proof.
  induction 1 as [p block c0 c1 (bi & Ep & Hn & Hh & Hz) Ei Eo|now block bi db m c r db' c' _ IH Hi E|now block db m c e c' _ IH E
    |c c' _ IH Hr|c c' _ IH Hr].
  - destruct (open_genesis sha3 p block c0 c1 bi Ep Ei Eo) as (hd & e & Eh & Ee & ->). by apply genesis_ok.
  - eapply import_bytes_ok; done.
  - eapply copies_chainOk; [|done]. by eapply import_bytes_rejects.
  - by eapply reading_chainOk.
  - by eapply (reopened_ok sha3 Hsha3 c).
Qed.

(** C27: A chain is consistent in every state that it can reach by opening, importing, rejecting
    blocks, reading, collecting and reopening: the details of the stored blocks form a tree that
    agrees with their headers, the head is a heaviest of them, asking for a number up to the
    head's gives the ancestor of the head with that number, and reopening finds the same head. *)
Theorem chain_invariant c : reachable c ->
  treeOk (c_genesisHash c) (detailsOf c) /\ (forall h d, stored (detailsOf c) h d -> blockFits sha3 c h d) /\
  (exists d, stored (detailsOf c) (c_lastBlockHash c) d /\ bd_number d = c_lastBlockNumber c /\
     (forall h d', stored (detailsOf c) h d' -> bd_totalDifficulty d' <= bd_totalDifficulty d) /\
     (forall k, Z.of_nat k < bd_number d -> exists c',
        getNumberHash (bd_number d - Z.of_nat k) c = (Ok (anc (detailsOf c) k (c_lastBlockHash c)), c'))) /\
  (forall c1, reopened sha3 c c1 -> c_lastBlockHash c1 = c_lastBlockHash c /\ c_lastBlockNumber c1 = c_lastBlockNumber c).
Proof.
  intros Hr%reachable_ok. split; [apply (ok_tree _ _ Hr)|]. split; [apply (ok_blocks _ _ Hr)|]. split.
  - destruct (ok_head _ _ Hr) as (d & Hd & En & Hmax). exists d. split; [done|]. split; [done|]. split; [done|]. intros k Hk.
    destruct (getNumberHash_reads (bd_number d - Z.of_nat k) c (ok_coherent _ _ Hr) ltac:(lia)) as (c' & E & _). exists c'. rewrite E.
    unfold numberHashOf. rewrite (proj2 (Z.eqb_neq _ 0)) by lia. rewrite En, (ok_canonical _ _ Hr) by lia. done.
  - intros c1 H1. by destruct (reopened_ok sha3 Hsha3 c c1 Hr H1) as [_ (_ & _ & E1 & E2 & _)].
Qed.

End Reachable.

(** ** An example: a reorganisation

    Two blocks without transactions on the same genesis; the second comes later and is heavier. *)

Definition exRoot (ds : list bytes) : bytes := match orderedTrieRoot countHash ds with Ok r => r | Throw _ => [] end.
Definition exHead (n : Z) (parent : bytes) (root t d : Z) : BlockHeader :=
  mkHeader parent (countHash [192]) (ofArith 32 root) (exRoot []) (exRoot []) (zeroHash 256) n 3141592 0 [] t (zeroHash 20) d []
    (zeroHash 32) (zeroHash 32).
Definition exSeals (k : Z) : list item := [Str (zeroHash 32); Str (ofArith 8 k)].
Definition exSealed (k n : Z) (parent : bytes) (root t d : Z) : bytes :=
  encode (Lst (blockItems (exHead n parent root t d) (exSeals k) [] [])).
Definition exParsed (b : bytes) : BlockHeader :=
  match parseHeader countHash b BlockData (zeroHash 32) with Ok bi => bi | Throw _ => newHeader end.

Definition exGenesis : bytes := exSealed 1 0 (zeroHash 32) 1 5 131072.
Definition exGenesisHash : bytes := hashOf countHash (exParsed exGenesis).
Definition exSlow : bytes := exSealed 2 1 exGenesisHash 2 20 131072.
Definition exQuick : bytes := exSealed 3 1 exGenesisHash 2 10 131136.

#[local] Instance exBlockDB : BlockDB mapStore := {| db_commit db := db; db_rollback db := db |}.
Definition exStore : mapStore := mkMapStore {[1 := ∅]} 2 {[1 := [1]]}.
Definition exEval (seed h nonce : bytes) : bytes * bytes := (zeroHash 32, zeroHash 32).
Definition exRecover (s : SignatureStruct) (h : bytes) : option bytes := None.
#[local] Notation exImport b := (import_bytes (DB := mapStore) countHash countHash exEval exRecover false 100 b exStore true).
Definition exReachable : BlockChain -> Prop := reachable (DB := mapStore) countHash countHash exEval exRecover false.

(** The states and results, evaluated *)
Definition exInit : BlockChain := Eval vm_compute in
  match init_chain countHash newParams exGenesis (blankChain newParams) with Ok c => c | Throw _ => blankChain newParams end.
Definition exOpened : BlockChain := Eval vm_compute in (open_chain countHash false exInit).2.
Definition returned (x : result chain_error (ImportRoute * mapStore) * BlockChain) : ImportRoute * mapStore :=
  match x.1 with Ok r => r | Throw _ => (mkRoute [] [] [], exStore) end.
Definition exSlowOut := Eval vm_compute in returned (exImport exSlow exOpened).
Definition exFork : BlockChain := Eval vm_compute in (exImport exSlow exOpened).2.
Definition exQuickOut := Eval vm_compute in returned (exImport exQuick exFork).
Definition exReorg : BlockChain := Eval vm_compute in (exImport exQuick exFork).2.

Lemma exSlow_import : exImport exSlow exOpened = (Ok exSlowOut, exFork).
Proof. vm_compute. reflexivity. Qed.
Lemma exQuick_import : exImport exQuick exFork = (Ok exQuickOut, exReorg).
Proof. vm_compute. reflexivity. Qed.

Lemma countHash_wf d : wf_bytes (countHash d) /\ length (countHash d) = 32%nat.
Proof. unfold countHash, ofArith. rewrite toBigEndian_spec. split; [apply be_bytes_wf|apply be_bytes_length]. Qed.

Lemma exOpened_reachable : exReachable exOpened.
Proof.
  apply (rc_open _ _ _ _ _ newParams exGenesis exInit); [|vm_compute; reflexivity|vm_compute; reflexivity].
  exists (exParsed exGenesis). split_and!; vm_compute; reflexivity.
Qed.

Lemma exImportable c b : parseHeader countHash b BlockData (zeroHash 32) = Ok (exParsed b) ->
  nonzero (hashOf countHash (exParsed b)) = true -> db_get (c_extrasDB c) (toSlice (hashOf countHash (exParsed b)) 0) = [] ->
  h_number (exParsed b) < InvalidBlockNumber -> isHeader (exParsed b) = true ->
  match detailsOf c (h_parentHash (exParsed b)) with Ok d => sizeZ (bd_children d) <? 2 ^ 16 - 1 | Throw _ => true end = true ->
  importable countHash c b (exParsed b).
Proof. intros H1 H2 H3 H4 H5 H6. split; try done. intros pd [E _]. rewrite E in H6. lia. Qed.

Lemma exSlow_importable : importable countHash exOpened exSlow (exParsed exSlow).
Proof. apply exImportable; vm_compute; reflexivity. Qed.
Lemma exFork_reachable : exReachable exFork.
Proof. eapply rc_import; [apply exOpened_reachable|apply exSlow_importable|apply exSlow_import]. Qed.
Lemma exQuick_importable : importable countHash exFork exQuick (exParsed exQuick).
Proof. apply exImportable; vm_compute; reflexivity. Qed.
Lemma exReorg_reachable : exReachable exReorg.
Proof. eapply rc_import; [apply exFork_reachable|apply exQuick_importable|apply exQuick_import]. Qed.

Lemma chain_invariant_witness :
  c_lastBlockHash exReorg = hashOf countHash (exParsed exQuick) /\
  exists d, stored (detailsOf exReorg) (c_lastBlockHash exReorg) d /\ bd_number d = c_lastBlockNumber exReorg.
Proof.
  split; [vm_compute; reflexivity|].
  destruct (chain_invariant countHash countHash_wf countHash exEval exRecover false exReorg exReorg_reachable) as (_ & _ & (d & Hd & En & _) & _).
  exists d. split; [exact Hd|exact En].
Defined.


(** [rebuild] gives the genesis the number that marks missing details, so that the first block it imports ends the process. *)
Example rebuild_exits : (rebuild (DB := mapStore) countHash countHash exEval exRecover false 100 131072 exStore exFork).1 = Throw ChExit.
Proof. vm_compute. reflexivity. Qed.

(** A number above a new head that is lower than the old one would still be found: after [rewind] the cache of the numbers is as it was. *)
Example rewind_keeps_number :
  let c := (rewind 0 (getNumberHash 1 exReorg).2).2 in
  c_lastBlockNumber c = 0 /\ c_blockHashes c !! 1 = Some (mkBlockHash (hashOf countHash (exParsed exQuick))).
Proof. vm_compute. split; reflexivity. Qed.

(** A block with the state root of its parent is accepted although the reward has changed the state; any other wrong root is refused. *)
Example state_root_unchecked :
  match (exImport (exSealed 4 1 exGenesisHash 1 10 131136) exOpened).1 with Ok _ => true | Throw _ => false end = true /\
  match (exImport (exSealed 4 1 exGenesisHash 3 10 131136) exOpened).1 with Ok _ => None | Throw e => Some e end = Some (ChBlock BkInvalidStateRoot).
Proof. vm_compute. split; reflexivity. Qed.
