(* ===== verification/LogFilter.v ===== *)
(** * libelementrem/LogFilter.{h,cpp} and the search for logs in ClientBase.{h,cpp}

    A filter asks for the logs of some addresses with some topics.  [logs] finds the
    blocks that may have such logs by the index of blooms and looks through their
    receipts.  Watches keep filters by their hash.

    An unordered set is a set; its elements are visited in the order of [elements],
    which stands for any order.  The pending block is given by its receipts.  Reading
    past the end of the topics of a log is undefined behaviour: [None]. *)

From Stdlib Require Import ZArith Lia.
From stdpp Require Import base list list_numbers option gmap.
From S2P Require Import Prelude CommonData RLP FixedHash ExtVMFace State Transaction Executive BlockHeader Elhash TransactionQueue BlockQueue BlockDetails BlockChain ChainOps.

(** ** Filters *)

Definition LatestBlockHash : bytes := ofArith 32 2.
Definition EarliestBlockHash : bytes := ofArith 32 1.
Definition PendingBlockHash : bytes := ofArith 32 0.
Definition LatestBlock : Z := u32 (-2).
Definition PendingBlock : Z := u32 (-1).

Record LogFilter := mkFilter {
  lf_addresses : gset Address;
  lf_topics : list (gset h256);
  lf_earliest : bytes;
  lf_latest : bytes
}.

Definition newFilter (earliest latest : bytes) : LogFilter := mkFilter ∅ (replicate 4 ∅) earliest latest.
Definition filter_address (a : Address) (f : LogFilter) : LogFilter :=
  mkFilter ({[a]} ∪ lf_addresses f) (lf_topics f) (lf_earliest f) (lf_latest f).
Definition filter_topic (index : Z) (t : h256) (f : LogFilter) : LogFilter :=
  if index <? 4 then mkFilter (lf_addresses f) (alter (union {[t]}) (Z.to_nat index) (lf_topics f)) (lf_earliest f) (lf_latest f) else f.
Definition withEarliest (e : bytes) (f : LogFilter) : LogFilter := mkFilter (lf_addresses f) (lf_topics f) e (lf_latest f).
Definition withLatest (e : bytes) (f : LogFilter) : LogFilter := mkFilter (lf_addresses f) (lf_topics f) (lf_earliest f) e.

Definition isRangeFilter (f : LogFilter) : bool :=
  bool_decide (lf_addresses f = ∅) && forallb (fun t => bool_decide (t = ∅)) (lf_topics f).

(** [matches(TransactionReceipt)]: the topics of one log from the position [i] on *)
Fixpoint matchTopics (ts : list (gset h256)) (i : nat) (e : LogEntry) : option bool :=
  match ts with
  | [] => Some true
  | t :: ts' =>
      if decide (t = ∅) then matchTopics ts' (S i) e
      else if decide (length (topics e) < i)%nat then Some false
      else match topics e !! i with
           | None => None
           | Some x => if decide (x ∈ t) then matchTopics ts' (S i) e else Some false
           end
  end.
Definition matchEntry (f : LogFilter) (e : LogEntry) : option bool :=
  if negb (bool_decide (lf_addresses f = ∅)) && negb (bool_decide (address e ∈ lf_addresses f)) then Some false
  else matchTopics (lf_topics f) 0 e.
Fixpoint matchEntries (f : LogFilter) (es : list LogEntry) : option (list LogEntry) :=
  match es with
  | [] => Some []
  | e :: es' => b ← matchEntry f e; rest ← matchEntries f es'; Some (if b : bool then e :: rest else rest)
  end.

Section Filter.
Context (sha3 : bytes -> bytes).

Definition addressHash (a : Address) : bytes := sha3 (ofArith 20 a).
Definition topicHash (t : h256) : bytes := sha3 (ofArith 32 t).

(** [streamRLP] and [sha3] *)
Definition appendSet (n : nat) (l : list Z) (s : RLPStream.t) : result rlp_error RLPStream.t :=
  RLPStream.appendVector (fun s x => RLPStream.appendHash s (ofArith n x) false false) s l.
Definition filter_streamRLP (f : LogFilter) (s : RLPStream.t) : result rlp_error RLPStream.t :=
  s0 ← RLPStream.appendList s 4;
  s1 ← appendSet 20 (elements (lf_addresses f)) s0;
  s2 ← RLPStream.appendVector (fun s t => appendSet 32 (elements t) s) s1 (lf_topics f);
  s3 ← RLPStream.appendHash s2 (lf_earliest f) false false;
  RLPStream.appendHash s3 (lf_latest f) false false.
Definition filter_sha3 (f : LogFilter) : result rlp_error bytes :=
  s ← filter_streamRLP f RLPStream.empty; o ← RLPStream.out s; Ok (sha3 o).

(** [matches(LogBloom)] *)
Definition matches_bloom (f : LogFilter) (b : bytes) : bool :=
  (bool_decide (lf_addresses f = ∅) || existsb (fun a => containsBloom 3 b (addressHash a)) (elements (lf_addresses f))) &&
  forallb (fun t => bool_decide (t = ∅) || existsb (fun x => containsBloom 3 b (topicHash x)) (elements t)) (lf_topics f).

Definition matches_receipt (f : LogFilter) (r : TransactionReceipt) : option (list LogEntry) :=
  if isRangeFilter f then Some (rc_log r)
  else if matches_bloom f (rc_bloom r) then matchEntries f (rc_log r)
  else Some [].

(** [bloomPossibilities] *)
Definition shiftTopics (b : bytes) (t : gset h256) : bytes := foldl (fun b x => shiftBloom 3 b (topicHash x)) b (elements t).
Definition addressBloom (a : Address) : bytes := shiftBloom 3 (zeroHash 256) (addressHash a).
Definition bloomPossibilities (f : LogFilter) : list bytes :=
  let ts := List.filter (fun t => negb (bool_decide (t = ∅))) (lf_topics f) in
  let as_ := elements (lf_addresses f) in
  let ret := concat (map (fun a => map (shiftTopics (addressBloom a)) ts) as_) in
  let ret := if decide (ret = []) then map addressBloom as_ else ret in
  if decide (as_ = []) then ret ++ map (shiftTopics (zeroHash 256)) ts else ret.

End Filter.

(** ** Numbers and hashes in [ClientBase] *)

Definition numberFromHash (h : bytes) : cm Z :=
  c ← cget;
  if decide (h = PendingBlockHash) then mret (u32 (c_lastBlockNumber c + 1))
  else if decide (h = LatestBlockHash) then mret (c_lastBlockNumber c)
  else if decide (h = EarliestBlockHash) then mret 0
  else getNumber h.
Definition hashFromNumber (n : Z) : cm bytes :=
  c ← cget;
  if n =? PendingBlock then mret (zeroHash 32) else if n =? LatestBlock then mret (c_lastBlockHash c) else getNumberHash n.
Definition compareBlockHashes (h1 h2 : bytes) : cm Z :=
  n1 ← numberFromHash h1; n2 ← numberFromHash h2;
  mret (if n2 <? n1 then 1 else if n1 =? n2 then 0 else -1).
Definition client_isKnown (h : bytes) : cm bool :=
  if decide (h = PendingBlockHash \/ h = LatestBlockHash \/ h = EarliestBlockHash) then mret true else getKnown h true.
Definition client_isKnown_number (n : Z) : cm bool :=
  if (n =? PendingBlock) || (n =? LatestBlock) then mret true else h ← getNumberHash n; mret (negb (bool_decide (h = zeroHash 32))).

(** ** The search *)

Inductive BlockPolarity := PolarityUnknown | Dead | Live.

Record LocalisedLogEntry := mkLocalised {
  le_entry : LogEntry;
  le_blockHash : bytes;
  le_blockNumber : Z;
  le_transactionHash : bytes;
  le_transactionIndex : Z;
  le_logIndex : Z;
  le_polarity : BlockPolarity;
  le_mined : bool;
  le_isSpecial : bool;
  le_special : bytes
}.
(** [LocalisedLogEntry(LogEntry)] *)
Definition unlocalised (e : LogEntry) : LocalisedLogEntry := mkLocalised e (zeroHash 32) 0 (zeroHash 32) 0 0 PolarityUnknown false false (zeroHash 32).

Definition cdefined {A} (o : option A) : cm A := match o with Some a => mret a | None => cthrow ChUndefined end.

(** [std::set<unsigned>::insert] *)
Fixpoint setInsert (n : Z) (l : list Z) : list Z :=
  match l with
  | [] => [n]
  | m :: l' => if n <? m then n :: l else if n =? m then l else m :: setInsert n l'
  end.

Section Logs.
Context (sha3 : bytes -> bytes) (recover : SignatureStruct -> bytes -> option bytes).

(** [transaction(h256, unsigned)] *)
Definition client_transaction (h : bytes) (i : Z) : cm Transaction :=
  b ← getBlock h;
  r ← crlp (RLP.construct b VeryStrict);
  x ← chdr (item_ r 1);
  n ← chdr (items_ x);
  if i <? n then
    d ← chdr (item_ x i);
    match fromRLP sha3 recover d CheckCheap with Ok t => mret t | Throw e => cthrow (ChTransaction (CheckTx e)) end
  else mret nullTransaction.

(** [prependLogsFromBlock]: the logs of one receipt, then of all *)
Definition prependLogs (f : LogFilter) (h : bytes) (polarity : BlockPolarity) (i : Z) (r : TransactionReceipt) (io : list LocalisedLogEntry)
  : cm (list LocalisedLogEntry) :=
  t ← client_transaction h i;
  le ← cdefined (matches_receipt sha3 f r);
  ls ← cfor le (fun e => n ← getNumber h; mret (mkLocalised e h n (tx_sha3 sha3 t) i 0 polarity true false (zeroHash 32)));
  mret (rev ls ++ io).
Fixpoint prependReceipts (f : LogFilter) (h : bytes) (polarity : BlockPolarity) (i : Z) (rs : list TransactionReceipt) (io : list LocalisedLogEntry)
  : cm (list LocalisedLogEntry) :=
  match rs with
  | [] => mret io
  | r :: rs' => io1 ← prependLogs f h polarity i r io; prependReceipts f h polarity (i + 1) rs' io1
  end.
Definition prependLogsFromBlock (f : LogFilter) (polarity : BlockPolarity) (h : bytes) (io : list LocalisedLogEntry) : cm (list LocalisedLogEntry) :=
  br ← getReceipts h; prependReceipts f h polarity 0 (br_receipts br) io.
Fixpoint prependBlocks (f : LogFilter) (polarity : BlockPolarity) (hs : list bytes) (io : list LocalisedLogEntry) : cm (list LocalisedLogEntry) :=
  match hs with [] => mret io | h :: hs' => io1 ← prependLogsFromBlock f polarity h io; prependBlocks f polarity hs' io1 end.

(** The numbers of the blocks of the chain that are looked through, in ascending order *)
Definition matchingBlocks (f : LogFilter) (end_ begin_ : Z) : cm (list Z) :=
  if isRangeFilter f then mret (foldl (fun l n => setInsert n l) [] (seqZ end_ (begin_ - end_ + 1)))
  else
    ls ← cfor (bloomPossibilities sha3 f) (fun b => withBlockBloom b end_ begin_);
    mret (foldl (fun l n => setInsert n l) [] (concat ls)).

(** The logs of the pending block *)
Fixpoint pendingLogs (f : LogFilter) (rs : list TransactionReceipt) (io : list LocalisedLogEntry) : cm (list LocalisedLogEntry) :=
  match rs with
  | [] => mret io
  | r :: rs' => le ← cdefined (matches_receipt sha3 f r); pendingLogs f rs' (rev (map unlocalised le) ++ io)
  end.

(** [logs(LogFilter)]; [pending] is what [postSeal] has *)
Definition client_logs (pending : list TransactionReceipt) (f : LogFilter) : cm (list LocalisedLogEntry) :=
  c ← cget;
  let number := c_lastBlockNumber c in
  nl ← numberFromHash (lf_latest f);
  let begin_ := Z.min (u32 (number + 1)) nl in
  ne ← numberFromHash (lf_earliest f);
  let end_ := Z.min number (Z.min begin_ ne) in
  ret ← (if number <? begin_ then pendingLogs f pending [] else mret []);
  let begin_ := if number <? begin_ then number else begin_ in
  '(blocks, ancestor, i) ← treeRoute (lf_earliest f) (lf_latest f) false true true;
  ret ← prependBlocks f Dead (take (Z.to_nat i) blocks) ret;
  na ← numberFromHash ancestor;
  let end_ := Z.min end_ (u32 (na + 1)) in
  ns ← matchingBlocks f end_ begin_;
  hs ← cfor ns getNumberHash;
  ret ← prependBlocks f Live hs ret;
  mret (rev ret).

End Logs.

(** ** Watches *)

Record InstalledFilter := mkInstalled { if_filter : LogFilter; if_refCount : Z; if_changes : list LocalisedLogEntry }.
(** [lastPoll] is [None] for the greatest time point, which is never updated. *)
Record ClientWatch := mkWatch { cw_id : bytes; cw_changes : list LocalisedLogEntry; cw_lastPoll : option Z }.
Record Watches := mkWatches { w_filters : gmap bytes InstalledFilter; w_watches : gmap Z ClientWatch }.

(** [m_watches.rbegin()->first + 1] *)
Definition nextWatch (m : gmap Z ClientWatch) : Z :=
  match map_to_list m with [] => 0 | kv :: l => u32 (foldl (fun a x => Z.max a x.1) kv.1 l + 1) end.

Definition installWatch_id (h : bytes) (automatic : bool) (now : Z) (w : Watches) : Z * Watches :=
  let ret := nextWatch (w_watches w) in
  (ret, mkWatches (w_filters w) (<[ret := mkWatch h [] (if automatic then Some now else None)]> (w_watches w))).
Definition installWatch (sha3 : bytes -> bytes) (f : LogFilter) (automatic : bool) (now : Z) (w : Watches) : result rlp_error (Z * Watches) :=
  h ← filter_sha3 sha3 f;
  let fs := if decide (is_Some (w_filters w !! h)) then w_filters w else <[h := mkInstalled f 1 []]> (w_filters w) in
  Ok (installWatch_id h automatic now (mkWatches fs (w_watches w))).

Definition uninstallWatch (i : Z) (w : Watches) : bool * Watches :=
  match w_watches w !! i with
  | None => (false, w)
  | Some cw =>
      (true, mkWatches
        match w_filters w !! cw_id cw with
        | None => w_filters w
        | Some fi =>
            let n := u32 (if_refCount fi - 1) in
            if n =? 0 then delete (cw_id cw) (w_filters w)
            else <[cw_id cw := mkInstalled (if_filter fi) n (if_changes fi)]> (w_filters w)
        end (delete i (w_watches w)))
  end.

(** [peekWatch] and [checkWatch]: [None] if there is no such watch *)
Definition polled (now : Z) (cw : ClientWatch) : option Z := match cw_lastPoll cw with Some _ => Some now | None => None end.
Definition peekWatch (i now : Z) (w : Watches) : option (list LocalisedLogEntry * Watches) :=
  cw ← w_watches w !! i;
  Some (cw_changes cw, mkWatches (w_filters w) (<[i := mkWatch (cw_id cw) (cw_changes cw) (polled now cw)]> (w_watches w))).
Definition checkWatch (i now : Z) (w : Watches) : option (list LocalisedLogEntry * Watches) :=
  cw ← w_watches w !! i;
  Some (cw_changes cw, mkWatches (w_filters w) (<[i := mkWatch (cw_id cw) [] (polled now cw)]> (w_watches w))).

(** [logs(unsigned)]: the filter of a watch *)
Definition watchFilter (i : Z) (w : Watches) : option LogFilter :=
  cw ← w_watches w !! i; fi ← w_filters w !! cw_id cw; Some (if_filter fi).
Definition watchLogs (sha3 : bytes -> bytes) (recover : SignatureStruct -> bytes -> option bytes) (pending : list TransactionReceipt) (i : Z) (w : Watches)
  : cm (list LocalisedLogEntry) :=
  match watchFilter i w with None => mret [] | Some f => client_logs sha3 recover pending f end.
