(* ===== verification/LogFilterTheory.v ===== *)
(** * The search for logs misses nothing that a filter asks for

    [wants] says which logs a filter asks for.  Matching a receipt gives exactly these, and
    the blocks that the search looks through include every block whose bloom covers such a
    log, if the filter has at most one topic for each position. *)

From Stdlib Require Import ZArith Lia.
From stdpp Require Import base list list_numbers option gmap.
From S2P Require Import Prelude CommonData RLP FixedHash ExtVMFace State Transaction TrieDBInsert Executive BlockHeader HeaderTheory Elhash BlockQueue BlockDetails BlockDetailsTheory BlockChain ChainOps ChainDBTheory BloomTheory LogFilter.

(** ** Blooms *)

Lemma contains_lub x a b : length x = length a -> contains x a = true -> contains x b = true -> contains x (or_ a b) = true.
Proof.
  unfold contains, eqb, and_, or_. rewrite !bool_decide_eq_true.
  revert a b. induction x as [|v x IH]; intros [|p a] [|q b] Hl Ha Hb; simpl in *; try done.
  injection Ha as Ep Ha. injection Hb as Eq Hb. f_equal; [|apply IH; [lia|done..]]. by rewrite Z.land_lor_distr_r, Ep, Eq.
Qed.
Lemma contains_zero x : contains x (zeroHash (length x)) = true.
Proof.
  unfold contains, eqb, and_. rewrite bool_decide_eq_true. induction x as [|v x IH]; [done|].
  change (Z.land v 0 :: zip_with Z.land x (zeroHash (length x)) = 0 :: zeroHash (length x)). by rewrite Z.land_0_r, IH.
Qed.

Definition part (h : bytes) : bytes := bloomPart 3 256 h.
Lemma length_part h : length (part h) = 256%nat.
Proof. apply bloomPart_length. Qed.
Lemma shift_part b h : length b = 256%nat -> shiftBloom 3 b h = or_ b (part h) /\ length (shiftBloom 3 b h) = 256%nat.
Proof. intros E. unfold shiftBloom, part. rewrite E. split; [done|]. by rewrite length_or by (by rewrite bloomPart_length). Qed.
Lemma containsBloom_part b h : length b = 256%nat -> containsBloom 3 b h = contains b (part h).
Proof. intros E. unfold containsBloom. by rewrite E. Qed.

Section Blooms.
Context (sha3 : bytes -> bytes).

(** The bloom of a log covers its address and its topics. *)
Lemma shifts_cover {A} (hash : A -> bytes) l b : length b = 256%nat ->
  length (foldl (fun b x => shiftBloom 3 b (hash x)) b l) = 256%nat /\
  (forall c, contains b c = true -> contains (foldl (fun b x => shiftBloom 3 b (hash x)) b l) c = true) /\
  (forall x, x ∈ l -> contains (foldl (fun b x => shiftBloom 3 b (hash x)) b l) (part (hash x)) = true) /\
  (forall y, length y = 256%nat -> contains y b = true -> (forall x, x ∈ l -> contains y (part (hash x)) = true) ->
     contains y (foldl (fun b x => shiftBloom 3 b (hash x)) b l) = true).
Proof.
  revert b. induction l as [|x l IH]; intros b Hb; cbn [foldl].
  { split; [done|]. split; [done|]. split; [by intros x ?%elem_of_nil|done]. }
  destruct (shift_part b (hash x) Hb) as [E Hb']. destruct (IH _ Hb') as (H1 & H2 & H3 & H4). split; [done|]. split; [|split].
  - intros c Hc. apply H2. rewrite E. apply contains_or_l; [done|]. by rewrite length_part.
  - intros x' [->|Hx]%elem_of_cons; [|by apply H3]. apply H2. rewrite E. apply contains_or_r. by rewrite length_part.
  - intros y Hy Hyb Hyx. apply H4; [done| |intros x' Hx; apply Hyx; by right]. rewrite E. apply contains_lub; [congruence|done|].
    apply Hyx. by left.
Qed.

Lemma entry_covers e : length (LogEntry_bloom sha3 e) = 256%nat /\ contains (LogEntry_bloom sha3 e) (part (addressHash sha3 (address e))) = true /\
  forall t, t ∈ topics e -> contains (LogEntry_bloom sha3 e) (part (topicHash sha3 t)) = true.
Proof.
  destruct (shift_part (zeroHash 256) (addressHash sha3 (address e)) (length_replicate _ _)) as [E Hl].
  destruct (shifts_cover (topicHash sha3) (topics e) _ Hl) as (H1 & H2 & H3 & _). split; [done|]. split; [|done].
  apply H2. rewrite E. apply contains_or_r. rewrite length_part. apply length_replicate.
Qed.

Lemma bloom_covers log : length (bloom sha3 log) = 256%nat /\ forall e, e ∈ log -> contains (bloom sha3 log) (LogEntry_bloom sha3 e) = true.
Proof.
  unfold bloom. assert (Hb : length (zeroHash 256) = 256%nat) by apply length_replicate. revert Hb. generalize (zeroHash 256).
  assert (Hg : forall b, length b = 256%nat -> length (foldl (fun ret l => or_ ret (LogEntry_bloom sha3 l)) b log) = 256%nat /\
    (forall c, contains b c = true -> contains (foldl (fun ret l => or_ ret (LogEntry_bloom sha3 l)) b log) c = true) /\
    (forall e, e ∈ log -> contains (foldl (fun ret l => or_ ret (LogEntry_bloom sha3 l)) b log) (LogEntry_bloom sha3 e) = true)).
  { induction log as [|e log IH]; intros b Hb; cbn [foldl]; [split; [done|]; split; [done|by intros e ?%elem_of_nil]|].
    destruct (entry_covers e) as [He _]. destruct (IH (or_ b (LogEntry_bloom sha3 e))) as (H1 & H2 & H3); [by rewrite length_or; congruence|].
    split; [done|]. split.
    - intros c Hc. apply H2, contains_or_l; [done|congruence].
    - intros e' [->|He']%elem_of_cons; [|by apply H3]. apply H2, contains_or_r. congruence. }
  intros b Hb. destruct (Hg b Hb) as (H1 & _ & H3). done.
Qed.

(** ** What a filter asks for *)

Definition topicsWanted (ts : list (gset h256)) (i : nat) (e : LogEntry) : Prop :=
  forall k t, ts !! k = Some t -> t = ∅ \/ exists x, topics e !! (i + k)%nat = Some x /\ x ∈ t.
Definition wants (f : LogFilter) (e : LogEntry) : Prop :=
  (lf_addresses f = ∅ \/ address e ∈ lf_addresses f) /\ topicsWanted (lf_topics f) 0 e.

(** The check of the topics reads no topic just past the end of those of [e]. *)
Definition topicsInside (ts : list (gset h256)) (i : nat) (e : LogEntry) : Prop :=
  forall k t, ts !! k = Some t -> t <> ∅ -> length (topics e) <> (i + k)%nat.

Lemma matchTopics_spec ts i e : topicsInside ts i e -> exists b, matchTopics ts i e = Some b /\ (b = true <-> topicsWanted ts i e).
Proof.
  revert i. induction ts as [|t ts IH]; intros i Hin; cbn [matchTopics].
  { exists true. split; [done|]. split; [|done]. by intros _ k t. }
  destruct (IH (S i)) as (b & E & Hb).
  { intros k t' Ht Hne. rewrite Nat.add_succ_comm. apply (Hin (S k) t' Ht Hne). }
  assert (Htail : topicsWanted ts (S i) e <-> forall k t', (t :: ts) !! S k = Some t' -> t' = ∅ \/ exists x, topics e !! (i + S k)%nat = Some x /\ x ∈ t').
  { split; intros H k t' Ht'; specialize (H k t' Ht'); [by rewrite <-Nat.add_succ_comm|by rewrite Nat.add_succ_comm]. }
  destruct (decide (t = ∅)) as [->|Hne].
  - exists b. split; [done|]. rewrite Hb, Htail. split; [|intros H k; apply (H (S k))].
    intros H [|k] t' Ht'; [left; by injection Ht'|by apply H].
  - destruct (decide (length (topics e) < i)%nat) as [Hlt|Hge].
    + exists false. split; [done|]. split; [done|]. intros H. destruct (H 0%nat t eq_refl) as [|(x & Hx & _)]; [done|].
      apply lookup_lt_Some in Hx. lia.
    + destruct (topics e !! i) as [x|] eqn:Ex.
      2:{ exfalso. apply lookup_ge_None in Ex. specialize (Hin 0%nat t eq_refl Hne). lia. }
      destruct (decide (x ∈ t)) as [Hx|Hx].
      * exists b. split; [done|]. rewrite Hb, Htail. split; [|intros H k; apply (H (S k))].
        intros H [|k] t' Ht'; [|by apply H]. injection Ht' as <-. right. exists x. by rewrite Nat.add_0_r.
      * exists false. split; [done|]. split; [done|]. intros H. destruct (H 0%nat t eq_refl) as [|(x' & Hx' & Hin')]; [done|].
        rewrite Nat.add_0_r, Ex in Hx'. by injection Hx' as ->.
Qed.

Lemma matchEntry_spec f e : topicsInside (lf_topics f) 0 e -> exists b, matchEntry f e = Some b /\ (b = true <-> wants f e).
Proof.
  intros Hin. unfold matchEntry, wants. destruct (matchTopics_spec _ 0 e Hin) as (b & E & Hb).
  destruct (decide (lf_addresses f = ∅)) as [Ha|Ha]; [rewrite (bool_decide_true (lf_addresses f = ∅)) by done|rewrite (bool_decide_false (lf_addresses f = ∅)) by done]; cbn [negb andb].
  - exists b. split; [done|]. rewrite Hb. split; [intros; split; [by left|done]|by intros []].
  - destruct (decide (address e ∈ lf_addresses f)) as [Hi|Hi]; [rewrite bool_decide_true by done|rewrite bool_decide_false by done]; cbn [negb].
    + exists b. split; [done|]. rewrite Hb. split; [intros; split; [by right|done]|by intros []].
    + exists false. split; [done|]. split; [done|]. by intros [[?|?] _].
Qed.

Lemma matchEntries_spec f es : Forall (topicsInside (lf_topics f) 0) es -> exists l, matchEntries f es = Some l /\ forall e, e ∈ l <-> e ∈ es /\ wants f e.
Proof.
  induction 1 as [|e es He Hes (l & E & Hl)]; cbn [matchEntries].
  { exists []. split; [done|]. intros e. split; [by intros ?%elem_of_nil|by intros [?%elem_of_nil _]]. }
  destruct (matchEntry_spec f e He) as (b & -> & Hb). rewrite E. cbn. exists (if b then e :: l else l). split; [done|].
  intros e'. destruct b.
  - rewrite !elem_of_cons, Hl. split; [intros [->|[? ?]]; [split; [by left|by apply Hb]|by split; [right|]]|]. intros [[->|?] ?]; [by left|right; done].
  - rewrite elem_of_cons, Hl. split; [intros [? ?]; by split; [right|]|]. intros [[->|?] Hw]; [|done]. by apply Hb in Hw.
Qed.

(** A log that the filter asks for, of a receipt with this bloom *)
Section Wanted.
Context (f : LogFilter) (r : TransactionReceipt) (e : LogEntry) (x : bytes).
Context (Hr : rc_bloom r = bloom sha3 (rc_log r)) (He : e ∈ rc_log r) (Hw : wants f e).
Context (Hx : length x = 256%nat) (Hxr : contains x (rc_bloom r) = true).

Lemma covered_address : contains x (part (addressHash sha3 (address e))) = true.
Proof.
  destruct (bloom_covers (rc_log r)) as [_ Hb]. destruct (entry_covers e) as (_ & Ha & _). rewrite Hr in Hxr.
  eapply contains_trans; [exact Hxr|]. eapply contains_trans; [by apply Hb|done].
Qed.
Lemma covered_topic t : t ∈ topics e -> contains x (part (topicHash sha3 t)) = true.
Proof.
  intros Ht. destruct (bloom_covers (rc_log r)) as [_ Hb]. destruct (entry_covers e) as (_ & _ & Ha). rewrite Hr in Hxr.
  eapply contains_trans; [exact Hxr|]. eapply contains_trans; [by apply Hb|by apply Ha].
Qed.

Lemma wanted_bloom : matches_bloom sha3 f x = true.
Proof.
  destruct Hw as [Ha Ht]. unfold matches_bloom. apply andb_true_iff. split.
  - apply orb_true_iff. destruct Ha as [Ha|Ha]; [left; by apply bool_decide_eq_true|right]. apply existsb_exists. exists (address e).
    split; [by apply list_elem_of_In, elem_of_elements|]. rewrite containsBloom_part by done. apply covered_address.
  - apply forallb_forall. intros t [k Hk]%list_elem_of_In%list_elem_of_lookup. apply orb_true_iff.
    destruct (Ht k t Hk) as [->|(y & Hy & Hyt)]; [left; by apply bool_decide_eq_true|right]. apply existsb_exists. exists y.
    split; [by apply list_elem_of_In, elem_of_elements|]. rewrite containsBloom_part by done. apply covered_topic.
    by eapply list_elem_of_lookup_2.
Qed.

(** At most one topic for each position *)
Definition oneTopic : Prop := forall t, t ∈ lf_topics f -> (size t <= 1)%nat.

Lemma covered_topics t b : oneTopic -> t ∈ lf_topics f -> t <> ∅ -> length b = 256%nat -> contains x b = true -> contains x (shiftTopics sha3 b t) = true.
Proof.
  intros H1 Ht Hne Hb Hxb. destruct (shifts_cover (topicHash sha3) (elements t) b Hb) as (_ & _ & _ & H4). apply H4; [done|done|].
  intros y Hy%elem_of_elements. apply list_elem_of_lookup in Ht as Hk. destruct Hk as [k Hk]. destruct Hw as [_ Hwt].
  destruct (Hwt k t Hk) as [|(z & Hz & Hzt)]; [done|].
  assert (y = z) as ->.
  { specialize (H1 t Ht). destruct (decide (y = z)) as [|Hyz]; [done|].
    assert (Hs : ({[y; z]} : gset h256) ⊆ t) by set_solver. apply subseteq_size in Hs.
    rewrite size_union, !size_singleton in Hs by set_solver. lia. }
  apply covered_topic. by eapply list_elem_of_lookup_2.
Qed.

Lemma wanted_possibility : oneTopic -> isRangeFilter f = false -> exists b, b ∈ bloomPossibilities sha3 f /\ contains x b = true.
Proof.
  intros H1 Hrange. unfold bloomPossibilities. set (ts := List.filter _ _).
  assert (Hts : forall t, t ∈ ts -> t ∈ lf_topics f /\ t <> ∅).
  { intros t [Ht Hne%negb_true_iff%bool_decide_eq_false]%list_elem_of_In%filter_In. by rewrite list_elem_of_In. }
  destruct (shift_part (zeroHash 256) (addressHash sha3 (address e)) (length_replicate _ _)) as [Ea Hal].
  assert (Hz : contains x (zeroHash 256) = true) by (rewrite <-Hx; apply contains_zero).
  assert (Hca : contains x (addressBloom sha3 (address e)) = true).
  { unfold addressBloom. rewrite Ea. apply contains_lub; [done|done|apply covered_address]. }
  destruct (decide (elements (lf_addresses f) = [])) as [Hnil|Hsome].
  - rewrite Hnil. cbn [map concat]. rewrite decide_True by done. cbn [app].
    destruct ts as [|t ts'] eqn:Ets.
    + exfalso. unfold isRangeFilter in Hrange. apply elements_empty_inv in Hnil. apply leibniz_equiv in Hnil.
      rewrite (bool_decide_true (_ = ∅)) in Hrange by done. cbn in Hrange. apply not_true_iff_false in Hrange. apply Hrange.
      apply forallb_forall. intros t Ht. apply bool_decide_eq_true. destruct (decide (t = ∅)) as [|Hne]; [done|].
      assert (Hin : In t ts) by (apply filter_In; split; [done|by apply negb_true_iff, bool_decide_eq_false]). by rewrite Ets in Hin.
    + destruct (Hts t ltac:(by left)) as [Ht Hne]. exists (shiftTopics sha3 (zeroHash 256) t).
      split; [by left|]. by apply covered_topics.
  - assert (Hin : address e ∈ elements (lf_addresses f)).
    { apply elem_of_elements. destruct Hw as [[E|Hin] _]; [|done]. by rewrite E, elements_empty in Hsome. }
    destruct ts as [|t ts'] eqn:Ets.
    + assert (En : concat (map (fun a => map (shiftTopics sha3 (addressBloom sha3 a)) []) (elements (lf_addresses f))) = []).
      { generalize (elements (lf_addresses f)). intros l. by induction l. }
      rewrite En, decide_True by done. exists (addressBloom sha3 (address e)). split; [|done].
      rewrite list_elem_of_In. by apply in_map, list_elem_of_In.
    + destruct (Hts t ltac:(by left)) as [Ht Hne]. set (b := shiftTopics sha3 (addressBloom sha3 (address e)) t).
      assert (Hb : In b (concat (map (fun a => map (shiftTopics sha3 (addressBloom sha3 a)) (t :: ts')) (elements (lf_addresses f))))).
      { apply in_concat. eexists. split; [apply in_map_iff; exists (address e); split; [done|by apply list_elem_of_In]|by left]. }
      exists b. rewrite decide_False by (intros E; by rewrite E in Hb). split; [by apply list_elem_of_In|]. by apply covered_topics.
Qed.
End Wanted.
End Blooms.

(** ** The search *)

Lemma elem_of_setInsert n m l : n ∈ setInsert m l <-> n = m \/ n ∈ l.
Proof.
  induction l as [|k l IH]; cbn [setInsert]; [by rewrite list_elem_of_singleton, elem_of_nil; intuition|].
  destruct (m <? k); [by rewrite !elem_of_cons|]. destruct (Z.eqb_spec m k) as [->|]; rewrite !elem_of_cons; [intuition|]. rewrite IH. intuition.
Qed.
Lemma elem_of_inserted n ms l : n ∈ foldl (fun l n => setInsert n l) l ms <-> n ∈ ms \/ n ∈ l.
Proof.
  revert l. induction ms as [|m ms IH]; intros l; cbn [foldl]; [rewrite elem_of_nil; intuition|].
  rewrite IH, elem_of_setInsert, elem_of_cons. intuition.
Qed.

Lemma reads_cfor_each {A B} (l : list A) (g : A -> cm B) (P : A -> B -> Prop) c :
  (forall x c', x ∈ l -> copies c c' -> exists y, reads (g x) c' (Ok y) /\ P x y) -> exists ys, reads (cfor l g) c (Ok ys) /\ Forall2 P l ys.
Proof.
  revert c. induction l as [|x l IH]; intros c Hg; cbn [cfor]; [exists []; split; [apply reads_ret|done]|].
  destruct (Hg x c ltac:(by left) ltac:(done)) as (y & (c1 & E & H1) & HP). destruct (IH c1) as (ys & (c2 & E2 & H2) & HPs).
  { intros x' c' Hx' Hc'. apply Hg; [by right|]. by etrans. }
  exists (y :: ys). split; [|by constructor]. exists c2. split; [|by etrans]. unfold mbind, cm_bind, mret, cm_ret. by rewrite E, E2.
Qed.

Lemma matchingBlocks_reads sha3 f c end_ begin_ : wfIndex c -> 0 <= end_ <= begin_ -> begin_ < indexBound - 512 ->
  exists ns, reads (matchingBlocks sha3 f end_ begin_) c (Ok ns) /\ forall n, n ∈ ns <->
    (if isRangeFilter f then end_ <= n <= begin_
     else exists b, b ∈ bloomPossibilities sha3 f /\ searched end_ begin_ n /\ contains (bloomOf c 1 (n / 16)) b = true /\ contains (bloomOf c 0 n) b = true).
Proof.
  intros Hwf He Hb. unfold matchingBlocks. destruct (isRangeFilter f).
  { eexists. split; [apply reads_ret|]. intros n. rewrite elem_of_inserted, elem_of_nil, elem_of_seqZ. lia. }
  destruct (reads_cfor_each (bloomPossibilities sha3 f) (fun b => withBlockBloom b end_ begin_) (fun b l => forall n, n ∈ l <->
    searched end_ begin_ n /\ contains (bloomOf c 1 (n / 16)) b = true /\ contains (bloomOf c 0 n) b = true) c) as (ls & Hr & Hls).
  { intros b c' _ Hcc. destruct (withBlockBloom_reads b end_ begin_ c' (copies_index _ _ Hcc Hwf) He Hb) as (l & Hl & Hn).
    exists l. split; [done|]. intros n. by rewrite Hn, !(copies_bloom _ _ _ _ Hcc). }
  eexists. split; [eapply reads_bind; [exact Hr|]; intros; apply reads_ret|]. intros n. rewrite elem_of_inserted, elem_of_nil.
  rewrite list_elem_of_In, in_concat. split.
  - intros [(l & Hl & Hn)|[]]. apply list_elem_of_In, list_elem_of_lookup in Hl as [i Hi]. destruct (Forall2_lookup_r _ _ _ _ _ Hls Hi) as (b & Hbi & Hbl).
    exists b. split; [by eapply list_elem_of_lookup_2|]. by apply Hbl, list_elem_of_In.
  - intros (b & Hb' & Hn). left. apply list_elem_of_lookup in Hb' as [i Hi]. destruct (Forall2_lookup_l _ _ _ _ _ Hls Hi) as (l & Hli & Hbl).
    exists l. split; [by eapply list_elem_of_In, list_elem_of_lookup_2|]. by apply list_elem_of_In, Hbl.
Qed.

(** C32: The search for logs misses nothing: if the block [n] of the range is in the index with a bloom
    that covers the bloom of one of its receipts, a filter with at most one topic for each position
    looks through the block, and matching the receipt gives exactly the logs that the filter asks
    for, unless a log has just one topic too few, where the code reads past the end of its topics. *)
Theorem log_search_complete (sha3 : bytes -> bytes) f c n x r end_ begin_ :
  wfIndex c -> 0 <= end_ <= n -> n <= begin_ < indexBound - 512 -> indexed c n x -> length x = 256%nat ->
  rc_bloom r = bloom sha3 (rc_log r) -> contains x (rc_bloom r) = true -> oneTopic f ->
  Forall (topicsInside (lf_topics f) 0) (rc_log r) -> (exists e, e ∈ rc_log r /\ wants f e) ->
  (exists ns c', matchingBlocks sha3 f end_ begin_ c = (Ok ns, c') /\ copies c c' /\ n ∈ ns) /\
  (exists l, matches_receipt sha3 f r = Some l /\ forall e, e ∈ l <-> e ∈ rc_log r /\ wants f e).
Proof.
  intros Hwf He Hb [H0 H1] Hx Hr Hxr Hone Hin (e & Hel & Hw). split.
  - destruct (matchingBlocks_reads sha3 f c end_ begin_ Hwf ltac:(lia) ltac:(lia)) as (ns & (c' & E & Hcc) & Hns). exists ns, c'.
    split; [done|]. split; [done|]. apply Hns. destruct (isRangeFilter f) eqn:Er; [lia|].
    destruct (wanted_possibility sha3 f r e x Hr Hel Hw Hx Hxr Hone Er) as (b & Hbp & Hbx). exists b. split; [done|].
    split; [left; lia|]. split; eapply contains_trans; eauto.
  - unfold matches_receipt. destruct (isRangeFilter f) eqn:Er.
    + exists (rc_log r). split; [done|]. intros e'. split; [|by intros []]. intros He'. split; [done|].
      unfold isRangeFilter in Er. apply andb_true_iff in Er as [Ea%bool_decide_eq_true Et]. split; [by left|].
      intros k t Hk. left. rewrite forallb_forall in Et. apply (bool_decide_eq_true _), Et, list_elem_of_In. by eapply list_elem_of_lookup_2.
    + assert (Hl : length (rc_bloom r) = 256%nat) by (rewrite Hr; apply bloom_covers).
      rewrite (wanted_bloom sha3 f r e (rc_bloom r) Hr Hel Hw Hl (contains_refl _)). by apply matchEntries_spec.
Qed.

(** ** Examples *)

(** A block with the number 300 and one log of the account 5 with the topic 7 *)
Definition exLog : LogEntry := mkLogEntry 5 [7] [].
Definition exReceipt : TransactionReceipt := newReceipt mixHash 0 21000 [exLog].
Definition exLogFilter : LogFilter := filter_topic 0 7 (filter_address 5 (newFilter EarliestBlockHash LatestBlockHash)).
Definition exLogChain : BlockChain := (addBlooms (seqZ 0 c_bloomIndexLevels) 300 (rc_bloom exReceipt) exEmptyChain).2.

Lemma exLogFilter_list : lf_topics exLogFilter = [{[7]}; ∅; ∅; ∅].
Proof. vm_compute. reflexivity. Qed.
Lemma exLogFilter_topics t : t ∈ lf_topics exLogFilter -> t = {[7]} \/ t = ∅.
Proof. rewrite exLogFilter_list, !elem_of_cons, elem_of_nil. intros [->|[->|[->|[->|[]]]]]; auto. Qed.
Lemma exLog_wanted : wants exLogFilter exLog.
Proof.
  split; [right; vm_compute; reflexivity|]. rewrite exLogFilter_list.
  intros [|[|[|[|k]]]] t E; cbn in E; simplify_eq; [right; exists 7; split; [done|set_solver]|by left..].
Qed.
Lemma exLog_inside : topicsInside (lf_topics exLogFilter) 0 exLog.
Proof. rewrite exLogFilter_list. by intros [|[|[|[|k]]]] t E Hne; cbn in E; simplify_eq. Qed.
Lemma exReceipt_bloom : hashOk 256 (rc_bloom exReceipt).
Proof. split; [decide_closed|vm_compute; reflexivity]. Qed.

Lemma log_search_complete_witness :
  (matchingBlocks mixHash exLogFilter 290 310 exLogChain).1 = Ok [300] /\
  exists l, matches_receipt mixHash exLogFilter exReceipt = Some l /\ exLog ∈ l.
Proof.
  split; [vm_compute; reflexivity|].
  destruct (addBlooms_spec 300 (rc_bloom exReceipt) exEmptyChain exEmptyChain_index ltac:(split; [lia|reflexivity]) exReceipt_bloom)
    as (c' & E & _ & Hw & Hi & _).
  destruct (log_search_complete mixHash exLogFilter c' 300 (rc_bloom exReceipt) exReceipt 290 310) as [_ (l & El & Hl)].
  - exact Hw.
  - lia.
  - split; [lia|reflexivity].
  - exact Hi.
  - vm_compute; reflexivity.
  - reflexivity.
  - apply contains_refl.
  - intros t [-> | ->]%exLogFilter_topics; vm_compute; lia.
  - apply Forall_cons; split; [apply exLog_inside|apply Forall_nil; exact I].
  - exists exLog. split; [left|apply exLog_wanted].
  - exists l. split; [exact El|]. apply Hl. split; [left|apply exLog_wanted].
Defined.

(** With a second topic for the position the block is missed: the possibilities ask for both topics at once. *)
Example two_topics_missed :
  matches_receipt mixHash (filter_topic 0 8 exLogFilter) exReceipt = Some [exLog] /\
  (matchingBlocks mixHash (filter_topic 0 8 exLogFilter) 290 310 exLogChain).1 = Ok [].
Proof. split; vm_compute; reflexivity. Qed.

(** A filter on the second topic reads past the end of a log with one topic. *)
Example one_topic_too_few : matches_receipt mixHash (filter_topic 1 7 (newFilter EarliestBlockHash LatestBlockHash)) exReceipt = None.
Proof. vm_compute. reflexivity. Qed.

(** Two watches on one filter: the filter is gone when the first of them is uninstalled. *)
Example shared_filter_dropped :
  match installWatch mixHash exLogFilter true 0 (mkWatches ∅ ∅) with
  | Ok (a, w1) =>
      match installWatch mixHash exLogFilter true 0 w1 with
      | Ok (b, w2) => watchFilter b w2 = Some exLogFilter /\ watchFilter b (uninstallWatch a w2).2 = None
      | Throw _ => False
      end
  | Throw _ => False
  end.
Proof. vm_compute. split; reflexivity. Qed.
